(** * Percolation clusters on the hypercube: a shallow embedding of
      [src/hypercube_functions.c] and [src/functions.h]. *)

From Stdlib Require Import ZArith QArith Lia.
From stdpp Require Import base list gmap strings.

Local Open Scope Z_scope.

(** ** Machine integers *)

(** [ul] is [unsigned long]: 64 bits, arithmetic modulo [2^64]. *)
Definition ul_modulus : Z := 2 ^ 64.
Definition ULONG_MAX : Z := ul_modulus - 1.
Definition wrap (x : Z) : Z := x mod ul_modulus.

(** ** Outcomes of a run

    [Done] is the normal exit of a function, [Fail] its own error exit
    ([goto error], or [return 0] with the flag set).  [Undef] stands for what
    C leaves undefined (an array read or written outside its bounds, a shift
    by 64 or more, the use of a released buffer).  [Fuel] is the loop bound of
    the model running out. *)
Inductive run (S : Type) : Type :=
| Done (s : S)
| Fail (s : S)
| Undef
| Fuel.
Arguments Done {S} s.
Arguments Fail {S} s.
Arguments Undef {S}.
Arguments Fuel {S}.

(** ** The random source

    [gsl_rng_uniform(RNG)] returns a double in [[0,1)]; every finite double is
    a rational and [<] on doubles is [<] on those rationals.  The global
    generator is the sequence of its variates together with a cursor. *)
Definition Qltb (x y : Q) : bool := (Qnum x * QDen y <? Qnum y * QDen x)%Z.

Definition uniform_range (rng : nat → Q) : Prop :=
  ∀ k, (0 <= rng k)%Q ∧ (rng k < 1)%Q.

(** ** The bounded stack

    The struct is the one of [functions.h]. *)
Record stack : Type := mk_stack {
  stack_sites : list Z;
  stack_length : Z;
  stack_top : Z;
  stack_NH : Z
}.

(** Modelled from the spec: [setup_stack], [push] and [pop] are declared in
    [functions.h] and defined outside the two source files.  Capacity is
    fixed at creation to the graph order; [push] fails (returns 1) if the
    capacity is exceeded; [pop] fails (flag [-1]) if the stack is empty. *)
Definition setup_stack (NH : Z) : stack :=
  {| stack_sites := replicate (Z.to_nat NH) 0;
     stack_length := NH;
     stack_top := 0;
     stack_NH := NH |}.

Definition push (s : stack) (site : Z) : stack * Z :=
  if stack_top s <? stack_length s then
    ({| stack_sites := <[Z.to_nat (stack_top s) := site]> (stack_sites s);
        stack_length := stack_length s;
        stack_top := stack_top s + 1;
        stack_NH := stack_NH s |}, 0)
  else (s, 1).

Definition pop (s : stack) (error : Z) : Z * stack * Z :=
  if stack_top s =? 0 then (0, s, -1)
  else (stack_sites s !!! Z.to_nat (stack_top s - 1),
        {| stack_sites := stack_sites s;
           stack_length := stack_length s;
           stack_top := stack_top s - 1;
           stack_NH := stack_NH s |},
        error).

(** Modelled from the spec: [reset_visited] (declared in [functions.h]) sets
    every entry to false. *)
Definition reset_visited (visited : list bool) (length : Z) : list bool :=
  replicate (Z.to_nat length) false.

(** Modelled from the spec: [intpower] and [check_args] (declared in
    [functions.h]).  [check_args] rejects an [N] for which [2^N] overflows, a
    realization count that is not positive and a [p] outside [[0,1]]. *)
Definition intpower (base exponent : Z) : Z := wrap (base ^ exponent).

Definition check_args (N NR : Z) (p : Q) : bool :=
  (0 <=? N) && (N <? 64) && (0 <? NR) && negb (Qltb p 0) && negb (Qltb 1 p).

Definition stack_not_empty : string :=
  "Error in DFS algorithm! Stack not empty.".

(** ** DFS_hypercube *)

(** What [DFS_hypercube] reads and writes: the stack, the visited array, the
    caller's error flag, the message of the Python exception set by
    [PyErr_SetString] (if any), the cursor of the random source and the local
    [size]. *)
Record dfs_state : Type := mk_dfs {
  dfs_stack : stack;
  dfs_visited : list bool;
  dfs_error : Z;
  dfs_pyerr : option string;
  dfs_pos : nat;
  dfs_size : Z
}.

Section DFS.
Variable rng : nat → Q.
Variable p : Q.
Variable N : Z.

(** The loop [for (ul i = 0; i < N; i++)] of lines 811-824, with [k]
    iterations left. *)
Fixpoint DFS_neighbours (k : nat) (i : Z) (u : Z) (st : dfs_state)
    : run dfs_state :=
  match k with
  | O => Done st
  | S k' =>
      if 64 <=? i then Undef else
      let v := Z.lxor u (Z.shiftl 1 i) in
      match dfs_visited st !! Z.to_nat v with
      | None => Undef
      | Some true => DFS_neighbours k' (i + 1) u st
      | Some false =>
          let x := rng (dfs_pos st) in
          let st1 := mk_dfs (dfs_stack st) (dfs_visited st) (dfs_error st)
                       (dfs_pyerr st) (S (dfs_pos st)) (dfs_size st) in
          if Qltb x p then
            let '(s', r) := push (dfs_stack st1) v in
            if r =? 1 then
              Fail (mk_dfs s' (dfs_visited st1) (-1) (dfs_pyerr st1)
                      (dfs_pos st1) (dfs_size st1))
            else
              DFS_neighbours k' (i + 1) u
                (mk_dfs s' (dfs_visited st1) (dfs_error st1)
                   (dfs_pyerr st1) (dfs_pos st1) (dfs_size st1))
          else DFS_neighbours k' (i + 1) u st1
      end
  end.

(** One pass through the body of [while (s->top > 0)], lines 797-824. *)
Definition DFS_body (st : dfs_state) : run dfs_state :=
  let '(u, s', e') := pop (dfs_stack st) (dfs_error st) in
  let st1 := mk_dfs s' (dfs_visited st) e' (dfs_pyerr st)
               (dfs_pos st) (dfs_size st) in
  if e' =? -1 then Fail st1 else
  match dfs_visited st1 !! Z.to_nat u with
  | None => Undef
  | Some true => Done st1
  | Some false =>
      DFS_neighbours (Z.to_nat N) 0 u
        (mk_dfs s' (<[Z.to_nat u := true]> (dfs_visited st1))
           e' (dfs_pyerr st1) (dfs_pos st1) (wrap (dfs_size st1 + 1)))
  end.

(** The loop [while (s->top > 0)] of lines 794-825. *)
Fixpoint DFS_loop (fuel : nat) (st : dfs_state) : run dfs_state :=
  match fuel with
  | O => Fuel
  | S fuel' =>
      if 0 <? stack_top (dfs_stack st) then
        match DFS_body st with
        | Done st' => DFS_loop fuel' st'
        | r => r
        end
      else Done st
  end.

(** Enough iterations for the loop from any state: a pop of a visited site
    shrinks the stack by one, a pop of an unvisited one grows it by at most
    [N - 1] and marks one more site. *)
Definition DFS_fuel (st : dfs_state) : nat :=
  S (Z.to_nat (stack_top (dfs_stack st))
     + S (Z.to_nat N) * base.length (dfs_visited st)).

(** [DFS_hypercube(s, visited, p, N, start_state, error)]: the returned
    value is [dfs_size] of the final state on [Done], and 0 on [Fail]. *)
Definition DFS_hypercube (s : stack) (visited : list bool)
    (start_state : Z) (error : Z) (pyerr : option string) (pos : nat)
    : run dfs_state :=
  if negb (stack_top s =? 0) then
    Fail (mk_dfs s visited (-1) (Some stack_not_empty) pos 0)
  else
    let '(s1, _) := push s start_state in
    let st := mk_dfs s1 visited error pyerr pos 0 in
    DFS_loop (DFS_fuel st) st.

Definition DFS_result (r : run dfs_state) : option Z :=
  match r with
  | Done st => Some (dfs_size st)
  | Fail _ => Some 0
  | _ => None
  end.
End DFS.


(** ** Adjacency matrices

    A two-dimensional NumPy array of C ints, addressed only through
    [PyArray_GETPTR2(a, i, j)].  [PyArray_ZEROS] gives the all-zero array; a
    cell absent from the map holds 0. *)
Record ndarray : Type := mk_ndarray {
  nd_rows : Z;
  nd_cols : Z;
  nd_cells : gmap (Z * Z) Z
}.

Definition PyArray_ZEROS (rows cols : Z) : ndarray := mk_ndarray rows cols ∅.

Definition nd_in_range (a : ndarray) (i j : Z) : bool :=
  (0 <=? i) && (i <? nd_rows a) && (0 <=? j) && (j <? nd_cols a).

Definition nd_get (a : ndarray) (i j : Z) : Z := default 0 (nd_cells a !! (i, j)).

Definition nd_set (a : ndarray) (i j x : Z) : ndarray :=
  mk_ndarray (nd_rows a) (nd_cols a) (<[(i, j) := x]> (nd_cells a)).

Definition connected : Z := 1.
Definition disconnected : Z := 0.

(** [labels[u] = cluster_index] under [if (labels)]: [None] is the NULL
    pointer; the outer [None] of the result is a write outside the array. *)
Definition write_label (labels : option (list Z)) (u cluster_index : Z)
    : option (option (list Z)) :=
  match labels with
  | None => Some None
  | Some l =>
      if (Z.to_nat u <? base.length l)%nat
      then Some (Some (<[Z.to_nat u := cluster_index]> l))
      else None
  end.

(** ** grow_H_cluster *)

Record grow_state : Type := mk_grow {
  g_stack : stack;
  g_visited : list bool;
  g_matrix : ndarray;
  g_labels : option (list Z);
  g_error_flag : Z;
  g_pyerr : option string;
  g_pos : nat;
  g_size : Z
}.

Section Grow.
Variable rng : nat → Q.
Variable p : Q.
Variable N : Z.

(** One pass through the body of [for (ul i = 0; i < N; i++)], lines
    351-372. *)
Definition grow_edge (i : Z) (u : Z) (st : grow_state) : run grow_state :=
  if 64 <=? i then Undef else
  let v := Z.lxor u (Z.shiftl 1 i) in
  match g_visited st !! Z.to_nat v with
  | None => Undef
  | Some true => Done st
  | Some false =>
      if negb (nd_in_range (g_matrix st) u v && nd_in_range (g_matrix st) v u)
      then Undef else
      let x := rng (g_pos st) in
      if Qltb x p then
        let '(s', r) := push (g_stack st) v in
        if r =? 1 then
          Fail (mk_grow s' (g_visited st) (g_matrix st) (g_labels st)
                  (g_error_flag st) (g_pyerr st) (S (g_pos st)) (g_size st))
        else
          Done (mk_grow s' (g_visited st)
                  (nd_set (nd_set (g_matrix st) u v connected) v u connected)
                  (g_labels st) (g_error_flag st) (g_pyerr st)
                  (S (g_pos st)) (g_size st))
      else
        Done (mk_grow (g_stack st) (g_visited st)
                (nd_set (nd_set (g_matrix st) u v disconnected) v u disconnected)
                (g_labels st) (g_error_flag st) (g_pyerr st)
                (S (g_pos st)) (g_size st))
  end.

(** Lines 349-373, with [k] iterations left. *)
Fixpoint grow_neighbours (k : nat) (i : Z) (u : Z) (st : grow_state)
    : run grow_state :=
  match k with
  | O => Done st
  | S k' =>
      match grow_edge i u st with
      | Done st' => grow_neighbours k' (i + 1) u st'
      | r => r
      end
  end.

(** One pass through the body of [while (s->top > 0)], lines 335-373. *)
Definition grow_body (cluster_index : Z) (st : grow_state) : run grow_state :=
  let '(u, s', e') := pop (g_stack st) (g_error_flag st) in
  let st1 := mk_grow s' (g_visited st) (g_matrix st) (g_labels st) e'
               (g_pyerr st) (g_pos st) (g_size st) in
  if e' =? -1 then Fail st1 else
  match g_visited st1 !! Z.to_nat u with
  | None => Undef
  | Some true => Done st1
  | Some false =>
      match write_label (g_labels st1) u cluster_index with
      | None => Undef
      | Some labels' =>
          grow_neighbours (Z.to_nat N) 0 u
            (mk_grow s' (<[Z.to_nat u := true]> (g_visited st1))
               (g_matrix st1) labels' e' (g_pyerr st1) (g_pos st1)
               (wrap (g_size st1 + 1)))
      end
  end.

(** Lines 332-374. *)
Fixpoint grow_loop (cluster_index : Z) (fuel : nat) (st : grow_state)
    : run grow_state :=
  match fuel with
  | O => Fuel
  | S fuel' =>
      if 0 <? stack_top (g_stack st) then
        match grow_body cluster_index st with
        | Done st' => grow_loop cluster_index fuel' st'
        | r => r
        end
      else Done st
  end.

Definition grow_fuel (st : grow_state) : nat :=
  S (Z.to_nat (stack_top (g_stack st))
     + S (Z.to_nat N) * base.length (g_visited st)).

(** [grow_H_cluster(N, p, size, s, start_state, numpy_array, visited,
    error_flag, cluster_index, labels)].  On [Fail] the code at the label
    [error] has released the matrix, the stack and [visited]; the state
    given is the one that reaches the label. *)
Definition grow_H_cluster (st : grow_state) (start_state cluster_index : Z)
    : run grow_state :=
  if negb (stack_top (g_stack st) =? 0) then
    Fail (mk_grow (g_stack st) (g_visited st) (g_matrix st) (g_labels st)
            (g_error_flag st) (Some stack_not_empty) (g_pos st) (g_size st))
  else
    let '(s1, _) := push (g_stack st) start_state in
    let st1 := mk_grow s1 (g_visited st) (g_matrix st) (g_labels st)
                 (g_error_flag st) (g_pyerr st) (g_pos st) (g_size st) in
    grow_loop cluster_index (grow_fuel st1) st1.
End Grow.

(** ** The bounded queue

    The struct is the one of [functions.h]. *)
Record queue : Type := mk_queue {
  queue_sites : list Z;
  queue_writeIdx : Z;
  queue_readIdx : Z;
  queue_length : Z
}.

(** Modelled from the spec: [setup_queue], [enqueue], [dequeue] and [empty]
    are declared in [functions.h] and defined outside the two source files.
    A fixed circular buffer with a read and a write cursor; the cursors count
    the items read and written, and a cursor addresses the slot of its value
    modulo the capacity.  [enqueue] fails (flag [-1]) if the capacity is
    exceeded, [dequeue] fails if the queue is empty. *)
Definition setup_queue (length : Z) : queue :=
  {| queue_sites := replicate (Z.to_nat length) 0;
     queue_writeIdx := 0;
     queue_readIdx := 0;
     queue_length := length |}.

Definition empty (q : queue) : bool := queue_readIdx q =? queue_writeIdx q.

Definition enqueue (q : queue) (item : Z) (err : Z) : queue * Z :=
  if queue_writeIdx q - queue_readIdx q <? queue_length q then
    ({| queue_sites :=
          <[Z.to_nat (queue_writeIdx q mod queue_length q) := item]> (queue_sites q);
        queue_writeIdx := queue_writeIdx q + 1;
        queue_readIdx := queue_readIdx q;
        queue_length := queue_length q |}, err)
  else (q, -1).

Definition dequeue (q : queue) (err : Z) : Z * queue * Z :=
  if empty q then (0, q, -1)
  else (queue_sites q !!! Z.to_nat (queue_readIdx q mod queue_length q),
        {| queue_sites := queue_sites q;
           queue_writeIdx := queue_writeIdx q;
           queue_readIdx := queue_readIdx q + 1;
           queue_length := queue_length q |},
        err).

(** ** dijkstra *)

Record dij_state : Type := mk_dij {
  dj_queue : queue;
  dj_visited : list bool;
  dj_distances : list Z;
  dj_number_visited : Z;
  dj_labels : option (list Z);
  dj_err : Z;
  dj_pos : nat
}.

Section Dijkstra.
Variable rng : nat → Q.
Variable p : Q.
Variable N : Z.

(** One pass through the body of [for (ul i = 0; i < N; i++)], lines
    53-67. *)
Definition dijkstra_edge (i : Z) (u : Z) (st : dij_state) : run dij_state :=
  if 64 <=? i then Undef else
  let v := Z.lxor u (Z.shiftl 1 i) in
  match dj_visited st !! Z.to_nat v with
  | None => Undef
  | Some true => Done st
  | Some false =>
      let x := rng (dj_pos st) in
      let st1 := mk_dij (dj_queue st) (dj_visited st) (dj_distances st)
                   (dj_number_visited st) (dj_labels st) (dj_err st)
                   (S (dj_pos st)) in
      if Qltb x p then
        match dj_distances st1 !! Z.to_nat v, dj_distances st1 !! Z.to_nat u with
        | Some old_cost, Some du =>
            let new_cost := wrap (du + 1) in
            if new_cost <? old_cost then
              let '(q', err') := enqueue (dj_queue st1) v (dj_err st1) in
              if negb (err' =? 0) then
                Fail (mk_dij q' (dj_visited st1) (dj_distances st1)
                        (dj_number_visited st1) (dj_labels st1) err'
                        (dj_pos st1))
              else
                Done (mk_dij q' (dj_visited st1)
                        (<[Z.to_nat v := new_cost]> (dj_distances st1))
                        (dj_number_visited st1) (dj_labels st1) err'
                        (dj_pos st1))
            else Done st1
        | _, _ => Undef
        end
      else Done st1
  end.

(** Lines 51-68, with [k] iterations left. *)
Fixpoint dijkstra_neighbours (k : nat) (i : Z) (u : Z) (st : dij_state)
    : run dij_state :=
  match k with
  | O => Done st
  | S k' =>
      match dijkstra_edge i u st with
      | Done st' => dijkstra_neighbours k' (i + 1) u st'
      | r => r
      end
  end.

(** One pass through the body of [while(!empty(q))], lines 39-68. *)
Definition dijkstra_body (cluster_index : Z) (st : dij_state) : run dij_state :=
  let '(u, q', err') := dequeue (dj_queue st) (dj_err st) in
  let st1 := mk_dij q' (dj_visited st) (dj_distances st)
               (dj_number_visited st) (dj_labels st) err' (dj_pos st) in
  if negb (err' =? 0) then Fail st1 else
  match dj_distances st1 !! Z.to_nat u with
  | None => Undef
  | Some dist =>
      if negb (Z.to_nat u <? base.length (dj_visited st1))%nat then Undef else
      match write_label (dj_labels st1) u cluster_index with
      | None => Undef
      | Some labels' =>
          dijkstra_neighbours (Z.to_nat N) 0 u
            (mk_dij q' (<[Z.to_nat u := true]> (dj_visited st1))
               (dj_distances st1) (wrap (dj_number_visited st1 + 1))
               labels' err' (dj_pos st1))
      end
  end.

(** Lines 37-69. *)
Fixpoint dijkstra_loop (cluster_index : Z) (fuel : nat) (st : dij_state)
    : run dij_state :=
  match fuel with
  | O => Fuel
  | S fuel' =>
      if negb (empty (dj_queue st)) then
        match dijkstra_body cluster_index st with
        | Done st' => dijkstra_loop cluster_index fuel' st'
        | r => r
        end
      else Done st
  end.

Definition dijkstra_fuel (st : dij_state) : nat :=
  S (Z.to_nat (queue_writeIdx (dj_queue st) - queue_readIdx (dj_queue st))
     + base.length (dj_visited st)).

(** [dijkstra(q, N, p, start_site, visited, distances, number_visited,
    cluster_index, labels)]; [err] is its local flag, 0 on entry, and the
    flag of the first [enqueue] is not looked at before the loop.  On
    [Fail] the code at the label [error] has released the distances, the
    queue and [visited]. *)
Definition dijkstra (st : dij_state) (start_site cluster_index : Z)
    : run dij_state :=
  let '(q1, err1) := enqueue (dj_queue st) start_site 0 in
  let st1 := mk_dij q1 (dj_visited st) (dj_distances st)
               (dj_number_visited st) (dj_labels st) err1 (dj_pos st) in
  dijkstra_loop cluster_index (dijkstra_fuel st1) st1.
End Dijkstra.

(** ** The enumeration of clusters

    The loops of lines 149-168 ([hypercube_dijkstra_LC]) and 456-474
    ([hypercube_H_LC]) are the same text around two engines; [grow_one] is
    the engine call together with the statements before it, and returns the
    buffers and [cluster_size].  Neither driver looks at the outcome of its
    engine: after the engine's error exit the loop goes on with released
    buffers, which is [Undef].  With [early_exit = false] the [break] is left
    out: that loop is the exhaustive enumeration the drivers are compared
    with. *)
Record lc_counters : Type := mk_lc {
  largest_cluster_index : Z;
  largest_cluster_size : Z;
  cluster_index : Z;
  total_size : Z
}.

Definition lc_start : lc_counters := mk_lc 0 0 0 0.

Section Enumerate.
Context {E : Type}.
Variable visited_of : E → list bool.
Variable grow_one : Z → Z → E → run (E * Z).
Variable NH : Z.
Variable early_exit : bool.

Definition lc_update (c : lc_counters) (cluster_size : Z) : lc_counters :=
  let total := wrap (total_size c + cluster_size) in
  if largest_cluster_size c <? cluster_size then
    mk_lc (cluster_index c) cluster_size (wrap (cluster_index c + 1)) total
  else
    mk_lc (largest_cluster_index c) (largest_cluster_size c)
      (wrap (cluster_index c + 1)) total.

Definition lc_exit (c : lc_counters) : bool :=
  wrap (NH - total_size c) <=? largest_cluster_size c.

Fixpoint enumerate (k : nat) (site : Z) (e : E) (c : lc_counters)
    : run (E * lc_counters) :=
  match k with
  | O => Done (e, c)
  | S k' =>
      match visited_of e !! Z.to_nat site with
      | None => Undef
      | Some true => enumerate k' (site + 1) e c
      | Some false =>
          match grow_one site (cluster_index c) e with
          | Done (e', cluster_size) =>
              let c' := lc_update c cluster_size in
              if early_exit && lc_exit c' then Done (e', c')
              else enumerate k' (site + 1) e' c'
          | Fail _ => Undef
          | Undef => Undef
          | Fuel => Fuel
          end
      end
  end.
End Enumerate.

(** ** hypercube_dijkstra and hypercube_dijkstra_LC

    A top-level function gives [Done (Some r)] when it returns the object
    [r], [Done None] when it returns NULL.  Allocation is taken to succeed.

    When [check_args] rejects the arguments every top-level function jumps
    to its label [error:] over the initialisers of the pointers that the
    label tests and releases (lines 103, 229, 411, 552, 632 and 705): the
    pointers are read while indeterminate, which is [Undef]. *)

Definition dij_init (NH : Z) (labels : option (list Z)) : dij_state :=
  mk_dij (setup_queue NH) (reset_visited [] NH)
    (replicate (Z.to_nat NH) ULONG_MAX) 0 labels 0 0%nat.

(** The copy loops of lines 177-184 and 272-279: [keep i] is the test of the
    [if]; [out] is the new array, [counter] its cursor. *)
Fixpoint copy_distances (keep : Z → bool) (distances : list Z)
    (k : nat) (i : Z) (out : list Z) (counter : Z) : option (list Z) :=
  match k with
  | O => Some out
  | S k' =>
      if keep i then
        match distances !! Z.to_nat i with
        | Some d =>
            if (Z.to_nat counter <? base.length out)%nat then
              copy_distances keep distances k' (i + 1)
                (<[Z.to_nat counter := d]> out) (wrap (counter + 1))
            else None
        | None => None
        end
      else copy_distances keep distances k' (i + 1) out counter
  end.

Definition lift_copy {A : Type} (o : option A) : run (option A) :=
  match o with
  | Some x => Done (Some x)
  | None => Undef
  end.

(** Lines 232-260 of [hypercube_dijkstra]: the buffers handed to [dijkstra],
    with [number_visited = 0], [start_site = 0] and [distances[start_site] =
    0]. *)
Definition dijkstra_start (N : Z) : dij_state :=
  let NH := intpower 2 N in
  let st := dij_init NH None in
  mk_dij (dj_queue st) (dj_visited st)
    (<[Z.to_nat 0 := 0]> (dj_distances st)) 0 None 0 0%nat.

(** [labels[i]]. *)
Definition label_at (labels : option (list Z)) (i : nat) : option Z :=
  match labels with
  | Some l => l !! i
  | None => None
  end.

(** The test [labels[i] == largest_cluster_index] of the copy loops. *)
Definition label_is (labels : option (list Z)) (L : Z) (i : Z) : bool :=
  match label_at labels (Z.to_nat i) with
  | Some x => x =? L
  | None => false
  end.

Section Drivers.
Variable rng : nat → Q.
Variable p : Q.
Variable N : Z.

(** Lines 258-262: the state when [dijkstra] returns. *)
Definition hypercube_dijkstra_run : run dij_state :=
  dijkstra rng p N (dijkstra_start N) 0 0.

Definition hypercube_dijkstra : run (option (list Z)) :=
  if negb (check_args N 1 p) then Undef else
  let NH := intpower 2 N in
  match hypercube_dijkstra_run with
  | Done st =>
      lift_copy
        (copy_distances (λ i, default false (dj_visited st !! Z.to_nat i))
           (dj_distances st) (Z.to_nat NH) 0
           (replicate (Z.to_nat (dj_number_visited st)) 0) 0)
  | Fail _ => Undef
  | Undef => Undef
  | Fuel => Fuel
  end.

(** Lines 153-155: one cluster of [hypercube_dijkstra_LC]. *)
Definition dijkstra_one (site cluster_index : Z) (st : dij_state)
    : run (dij_state * Z) :=
  if negb (Z.to_nat site <? base.length (dj_distances st))%nat then Undef else
  let st0 := mk_dij (dj_queue st) (dj_visited st)
               (<[Z.to_nat site := 0]> (dj_distances st)) 0 (dj_labels st)
               0 (dj_pos st) in
  match dijkstra rng p N st0 site cluster_index with
  | Done st' => Done (st', dj_number_visited st')
  | Fail st' => Fail (st', dj_number_visited st')
  | Undef => Undef
  | Fuel => Fuel
  end.

(** Lines 106-168: the state after the enumeration. *)
Definition dijkstra_LC_enumerate (early_exit : bool)
    : run (dij_state * lc_counters) :=
  let NH := intpower 2 N in
  let st := dij_init NH (Some (replicate (Z.to_nat NH) ULONG_MAX)) in
  enumerate dj_visited dijkstra_one NH early_exit (Z.to_nat NH) 0 st lc_start.


Definition dijkstra_LC_copy (r : dij_state * lc_counters) : option (list Z) :=
  let NH := intpower 2 N in
  let '(st, c) := r in
  copy_distances (label_is (dj_labels st) (largest_cluster_index c))
    (dj_distances st) (Z.to_nat NH) 0
    (replicate (Z.to_nat (largest_cluster_size c)) 0) 0.

Definition dijkstra_LC_with (early_exit : bool) : run (option (list Z)) :=
  if negb (check_args N 1 p) then Undef else
  match dijkstra_LC_enumerate early_exit with
  | Done r => lift_copy (dijkstra_LC_copy r)
  | Fail _ => Undef
  | Undef => Undef
  | Fuel => Fuel
  end.

Definition hypercube_dijkstra_LC : run (option (list Z)) := dijkstra_LC_with true.

(** The reference of the comparison: the same function without the
    [break]. *)
Definition dijkstra_LC_exhaustive : run (option (list Z)) := dijkstra_LC_with false.

(** ** hypercube_H_SC and hypercube_H_LC *)

Definition grow_init (NH : Z) (labels : option (list Z)) : grow_state :=
  mk_grow (setup_stack NH) (reset_visited [] NH) (PyArray_ZEROS NH NH) labels
    0 None 0%nat 0.

(** Lines 554-590.  The outcome of [grow_H_cluster] is not looked at: after
    its error exit the matrix put in the tuple has been released. *)
Definition hypercube_H_SC : run (option (ndarray * Z)) :=
  if negb (check_args N 1 p) then Undef else
  let NH := intpower 2 N in
  match grow_H_cluster rng p N (grow_init NH None) 0 0 with
  | Done st => Done (Some (g_matrix st, g_size st))
  | Fail _ => Undef
  | Undef => Undef
  | Fuel => Fuel
  end.

(** Lines 461-462: one cluster of [hypercube_H_LC]. *)
Definition grow_one_H (site cluster_index : Z) (st : grow_state)
    : run (grow_state * Z) :=
  let st0 := mk_grow (g_stack st) (g_visited st) (g_matrix st) (g_labels st)
               (g_error_flag st) (g_pyerr st) (g_pos st) 0 in
  match grow_H_cluster rng p N st0 site cluster_index with
  | Done st' => Done (st', g_size st')
  | Fail st' => Fail (st', g_size st')
  | Undef => Undef
  | Fuel => Fuel
  end.

Definition H_LC_enumerate (early_exit : bool) : run (grow_state * lc_counters) :=
  let NH := intpower 2 N in
  let st := grow_init NH (Some (replicate (Z.to_nat NH) ULONG_MAX)) in
  enumerate g_visited grow_one_H NH early_exit (Z.to_nat NH) 0 st lc_start.

(** Lines 488-496: the loop over the [int k].  The cell read from
    [hamiltonian] is written back to [hamiltonian] and to the transposed
    cell of [hamiltonian_LC]; [k++] at [INT_MAX] is undefined. *)
Fixpoint copy_row (n : nat) (k : Z) (i : Z) (h lc : ndarray)
    : option (ndarray * ndarray) :=
  match n with
  | O => Some (h, lc)
  | S n' =>
      if 2 ^ 31 - 1 <=? k then None else
      if nd_in_range h i k && nd_in_range lc k i then
        let x := nd_get h i k in
        copy_row n' (k + 1) i (nd_set h i k x) (nd_set lc k i x)
      else None
  end.

(** Lines 484-499. *)
Fixpoint copy_cluster (NH : Z) (keep : Z → bool) (n : nat) (i : Z)
    (h lc : ndarray) : option (ndarray * ndarray) :=
  match n with
  | O => Some (h, lc)
  | S n' =>
      if keep i then
        match copy_row (Z.to_nat NH) 0 i h lc with
        | Some (h', lc') => copy_cluster NH keep n' (i + 1) h' lc'
        | None => None
        end
      else copy_cluster NH keep n' (i + 1) h lc
  end.

Definition H_LC_copy (r : grow_state * lc_counters) : option (ndarray * Z) :=
  let NH := intpower 2 N in
  let '(st, c) := r in
  match copy_cluster NH (label_is (g_labels st) (largest_cluster_index c))
          (Z.to_nat NH) 0 (g_matrix st) (PyArray_ZEROS NH NH) with
  | Some (_, lc) => Some (lc, largest_cluster_size c)
  | None => None
  end.

Definition H_LC_with (early_exit : bool) : run (option (ndarray * Z)) :=
  if negb (check_args N 1 p) then Undef else
  match H_LC_enumerate early_exit with
  | Done r => lift_copy (H_LC_copy r)
  | Fail _ => Undef
  | Undef => Undef
  | Fuel => Fuel
  end.

Definition hypercube_H_LC : run (option (ndarray * Z)) := H_LC_with true.

(** The reference of the comparison: the same function without the
    [break]. *)
Definition H_LC_exhaustive : run (option (ndarray * Z)) := H_LC_with false.

(** ** hypercube_H *)

(** Lines 651-672: the loop over the bits of one row. *)
Fixpoint H_row (k : nat) (i : Z) (row : Z) (a : ndarray) (pos : nat)
    : option (ndarray * nat) :=
  match k with
  | O => Some (a, pos)
  | S k' =>
      if 64 <=? i then None else
      let col := Z.lxor row (Z.shiftl 1 i) in
      if nd_in_range a row col && nd_in_range a col row then
        let x := if Qltb (rng pos) p then connected else disconnected in
        H_row k' (i + 1) row (nd_set (nd_set a row col x) col row x) (S pos)
      else None
  end.

(** Lines 649-673. *)
Fixpoint H_rows (n : nat) (row : Z) (a : ndarray) (pos : nat)
    : option (ndarray * nat) :=
  match n with
  | O => Some (a, pos)
  | S n' =>
      match H_row (Z.to_nat N) 0 row a pos with
      | Some (a', pos') => H_rows n' (row + 1) a' pos'
      | None => None
      end
  end.

Definition hypercube_H : run (option ndarray) :=
  if negb (check_args N 1 p) then Undef else
  let NH := intpower 2 N in
  match H_rows (Z.to_nat NH) 0 (PyArray_ZEROS NH NH) 0%nat with
  | Some (a, _) => Done (Some a)
  | None => Undef
  end.

(** ** hypercube_clusters *)

(** Lines 734-745: [n] realisations left; [sizes] is the array filled so
    far.  On [Fail] the function returns NULL. *)
Fixpoint clusters_loop (NH : Z) (n : nat) (s : stack) (visited : list bool)
    (error_flag : Z) (pyerr : option string) (pos : nat) (sizes : list Z)
    : run (list Z * dfs_state) :=
  match n with
  | O => Done (sizes, mk_dfs s visited error_flag pyerr pos 0)
  | S n' =>
      let visited0 := reset_visited visited NH in
      match DFS_hypercube rng p N s visited0 0 error_flag pyerr pos with
      | Done st =>
          if dfs_error st =? -1 then Fail (sizes ++ [dfs_size st], st)
          else clusters_loop NH n' (dfs_stack st) (dfs_visited st)
                 (dfs_error st) (dfs_pyerr st) (dfs_pos st)
                 (sizes ++ [dfs_size st])
      | Fail st =>
          if dfs_error st =? -1 then Fail (sizes ++ [0], st)
          else clusters_loop NH n' (dfs_stack st) (dfs_visited st)
                 (dfs_error st) (dfs_pyerr st) (dfs_pos st) (sizes ++ [0])
      | Undef => Undef
      | Fuel => Fuel
      end
  end.

Definition hypercube_clusters (NR : Z) : run (option (list Z)) :=
  if negb (check_args N (wrap NR) p) then Undef else
  if NR <? 0 then Done None else
  let NH := intpower 2 N in
  match clusters_loop NH (Z.to_nat NR) (setup_stack NH) [] 0 None 0%nat [] with
  | Done (sizes, _) => Done (Some sizes)
  | Fail _ => Done None
  | Undef => Undef
  | Fuel => Fuel
  end.
End Drivers.

Definition always (x : Q) : nat → Q := λ _, x.

(** A sample sequence of variates: 0, 0, 9/10, 9/10, 9/10, ... *)
Definition two_then_none : nat → Q :=
  λ k, if (k <? 2)%nat then 0%Q else (9 # 10)%Q.

(** A stack that holds one site. *)
Definition one_on_stack : stack := mk_stack [5; 0; 0; 0] 4 1 4.



(** A sample sequence of variates: 0, 9/10, 0, 9/10, ... *)
Definition alternating : nat → Q :=
  λ k, if Nat.even k then 0%Q else (9 # 10)%Q.

(** ** Predicates of the statements *)

(** The stack is within its buffer. *)
Definition stack_wf (s : stack) : Prop :=
  0 <= stack_top s <= stack_length s ∧
  base.length (stack_sites s) = Z.to_nat (stack_length s).

(** The sites on the stack, bottom first. *)
Definition slist (s : stack) : list Z :=
  take (Z.to_nat (stack_top s)) (stack_sites s).

Definition sites_in_range (NH : Z) (l : list Z) : Prop :=
  Forall (λ x, 0 <= x < NH) l.

(** The number of sites marked in a visited array. *)
Fixpoint marked (visited : list bool) : nat :=
  match visited with
  | [] => 0
  | b :: visited' => (if b then 1 else 0) + marked visited'
  end.

Definition dfs_wf (N : Z) (st : dfs_state) : Prop :=
  stack_wf (dfs_stack st) ∧
  base.length (dfs_visited st) = Z.to_nat (2 ^ N) ∧
  sites_in_range (2 ^ N) (slist (dfs_stack st)).

(** The bound of the run: the stack height plus [N + 1] for every site not
    yet marked. *)
Definition dfs_potential (N : Z) (top : Z) (visited : list bool) : nat :=
  (Z.to_nat top + S (Z.to_nat N) * (base.length visited - marked visited))%nat.


(** A site is covered when it is marked or waits on the stack. *)
Definition dfs_covered (st : dfs_state) (v : Z) : Prop :=
  dfs_visited st !! Z.to_nat v = Some true ∨ v ∈ slist (dfs_stack st).


(** The links of the hypercube: two sites that differ in one of the [N]
    bits. *)
Definition adjacent (N : Z) (x y : Z) : Prop :=
  ∃ i, 0 <= i < N ∧ y = Z.lxor x (Z.shiftl 1 i).


Definition labels_len (NH : Z) (labels : option (list Z)) : Prop :=
  match labels with
  | Some l => base.length l = Z.to_nat NH
  | None => True
  end.

Definition grow_wf (NH : Z) (st : grow_state) : Prop :=
  stack_wf (g_stack st) ∧
  base.length (g_visited st) = Z.to_nat NH ∧
  sites_in_range NH (slist (g_stack st)) ∧
  nd_rows (g_matrix st) = NH ∧ nd_cols (g_matrix st) = NH ∧
  labels_len NH (g_labels st).

(** [M[i][j] == M[j][i]] for all site pairs. *)
Definition symmetric (a : ndarray) : Prop :=
  ∀ i j, nd_get a i j = nd_get a j i.

Definition labelled (labels : option (list Z)) (i : nat) (cluster_index : Z) : Prop :=
  match labels with
  | Some l => l !! i = Some cluster_index
  | None => True
  end.

(** What a run of [grow_H_cluster] for the cluster [cluster_index], entered
    in the state [st0], keeps true of its state. *)
Definition grow_inv (NH cluster_index : Z) (st0 st : grow_state) : Prop :=
  grow_wf NH st ∧
  (∀ i, g_visited st0 !! i = Some true → g_visited st !! i = Some true) ∧
  0 <= g_size st <= Z.of_nat (marked (g_visited st)) ∧
  g_size st - Z.of_nat (marked (g_visited st))
    = g_size st0 - Z.of_nat (marked (g_visited st0)) ∧
  (∀ i, g_visited st !! i = g_visited st0 !! i →
        label_at (g_labels st) i = label_at (g_labels st0) i) ∧
  (∀ i, g_visited st0 !! i = Some false → g_visited st !! i = Some true →
        labelled (g_labels st) i cluster_index) ∧
  (∀ x y, g_visited st0 !! Z.to_nat x = Some true →
          nd_get (g_matrix st) x y = nd_get (g_matrix st0) x y ∧
          nd_get (g_matrix st) y x = nd_get (g_matrix st0) y x) ∧
  (symmetric (g_matrix st0) → symmetric (g_matrix st)) ∧
  g_error_flag st = g_error_flag st0 ∧ g_pyerr st = g_pyerr st0 ∧
  (g_labels st0 = None → g_labels st = None) ∧
  stack_length (g_stack st) = stack_length (g_stack st0).

(** What the enumeration keeps true of its counters at the site [site]. *)
Definition lc_inv (visited : list bool) (c : lc_counters) (site : Z) : Prop :=
  total_size c = Z.of_nat (marked visited) ∧
  0 <= cluster_index c <= site ∧
  0 <= largest_cluster_index c ∧
  0 <= largest_cluster_size c ∧
  (largest_cluster_size c = 0 ∧ largest_cluster_index c = 0 ∨
   largest_cluster_index c < cluster_index c).

(** Every recorded link joins two marked sites of one cluster. *)
Definition edges_within (st : grow_state) : Prop :=
  ∀ x y, nd_get (g_matrix st) x y ≠ 0 →
    g_visited st !! Z.to_nat x = Some true ∧
    g_visited st !! Z.to_nat y = Some true ∧
    label_at (g_labels st) (Z.to_nat x) = label_at (g_labels st) (Z.to_nat y).

(** The same while the cluster [cluster_index] is grown: a link may lead
    from a marked site of that cluster to a site still on the stack. *)
Definition edge_inv (cluster_index : Z) (st : grow_state) : Prop :=
  ∀ x y, nd_get (g_matrix st) x y ≠ 0 →
    (g_visited st !! Z.to_nat x = Some true ∧
     g_visited st !! Z.to_nat y = Some true ∧
     label_at (g_labels st) (Z.to_nat x) = label_at (g_labels st) (Z.to_nat y)) ∨
    (g_visited st !! Z.to_nat x = Some true ∧
     label_at (g_labels st) (Z.to_nat x) = (λ _, cluster_index) <$> g_labels st ∧
     g_visited st !! Z.to_nat y = Some false ∧ y ∈ slist (g_stack st)) ∨
    (g_visited st !! Z.to_nat y = Some true ∧
     label_at (g_labels st) (Z.to_nat y) = (λ _, cluster_index) <$> g_labels st ∧
     g_visited st !! Z.to_nat x = Some false ∧ x ∈ slist (g_stack st)).

(** What holds of the buffers of [hypercube_H_LC] between two clusters. *)
Definition Inv_H (N : Z) (st : grow_state) : Prop :=
  grow_wf (2 ^ N) st ∧
  stack_top (g_stack st) = 0 ∧ 0 < stack_length (g_stack st) ∧
  symmetric (g_matrix st) ∧ edges_within st ∧
  (∀ i, g_visited st !! i = Some false →
        label_at (g_labels st) i = Some ULONG_MAX).

(** What is copied out for the cluster of index [L] is the same in two
    states: the sites labelled [L], and the rows of the matrix at them. *)
Definition stable_H (N : Z) (L : Z) (e e' : grow_state) : Prop :=
  ∀ i, 0 <= i < 2 ^ N →
    label_is (g_labels e) L i = label_is (g_labels e') L i ∧
    (label_is (g_labels e) L i = true →
     ∀ k, nd_get (g_matrix e) i k = nd_get (g_matrix e') i k).

(** The queue is within its buffer. *)
Definition queue_wf (q : queue) : Prop :=
  0 <= queue_readIdx q <= queue_writeIdx q ∧
  queue_writeIdx q - queue_readIdx q <= queue_length q ∧
  base.length (queue_sites q) = Z.to_nat (queue_length q).

(** The sites in the queue, oldest first. *)
Definition qlist (q : queue) : list Z :=
  map (λ j, queue_sites q !!! Z.to_nat (j mod queue_length q))
    (seqZ (queue_readIdx q) (queue_writeIdx q - queue_readIdx q)).

Definition dij_wf (NH : Z) (st : dij_state) : Prop :=
  queue_wf (dj_queue st) ∧ queue_length (dj_queue st) = NH ∧
  base.length (dj_visited st) = Z.to_nat NH ∧
  base.length (dj_distances st) = Z.to_nat NH ∧
  labels_len NH (dj_labels st) ∧
  sites_in_range NH (qlist (dj_queue st)).

(** What a run of [dijkstra] for the cluster [cluster_index], entered in the
    state [st0], keeps true of its state: the sites in the queue are
    distinct and not yet marked, and a site neither marked nor queued is at
    the infinite distance. *)
Definition dij_inv (NH cluster_index : Z) (st0 st : dij_state) : Prop :=
  dij_wf NH st ∧
  (∀ i, dj_visited st0 !! i = Some true → dj_visited st !! i = Some true) ∧
  0 <= dj_number_visited st <= Z.of_nat (marked (dj_visited st)) ∧
  dj_number_visited st - Z.of_nat (marked (dj_visited st))
    = dj_number_visited st0 - Z.of_nat (marked (dj_visited st0)) ∧
  (∀ i, dj_visited st !! i = dj_visited st0 !! i →
        label_at (dj_labels st) i = label_at (dj_labels st0) i) ∧
  (∀ i, dj_visited st0 !! i = Some false → dj_visited st !! i = Some true →
        labelled (dj_labels st) i cluster_index) ∧
  (∀ i, dj_visited st0 !! i = Some true →
        dj_distances st !! i = dj_distances st0 !! i) ∧
  NoDup (qlist (dj_queue st)) ∧
  (∀ x, x ∈ qlist (dj_queue st) → dj_visited st !! Z.to_nat x = Some false) ∧
  (∀ x, 0 <= x < NH → dj_visited st !! Z.to_nat x = Some false →
        x ∉ qlist (dj_queue st) →
        dj_distances st !! Z.to_nat x = Some ULONG_MAX) ∧
  (∀ x, x ∈ qlist (dj_queue st) →
        ∃ d, dj_distances st !! Z.to_nat x = Some d ∧ 0 <= d < ULONG_MAX) ∧
  dj_err st = 0.

(** The queue holds sites at distance [d] followed by sites at distance
    [d + 1]. *)
Definition dij_level (st : dij_state) (d : Z) : Prop :=
  ∃ A B, qlist (dj_queue st) = A ++ B ∧
         Forall (λ x, dj_distances st !! Z.to_nat x = Some d) A ∧
         Forall (λ x, dj_distances st !! Z.to_nat x = Some (d + 1)) B.

(** Every entry of [d'] is at most the entry of [d]. *)
Definition dist_le (d d' : list Z) : Prop :=
  ∀ i x, d !! i = Some x → ∃ y, d' !! i = Some y ∧ y <= x.

(** The state a run ends in, by its normal exit or its error exit. *)
Definition final_state {S : Type} (r : run S) : option S :=
  match r with
  | Done s => Some s
  | Fail s => Some s
  | _ => None
  end.

(** The number of indices [j] in [[i, i + k)] with [keep j]. *)
Fixpoint kept (keep : Z → bool) (k : nat) (i : Z) : nat :=
  match k with
  | O => 0
  | S k' => (if keep i then 1 else 0) + kept keep k' (i + 1)
  end.

(** What holds of the buffers of [hypercube_dijkstra_LC] between two
    clusters. *)
Definition Inv_D (N : Z) (st : dij_state) : Prop :=
  dij_wf (2 ^ N) st ∧ qlist (dj_queue st) = [] ∧
  (∀ i, dj_visited st !! i = Some false →
        dj_distances st !! i = Some ULONG_MAX ∧
        label_at (dj_labels st) i = Some ULONG_MAX).

(** What is copied out for the cluster of index [L] is the same in two
    states: the sites labelled [L], and the distances at them. *)
Definition stable_D (N : Z) (L : Z) (e e' : dij_state) : Prop :=
  ∀ i, 0 <= i < 2 ^ N →
    label_is (dj_labels e) L i = label_is (dj_labels e') L i ∧
    (label_is (dj_labels e) L i = true →
     dj_distances e !! Z.to_nat i = dj_distances e' !! Z.to_nat i).

(** ** Predicates of the further properties *)

(** The value [hypercube_H] leaves in the cell [(x, x ^ (1 << i))]: the link
    is drawn once in the row of each of its two sites, [N] variates a row,
    and the row of the larger site comes last. *)
Definition H_cell (rng : nat → Q) (p : Q) (N x i : Z) : Z :=
  let y := Z.lxor x (Z.shiftl 1 i) in
  if Qltb (rng (Z.to_nat (N * Z.max x y + i))) p then connected else disconnected.

(** The last row of [[lo, hi)] that writes the cell [(x, y)], if any. *)
Definition H_last (lo hi x y : Z) : option Z :=
  if (lo <=? Z.max x y) && (Z.max x y <? hi) then Some (Z.max x y)
  else if (lo <=? Z.min x y) && (Z.min x y <? hi) then Some (Z.min x y)
  else None.

(** A walk from [seed] along the relation [E]. *)
Inductive epath (E : Z → Z → Prop) (seed : Z) : Z → Prop :=
| epath_seed : epath E seed seed
| epath_step u v : epath E seed u → E u v → epath E seed v.

(** The site [x] is marked in [visited] and was not in [visited0]. *)
Definition new_mark (visited0 visited : list bool) (x : Z) : Prop :=
  0 <= x ∧ visited0 !! Z.to_nat x = Some false ∧ visited !! Z.to_nat x = Some true.

(** A link of the hypercube that leaves a site marked by the run. *)
Definition dfs_link (N : Z) (visited0 visited : list bool) (u v : Z) : Prop :=
  new_mark visited0 visited u ∧ adjacent N u v.

(** What the loop of [DFS_hypercube] keeps true of the cluster it grows from
    [seed]: marks are kept, the seed is covered, and every site on the stack
    or marked by the run is reached from the seed. *)
Definition dfs_cluster_inv (N : Z) (visited0 : list bool) (seed : Z)
    (st : dfs_state) : Prop :=
  (∀ i, visited0 !! i = Some true → dfs_visited st !! i = Some true) ∧
  dfs_covered st seed ∧
  ∀ x, x ∈ slist (dfs_stack st) ∨ new_mark visited0 (dfs_visited st) x →
       epath (dfs_link N visited0 (dfs_visited st)) seed x.

(** The cells of [m] that differ from those of [m0] lie on links of the
    hypercube, at indices that are not negative, and hold 0 or 1. *)
Definition cells_ok (N : Z) (m0 m : ndarray) : Prop :=
  ∀ x y, nd_get m x y = nd_get m0 x y ∨
         (adjacent N x y ∧ 0 <= x ∧ 0 <= y ∧
          (nd_get m x y = 0 ∨ nd_get m x y = 1)).

(** A link recorded in the matrix [m] that leaves a site marked by the
    run. *)
Definition g_link (N : Z) (m : ndarray) (visited0 visited : list bool)
    (u v : Z) : Prop :=
  new_mark visited0 visited u ∧ adjacent N u v ∧ nd_get m u v = 1.

(** The same while the bits of [u0] are scanned: of the links that leave
    [u0], only those of the bits below [i0]. *)
Definition g_link_upto (N : Z) (m : ndarray) (visited0 visited : list bool)
    (u0 i0 : Z) (u v : Z) : Prop :=
  g_link N m visited0 visited u v ∧
  (u = u0 → ∃ j, 0 <= j < i0 ∧ v = Z.lxor u0 (Z.shiftl 1 j)).

(** Every site on the stack or marked by the run is reached from [seed]
    along [E]. *)
Definition grow_paths (st0 : grow_state) (seed : Z) (E : Z → Z → Prop)
    (st : grow_state) : Prop :=
  ∀ x, x ∈ slist (g_stack st) ∨ new_mark (g_visited st0) (g_visited st) x →
       epath E seed x.

(** A link recorded in the matrix. *)
Definition mlink (a : ndarray) (u v : Z) : Prop := nd_get a u v = 1.

(** One pass of the loop over the bits of [u] in [dijkstra], from the state
    [st] to [st1], for the site [u] at distance [du]: either the distances
    and the queue stay (the neighbour is marked, the variate is not below
    [p], or the neighbour is already as near), or the variate is below [p] and the
    neighbour, not marked, not queued and at the infinite distance, gets
    [du + 1] and joins the queue. *)
Definition dij_edge_step (rng : nat → Q) (p : Q) (u du i : Z)
    (st st1 : dij_state) : Prop :=
  let v := Z.lxor u (Z.shiftl 1 i) in
  dj_visited st1 = dj_visited st ∧
  dj_number_visited st1 = dj_number_visited st ∧
  ((dj_distances st1 = dj_distances st ∧
    qlist (dj_queue st1) = qlist (dj_queue st) ∧
    (dj_visited st !! Z.to_nat v = Some true ∨
     Qltb (rng (dj_pos st)) p = false ∨
     ∃ old, dj_distances st !! Z.to_nat v = Some old ∧ old <= du + 1)) ∨
   (Qltb (rng (dj_pos st)) p = true ∧
    dj_visited st !! Z.to_nat v = Some false ∧ (v ∉ qlist (dj_queue st)) ∧
    dj_distances st !! Z.to_nat v = Some ULONG_MAX ∧
    dj_distances st1 = <[Z.to_nat v := du + 1]> (dj_distances st) ∧
    qlist (dj_queue st1) = qlist (dj_queue st) ++ [v])).

(** The start of a pass of the loop [while(!empty(q))]: the head [u] of the
    queue, at distance [du], is taken off, counted and marked. *)
Definition dij_mark_step (u du : Z) (st st2 : dij_state) : Prop :=
  qlist (dj_queue st) = u :: qlist (dj_queue st2) ∧
  dj_visited st !! Z.to_nat u = Some false ∧
  dj_distances st !! Z.to_nat u = Some du ∧ 0 <= du < ULONG_MAX ∧
  dj_visited st2 = <[Z.to_nat u := true]> (dj_visited st) ∧
  dj_distances st2 = dj_distances st ∧
  dj_number_visited st2 = dj_number_visited st + 1.

(** The number of bits set among the [k] lowest bits of [x]. *)
Fixpoint bits_set (k : nat) (x : Z) : Z :=
  match k with
  | O => 0
  | S k' => bits_set k' x + (if Z.testbit x (Z.of_nat k') then 1 else 0)
  end.

(** The Hamming weight of a site of the hypercube of dimension [N]. *)
Definition hamming (N x : Z) : Z := bits_set (Z.to_nat N) x.

(** What [dijkstra], started at [start] from the state [st0], keeps true of
    the distances: the start is at 0; a site in the queue or marked by the
    run is at a distance that is its Hamming distance to the start plus an
    even number, at most the number of sites counted so far, and less when
    the site is marked. *)
Definition dij_dist_inv (N : Z) (st0 : dij_state) (start : Z) (st : dij_state)
    : Prop :=
  dj_distances st !! Z.to_nat start = Some 0 ∧
  (start ∈ qlist (dj_queue st) ∨
   new_mark (dj_visited st0) (dj_visited st) start) ∧
  ∀ x, x ∈ qlist (dj_queue st) ∨ new_mark (dj_visited st0) (dj_visited st) x →
    ∃ d k, dj_distances st !! Z.to_nat x = Some d ∧ 0 <= k ∧
           d = hamming N (Z.lxor x start) + 2 * k ∧
           d <= dj_number_visited st ∧
           (new_mark (dj_visited st0) (dj_visited st) x → d < dj_number_visited st).

(** What the copy loops of lines 177-184 and 272-279 put in the new array:
    the distances of the sites [j] of [[i, i + k)] with [keep j], in the
    order of the sites. *)
Fixpoint kept_distances (keep : Z → bool) (distances : list Z) (k : nat) (i : Z)
    : list Z :=
  match k with
  | O => []
  | S k' =>
      if keep i
      then distances !!! Z.to_nat i :: kept_distances keep distances k' (i + 1)
      else kept_distances keep distances k' (i + 1)
  end.

(** Every neighbour [u ^ (1 << i)] of a marked site [u] is at most one
    farther than [u], for the pairs [(u, i)] selected by [P]. *)
Definition dij_near (N : Z) (P : Z → Z → Prop) (st : dij_state) : Prop :=
  ∀ u i du, 0 <= u < 2 ^ N → 0 <= i < N →
    dj_visited st !! Z.to_nat u = Some true →
    dj_distances st !! Z.to_nat u = Some du → P u i →
    ∃ dv, dj_distances st !! Z.to_nat (Z.lxor u (Z.shiftl 1 i)) = Some dv ∧
          dv <= du + 1.

(** Between two passes of the loop of [dijkstra] at [p = 1]: a marked site
    is not farther than a queued one, and the neighbours of a marked site
    are near. *)
Definition dij_near_inv (N : Z) (st : dij_state) : Prop :=
  (∀ x y dx dy, 0 <= x → dj_visited st !! Z.to_nat x = Some true →
     y ∈ qlist (dj_queue st) →
     dj_distances st !! Z.to_nat x = Some dx →
     dj_distances st !! Z.to_nat y = Some dy → dx <= dy) ∧
  dij_near N (λ _ _, True) st.

(** The same while the bits of [u], at distance [du], are scanned. *)
Definition dij_near_scan (N : Z) (u du i : Z) (st : dij_state) : Prop :=
  (∀ x dx, 0 <= x → dj_visited st !! Z.to_nat x = Some true →
     dj_distances st !! Z.to_nat x = Some dx → dx <= du) ∧
  (∀ y dy, y ∈ qlist (dj_queue st) →
     dj_distances st !! Z.to_nat y = Some dy → du <= dy) ∧
  dij_near N (λ u' i', u' = u → i' < i) st.

(** The number of sites that carry the label [L]. *)
Definition labelled_count (N : Z) (labels : option (list Z)) (L : Z) : Z :=
  Z.of_nat (kept (label_is labels L) (Z.to_nat (2 ^ N)) 0).

(** The cluster that the counters of [hypercube_dijkstra_LC] select: the
    sites labelled [largest_cluster_index] are [largest_cluster_size] in
    number, their distances are below that number, and the first of them is
    at distance 0. *)
Definition lc_selected (N : Z) (e : dij_state) (c : lc_counters) : Prop :=
  let keep := label_is (dj_labels e) (largest_cluster_index c) in
  labelled_count N (dj_labels e) (largest_cluster_index c)
  = largest_cluster_size c ∧
  (∀ i, 0 <= i < 2 ^ N → keep i = true →
     ∃ d, dj_distances e !! Z.to_nat i = Some d ∧
          0 <= d < largest_cluster_size c) ∧
  (∃ s, 0 <= s < 2 ^ N ∧ keep s = true ∧
        dj_distances e !! Z.to_nat s = Some 0 ∧
        ∀ i, 0 <= i < s → keep i = false).

(** What holds between two passes of the loop of lines 149-168, [site]
    being the next site looked at: the sites below it are marked, no site
    carries an index not given out yet, and no cluster labelled so far has
    more sites than the one selected. *)
Definition dijkstra_LC_inv (N : Z) (e : dij_state) (c : lc_counters)
    (site : Z) : Prop :=
  Inv_D N e ∧ lc_inv (dj_visited e) c site ∧
  (∀ i, 0 <= i < site → dj_visited e !! Z.to_nat i = Some true) ∧
  (∀ i L, 0 <= i < 2 ^ N → cluster_index c <= L < 2 ^ N →
          label_is (dj_labels e) L i = false) ∧
  (0 < total_size c → 0 < largest_cluster_size c) ∧
  (0 < largest_cluster_size c → lc_selected N e c) ∧
  (∀ L, 0 <= L < 2 ^ N →
        labelled_count N (dj_labels e) L <= largest_cluster_size c).

(** Every cell of [m] holds 0, or holds 1 and joins two neighbouring
    sites. *)
Definition links_only (N : Z) (m : ndarray) : Prop :=
  ∀ x y, nd_get m x y = 0 ∨
         (adjacent N x y ∧ 0 <= x ∧ 0 <= y ∧ nd_get m x y = 1).

(** The cluster that the counters of [hypercube_H_LC] select: the sites
    labelled [largest_cluster_index] are [largest_cluster_size] in number,
    and all of them are reached from one of them along cells that hold
    1. *)
Definition H_selected (N : Z) (e : grow_state) (c : lc_counters) : Prop :=
  let keep := label_is (g_labels e) (largest_cluster_index c) in
  labelled_count N (g_labels e) (largest_cluster_index c)
  = largest_cluster_size c ∧
  ∃ s, 0 <= s < 2 ^ N ∧ keep s = true ∧
       ∀ x, 0 <= x < 2 ^ N → keep x = true → epath (mlink (g_matrix e)) s x.

(** What holds between two passes of the loop of lines 456-474, [site]
    being the next site looked at. *)
Definition H_LC_inv (N : Z) (e : grow_state) (c : lc_counters) (site : Z)
    : Prop :=
  Inv_H N e ∧ lc_inv (g_visited e) c site ∧
  (∀ i, 0 <= i < site → g_visited e !! Z.to_nat i = Some true) ∧
  (∀ i L, 0 <= i < 2 ^ N → cluster_index c <= L < 2 ^ N →
          label_is (g_labels e) L i = false) ∧
  (0 < total_size c → 0 < largest_cluster_size c) ∧
  (0 < largest_cluster_size c → H_selected N e c) ∧
  (∀ L, 0 <= L < 2 ^ N →
        labelled_count N (g_labels e) L <= largest_cluster_size c) ∧
  links_only N (g_matrix e).

(** What [dijkstra], started at [start] from the state [st0], keeps true of
    the way a site was reached: a site in the queue or marked by the run,
    other than the start, is the neighbour of a site marked by the run that
    is one nearer. *)
Definition dij_chain (N : Z) (st0 : dij_state) (start : Z) (st : dij_state)
    : Prop :=
  ∀ x, x ∈ qlist (dj_queue st) ∨ new_mark (dj_visited st0) (dj_visited st) x →
    x = start ∨
    ∃ i du, 0 <= i < N ∧
      new_mark (dj_visited st0) (dj_visited st) (Z.lxor x (Z.shiftl 1 i)) ∧
      dj_distances st !! Z.to_nat (Z.lxor x (Z.shiftl 1 i)) = Some du ∧
      dj_distances st !! Z.to_nat x = Some (du + 1).

(** The run returns by its normal exit. *)
Definition run_done {S : Type} (r : run S) : bool :=
  match r with
  | Done _ => true
  | _ => false
  end.

(** The function returns an object, not NULL. *)
Definition returns_object {A : Type} (r : run (option A)) : bool :=
  match r with
  | Done (Some _) => true
  | _ => false
  end.

(** The part of the state of [grow_H_cluster] that [DFS_hypercube] has
    too: the stack, the marks, the error flag, the exception, the cursor of
    the random source and the size. *)
Definition traversal (g : grow_state) : dfs_state :=
  mk_dfs (g_stack g) (g_visited g) (g_error_flag g) (g_pyerr g) (g_pos g)
    (g_size g).

(** The run [rd] of the code of [DFS_hypercube] ends as the run [rg] of the
    code of [grow_H_cluster] does: by the same exit, with the same stack,
    marks, cursor and size.  [grow_H_cluster] has two more ways to leave
    defined behaviour, its matrix and its labels. *)
Definition same_traversal (rg : run grow_state) (rd : run dfs_state) : Prop :=
  match rg with
  | Done g => rd = Done (traversal g)
  | Fail g =>
      ∃ d, rd = Fail d ∧ dfs_stack d = g_stack g ∧
           dfs_visited d = g_visited g ∧ dfs_pos d = g_pos g ∧
           dfs_size d = g_size g
  | Undef => True
  | Fuel => rd = Fuel
  end.

(** ** The links that dijkstra retains

    [dijkstra] draws a variate for the link from the site [u] it has taken
    off the queue to a neighbour [v] that is not marked (lines 56-58), and
    retains the link when the variate is below [p].  The functions below
    follow the loops of [dijkstra] and list the links it retains, in the
    order of the draws. *)
Section Links.
Variable rng : nat → Q.
Variable p : Q.
Variable N : Z.

(** The link retained by one pass through the body of
    [for (ul i = 0; i < N; i++)], lines 53-67, if any. *)
Definition dijkstra_edge_links (i : Z) (u : Z) (st : dij_state) : list (Z * Z) :=
  if 64 <=? i then [] else
  let v := Z.lxor u (Z.shiftl 1 i) in
  match dj_visited st !! Z.to_nat v with
  | Some false => if Qltb (rng (dj_pos st)) p then [(u, v)] else []
  | _ => []
  end.

(** Lines 51-68, with [k] iterations left. *)
Fixpoint dijkstra_neighbours_links (k : nat) (i : Z) (u : Z) (st : dij_state)
    : list (Z * Z) :=
  match k with
  | O => []
  | S k' =>
      dijkstra_edge_links i u st ++
      match dijkstra_edge rng p i u st with
      | Done st' => dijkstra_neighbours_links k' (i + 1) u st'
      | _ => []
      end
  end.

(** One pass through the body of [while(!empty(q))], lines 39-68. *)
Definition dijkstra_body_links (cluster_index : Z) (st : dij_state)
    : list (Z * Z) :=
  let '(u, q', err') := dequeue (dj_queue st) (dj_err st) in
  let st1 := mk_dij q' (dj_visited st) (dj_distances st)
               (dj_number_visited st) (dj_labels st) err' (dj_pos st) in
  if negb (err' =? 0) then [] else
  match dj_distances st1 !! Z.to_nat u with
  | None => []
  | Some dist =>
      if negb (Z.to_nat u <? base.length (dj_visited st1))%nat then [] else
      match write_label (dj_labels st1) u cluster_index with
      | None => []
      | Some labels' =>
          dijkstra_neighbours_links (Z.to_nat N) 0 u
            (mk_dij q' (<[Z.to_nat u := true]> (dj_visited st1))
               (dj_distances st1) (wrap (dj_number_visited st1 + 1))
               labels' err' (dj_pos st1))
      end
  end.

(** Lines 37-69. *)
Fixpoint dijkstra_loop_links (cluster_index : Z) (fuel : nat) (st : dij_state)
    : list (Z * Z) :=
  match fuel with
  | O => []
  | S fuel' =>
      if negb (empty (dj_queue st)) then
        dijkstra_body_links cluster_index st ++
        match dijkstra_body rng p N cluster_index st with
        | Done st' => dijkstra_loop_links cluster_index fuel' st'
        | _ => []
        end
      else []
  end.

(** The links retained by a call of [dijkstra]. *)
Definition dijkstra_links (st : dij_state) (start_site cluster_index : Z)
    : list (Z * Z) :=
  let '(q1, err1) := enqueue (dj_queue st) start_site 0 in
  let st1 := mk_dij q1 (dj_visited st) (dj_distances st)
               (dj_number_visited st) (dj_labels st) err1 (dj_pos st) in
  dijkstra_loop_links cluster_index (dijkstra_fuel st1) st1.
End Links.

(** Two sites are joined by a link of the list, in either direction. *)
Definition linked (L : list (Z * Z)) (u v : Z) : Prop :=
  (u, v) ∈ L ∨ (v, u) ∈ L.

(** The percolation cluster of the site [seed] for the retained links [L]:
    the sites that a walk along retained links reaches from [seed]. *)
Definition percolation_cluster (L : list (Z * Z)) (seed x : Z) : Prop :=
  epath (linked L) seed x.

(** Between two passes of the loop of [dijkstra] started at [start] from
    the state [st0], with the links [L] retained so far: a retained link
    leaves a marked site for a site that is marked or queued; a site that is
    queued or marked by the run is reached from the start along retained
    links; and the distance of such a site is at most the number of sites
    counted. *)
Definition dij_links_inv (N : Z) (st0 : dij_state) (start : Z)
    (st : dij_state) (L : list (Z * Z)) : Prop :=
  (∀ a b, (a, b) ∈ L →
     0 <= a < 2 ^ N ∧ adjacent N a b ∧
     dj_visited st !! Z.to_nat a = Some true ∧
     (dj_visited st !! Z.to_nat b = Some true ∨ b ∈ qlist (dj_queue st))) ∧
  (∀ x, x ∈ qlist (dj_queue st) ∨ new_mark (dj_visited st0) (dj_visited st) x →
     epath (λ u v, (u, v) ∈ L) start x) ∧
  (∀ x d, x ∈ qlist (dj_queue st) → dj_distances st !! Z.to_nat x = Some d →
     d <= dj_number_visited st).

(** The same while the bits of the site [u], at distance [du], are
    scanned. *)
Definition dij_links_scan (N : Z) (st0 : dij_state) (start : Z) (u du : Z)
    (st : dij_state) (L : list (Z * Z)) : Prop :=
  dij_links_inv N st0 start st L ∧ du < dj_number_visited st ∧
  epath (λ u v, (u, v) ∈ L) start u.

(** The sites marked in [visited], which holds the marks of the sites from
    [i] on, in increasing order. *)
Fixpoint marked_sites (i : Z) (visited : list bool) : list Z :=
  match visited with
  | [] => []
  | b :: visited' => (if b then [i] else []) ++ marked_sites (i + 1) visited'
  end.

(** The number of variates below [p] among the [n] variates from the cursor
    [a] on. *)
Fixpoint accepted (rng : nat → Q) (p : Q) (n : nat) (a : nat) : nat :=
  match n with
  | O => 0
  | S n' => (if Qltb (rng a) p then 1 else 0) + accepted rng p n' (S a)
  end.

(** The run [r] of a part of [dijkstra] from the state [st], which retains
    the links [L], draws a variate for each link it examines: when it
    returns, [L] holds one link for every variate below [p] among those
    drawn. *)
Definition one_link_a_draw (rng : nat → Q) (p : Q) (st : dij_state)
    (r : run dij_state) (L : list (Z * Z)) : Prop :=
  ∀ st1, r = Done st1 →
    ∃ n, dj_pos st1 = (dj_pos st + n)%nat ∧
         base.length L = accepted rng p n (dj_pos st).

(** * Proofs *)

(** ** Arithmetic of sites *)

Lemma lxor_bit_range (N u i : Z) :
  0 <= N -> 0 <= u < 2 ^ N -> 0 <= i < N ->
  0 <= Z.lxor u (Z.shiftl 1 i) < 2 ^ N.
Proof.
  intros HN Hu Hi.
  rewrite Z.shiftl_1_l.
  assert (H2i : 0 < 2 ^ i) by (apply Z.pow_pos_nonneg; lia).
  split.
  - apply Z.lxor_nonneg. lia.
  - destruct (Z.eq_dec (Z.lxor u (2 ^ i)) 0) as [->|Hne].
    + apply Z.pow_pos_nonneg; lia.
    + assert (0 <= Z.lxor u (2 ^ i)) by (apply Z.lxor_nonneg; lia).
      apply Z.log2_lt_pow2; [lia|].
      pose proof (Z.log2_lxor u (2 ^ i) ltac:(lia) ltac:(lia)) as Hl.
      rewrite Z.log2_pow2 in Hl by lia.
      destruct (Z.eq_dec u 0) as [->|Hu0].
      * change (Z.log2 0) with 0 in Hl. lia.
      * assert (Z.log2 u < N) by (apply Z.log2_lt_pow2; lia). lia.
Qed.

Lemma lxor_bit_neq (u i : Z) : 0 <= i -> Z.lxor u (Z.shiftl 1 i) <> u.
Proof.
  intros Hi Heq.
  assert (H : Z.lxor u (Z.lxor u (Z.shiftl 1 i)) = Z.lxor u u) by congruence.
  rewrite <- Z.lxor_assoc, Z.lxor_nilpotent, Z.lxor_0_l in H.
  rewrite Z.shiftl_1_l in H.
  assert (0 < 2 ^ i) by (apply Z.pow_pos_nonneg; lia). lia.
Qed.

(** ** The random source *)

Lemma Qltb_lt (x y : Q) : Qltb x y = true ↔ (x < y)%Q.
Proof. unfold Qltb, Qlt. apply Z.ltb_lt. Qed.

Lemma Qltb_zero (x : Q) : (0 <= x)%Q → Qltb x 0 = false.
Proof.
  intros H. destruct (Qltb x 0) eqn:E; [|done].
  apply Qltb_lt in E. exfalso. eapply Qlt_not_le; eauto.
Qed.

Lemma Qltb_one (x : Q) : (x < 1)%Q → Qltb x 1 = true.
Proof. apply Qltb_lt. Qed.

(** ** The stack *)

Lemma setup_stack_wf (NH : Z) : 0 <= NH → stack_wf (setup_stack NH).
Proof.
  intros H. unfold stack_wf, setup_stack; simpl.
  rewrite length_replicate. lia.
Qed.

Lemma push_full (s : stack) (x : Z) :
  stack_length s <= stack_top s → push s x = (s, 1).
Proof. intros H. unfold push. destruct (Z.ltb_spec (stack_top s) (stack_length s)); [lia|done]. Qed.

Lemma push_ok (s : stack) (x : Z) :
  stack_wf s → stack_top s < stack_length s →
  ∃ s', push s x = (s', 0) ∧ stack_wf s' ∧
        stack_top s' = stack_top s + 1 ∧
        stack_length s' = stack_length s ∧
        slist s' = slist s ++ [x].
Proof.
  intros [Ht Hl] Hlt. unfold push.
  destruct (Z.ltb_spec (stack_top s) (stack_length s)); [|lia].
  eexists. split; [reflexivity|].
  unfold stack_wf, slist; simpl. rewrite length_insert.
  repeat split; try lia.
  replace (Z.to_nat (stack_top s + 1)) with (S (Z.to_nat (stack_top s))) by lia.
  erewrite take_S_r.
  - rewrite take_insert_ge by lia. reflexivity.
  - apply list_lookup_insert_eq. lia.
Qed.

Lemma pop_ok (s : stack) (e : Z) :
  stack_wf s → 0 < stack_top s →
  ∃ x s', pop s e = (x, s', e) ∧ stack_wf s' ∧
          stack_top s' = stack_top s - 1 ∧
          stack_length s' = stack_length s ∧
          slist s = slist s' ++ [x].
Proof.
  intros [Ht Hl] Hlt. unfold pop.
  destruct (Z.eqb_spec (stack_top s) 0); [lia|].
  do 2 eexists. split; [reflexivity|].
  unfold stack_wf, slist; simpl. repeat split; try lia.
  assert (Hlk : is_Some (stack_sites s !! Z.to_nat (stack_top s - 1))).
  { apply lookup_lt_is_Some. lia. }
  destruct Hlk as [y Hy].
  rewrite (list_lookup_total_correct _ _ _ Hy).
  replace (Z.to_nat (stack_top s)) with (S (Z.to_nat (stack_top s - 1))) by lia.
  erewrite take_S_r; eauto.
Qed.

(** ** Visited arrays *)

Lemma marked_le (v : list bool) : (marked v ≤ base.length v)%nat.
Proof. induction v as [|[] v IH]; simpl; lia. Qed.

Lemma marked_insert (v : list bool) (i : nat) :
  v !! i = Some false → marked (<[i := true]> v) = S (marked v).
Proof.
  revert i. induction v as [|b v IH]; intros [|i] H; simpl in *; try done.
  - by inversion H.
  - rewrite IH by done. lia.
Qed.

Lemma marked_replicate_false (n : nat) : marked (replicate n false) = 0%nat.
Proof. induction n; simpl; auto. Qed.

Lemma site_index (NH x : Z) (v : list bool) :
  base.length v = Z.to_nat NH → 0 <= x < NH → is_Some (v !! Z.to_nat x).
Proof. intros Hl Hx. apply lookup_lt_is_Some. lia. Qed.

(** ** DFS_hypercube *)

Lemma neighbour_visited_some (N u i : Z) (v : list bool) :
  0 <= N → base.length v = Z.to_nat (2 ^ N) → 0 <= u < 2 ^ N → 0 <= i < N →
  is_Some (v !! Z.to_nat (Z.lxor u (Z.shiftl 1 i))).
Proof.
  intros HN Hl Hu Hi. eapply site_index; eauto. by apply lxor_bit_range.
Qed.

Lemma dfs_wf_push N st s' v e py pos sz :
  dfs_wf N st → stack_wf s' → slist s' = slist (dfs_stack st) ++ [v] →
  0 <= v < 2 ^ N →
  dfs_wf N (mk_dfs s' (dfs_visited st) e py pos sz).
Proof.
  intros (Hs & Hv & Hr) Hs' Hsl Hvr. split; [done|]. split; [done|].
  simpl. rewrite Hsl. apply Forall_app; split; [done|]. by apply Forall_singleton.
Qed.

Ltac split_ands :=
  repeat match goal with
  | |- _ ∧ _ => split
  end.

Lemma DFS_neighbours_spec rng p N k i u st :
  0 <= i → i + Z.of_nat k <= N → N < 64 → 0 <= u < 2 ^ N → dfs_wf N st →
  match DFS_neighbours rng p k i u st with
  | Done st' =>
      dfs_wf N st' ∧ dfs_visited st' = dfs_visited st ∧
      stack_top (dfs_stack st) <= stack_top (dfs_stack st')
        <= stack_top (dfs_stack st) + Z.of_nat k ∧
      dfs_error st' = dfs_error st ∧ dfs_size st' = dfs_size st ∧
      dfs_pyerr st' = dfs_pyerr st
  | Fail st' =>
      dfs_error st' = -1 ∧ dfs_pyerr st' = dfs_pyerr st ∧
      stack_length (dfs_stack st') <= stack_top (dfs_stack st')
  | Undef | Fuel => False
  end.
Proof.
  revert i st. induction k as [|k IH]; intros i st Hi Hk HN Hu Hwf; simpl.
  { split_ands; solve [done | lia]. }
  destruct (Z.leb_spec 64 i); [lia|].
  pose proof Hwf as (Hs & Hv & Hr).
  assert (Hvr : 0 <= Z.lxor u (Z.shiftl 1 i) < 2 ^ N) by (apply lxor_bit_range; lia).
  destruct (site_index _ _ _ Hv Hvr) as [b Hb].
  rewrite Hb. destruct b.
  { specialize (IH (i + 1) st ltac:(lia) ltac:(lia) HN Hu Hwf).
    destruct (DFS_neighbours rng p k (i + 1) u st); try done.
    destruct IH as (? & ? & ? & ? & ? & ?). split_ands; solve [done | lia | congruence]. }
  destruct (Qltb (rng (dfs_pos st)) p).
  - destruct (Z.lt_ge_cases (stack_top (dfs_stack st)) (stack_length (dfs_stack st)))
      as [Hlt|Hge].
    + destruct (push_ok (dfs_stack st) (Z.lxor u (Z.shiftl 1 i)) Hs Hlt)
        as (s' & Hp & Hs' & Ht' & Hl' & Hsl).
      simpl. rewrite Hp. simpl.
      match goal with |- context [DFS_neighbours rng p k (i + 1) u ?st1] =>
        specialize (IH (i + 1) st1 ltac:(lia) ltac:(lia) HN Hu
                      ltac:(by eapply dfs_wf_push));
        destruct (DFS_neighbours rng p k (i + 1) u st1) end; try done.
      destruct IH as (? & ? & ? & ? & ? & ?).
      simpl in *. split_ands; solve [done | lia | congruence].
    + simpl. rewrite push_full by done. simpl. repeat split; try done.
  - match goal with |- context [DFS_neighbours rng p k (i + 1) u ?st1] =>
      specialize (IH (i + 1) st1 ltac:(lia) ltac:(lia) HN Hu Hwf);
      destruct (DFS_neighbours rng p k (i + 1) u st1) end; try done.
    destruct IH as (? & ? & ? & ? & ? & ?).
    simpl in *. split_ands; solve [done | lia | congruence].
Qed.

Lemma wrap_small (x : Z) : 0 <= x < ul_modulus → wrap x = x.
Proof. intros H. unfold wrap. by apply Z.mod_small. Qed.

Lemma pow2_le_modulus (N : Z) :
  0 <= N < 64 → 0 < 2 ^ N ∧ 2 ^ N + 1 < ULONG_MAX.
Proof.
  intros H. split; [apply Z.pow_pos_nonneg; lia|].
  assert (2 ^ N <= 2 ^ 63) by (apply Z.pow_le_mono_r; lia).
  unfold ULONG_MAX, ul_modulus.
  change (2 ^ 64) with 18446744073709551616.
  change (2 ^ 63) with 9223372036854775808 in *. lia.
Qed.

Lemma ULONG_MAX_eq : ULONG_MAX = ul_modulus - 1.
Proof. reflexivity. Qed.

Lemma DFS_body_spec rng p N st :
  0 <= N < 64 → dfs_wf N st → 0 < stack_top (dfs_stack st) →
  dfs_error st ≠ -1 →
  0 <= dfs_size st <= Z.of_nat (marked (dfs_visited st)) →
  match DFS_body rng p N st with
  | Done st' =>
      dfs_wf N st' ∧ dfs_error st' = dfs_error st ∧
      dfs_pyerr st' = dfs_pyerr st ∧
      (dfs_potential N (stack_top (dfs_stack st')) (dfs_visited st')
       < dfs_potential N (stack_top (dfs_stack st)) (dfs_visited st))%nat ∧
      0 <= dfs_size st' <= Z.of_nat (marked (dfs_visited st')) ∧
      dfs_size st' - Z.of_nat (marked (dfs_visited st'))
        = dfs_size st - Z.of_nat (marked (dfs_visited st)) ∧
      (∀ i, dfs_visited st !! i = Some true → dfs_visited st' !! i = Some true)
  | Fail st' => dfs_error st' = -1 ∧ dfs_pyerr st' = dfs_pyerr st
  | Undef | Fuel => False
  end.
Proof.
  intros HN Hwf Htop Herr Hsz. pose proof Hwf as (Hs & Hv & Hr).
  unfold DFS_body.
  destruct (pop_ok (dfs_stack st) (dfs_error st) Hs Htop)
    as (u & s' & Hp & Hs' & Ht' & Hl' & Hsl).
  rewrite Hp. simpl.
  destruct (Z.eqb_spec (dfs_error st) (-1)); [done|].
  rewrite Hsl in Hr. apply Forall_app in Hr as [Hr Hu].
  rewrite Forall_singleton in Hu.
  destruct (site_index _ _ _ Hv Hu) as [b Hb]. rewrite Hb.
  pose proof (marked_le (dfs_visited st)) as Hm.
  destruct b.
  - split_ands; simpl; try done; try lia.
    unfold dfs_potential; simpl. rewrite Ht'. lia.
  - pose proof (marked_insert _ _ Hb) as Hmi.
    pose proof (pow2_le_modulus N HN) as [Hp0 Hp1].
    match goal with |- context [DFS_neighbours rng p ?k 0 u ?st1] =>
      pose proof (DFS_neighbours_spec rng p N k 0 u st1) as Hn;
      destruct (DFS_neighbours rng p k 0 u st1) as [st'| st'| |] end.
    + destruct Hn as (Hwf' & Hv' & Htop' & He' & Hsz' & Hpy'); try done; try lia.
      { unfold dfs_wf; simpl. by rewrite length_insert. }
      simpl in *. rewrite Hv', He', Hsz', Hpy'.
      pose proof ULONG_MAX_eq.
      rewrite Hmi, wrap_small by lia.
      split_ands; try done; try lia.
      * unfold dfs_potential. rewrite length_insert, Hmi.
        assert (marked (<[Z.to_nat u:=true]> (dfs_visited st))
                ≤ base.length (<[Z.to_nat u:=true]> (dfs_visited st)))%nat
          by apply marked_le.
        rewrite length_insert, Hmi in *. nia.
      * intros i Hi. destruct (decide (i = Z.to_nat u)) as [->|Hne].
        -- congruence.
        -- by rewrite list_lookup_insert_ne.
    + destruct Hn as (He' & Hpy' & _); try done; try lia.
      unfold dfs_wf; simpl. by rewrite length_insert.
    + apply Hn; try done; try lia.
      unfold dfs_wf; simpl. by rewrite length_insert.
    + apply Hn; try done; try lia.
      unfold dfs_wf; simpl. by rewrite length_insert.
Qed.

Lemma DFS_loop_spec rng p N fuel st :
  0 <= N < 64 → dfs_wf N st → dfs_error st ≠ -1 →
  0 <= dfs_size st <= Z.of_nat (marked (dfs_visited st)) →
  (dfs_potential N (stack_top (dfs_stack st)) (dfs_visited st) < fuel)%nat →
  match DFS_loop rng p N fuel st with
  | Done st' =>
      stack_top (dfs_stack st') = 0 ∧ dfs_wf N st' ∧
      dfs_error st' = dfs_error st ∧ dfs_pyerr st' = dfs_pyerr st ∧
      dfs_size st' - Z.of_nat (marked (dfs_visited st'))
        = dfs_size st - Z.of_nat (marked (dfs_visited st)) ∧
      (∀ i, dfs_visited st !! i = Some true → dfs_visited st' !! i = Some true)
  | Fail st' => dfs_error st' = -1 ∧ dfs_pyerr st' = dfs_pyerr st
  | Undef | Fuel => False
  end.
Proof.
  intros HN. revert st.
  induction fuel as [|fuel IH]; intros st Hwf Herr Hsz Hfuel; [lia|].
  simpl. destruct (Z.ltb_spec 0 (stack_top (dfs_stack st))) as [Htop|Htop].
  - pose proof (DFS_body_spec rng p N st HN Hwf Htop Herr Hsz) as Hb.
    destruct (DFS_body rng p N st) as [st1|st1| |]; try done.
    destruct Hb as (Hwf1 & He1 & Hpy1 & Hpot & Hsz1 & Hcnt & Hmono).
    specialize (IH st1 Hwf1 ltac:(congruence) Hsz1 ltac:(lia)).
    destruct (DFS_loop rng p N fuel st1) as [st2|st2| |]; try done.
    + destruct IH as (? & ? & ? & ? & ? & Hmono2).
      split_ands; try done; try congruence; try lia.
      intros i Hi. by apply Hmono2, Hmono.
    + destruct IH as [? ?]. split; congruence.
  - pose proof Hwf as ([? ?] & _). split_ands; try done; lia.
Qed.

Lemma DFS_loop_done_empty rng p N fuel st st' :
  DFS_loop rng p N fuel st = Done st' → stack_top (dfs_stack st') <= 0.
Proof.
  revert st. induction fuel as [|fuel IH]; intros st; simpl; [done|].
  destruct (Z.ltb_spec 0 (stack_top (dfs_stack st))) as [Htop|Htop].
  - destruct (DFS_body rng p N st) as [st1|st1| |]; try done. apply IH.
  - intros [= <-]. done.
Qed.

Lemma DFS_neighbours_p0 rng N k i u st :
  uniform_range rng → 0 <= i → i + Z.of_nat k <= N → N < 64 →
  0 <= u < 2 ^ N → base.length (dfs_visited st) = Z.to_nat (2 ^ N) →
  ∃ pos', DFS_neighbours rng 0 k i u st
          = Done (mk_dfs (dfs_stack st) (dfs_visited st) (dfs_error st)
                    (dfs_pyerr st) pos' (dfs_size st)).
Proof.
  intros Hrng. revert i st. induction k as [|k IH]; intros i st Hi Hk HN Hu Hv; simpl.
  { exists (dfs_pos st). by destruct st. }
  destruct (Z.leb_spec 64 i); [lia|].
  assert (Hvr : 0 <= Z.lxor u (Z.shiftl 1 i) < 2 ^ N) by (apply lxor_bit_range; lia).
  destruct (site_index _ _ _ Hv Hvr) as [b Hb]. rewrite Hb.
  destruct b.
  - apply IH; try done; lia.
  - rewrite Qltb_zero by apply Hrng.
    match goal with |- context [DFS_neighbours rng 0 k (i + 1) u ?st1] =>
      destruct (IH (i + 1) st1) as [pos' Hpos']; try done; try lia end.
    rewrite Hpos'. simpl. by exists pos'.
Qed.

Lemma uniform_always_zero : uniform_range (always 0).
Proof. intros k. unfold always. split; [apply Qle_refl | reflexivity]. Qed.

(** C7: with [p = 0] a traversal by [DFS_hypercube] from an unmarked seed,
    entered with an empty stack of capacity at least one and a clear error
    flag, returns cluster size exactly 1, for every dimension [N < 64], every
    seed and every sequence of variates in [[0,1)]. *)
Theorem DFS_hypercube_p0_size_one rng N s visited seed error pyerr pos :
  uniform_range rng → 0 <= N < 64 → 0 <= seed < 2 ^ N →
  stack_wf s → stack_top s = 0 → 0 < stack_length s →
  base.length visited = Z.to_nat (2 ^ N) →
  visited !! Z.to_nat seed = Some false → error ≠ -1 →
  ∃ st, DFS_hypercube rng 0 N s visited seed error pyerr pos = Done st ∧
        dfs_size st = 1 ∧
        DFS_result (DFS_hypercube rng 0 N s visited seed error pyerr pos) = Some 1.
Proof.
  intros Hrng HN Hseed Hs Htop Hcap Hv Hseen Herr.
  unfold DFS_hypercube. rewrite Htop. simpl.
  destruct (push_ok s seed Hs ltac:(lia)) as (s1 & Hp & Hs1 & Ht1 & Hl1 & Hsl1).
  rewrite Hp. unfold DFS_fuel. simpl DFS_loop. rewrite Ht1, Htop. simpl.
  unfold DFS_body. simpl.
  destruct (pop_ok s1 error Hs1 ltac:(lia)) as (u & s2 & Hp2 & Hs2 & Ht2 & Hl2 & Hsl2).
  rewrite Hp2.
  assert (Hu : u = seed).
  { rewrite Hsl1 in Hsl2. unfold slist in Hsl2. rewrite Htop in Hsl2.
    replace (Z.to_nat (stack_top s2)) with 0%nat in Hsl2 by lia.
    simpl in Hsl2. congruence. }
  subst u. destruct (Z.eqb_spec error (-1)); [done|]. simpl. rewrite Hseen.
  match goal with |- context [DFS_neighbours rng 0 ?k 0 seed ?st1] =>
    destruct (DFS_neighbours_p0 rng N k 0 seed st1) as [pos' Hn]; try done; try lia end.
  { simpl. by rewrite length_insert. }
  rewrite Hn. simpl.
  destruct (Z.to_nat N * _)%nat; simpl;
    (destruct (Z.ltb_spec 0 (stack_top s2)); [lia|]);
    eexists; split_ands; reflexivity.
Qed.

Lemma DFS_hypercube_p0_size_one_witness :
  ∃ st, DFS_hypercube (always 0) 0 2 (setup_stack 4) (reset_visited [] 4) 3 0 None 0
        = Done st ∧ dfs_size st = 1 ∧
        DFS_result (DFS_hypercube (always 0) 0 2 (setup_stack 4) (reset_visited [] 4)
                      3 0 None 0) = Some 1.
Proof.
  apply (DFS_hypercube_p0_size_one (always 0) 2 (setup_stack 4) (reset_visited [] 4)
           3 0 None 0%nat).
  - apply uniform_always_zero.
  - lia.
  - simpl; lia.
  - apply setup_stack_wf; lia.
  - reflexivity.
  - simpl; lia.
  - reflexivity.
  - reflexivity.
  - lia.
Defined.

(** ** grow_H_cluster: the shape of a run *)

Lemma push_inv (s s' : stack) (x r : Z) :
  push s x = (s', r) → r ≠ 1 → stack_top s < stack_length s ∧ r = 0.
Proof.
  unfold push. destruct (Z.ltb_spec (stack_top s) (stack_length s)).
  - intros [= <- <-] _. done.
  - intros [= <- <-] Hr. done.
Qed.

Lemma grow_neighbours_rule rng p u (P : Z → grow_state → Prop) :
  ∀ k i st st',
    (∀ j st st1, i <= j < i + Z.of_nat k → P j st →
                 grow_edge rng p j u st = Done st1 → P (j + 1) st1) →
    P i st → grow_neighbours rng p k i u st = Done st' →
    P (i + Z.of_nat k) st'.
Proof.
  induction k as [|k IH]; intros i st st' Hstep HP; simpl.
  - intros [= <-]. by rewrite Z.add_0_r.
  - destruct (grow_edge rng p i u st) as [st1| | |] eqn:He; try done.
    intros Hn. replace (i + Z.of_nat (S k)) with (i + 1 + Z.of_nat k) by lia.
    eapply IH; [| |exact Hn].
    + intros j st2 st3 Hj. apply Hstep. lia.
    + eapply Hstep; [|eassumption..]. lia.
Qed.

Lemma grow_loop_rule rng p N cidx (P : grow_state → Prop) :
  (∀ st st1, P st → 0 < stack_top (g_stack st) →
             grow_body rng p N cidx st = Done st1 → P st1) →
  ∀ fuel st st', P st → grow_loop rng p N cidx fuel st = Done st' →
                 P st' ∧ stack_top (g_stack st') <= 0.
Proof.
  intros Hstep. induction fuel as [|fuel IH]; intros st st' HP; simpl; [done|].
  destruct (Z.ltb_spec 0 (stack_top (g_stack st))) as [Htop|Htop].
  - destruct (grow_body rng p N cidx st) as [st1| | |] eqn:Hb; try done.
    intros Hl. eapply IH; [|exact Hl]. eapply Hstep; eassumption.
  - intros [= <-]. done.
Qed.

Lemma grow_edge_done rng p i u st st1 :
  grow_edge rng p i u st = Done st1 →
  i < 64 ∧
  ((g_visited st !! Z.to_nat (Z.lxor u (Z.shiftl 1 i)) = Some true ∧ st1 = st) ∨
   (g_visited st !! Z.to_nat (Z.lxor u (Z.shiftl 1 i)) = Some false ∧
    nd_in_range (g_matrix st) u (Z.lxor u (Z.shiftl 1 i)) = true ∧
    nd_in_range (g_matrix st) (Z.lxor u (Z.shiftl 1 i)) u = true ∧
    ∃ s' x,
      ((x = connected ∧ push (g_stack st) (Z.lxor u (Z.shiftl 1 i)) = (s', 0) ∧
        stack_top (g_stack st) < stack_length (g_stack st)) ∨
       (x = disconnected ∧ s' = g_stack st)) ∧
      st1 = mk_grow s' (g_visited st)
              (nd_set (nd_set (g_matrix st) u (Z.lxor u (Z.shiftl 1 i)) x)
                 (Z.lxor u (Z.shiftl 1 i)) u x)
              (g_labels st) (g_error_flag st) (g_pyerr st) (S (g_pos st))
              (g_size st))).
Proof.
  unfold grow_edge. destruct (Z.leb_spec 64 i); [done|].
  set (v := Z.lxor u (Z.shiftl 1 i)).
  destruct (g_visited st !! Z.to_nat v) as [[]|] eqn:Hv; try done.
  { intros [= <-]. split; [done|]. by left. }
  destruct (nd_in_range (g_matrix st) u v) eqn:Hr1; simpl; [|done].
  destruct (nd_in_range (g_matrix st) v u) eqn:Hr2; simpl; [|done].
  destruct (Qltb (rng (g_pos st)) p).
  - destruct (push (g_stack st) v) as [s' r] eqn:Hp.
    destruct (Z.eqb_spec r 1); [done|].
    destruct (push_inv _ _ _ _ Hp) as [Hlt ->]; [done|].
    intros [= <-]. split; [done|]. right. split_ands; try done.
    exists s', connected. split; [|done]. left. done.
  - intros [= <-]. split; [done|]. right. split_ands; try done.
    exists (g_stack st), disconnected. split; [|done]. right. done.
Qed.

Lemma grow_body_done rng p N cidx st st1 :
  stack_wf (g_stack st) → 0 < stack_top (g_stack st) →
  grow_body rng p N cidx st = Done st1 →
  ∃ u s',
    slist (g_stack st) = slist s' ++ [u] ∧ stack_wf s' ∧
    stack_top s' = stack_top (g_stack st) - 1 ∧
    stack_length s' = stack_length (g_stack st) ∧
    ((g_visited st !! Z.to_nat u = Some true ∧
      st1 = mk_grow s' (g_visited st) (g_matrix st) (g_labels st)
              (g_error_flag st) (g_pyerr st) (g_pos st) (g_size st)) ∨
     (g_visited st !! Z.to_nat u = Some false ∧
      ∃ labels', write_label (g_labels st) u cidx = Some labels' ∧
        grow_neighbours rng p (Z.to_nat N) 0 u
          (mk_grow s' (<[Z.to_nat u := true]> (g_visited st)) (g_matrix st)
             labels' (g_error_flag st) (g_pyerr st) (g_pos st)
             (wrap (g_size st + 1))) = Done st1)).
Proof.
  intros Hs Htop. unfold grow_body.
  destruct (pop_ok (g_stack st) (g_error_flag st) Hs Htop)
    as (u & s' & Hp & Hs' & Ht' & Hl' & Hsl).
  rewrite Hp. simpl.
  destruct (Z.eqb_spec (g_error_flag st) (-1)); [done|].
  destruct (g_visited st !! Z.to_nat u) as [[]|] eqn:Hv; try done.
  - intros [= <-]. exists u, s'. split_ands; try done. by left.
  - destruct (write_label (g_labels st) u cidx) as [labels'|] eqn:Hw; [|done].
    intros Hn. exists u, s'. split_ands; try done. right. split; [done|].
    by exists labels'.
Qed.

(** ** Matrices *)

Lemma nd_get_set (a : ndarray) (i j x i' j' : Z) :
  nd_get (nd_set a i j x) i' j'
  = if decide ((i, j) = (i', j')) then x else nd_get a i' j'.
Proof.
  unfold nd_get, nd_set; simpl. rewrite lookup_insert.
  by destruct (decide ((i, j) = (i', j'))).
Qed.

Lemma nd_get_set2 (a : ndarray) (u v x i j : Z) :
  nd_get (nd_set (nd_set a u v x) v u x) i j
  = if decide ((i, j) = (u, v) ∨ (i, j) = (v, u)) then x else nd_get a i j.
Proof.
  rewrite !nd_get_set.
  destruct (decide ((v, u) = (i, j))) as [E1|E1];
    destruct (decide ((u, v) = (i, j))) as [E2|E2];
    destruct (decide ((i, j) = (u, v) ∨ (i, j) = (v, u))) as [E3|E3];
    try done; exfalso; apply E3 || (destruct E3; congruence); auto.
Qed.

Lemma nd_set2_symmetric (a : ndarray) (u v x : Z) :
  symmetric a → symmetric (nd_set (nd_set a u v x) v u x).
Proof.
  intros Ha i j. rewrite !nd_get_set2.
  destruct (decide ((i, j) = (u, v) ∨ (i, j) = (v, u))) as [E1|E1];
    destruct (decide ((j, i) = (u, v) ∨ (j, i) = (v, u))) as [E2|E2]; try done.
  - exfalso. apply E2. destruct E1 as [[= -> ->]|[= -> ->]]; auto.
  - exfalso. apply E1. destruct E2 as [[= -> ->]|[= -> ->]]; auto.
Qed.

Lemma zeros_symmetric (r c : Z) : symmetric (PyArray_ZEROS r c).
Proof. intros i j. unfold nd_get, PyArray_ZEROS; simpl. by rewrite !lookup_empty. Qed.

(** ** grow_H_cluster: what a run keeps true *)

Lemma grow_inv_refl NH cidx st :
  grow_wf NH st → 0 <= g_size st <= Z.of_nat (marked (g_visited st)) →
  grow_inv NH cidx st st.
Proof.
  intros Hwf Hsz. unfold grow_inv.
  split_ands; try done; try lia; try tauto.
  intros i H1 H2. congruence.
Qed.

Lemma grow_edge_inv rng p N cidx st0 u i st st1 :
  0 <= N < 64 → 0 <= i < N → 0 <= u < 2 ^ N →
  grow_inv (2 ^ N) cidx st0 st →
  g_visited st0 !! Z.to_nat u ≠ Some true →
  grow_edge rng p i u st = Done st1 →
  grow_inv (2 ^ N) cidx st0 st1 ∧ g_visited st1 = g_visited st ∧
  g_labels st1 = g_labels st ∧ g_size st1 = g_size st ∧
  slist (g_stack st) `prefix_of` slist (g_stack st1).
Proof.
  intros HN Hi Hu Hinv Hu0 He.
  destruct (grow_edge_done _ _ _ _ _ _ He)
    as [_ [[Hv ->] | (Hv & Hr1 & Hr2 & s' & x & Hcase & ->)]].
  { split_ands; done. }
  set (v := Z.lxor u (Z.shiftl 1 i)) in *.
  assert (Hvr : 0 <= v < 2 ^ N) by (apply lxor_bit_range; lia).
  destruct Hinv as (Hwf & Hmono & Hsz & Hcnt & Hlab1 & Hlab2 & Hfr & Hsym & Herr & Hpy & Hnone & Hcap).
  destruct Hwf as (Hs & Hlen & Hrange & Hrows & Hcols & Hll).
  assert (Hstack : stack_wf s' ∧ sites_in_range (2 ^ N) (slist s') ∧
                   slist (g_stack st) `prefix_of` slist s' ∧
                   stack_length s' = stack_length (g_stack st)).
  { destruct Hcase as [(_ & Hp & Hlt) | (_ & ->)]; [|done].
    destruct (push_ok (g_stack st) v Hs Hlt) as (s'' & Hp' & Hs'' & _ & Hl'' & Hsl).
    rewrite Hp in Hp'. injection Hp' as <-. split_ands; [done| | |done].
    - rewrite Hsl. apply Forall_app. split; [done|]. by apply Forall_singleton.
    - rewrite Hsl. by apply prefix_app_r. }
  destruct Hstack as (Hs' & Hrange' & Hpre & Hcap').
  split; [|split_ands; simpl; done].
  unfold grow_inv, grow_wf. split_ands; simpl; try done; try lia.
  - intros a b Ha. rewrite !nd_get_set2.
    assert (a ≠ u) by (intros ->; done).
    assert (a ≠ v).
    { intros ->. apply Hmono in Ha. congruence. }
    destruct (decide ((a, b) = (u, v) ∨ (a, b) = (v, u))) as [[E|E]|_];
      [by injection E | by injection E |].
    destruct (decide ((b, a) = (u, v) ∨ (b, a) = (v, u))) as [[E|E]|_];
      [by injection E | by injection E |].
    by apply Hfr.
  - intros H. by apply nd_set2_symmetric, Hsym.
Qed.

Lemma grow_neighbours_inv rng p N cidx st0 u k i st st' :
  0 <= N < 64 → 0 <= i → i + Z.of_nat k <= N → 0 <= u < 2 ^ N →
  grow_inv (2 ^ N) cidx st0 st →
  g_visited st0 !! Z.to_nat u ≠ Some true →
  grow_neighbours rng p k i u st = Done st' →
  grow_inv (2 ^ N) cidx st0 st' ∧ g_visited st' = g_visited st ∧
  g_labels st' = g_labels st ∧ g_size st' = g_size st ∧
  slist (g_stack st) `prefix_of` slist (g_stack st').
Proof.
  intros HN Hi Hk Hu Hinv Hu0 Hn.
  apply (grow_neighbours_rule rng p u
           (λ _ s, grow_inv (2 ^ N) cidx st0 s ∧ g_visited s = g_visited st ∧
                   g_labels s = g_labels st ∧ g_size s = g_size st ∧
                   slist (g_stack st) `prefix_of` slist (g_stack s))
           k i st st'); [|done|done].
  intros j s s1 Hj (Hinv1 & Hv1 & Hl1 & Hz1 & Hp1) He.
  destruct (grow_edge_inv rng p N cidx st0 u j s s1) as (? & ? & ? & ? & ?);
    try done; try lia.
  split_ands; try done; try congruence.
  by etrans.
Qed.

Lemma write_label_some labels u c labels' :
  write_label labels u c = Some labels' →
  (labels = None ∧ labels' = None) ∨
  (∃ l, labels = Some l ∧ (Z.to_nat u < base.length l)%nat ∧
        labels' = Some (<[Z.to_nat u := c]> l)).
Proof.
  unfold write_label. destruct labels as [l|].
  - destruct (Nat.ltb_spec (Z.to_nat u) (base.length l)); [|done].
    intros [= <-]. right. by exists l.
  - intros [= <-]. by left.
Qed.

Lemma grow_body_inv rng p N cidx st0 st st1 :
  0 <= N < 64 → grow_inv (2 ^ N) cidx st0 st →
  0 < stack_top (g_stack st) →
  grow_body rng p N cidx st = Done st1 →
  grow_inv (2 ^ N) cidx st0 st1 ∧
  (∀ x, x ∈ slist (g_stack st) →
        x ∈ slist (g_stack st1) ∨ g_visited st1 !! Z.to_nat x = Some true).
Proof.
  intros HN Hinv Htop Hb.
  pose proof Hinv as (Hwf & Hmono & Hsz & Hcnt & Hlab1 & Hlab2 & Hfr & Hsym & Herr & Hpy & Hnone & Hcap).
  pose proof Hwf as (Hs & Hlen & Hrange & Hrows & Hcols & Hll).
  destruct (grow_body_done _ _ _ _ _ _ Hs Htop Hb)
    as (u & s' & Hsl & Hs' & Ht' & Hl' & Hcase).
  rewrite Hsl in Hrange. apply Forall_app in Hrange as [Hrange Hu].
  rewrite Forall_singleton in Hu.
  destruct Hcase as [[Hv ->] | (Hv & labels' & Hw & Hn)].
  - split.
    + unfold grow_inv, grow_wf. split_ands; simpl; try done; try lia.
    + intros x Hx. simpl. rewrite Hsl in Hx. apply elem_of_app in Hx as [Hx|Hx]; [by left|].
      apply list_elem_of_singleton in Hx as ->. by right.
  - assert (Hu0 : g_visited st0 !! Z.to_nat u ≠ Some true).
    { intros H. apply Hmono in H. congruence. }
    pose proof (marked_insert _ _ Hv) as Hmi.
    pose proof (marked_le (<[Z.to_nat u := true]> (g_visited st))) as Hmle.
    rewrite length_insert, Hmi in Hmle.
    pose proof (pow2_le_modulus N HN) as [Hp0 Hp1]. pose proof ULONG_MAX_eq.
    assert (Hlt : (Z.to_nat u < base.length (g_visited st))%nat) by lia.
    match type of Hn with grow_neighbours _ _ _ _ _ ?st2 = _ =>
      assert (Hinv2 : grow_inv (2 ^ N) cidx st0 st2) end.
    { unfold grow_inv, grow_wf. simpl. rewrite length_insert, Hmi.
      rewrite wrap_small by lia.
      assert (Hlab : ∀ i, i ≠ Z.to_nat u →
                label_at labels' i = label_at (g_labels st) i).
      { intros i Hne.
        destruct (write_label_some _ _ _ _ Hw) as [[E ->]|(l & E & Hl & ->)];
          rewrite E; [done|]. simpl. by rewrite list_lookup_insert_ne. }
      assert (Hlabu : labelled labels' (Z.to_nat u) cidx).
      { destruct (write_label_some _ _ _ _ Hw) as [[E ->]|(l & E & Hl & ->)]; [done|].
        simpl. by apply list_lookup_insert_eq. }
      assert (Hlabl : labels_len (2 ^ N) labels').
      { destruct (write_label_some _ _ _ _ Hw) as [[E ->]|(l & E & Hl & ->)]; [done|].
        simpl. rewrite length_insert. by rewrite E in Hll. }
      split_ands; try done; try lia.
      - intros i Hi. destruct (decide (i = Z.to_nat u)) as [->|Hne].
        + by apply list_lookup_insert_eq.
        + rewrite list_lookup_insert_ne by done. by apply Hmono.
      - intros i Hi. destruct (decide (i = Z.to_nat u)) as [->|Hne].
        + rewrite list_lookup_insert_eq in Hi by done. symmetry in Hi. done.
        + rewrite list_lookup_insert_ne in Hi by done.
          rewrite Hlab by done. by apply Hlab1.
      - intros i Hi0 Hi. destruct (decide (i = Z.to_nat u)) as [->|Hne]; [done|].
        rewrite list_lookup_insert_ne in Hi by done.
        specialize (Hlab2 i Hi0 Hi). specialize (Hlab i Hne).
        unfold labelled, label_at in *.
        destruct labels', (g_labels st); try done; congruence.
      - intros E. specialize (Hnone E). rewrite Hnone in Hw. simpl in Hw. congruence. }
    destruct (grow_neighbours_inv rng p N cidx st0 u (Z.to_nat N) 0 _ st1 HN ltac:(lia) ltac:(lia)
                Hu Hinv2 Hu0 Hn) as (Hinv1 & Hv1 & _ & _ & Hpre).
    split; [done|]. simpl in *.
    intros x Hx. rewrite Hsl in Hx. apply elem_of_app in Hx as [Hx|Hx].
    + left. destruct Hpre as [l ->]. apply elem_of_app. by left.
    + apply list_elem_of_singleton in Hx as ->. right. rewrite Hv1.
      by apply list_lookup_insert_eq.
Qed.

Lemma grow_loop_inv rng p N cidx st0 fuel st st' :
  0 <= N < 64 → grow_inv (2 ^ N) cidx st0 st →
  grow_loop rng p N cidx fuel st = Done st' →
  grow_inv (2 ^ N) cidx st0 st'.
Proof.
  intros HN Hinv Hl.
  apply (grow_loop_rule rng p N cidx (grow_inv (2 ^ N) cidx st0)) in Hl as [? _];
    [done| |done].
  intros s s1 Hs Ht Hb. by destruct (grow_body_inv _ _ _ _ _ _ _ HN Hs Ht Hb).
Qed.

Lemma grow_loop_spec rng p N cidx st0 fuel st st' :
  0 <= N < 64 → grow_inv (2 ^ N) cidx st0 st →
  grow_loop rng p N cidx fuel st = Done st' →
  grow_inv (2 ^ N) cidx st0 st' ∧ stack_top (g_stack st') = 0 ∧
  (∀ x, x ∈ slist (g_stack st) → g_visited st' !! Z.to_nat x = Some true).
Proof.
  intros HN. revert st. induction fuel as [|fuel IH]; intros st Hinv; simpl; [done|].
  destruct (Z.ltb_spec 0 (stack_top (g_stack st))) as [Htop|Htop].
  - destruct (grow_body rng p N cidx st) as [st1| | |] eqn:Hb; try done.
    intros Hl.
    destruct (grow_body_inv _ _ _ _ _ _ _ HN Hinv Htop Hb) as [Hinv1 Hmem].
    destruct (IH st1 Hinv1 Hl) as (Hinv' & Htop' & Hvis).
    split_ands; try done.
    intros x Hx. destruct (Hmem x Hx) as [H|H]; [by apply Hvis|].
    assert (Hr : grow_inv (2 ^ N) cidx st1 st1) by (apply grow_inv_refl; apply Hinv1).
    pose proof (grow_loop_inv _ _ _ _ _ _ _ _ HN Hr Hl) as (_ & Hm & _).
    by apply Hm.
  - intros [= <-]. pose proof Hinv as (((? & ?) & _) & _).
    split_ands; try done; try lia.
    intros x Hx. unfold slist in Hx.
    replace (Z.to_nat (stack_top (g_stack st))) with 0%nat in Hx by lia.
    simpl in Hx. by apply elem_of_nil in Hx.
Qed.

Lemma grow_H_cluster_unfold rng p N st start cidx :
  stack_top (g_stack st) = 0 →
  grow_H_cluster rng p N st start cidx
  = let st1 := mk_grow (push (g_stack st) start).1 (g_visited st) (g_matrix st)
                 (g_labels st) (g_error_flag st) (g_pyerr st) (g_pos st)
                 (g_size st) in
    grow_loop rng p N cidx (grow_fuel N st1) st1.
Proof.
  intros Htop. unfold grow_H_cluster. rewrite Htop. simpl negb. cbv iota.
  by destruct (push (g_stack st) start).
Qed.

Lemma grow_H_cluster_spec rng p N cidx st start st' :
  0 <= N < 64 → grow_wf (2 ^ N) st → g_size st = 0 → 0 <= start < 2 ^ N →
  grow_H_cluster rng p N st start cidx = Done st' →
  stack_top (g_stack st) = 0 ∧
  grow_inv (2 ^ N) cidx st st' ∧ stack_top (g_stack st') = 0 ∧
  (0 < stack_length (g_stack st) → g_visited st' !! Z.to_nat start = Some true).
Proof.
  intros HN Hwf Hsz Hstart.
  destruct (Z.eq_dec (stack_top (g_stack st)) 0) as [Htop|Htop].
  2: { unfold grow_H_cluster.
       destruct (Z.eqb_spec (stack_top (g_stack st)) 0) as [E|E]; [done|].
       simpl. done. }
  rewrite grow_H_cluster_unfold by done. cbv zeta.
  pose proof Hwf as (Hs & Hlen & Hrange & Hrows & Hcols & Hll).
  destruct (Z.lt_ge_cases (stack_top (g_stack st)) (stack_length (g_stack st)))
    as [Hlt|Hge].
  - destruct (push_ok (g_stack st) start Hs Hlt) as (s1 & Hp & Hs1 & Ht1 & Hl1 & Hsl1).
    rewrite Hp. simpl fst. intros Hl.
    match type of Hl with grow_loop _ _ _ _ _ ?st1 = _ =>
      assert (Hinv : grow_inv (2 ^ N) cidx st st1) end.
    { unfold grow_inv, grow_wf. simpl.
      split_ands; try done; try lia; try (intros; congruence).
      rewrite Hsl1. apply Forall_app. split; [done|]. by apply Forall_singleton. }
    destruct (grow_loop_spec _ _ _ _ _ _ _ _ HN Hinv Hl) as (Hinv' & Htop' & Hvis).
    split_ands; try done. intros _. apply Hvis. simpl. rewrite Hsl1.
    apply elem_of_app. right. by apply list_elem_of_singleton.
  - rewrite push_full by done. simpl fst. intros Hl.
    match type of Hl with grow_loop _ _ _ _ _ ?st1 = _ =>
      assert (Hinv : grow_inv (2 ^ N) cidx st st1) end.
    { unfold grow_inv, grow_wf. simpl.
      split_ands; try done; try lia; intros; congruence. }
    destruct (grow_loop_spec _ _ _ _ _ _ _ _ HN Hinv Hl) as (Hinv' & Htop' & Hvis).
    split_ands; try done. lia.
Qed.

Lemma marked_mono_strict (v v' : list bool) (j : nat) :
  base.length v = base.length v' →
  (∀ i, v !! i = Some true → v' !! i = Some true) →
  v !! j = Some false → v' !! j = Some true →
  (marked v < marked v')%nat.
Proof.
  revert v' j. induction v as [|b v IH]; intros [|b' v'] j Hl Hm Hj Hj'; try done.
  assert (Hle : ∀ (w w' : list bool), base.length w = base.length w' →
            (∀ i, w !! i = Some true → w' !! i = Some true) →
            (marked w ≤ marked w')%nat).
  { clear. induction w as [|c w IHw]; intros [|c' w'] Hl Hm; try done.
    simpl in *. specialize (IHw w' ltac:(lia) (λ i, Hm (S i))).
    destruct c.
    - specialize (Hm 0%nat eq_refl). simpl in Hm. injection Hm as ->. lia.
    - destruct c'; lia. }
  simpl in Hl. destruct j as [|j]; simpl in *.
  - injection Hj as ->. injection Hj' as ->.
    specialize (Hle v v' ltac:(lia) (λ i, Hm (S i))). lia.
  - specialize (IH v' j ltac:(lia) (λ i, Hm (S i)) Hj Hj').
    destruct b.
    + specialize (Hm 0%nat eq_refl). simpl in Hm. injection Hm as ->. lia.
    + destruct b'; lia.
Qed.

(** ** The enumeration of clusters, for any engine

    [Inv] holds of the buffers between two clusters; [stable L e e'] says
    that what is copied out for the cluster of index [L] is the same in [e]
    and [e']. *)
Section EnumerateFacts.
Context {E : Type}.
Variable visited_of : E → list bool.
Variable grow_one : Z → Z → E → run (E * Z).
Variable NH : Z.
Variable Inv : E → Prop.
Variable stable : Z → E → E → Prop.

Hypothesis NH_range : 0 < NH ∧ NH + 1 < ULONG_MAX.
Hypothesis Inv_length : ∀ e, Inv e → base.length (visited_of e) = Z.to_nat NH.
Hypothesis stable_refl : ∀ L e, stable L e e.
Hypothesis stable_trans : ∀ L e1 e2 e3, stable L e1 e2 → stable L e2 e3 → stable L e1 e3.
Hypothesis grow_one_spec :
  ∀ site cidx e e' sz,
    Inv e → 0 <= site < NH → 0 <= cidx < NH →
    visited_of e !! Z.to_nat site = Some false →
    grow_one site cidx e = Done (e', sz) →
    Inv e' ∧
    Z.of_nat (marked (visited_of e')) = Z.of_nat (marked (visited_of e)) + sz ∧
    1 <= sz ∧
    (∀ L, 0 <= L < NH → L ≠ cidx → stable L e e').

Lemma lc_update_inv e e' c sz site :
  Inv e → Inv e' → lc_inv (visited_of e) c site → 0 <= site < NH → 1 <= sz →
  Z.of_nat (marked (visited_of e')) = Z.of_nat (marked (visited_of e)) + sz →
  lc_inv (visited_of e') (lc_update c sz) (site + 1) ∧
  largest_cluster_index (lc_update c sz) < cluster_index (lc_update c sz) ∧
  total_size (lc_update c sz) = total_size c + sz ∧
  cluster_index (lc_update c sz) = cluster_index c + 1.
Proof.
  intros He He' (Ht & Hc & Hli & Hls & Hl) Hsite Hsz Hm.
  pose proof (marked_le (visited_of e')) as Hle.
  rewrite (Inv_length e' He') in Hle.
  pose proof ULONG_MAX_eq.
  unfold lc_update.
  assert (Hw1 : wrap (total_size c + sz) = total_size c + sz) by (apply wrap_small; lia).
  assert (Hw2 : wrap (cluster_index c + 1) = cluster_index c + 1) by (apply wrap_small; lia).
  rewrite Hw1, Hw2.
  destruct (Z.ltb_spec (largest_cluster_size c) sz); unfold lc_inv; simpl;
    split_ands; try lia.
Qed.

(** Once the exit test holds, going on changes neither the largest
    cluster nor what is copied out for it. *)
Lemma enumerate_after_exit k site e c e2 c2 :
  Inv e → lc_inv (visited_of e) c site → 0 <= site → site + Z.of_nat k = NH →
  lc_exit NH c = true → largest_cluster_index c < cluster_index c →
  enumerate visited_of grow_one NH false k site e c = Done (e2, c2) →
  largest_cluster_index c2 = largest_cluster_index c ∧
  largest_cluster_size c2 = largest_cluster_size c ∧
  stable (largest_cluster_index c) e e2.
Proof.
  revert site e c. induction k as [|k IH]; intros site e c He Hc Hsite Hk Hexit Hlt; simpl.
  { intros [= <- <-]. split_ands; try done. }
  destruct (visited_of e !! Z.to_nat site) as [[]|] eqn:Hv; try done.
  { apply IH; try done; try lia.
    destruct Hc as (? & ? & ? & ? & ?). unfold lc_inv. split_ands; try done; lia. }
  destruct (grow_one site (cluster_index c) e) as [[e' sz]| | |] eqn:Hg; try done.
  pose proof Hc as (Ht & Hci & Hli & Hls & Hl).
  destruct (grow_one_spec site (cluster_index c) e e' sz He ltac:(lia) ltac:(lia) Hv Hg)
    as (He' & Hm & Hsz & Hst).
  destruct (lc_update_inv e e' c sz site He He' Hc ltac:(lia) Hsz Hm)
    as (Hc' & Hlt' & Ht' & Hci').
  pose proof (marked_le (visited_of e')) as Hle.
  rewrite (Inv_length e' He') in Hle.
  pose proof ULONG_MAX_eq.
  unfold lc_exit in Hexit. apply Z.leb_le in Hexit.
  rewrite wrap_small in Hexit by lia.
  assert (Hkeep : lc_update c sz
                  = mk_lc (largest_cluster_index c) (largest_cluster_size c)
                      (cluster_index c + 1) (total_size c + sz)).
  { unfold lc_update.
    rewrite !wrap_small by lia.
    destruct (Z.ltb_spec (largest_cluster_size c) sz); [lia|done]. }
  intros Hrest.
  destruct (IH (site + 1) e' (lc_update c sz)) as (H1 & H2 & H3);
    try done; try lia.
  { unfold lc_exit. apply Z.leb_le. rewrite Hkeep. simpl.
    rewrite wrap_small by lia. lia. }
  rewrite Hkeep in H1, H2, H3. simpl in *.
  split_ands; try done.
  eapply stable_trans; [|exact H3]. apply Hst; lia.
Qed.

(** The early exit selects what the exhaustive enumeration selects. *)
Lemma enumerate_early_exit k site e c e2 c2 :
  Inv e → lc_inv (visited_of e) c site → 0 <= site → site + Z.of_nat k = NH →
  enumerate visited_of grow_one NH false k site e c = Done (e2, c2) →
  ∃ e1 c1,
    enumerate visited_of grow_one NH true k site e c = Done (e1, c1) ∧
    largest_cluster_index c1 = largest_cluster_index c2 ∧
    largest_cluster_size c1 = largest_cluster_size c2 ∧
    0 <= largest_cluster_index c1 < NH ∧
    stable (largest_cluster_index c1) e1 e2.
Proof.
  revert site e c. induction k as [|k IH]; intros site e c He Hc Hsite Hk; simpl.
  { intros [= <- <-]. exists e, c. split_ands; try done; try apply Hc.
    destruct Hc as (? & ? & ? & ? & ?). lia. }
  destruct (visited_of e !! Z.to_nat site) as [[]|] eqn:Hv; try done.
  { apply IH; try done; try lia.
    destruct Hc as (? & ? & ? & ? & ?). unfold lc_inv. split_ands; try done; lia. }
  destruct (grow_one site (cluster_index c) e) as [[e' sz]| | |] eqn:Hg; try done.
  pose proof Hc as (Ht & Hci & Hli & Hls & Hl).
  destruct (grow_one_spec site (cluster_index c) e e' sz He ltac:(lia) ltac:(lia) Hv Hg)
    as (He' & Hm & Hsz & Hst).
  destruct (lc_update_inv e e' c sz site He He' Hc ltac:(lia) Hsz Hm)
    as (Hc' & Hlt' & Ht' & Hci').
  destruct (lc_exit NH (lc_update c sz)) eqn:Hexit; simpl.
  - intros Hrest. exists e', (lc_update c sz).
    destruct (enumerate_after_exit k (site + 1) e' (lc_update c sz) e2 c2)
      as (H1 & H2 & H3); try done; try lia.
    split_ands; try done. { apply Hc'. }
    destruct Hc' as (? & ? & ? & ? & ?). lia.
  - apply IH; try done; lia.
Qed.

(** The enumeration, with or without the exit, keeps the invariants. *)
Lemma enumerate_inv b k site e c e1 c1 :
  Inv e → lc_inv (visited_of e) c site → 0 <= site → site + Z.of_nat k = NH →
  enumerate visited_of grow_one NH b k site e c = Done (e1, c1) →
  Inv e1 ∧ 0 <= largest_cluster_index c1 < NH ∧
  (∃ site', lc_inv (visited_of e1) c1 site' ∧ site' <= NH).
Proof.
  revert site e c. induction k as [|k IH]; intros site e c He Hc Hsite Hk; simpl.
  { intros [= <- <-]. split_ands; try done; try apply Hc.
    - destruct Hc as (? & ? & ? & ? & ?). lia.
    - exists site. split; [done|lia]. }
  destruct (visited_of e !! Z.to_nat site) as [[]|] eqn:Hv; try done.
  { apply IH; try done; try lia.
    destruct Hc as (? & ? & ? & ? & ?). unfold lc_inv. split_ands; try done; lia. }
  destruct (grow_one site (cluster_index c) e) as [[e' sz]| | |] eqn:Hg; try done.
  pose proof Hc as (Ht & Hci & Hli & Hls & Hl).
  destruct (grow_one_spec site (cluster_index c) e e' sz He ltac:(lia) ltac:(lia) Hv Hg)
    as (He' & Hm & Hsz & Hst).
  destruct (lc_update_inv e e' c sz site He He' Hc ltac:(lia) Hsz Hm)
    as (Hc' & Hlt' & Ht' & Hci').
  destruct (b && lc_exit NH (lc_update c sz)) eqn:Hexit; simpl.
  - intros [= <- <-]. split_ands; try done. { apply Hc'. }
    + destruct Hc' as (? & ? & ? & ? & ?). lia.
    + exists (site + 1). split; [done|lia].
  - apply IH; try done; lia.
Qed.
(** With an engine that always returns, so does the enumeration. *)
Hypothesis grow_one_total :
  ∀ site cidx e,
    Inv e → 0 <= site < NH → 0 <= cidx < NH →
    visited_of e !! Z.to_nat site = Some false →
    ∃ e' sz, grow_one site cidx e = Done (e', sz).

Lemma enumerate_total b k site e c :
  Inv e → lc_inv (visited_of e) c site → 0 <= site → site + Z.of_nat k = NH →
  ∃ e1 c1, enumerate visited_of grow_one NH b k site e c = Done (e1, c1).
Proof.
  revert site e c. induction k as [|k IH]; intros site e c He Hc Hsite Hk; simpl.
  { by exists e, c. }
  assert (Hlt : (Z.to_nat site < base.length (visited_of e))%nat).
  { rewrite (Inv_length e He). lia. }
  apply lookup_lt_is_Some in Hlt as [v Hv]. rewrite Hv. destruct v.
  { apply IH; try done; try lia.
    destruct Hc as (? & ? & ? & ? & ?). unfold lc_inv. split_ands; try done; lia. }
  pose proof Hc as (Ht & Hci & Hli & Hls & Hl).
  destruct (grow_one_total site (cluster_index c) e He ltac:(lia) ltac:(lia) Hv)
    as (e' & sz & Hg).
  rewrite Hg.
  destruct (grow_one_spec site (cluster_index c) e e' sz He ltac:(lia) ltac:(lia) Hv Hg)
    as (He' & Hm & Hsz & Hst).
  destruct (lc_update_inv e e' c sz site He He' Hc ltac:(lia) Hsz Hm)
    as (Hc' & Hlt' & Ht' & Hci').
  destruct (b && lc_exit NH (lc_update c sz)); [by eexists _, _|].
  apply IH; try done; lia.
Qed.
End EnumerateFacts.

(** ** grow_H_cluster: links stay within a cluster *)

Lemma grow_edge_edge_inv rng p cidx u i st st1 :
  stack_wf (g_stack st) → edge_inv cidx st →
  g_visited st !! Z.to_nat u = Some true →
  label_at (g_labels st) (Z.to_nat u) = (λ _, cidx) <$> g_labels st →
  grow_edge rng p i u st = Done st1 →
  edge_inv cidx st1.
Proof.
  intros Hs Hinv Hu Hlu He.
  destruct (grow_edge_done _ _ _ _ _ _ He)
    as [_ [[Hv ->] | (Hv & Hr1 & Hr2 & s' & x & Hcase & ->)]]; [done|].
  set (v := Z.lxor u (Z.shiftl 1 i)) in *.
  assert (Hpre : ∀ z, z ∈ slist (g_stack st) → z ∈ slist s').
  { destruct Hcase as [(_ & Hp & Hlt) | (_ & ->)]; [|done].
    destruct (push_ok (g_stack st) v Hs Hlt) as (s'' & Hp' & _ & _ & _ & Hsl).
    rewrite Hp in Hp'. injection Hp' as <-. intros z Hz. rewrite Hsl.
    apply elem_of_app. by left. }
  intros a b. simpl. rewrite nd_get_set2.
  destruct (decide ((a, b) = (u, v) ∨ (a, b) = (v, u))) as [Hab|Hab].
  - intros Hx. destruct Hcase as [(-> & Hp & Hlt) | (-> & _)]; [|done].
    destruct (push_ok (g_stack st) v Hs Hlt) as (s'' & Hp' & _ & _ & _ & Hsl).
    rewrite Hp in Hp'. injection Hp' as <-.
    assert (Hvin : v ∈ slist s').
    { rewrite Hsl. apply elem_of_app. right. by apply list_elem_of_singleton. }
    destruct Hab as [[= -> ->]|[= -> ->]]; [right; left | right; right]; done.
  - intros Hx. destruct (Hinv a b Hx) as [H|[(?&?&?&?)|(?&?&?&?)]].
    + by left.
    + right; left. split_ands; try done. by apply Hpre.
    + right; right. split_ands; try done. by apply Hpre.
Qed.

Lemma grow_neighbours_edge_inv rng p N cidx st0 u k i st st' :
  0 <= N < 64 → 0 <= i → i + Z.of_nat k <= N → 0 <= u < 2 ^ N →
  grow_inv (2 ^ N) cidx st0 st →
  g_visited st0 !! Z.to_nat u ≠ Some true →
  edge_inv cidx st →
  g_visited st !! Z.to_nat u = Some true →
  label_at (g_labels st) (Z.to_nat u) = (λ _, cidx) <$> g_labels st →
  grow_neighbours rng p k i u st = Done st' →
  edge_inv cidx st'.
Proof.
  intros HN Hi Hk Hu Hinv Hu0 Hedge Hvu Hlu Hn.
  apply (grow_neighbours_rule rng p u
           (λ _ s, (grow_inv (2 ^ N) cidx st0 s ∧ g_visited s = g_visited st ∧
                    g_labels s = g_labels st) ∧ edge_inv cidx s)
           k i st st'); [|done|done].
  intros j s s1 Hj ((Hinv1 & Hv1 & Hl1) & Hedge1) He.
  destruct (grow_edge_inv rng p N cidx st0 u j s s1) as (? & ? & ? & ? & ?);
    try done; try lia.
  split; [split_ands; congruence|].
  eapply grow_edge_edge_inv; eauto.
  - apply Hinv1.
  - congruence.
  - congruence.
Qed.

Lemma grow_body_edge_inv rng p N cidx st0 st st1 :
  0 <= N < 64 → grow_inv (2 ^ N) cidx st0 st → edge_inv cidx st →
  0 < stack_top (g_stack st) →
  grow_body rng p N cidx st = Done st1 →
  edge_inv cidx st1.
Proof.
  intros HN Hinv Hedge Htop Hb.
  pose proof Hinv as (Hwf & Hmono & Hsz & Hcnt & Hlab1 & Hlab2 & Hfr & Hsym & Herr & Hpy & Hnone & Hcap).
  pose proof Hwf as (Hs & Hlen & Hrange & Hrows & Hcols & Hll).
  destruct (grow_body_done _ _ _ _ _ _ Hs Htop Hb)
    as (u & s' & Hsl & Hs' & Ht' & Hl' & Hcase).
  rewrite Hsl in Hrange. apply Forall_app in Hrange as [Hrange Hu].
  rewrite Forall_singleton in Hu.
  assert (Hmem : ∀ z, z ∈ slist (g_stack st) → Z.to_nat z ≠ Z.to_nat u → z ∈ slist s').
  { intros z Hz Hne. rewrite Hsl in Hz. apply elem_of_app in Hz as [Hz|Hz]; [done|].
    apply list_elem_of_singleton in Hz as ->. done. }
  destruct Hcase as [[Hv ->] | (Hv & labels' & Hw & Hn)].
  - intros a b Hx. simpl in *.
    destruct (Hedge a b Hx) as [H|[(?&?&?&?)|(?&?&?&?)]].
    + by left.
    + right; left. split_ands; try done. apply Hmem; [done|]. congruence.
    + right; right. split_ands; try done. apply Hmem; [done|]. congruence.
  - assert (Hu0 : g_visited st0 !! Z.to_nat u ≠ Some true).
    { intros H. apply Hmono in H. congruence. }
    assert (Hlt : (Z.to_nat u < base.length (g_visited st))%nat).
    { apply lookup_lt_is_Some. eauto. }
    assert (Hlab : ∀ i, i ≠ Z.to_nat u →
              label_at labels' i = label_at (g_labels st) i).
    { intros i Hne.
      destruct (write_label_some _ _ _ _ Hw) as [[E ->]|(l & E & Hl & ->)];
        rewrite E; [done|]. simpl. by rewrite list_lookup_insert_ne. }
    assert (Hlabu : label_at labels' (Z.to_nat u) = (λ _, cidx) <$> labels').
    { destruct (write_label_some _ _ _ _ Hw) as [[E ->]|(l & E & Hl & ->)]; [done|].
      simpl. by apply list_lookup_insert_eq. }
    assert (Hfm : (λ _ : list Z, cidx) <$> labels' = (λ _, cidx) <$> g_labels st).
    { destruct (write_label_some _ _ _ _ Hw) as [[E ->]|(l & E & Hl & ->)];
        by rewrite E. }
    match type of Hn with grow_neighbours _ _ _ _ _ ?st2 = _ =>
      assert (Hedge2 : edge_inv cidx st2);
      [|assert (Hinv2 : grow_inv (2 ^ N) cidx st0 st2)] end.
    { intros a b Hx. simpl in *.
      assert (Hvis : ∀ z, g_visited st !! Z.to_nat z = Some true →
                <[Z.to_nat u := true]> (g_visited st) !! Z.to_nat z = Some true
                ∧ Z.to_nat z ≠ Z.to_nat u).
      { intros z Hz. assert (Z.to_nat z ≠ Z.to_nat u) by congruence.
        by rewrite list_lookup_insert_ne. }
      assert (Hnew : ∀ z, g_visited st !! Z.to_nat z = Some false →
                Z.to_nat z = Z.to_nat u ∨
                <[Z.to_nat u := true]> (g_visited st) !! Z.to_nat z = Some false).
      { intros z Hz. destruct (decide (Z.to_nat z = Z.to_nat u)); [by left|right].
        by rewrite list_lookup_insert_ne. }
      assert (Hself : <[Z.to_nat u := true]> (g_visited st) !! Z.to_nat u = Some true)
        by by apply list_lookup_insert_eq.
      destruct (Hedge a b Hx) as [(Ha&Hb'&Hl)|[(Ha&Hla&Hb'&Hin)|(Hb'&Hlb&Ha&Hin)]].
      - left. destruct (Hvis a Ha), (Hvis b Hb'). split_ands; try done.
        by rewrite !Hlab.
      - destruct (Hvis a Ha) as [Ha2 Hane]. destruct (Hnew b Hb') as [E|Hb2].
        + left. rewrite E. split_ands; try done.
          rewrite Hlabu, Hlab, Hla by done. done.
        + right; left. split_ands; try done.
          * by rewrite Hlab, Hla.
          * apply Hmem; [done|]. intros E. rewrite E in Hb2. congruence.
      - destruct (Hvis b Hb') as [Hb2 Hbne]. destruct (Hnew a Ha) as [E|Ha2].
        + left. rewrite E. split_ands; try done.
          rewrite Hlabu, Hlab, Hlb by done. done.
        + right; right. split_ands; try done.
          * by rewrite Hlab, Hlb.
          * apply Hmem; [done|]. intros E. rewrite E in Ha2. congruence. }
    { (* the state after the visit keeps [grow_inv]: one pass of the body
         with no neighbour *)
      pose proof (marked_insert _ _ Hv) as Hmi.
      pose proof (marked_le (<[Z.to_nat u := true]> (g_visited st))) as Hmle.
      rewrite length_insert, Hmi in Hmle.
      pose proof (pow2_le_modulus N HN) as [Hp0 Hp1]. pose proof ULONG_MAX_eq.
      unfold grow_inv, grow_wf. simpl. rewrite length_insert, Hmi.
      rewrite wrap_small by lia.
      assert (Hlabl : labels_len (2 ^ N) labels').
      { destruct (write_label_some _ _ _ _ Hw) as [[E ->]|(l & E & Hl & ->)]; [done|].
        simpl. rewrite length_insert. by rewrite E in Hll. }
      split_ands; try done; try lia.
      - intros i Hi. destruct (decide (i = Z.to_nat u)) as [->|Hne].
        + by apply list_lookup_insert_eq.
        + rewrite list_lookup_insert_ne by done. by apply Hmono.
      - intros i Hi. destruct (decide (i = Z.to_nat u)) as [->|Hne].
        + rewrite list_lookup_insert_eq in Hi by done. symmetry in Hi. done.
        + rewrite list_lookup_insert_ne in Hi by done.
          rewrite Hlab by done. by apply Hlab1.
      - intros i Hi0 Hi. destruct (decide (i = Z.to_nat u)) as [->|Hne].
        + unfold labelled. unfold label_at in Hlabu.
          destruct labels'; [|done]. simpl in Hlabu. done.
        + rewrite list_lookup_insert_ne in Hi by done.
          specialize (Hlab2 i Hi0 Hi). specialize (Hlab i Hne).
          unfold labelled, label_at in *.
          destruct labels', (g_labels st); try done; congruence.
      - intros E. specialize (Hnone E). rewrite Hnone in Hw. simpl in Hw. congruence. }
    eapply (grow_neighbours_edge_inv rng p N cidx st0 u (Z.to_nat N) 0); eauto; try lia.
    simpl. by apply list_lookup_insert_eq.
Qed.

Lemma grow_loop_edge_inv rng p N cidx st0 fuel st st' :
  0 <= N < 64 → grow_inv (2 ^ N) cidx st0 st → edge_inv cidx st →
  grow_loop rng p N cidx fuel st = Done st' →
  edge_inv cidx st'.
Proof.
  intros HN Hinv Hedge Hl.
  apply (grow_loop_rule rng p N cidx
           (λ s, grow_inv (2 ^ N) cidx st0 s ∧ edge_inv cidx s)) in Hl as [[_ ?] _];
    [done| |done].
  intros s s1 [Hs He] Ht Hb. split.
  - by destruct (grow_body_inv _ _ _ _ _ _ _ HN Hs Ht Hb).
  - eapply grow_body_edge_inv; eauto.
Qed.

Lemma grow_H_cluster_edges rng p N cidx st start st' :
  0 <= N < 64 → grow_wf (2 ^ N) st → g_size st = 0 → 0 <= start < 2 ^ N →
  edges_within st →
  grow_H_cluster rng p N st start cidx = Done st' →
  edges_within st'.
Proof.
  intros HN Hwf Hsz Hstart Hedges Hg.
  destruct (grow_H_cluster_spec _ _ _ _ _ _ _ HN Hwf Hsz Hstart Hg)
    as (Htop & Hinv & Htop' & _).
  rewrite grow_H_cluster_unfold in Hg by done. cbv zeta in Hg.
  pose proof Hwf as (Hs & Hlen & Hrange & Hrows & Hcols & Hll).
  match type of Hg with grow_loop _ _ _ _ _ ?st1 = _ =>
    assert (Hinv1 : grow_inv (2 ^ N) cidx st st1 ∧ edge_inv cidx st1) end.
  { split.
    - unfold grow_inv, grow_wf. simpl.
      destruct (Z.lt_ge_cases (stack_top (g_stack st)) (stack_length (g_stack st)))
        as [Hlt|Hge].
      + destruct (push_ok (g_stack st) start Hs Hlt) as (s1 & Hp & Hs1 & Ht1 & Hl1 & Hsl1).
        rewrite Hp. simpl.
        split_ands; try done; try lia; try (intros; congruence).
        rewrite Hsl1. apply Forall_app. split; [done|]. by apply Forall_singleton.
      + rewrite push_full by done. simpl.
        split_ands; try done; try lia; intros; congruence.
    - intros a b Hx. left. simpl in *. by apply Hedges. }
  destruct Hinv1 as [Hinv1 Hedge1].
  pose proof (grow_loop_edge_inv _ _ _ _ _ _ _ _ HN Hinv1 Hedge1 Hg) as Hedge'.
  intros a b Hx.
  assert (Hnil : slist (g_stack st') = []).
  { unfold slist. by rewrite Htop'. }
  destruct (Hedge' a b Hx) as [H|[(_&_&_&Hin)|(_&_&_&Hin)]]; [done| |];
    rewrite Hnil in Hin; by apply elem_of_nil in Hin.
Qed.

(** ** hypercube_H_LC: one cluster *)

Lemma grow_one_H_spec rng p N site cidx e e' sz :
  0 <= N < 64 →
  Inv_H N e → 0 <= site < 2 ^ N → 0 <= cidx < 2 ^ N →
  g_visited e !! Z.to_nat site = Some false →
  grow_one_H rng p N site cidx e = Done (e', sz) →
  Inv_H N e' ∧
  Z.of_nat (marked (g_visited e')) = Z.of_nat (marked (g_visited e)) + sz ∧
  1 <= sz ∧
  (∀ L, 0 <= L < 2 ^ N → L ≠ cidx → stable_H N L e e').
Proof.
  intros HN (Hwf & Htop & Hcap & Hsym & Hedges & Hunl) Hsite Hcidx Hv.
  unfold grow_one_H.
  set (st0 := mk_grow (g_stack e) (g_visited e) (g_matrix e) (g_labels e)
                (g_error_flag e) (g_pyerr e) (g_pos e) 0).
  destruct (grow_H_cluster rng p N st0 site cidx) as [st'| | |] eqn:Hg; try done.
  intros [= <- <-].
  assert (Hwf0 : grow_wf (2 ^ N) st0) by exact Hwf.
  destruct (grow_H_cluster_spec _ _ _ _ _ _ _ HN Hwf0 eq_refl Hsite Hg)
    as (_ & Hinv & Htop' & Hstart).
  pose proof (grow_H_cluster_edges _ _ _ _ _ _ _ HN Hwf0 eq_refl Hsite Hedges Hg)
    as Hedges'.
  destruct Hinv as (Hwf' & Hmono & Hsz & Hcnt & Hlab1 & Hlab2 & Hfr & Hsym' & Herr & Hpy & Hnone & Hcap').
  simpl in *. specialize (Hstart Hcap).
  pose proof Hwf as (_ & Hlen & _). pose proof Hwf' as (_ & Hlen' & _).
  pose proof (pow2_le_modulus N HN) as [Hp0 Hp1].
  assert (Hvis : ∀ i, g_visited st' !! i = Some false → g_visited e !! i = Some false).
  { intros i Hi. assert (Hlt : (i < base.length (g_visited e))%nat).
    { apply lookup_lt_Some in Hi. lia. }
    apply lookup_lt_is_Some in Hlt as [[] Hb]; [|done].
    apply Hmono in Hb. congruence. }
  split_ands.
  - unfold Inv_H. split_ands; try done; try lia.
    + by apply Hsym'.
    + intros i Hi. rewrite Hlab1; [|by rewrite Hi, (Hvis i Hi)].
      apply Hunl. by apply Hvis.
  - lia.
  - pose proof (marked_mono_strict (g_visited e) (g_visited st') (Z.to_nat site)
                  ltac:(lia) Hmono Hv Hstart). lia.
  - intros L HL Hne i Hi.
    assert (Hlt : (Z.to_nat i < base.length (g_visited e))%nat) by lia.
    apply lookup_lt_is_Some in Hlt as [b Hb].
    unfold label_is. destruct b.
    + rewrite Hlab1; [|by rewrite Hb, (Hmono _ Hb)].
      split; [done|]. intros _ k. by destruct (Hfr i k Hb) as [-> _].
    + rewrite (Hunl _ Hb).
      assert (Hul : (ULONG_MAX =? L) = false) by (apply Z.eqb_neq; lia).
      rewrite Hul. split; [|done].
      assert (Hlt' : (Z.to_nat i < base.length (g_visited st'))%nat) by lia.
      apply lookup_lt_is_Some in Hlt' as [b' Hb'].
      destruct b'.
      * specialize (Hlab2 _ Hb Hb'). unfold labelled, label_at in *.
        destruct (g_labels st') as [l|]; [|done]. rewrite Hlab2.
        symmetry. apply Z.eqb_neq. congruence.
      * rewrite Hlab1 by congruence. by rewrite (Hunl _ Hb), Hul.
Qed.

(** ** The copy of the largest cluster *)

Lemma nd_get_set_self (h : ndarray) (i k a b : Z) :
  nd_get (nd_set h i k (nd_get h i k)) a b = nd_get h a b.
Proof.
  rewrite nd_get_set. destruct (decide ((i, k) = (a, b))) as [[= -> ->]|]; done.
Qed.

Lemma copy_row_h n k i h lc h' lc' :
  copy_row n k i h lc = Some (h', lc') →
  nd_rows h' = nd_rows h ∧ nd_cols h' = nd_cols h ∧
  nd_rows lc' = nd_rows lc ∧ nd_cols lc' = nd_cols lc ∧
  (∀ a b, nd_get h' a b = nd_get h a b).
Proof.
  revert k h lc. induction n as [|n IH]; intros k h lc; simpl.
  { intros [= <- <-]. done. }
  destruct (2 ^ 31 - 1 <=? k); [done|].
  destruct (nd_in_range h i k && nd_in_range lc k i); [|done].
  intros H. apply IH in H as (? & ? & ? & ? & Hg). simpl in *.
  split_ands; try done. intros a b. rewrite Hg. apply nd_get_set_self.
Qed.

Lemma copy_row_get n k i h lc h' lc' :
  copy_row n k i h lc = Some (h', lc') →
  ∀ a b, nd_get lc' a b
         = if decide (b = i ∧ k <= a < k + Z.of_nat n) then nd_get h i a
           else nd_get lc a b.
Proof.
  revert k h lc. induction n as [|n IH]; intros k h lc; simpl.
  { intros [= <- <-] a b. destruct (decide _); [lia|done]. }
  destruct (2 ^ 31 - 1 <=? k); [done|].
  destruct (nd_in_range h i k && nd_in_range lc k i); [|done].
  intros H a b. rewrite (IH _ _ _ H a b). rewrite nd_get_set_self.
  destruct (decide (b = i ∧ k + 1 <= a < k + 1 + Z.of_nat n)) as [H1|H1];
    destruct (decide (b = i ∧ k <= a < k + Z.of_nat (S n))) as [H2|H2];
    try done; try lia.
  - rewrite nd_get_set.
    destruct (decide ((k, i) = (a, b))) as [[= -> ->]|Hne]; [done|].
    exfalso. apply Hne. destruct H2 as [-> ?]. f_equal. lia.
  - rewrite nd_get_set.
    destruct (decide ((k, i) = (a, b))) as [[= -> ->]|Hne]; [|done].
    exfalso. apply H2. lia.
Qed.

Lemma copy_row_lc_ext n k i h1 h2 lc :
  nd_rows h1 = nd_rows h2 → nd_cols h1 = nd_cols h2 →
  (∀ j, nd_get h1 i j = nd_get h2 i j) →
  snd <$> copy_row n k i h1 lc = snd <$> copy_row n k i h2 lc.
Proof.
  revert k h1 h2 lc. induction n as [|n IH]; intros k h1 h2 lc Hr Hc Hg; simpl; [done|].
  destruct (2 ^ 31 - 1 <=? k); [done|].
  assert (Hin : nd_in_range h1 i k = nd_in_range h2 i k).
  { unfold nd_in_range. by rewrite Hr, Hc. }
  rewrite Hin, Hg.
  destruct (nd_in_range h2 i k && nd_in_range lc k i); [|done].
  apply IH; simpl; try done.
  intros j. rewrite !nd_get_set. by destruct (decide _).
Qed.

Lemma copy_cluster_lc_ext NH keep keep' n i h1 h2 lc :
  nd_rows h1 = nd_rows h2 → nd_cols h1 = nd_cols h2 →
  (∀ j, i <= j < i + Z.of_nat n →
        keep j = keep' j ∧ (keep j = true → ∀ k, nd_get h1 j k = nd_get h2 j k)) →
  snd <$> copy_cluster NH keep n i h1 lc = snd <$> copy_cluster NH keep' n i h2 lc.
Proof.
  revert i h1 h2 lc. induction n as [|n IH]; intros i h1 h2 lc Hr Hc Hk; simpl; [done|].
  destruct (Hk i ltac:(lia)) as [Hki Hgi]. rewrite <- Hki.
  destruct (keep i).
  - pose proof (copy_row_lc_ext (Z.to_nat NH) 0 i h1 h2 lc Hr Hc (Hgi eq_refl)) as Hrow.
    destruct (copy_row (Z.to_nat NH) 0 i h1 lc) as [[h1' lc1]|] eqn:E1;
      destruct (copy_row (Z.to_nat NH) 0 i h2 lc) as [[h2' lc2]|] eqn:E2;
      simpl in Hrow; try done.
    injection Hrow as <-.
    destruct (copy_row_h _ _ _ _ _ _ _ E1) as (? & ? & _ & _ & Hg1).
    destruct (copy_row_h _ _ _ _ _ _ _ E2) as (? & ? & _ & _ & Hg2).
    apply IH; try congruence.
    intros j Hj. destruct (Hk j ltac:(lia)) as [? Hgj]. split; [done|].
    intros Hkj k. rewrite Hg1, Hg2. by apply Hgj.
  - apply IH; try done. intros j Hj. apply Hk. lia.
Qed.

Lemma copy_cluster_get NH keep n i h lc h' lc' :
  0 <= NH →
  copy_cluster NH keep n i h lc = Some (h', lc') →
  (∀ a b, nd_get h' a b = nd_get h a b) ∧
  ∀ a b, nd_get lc' a b
         = if decide (i <= b < i + Z.of_nat n ∧ keep b = true ∧ 0 <= a < NH)
           then nd_get h b a else nd_get lc a b.
Proof.
  intros HNH. revert i h lc. induction n as [|n IH]; intros i h lc; simpl.
  { intros [= <- <-]. split; [done|]. intros a b. destruct (decide _); [lia|done]. }
  destruct (keep i) eqn:Hki.
  - destruct (copy_row (Z.to_nat NH) 0 i h lc) as [[h1 lc1]|] eqn:E1; [|done].
    intros H. destruct (IH _ _ _ H) as [Hg Hl].
    destruct (copy_row_h _ _ _ _ _ _ _ E1) as (_ & _ & _ & _ & Hg1).
    split; [intros a b; by rewrite Hg, Hg1|].
    intros a b. rewrite Hl, Hg1, (copy_row_get _ _ _ _ _ _ _ E1).
    destruct (decide (i + 1 <= b < i + 1 + Z.of_nat n ∧ keep b = true ∧ 0 <= a < NH))
      as [H1|H1];
      destruct (decide (i <= b < i + Z.of_nat (S n) ∧ keep b = true ∧ 0 <= a < NH))
        as [H2|H2].
    + done.
    + exfalso. apply H2. destruct H1 as (? & ? & ?). split_ands; try done; lia.
    + destruct (decide (b = i ∧ 0 <= a < 0 + Z.of_nat (Z.to_nat NH))) as [[-> ?]|H3];
        [done|].
      exfalso. apply H3. destruct H2 as (? & ? & ?).
      split; [|lia]. destruct (decide (b = i)); [done|]. exfalso. apply H1.
      split_ands; try done; lia.
    + destruct (decide (b = i ∧ 0 <= a < 0 + Z.of_nat (Z.to_nat NH))) as [[-> ?]|H3];
        [|done].
      exfalso. apply H2. split_ands; try done; lia.
  - intros H. destruct (IH _ _ _ H) as [Hg Hl]. split; [done|].
    intros a b. rewrite Hl.
    destruct (decide (i + 1 <= b < i + 1 + Z.of_nat n ∧ keep b = true ∧ 0 <= a < NH))
      as [H1|H1];
      destruct (decide (i <= b < i + Z.of_nat (S n) ∧ keep b = true ∧ 0 <= a < NH))
        as [H2|H2].
    + done.
    + exfalso. apply H2. destruct H1 as (? & ? & ?). split_ands; try done; lia.
    + exfalso. apply H1. destruct H2 as (? & ? & ?).
      split_ands; try done; try lia.
      destruct (decide (b = i)) as [->|]; [congruence|lia].
    + done.
Qed.

(** ** hypercube_H_LC *)

Lemma check_args_range N NR p : check_args N NR p = true → 0 <= N < 64.
Proof.
  unfold check_args. intros H.
  repeat (apply andb_prop in H as [H ?]).
  apply Z.leb_le in H. apply Z.ltb_lt in H3. lia.
Qed.

Lemma intpower_2 N : 0 <= N < 64 → intpower 2 N = 2 ^ N.
Proof.
  intros HN. unfold intpower. apply wrap_small.
  pose proof (pow2_le_modulus N HN). pose proof ULONG_MAX_eq. lia.
Qed.

Lemma lc_inv_start n : lc_inv (replicate n false) lc_start 0.
Proof.
  unfold lc_inv, lc_start. simpl. rewrite marked_replicate_false.
  split_ands; try done. by left.
Qed.

Lemma Inv_H_init N :
  0 <= N < 64 →
  Inv_H N (grow_init (2 ^ N) (Some (replicate (Z.to_nat (2 ^ N)) ULONG_MAX))).
Proof.
  intros HN. pose proof (pow2_le_modulus N HN) as [Hp0 _].
  unfold Inv_H, grow_wf, grow_init, reset_visited. simpl.
  rewrite !length_replicate.
  split_ands; try done; try lia;
    try (apply setup_stack_wf; lia); try apply zeros_symmetric.
  - unfold sites_in_range, slist; simpl. by apply Forall_nil.
  - intros i Hi. apply lookup_replicate in Hi as [_ Hi].
    by apply lookup_replicate.
Qed.

Lemma stable_H_refl N L e : stable_H N L e e.
Proof. intros i Hi. done. Qed.

Lemma stable_H_trans N L e1 e2 e3 :
  stable_H N L e1 e2 → stable_H N L e2 e3 → stable_H N L e1 e3.
Proof.
  intros H12 H23 i Hi. destruct (H12 i Hi) as [Ha Hb], (H23 i Hi) as [Hc Hd].
  split; [congruence|]. intros Hk k. rewrite Hb by done. apply Hd. congruence.
Qed.

Lemma Inv_H_length N e : Inv_H N e → base.length (g_visited e) = Z.to_nat (2 ^ N).
Proof. intros H. apply H. Qed.

Lemma H_LC_enumerate_early rng p N e2 c2 :
  0 <= N < 64 →
  H_LC_enumerate rng p N false = Done (e2, c2) →
  ∃ e1 c1,
    H_LC_enumerate rng p N true = Done (e1, c1) ∧
    largest_cluster_index c1 = largest_cluster_index c2 ∧
    largest_cluster_size c1 = largest_cluster_size c2 ∧
    0 <= largest_cluster_index c1 < 2 ^ N ∧
    stable_H N (largest_cluster_index c1) e1 e2.
Proof.
  intros HN. unfold H_LC_enumerate. rewrite intpower_2 by done.
  pose proof (pow2_le_modulus N HN) as Hp.
  apply (enumerate_early_exit g_visited (grow_one_H rng p N) (2 ^ N)
           (Inv_H N) (stable_H N) Hp (Inv_H_length N) (stable_H_refl N)
           (stable_H_trans N)).
  - intros site cidx e e' sz. by apply grow_one_H_spec.
  - by apply Inv_H_init.
  - apply lc_inv_start.
  - done.
  - lia.
Qed.

Lemma H_LC_enumerate_inv rng p N b e1 c1 :
  0 <= N < 64 →
  H_LC_enumerate rng p N b = Done (e1, c1) →
  Inv_H N e1 ∧ 0 <= largest_cluster_index c1 < 2 ^ N.
Proof.
  intros HN. unfold H_LC_enumerate. rewrite intpower_2 by done.
  pose proof (pow2_le_modulus N HN) as Hp. intros He.
  destruct (enumerate_inv g_visited (grow_one_H rng p N) (2 ^ N)
           (Inv_H N) (stable_H N) Hp (Inv_H_length N)
           ltac:(intros site cidx e e' sz; by apply grow_one_H_spec)
           b (Z.to_nat (2 ^ N)) 0 _ _ e1 c1 (Inv_H_init N HN) (lc_inv_start _)
           ltac:(lia) ltac:(lia) He) as (? & ? & _).
  done.
Qed.

Lemma H_LC_copy_stable N e1 c1 e2 c2 :
  0 <= N < 64 → Inv_H N e1 → Inv_H N e2 →
  largest_cluster_index c1 = largest_cluster_index c2 →
  largest_cluster_size c1 = largest_cluster_size c2 →
  stable_H N (largest_cluster_index c1) e1 e2 →
  H_LC_copy N (e1, c1) = H_LC_copy N (e2, c2).
Proof.
  intros HN H1 H2 Hi Hs Hst. unfold H_LC_copy. rewrite intpower_2 by done.
  destruct H1 as ((_ & _ & _ & Hr1 & Hc1 & _) & _).
  destruct H2 as ((_ & _ & _ & Hr2 & Hc2 & _) & _).
  pose proof (copy_cluster_lc_ext (2 ^ N)
                (label_is (g_labels e1) (largest_cluster_index c1))
                (label_is (g_labels e2) (largest_cluster_index c2))
                (Z.to_nat (2 ^ N)) 0 (g_matrix e1) (g_matrix e2)
                (PyArray_ZEROS (2 ^ N) (2 ^ N)) ltac:(congruence) ltac:(congruence))
    as Hext.
  rewrite <- Hi in *. rewrite <- Hs.
  destruct (copy_cluster _ _ _ 0 (g_matrix e1) _) as [[h1 lc1]|];
    destruct (copy_cluster _ _ _ 0 (g_matrix e2) _) as [[h2 lc2]|];
    simpl in Hext.
  - assert (E : Some lc1 = Some lc2).
    { apply Hext. intros j Hj. apply Hst. lia. }
    by injection E as ->.
  - exfalso. assert (E : Some lc1 = None); [|done].
    apply Hext. intros j Hj. apply Hst. lia.
  - exfalso. assert (E : None = Some lc2); [|done].
    apply Hext. intros j Hj. apply Hst. lia.
  - done.
Qed.

Lemma H_LC_refines rng p N r :
  H_LC_exhaustive rng p N = Done r → hypercube_H_LC rng p N = Done r.
Proof.
  unfold H_LC_exhaustive, hypercube_H_LC, H_LC_with.
  destruct (check_args N 1 p) eqn:Hargs; simpl; [|done].
  pose proof (check_args_range _ _ _ Hargs) as HN.
  destruct (H_LC_enumerate rng p N false) as [[e2 c2]| | |] eqn:He2; try done.
  destruct (H_LC_enumerate_early _ _ _ _ _ HN He2) as (e1 & c1 & He1 & Hi & Hs & _ & Hst).
  rewrite He1.
  destruct (H_LC_enumerate_inv _ _ _ _ _ _ HN He1) as [Hinv1 _].
  destruct (H_LC_enumerate_inv _ _ _ _ _ _ HN He2) as [Hinv2 _].
  by rewrite (H_LC_copy_stable N e1 c1 e2 c2).
Qed.

Lemma H_LC_symmetric rng p N a n :
  hypercube_H_LC rng p N = Done (Some (a, n)) → symmetric a.
Proof.
  unfold hypercube_H_LC, H_LC_with.
  destruct (check_args N 1 p) eqn:Hargs; simpl; [|done].
  pose proof (check_args_range _ _ _ Hargs) as HN.
  destruct (H_LC_enumerate rng p N true) as [[e c]| | |] eqn:He; try done.
  destruct (H_LC_enumerate_inv _ _ _ _ _ _ HN He)
    as [(Hwf & _ & _ & Hsym & Hedges & _) _].
  unfold H_LC_copy. rewrite intpower_2 by done.
  pose proof (pow2_le_modulus N HN) as [Hp0 _].
  destruct (copy_cluster _ _ _ 0 (g_matrix e) _) as [[h lc]|] eqn:Hc; simpl; [|done].
  intros [= <- <-].
  destruct (copy_cluster_get (2 ^ N) _ _ _ _ _ _ _ ltac:(lia) Hc) as [_ Hget].
  intros x y. rewrite !Hget.
  set (keep := label_is (g_labels e) (largest_cluster_index c)) in *.
  assert (Hz : ∀ i j, nd_get (PyArray_ZEROS (2 ^ N) (2 ^ N)) i j = 0).
  { intros i j. unfold nd_get, PyArray_ZEROS; simpl. by rewrite lookup_empty. }
  rewrite !Hz.
  assert (Hcross : ∀ u v, keep u = true → keep v = false → nd_get (g_matrix e) u v = 0).
  { intros u v Hu Hv.
    destruct (Z.eq_dec (nd_get (g_matrix e) u v) 0) as [|Hne]; [done|].
    destruct (Hedges u v Hne) as (_ & _ & Hl).
    unfold keep, label_is in *. rewrite Hl in Hu. congruence. }
  destruct (decide (0 <= y < 0 + Z.of_nat (Z.to_nat (2 ^ N)) ∧ keep y = true ∧ 0 <= x < 2 ^ N))
    as [(?&?&?)|H1];
    destruct (decide (0 <= x < 0 + Z.of_nat (Z.to_nat (2 ^ N)) ∧ keep x = true ∧ 0 <= y < 2 ^ N))
      as [(?&?&?)|H2].
  - apply Hsym.
  - apply Hcross; [done|]. destruct (keep x) eqn:E; [|done].
    exfalso. apply H2. split_ands; try done; lia.
  - symmetry. apply Hcross; [done|]. destruct (keep y) eqn:E; [|done].
    exfalso. apply H1. split_ands; try done; lia.
  - done.
Qed.

Lemma H_SC_symmetric rng p N a n :
  hypercube_H_SC rng p N = Done (Some (a, n)) → symmetric a.
Proof.
  unfold hypercube_H_SC.
  destruct (check_args N 1 p) eqn:Hargs; simpl; [|done].
  pose proof (check_args_range _ _ _ Hargs) as HN.
  rewrite intpower_2 by done.
  destruct (grow_H_cluster _ _ _ _ _ _) as [st| | |] eqn:Hg; try done.
  intros [= <- <-].
  pose proof (pow2_le_modulus N HN) as [Hp0 _].
  assert (Hwf : grow_wf (2 ^ N) (grow_init (2 ^ N) None)).
  { unfold grow_wf, grow_init, reset_visited. simpl. rewrite length_replicate.
    split_ands; try done; try lia; try (apply setup_stack_wf; lia).
    unfold sites_in_range, slist; simpl. by apply Forall_nil. }
  destruct (grow_H_cluster_spec rng p N 0 _ 0 _ HN Hwf eq_refl ltac:(lia) Hg)
    as (_ & Hinv & _).
  destruct Hinv as (_ & _ & _ & _ & _ & _ & _ & Hsym & _).
  apply Hsym. apply zeros_symmetric.
Qed.

Lemma H_row_symmetric rng p k i row a pos a' pos' :
  symmetric a → H_row rng p k i row a pos = Some (a', pos') → symmetric a'.
Proof.
  revert i a pos. induction k as [|k IH]; intros i a pos Ha; simpl.
  { by intros [= <- <-]. }
  destruct (64 <=? i); [done|].
  destruct (nd_in_range _ _ _ && nd_in_range _ _ _); [|done].
  apply IH. by apply nd_set2_symmetric.
Qed.

Lemma H_rows_symmetric rng p N n row a pos a' pos' :
  symmetric a → H_rows rng p N n row a pos = Some (a', pos') → symmetric a'.
Proof.
  revert row a pos. induction n as [|n IH]; intros row a pos Ha; simpl.
  { by intros [= <- <-]. }
  destruct (H_row rng p (Z.to_nat N) 0 row a pos) as [[a1 pos1]|] eqn:Hr; [|done].
  apply IH. by eapply H_row_symmetric.
Qed.

Lemma H_symmetric rng p N a :
  hypercube_H rng p N = Done (Some a) → symmetric a.
Proof.
  unfold hypercube_H.
  destruct (check_args N 1 p); simpl; [|done].
  destruct (H_rows _ _ _ _ _ _ _) as [[a1 pos1]|] eqn:Hr; [|done].
  intros [= <-]. eapply H_rows_symmetric; [|exact Hr]. apply zeros_symmetric.
Qed.

(** ** The queue *)

Lemma setup_queue_wf (n : Z) : 0 <= n → queue_wf (setup_queue n) ∧ qlist (setup_queue n) = [].
Proof.
  intros Hn. unfold queue_wf, qlist, setup_queue; simpl.
  rewrite length_replicate. split_ands; try done; lia.
Qed.

Lemma empty_qlist (q : queue) :
  queue_wf q → empty q = true ↔ qlist q = [].
Proof.
  intros (Hr & Hc & Hl). unfold empty, qlist. split.
  - intros H. apply Z.eqb_eq in H. rewrite H, Z.sub_diag. done.
  - intros H. apply Z.eqb_eq.
    apply (f_equal base.length) in H. rewrite length_map, length_seqZ in H.
    simpl in H. lia.
Qed.

Lemma enqueue_full (q : queue) (x e : Z) :
  queue_length q <= queue_writeIdx q - queue_readIdx q → enqueue q x e = (q, -1).
Proof.
  intros H. unfold enqueue.
  destruct (Z.ltb_spec (queue_writeIdx q - queue_readIdx q) (queue_length q)); [lia|done].
Qed.

Lemma mod_slot_neq (L r w j : Z) :
  0 < L → r <= j < w → w - r < L → j mod L ≠ w mod L.
Proof.
  intros HL Hj Hw Heq.
  assert (H : (w - j) mod L = 0).
  { rewrite Zminus_mod, Heq, Z.sub_diag. apply Zmod_0_l. }
  rewrite Z.mod_small in H by lia. lia.
Qed.

Lemma enqueue_ok (q : queue) (x e : Z) :
  queue_wf q → queue_writeIdx q - queue_readIdx q < queue_length q →
  ∃ q', enqueue q x e = (q', e) ∧ queue_wf q' ∧
        queue_length q' = queue_length q ∧
        qlist q' = qlist q ++ [x].
Proof.
  intros (Hr & Hc & Hl) Hlt. unfold enqueue.
  destruct (Z.ltb_spec (queue_writeIdx q - queue_readIdx q) (queue_length q)); [|lia].
  eexists. split; [reflexivity|].
  unfold queue_wf, qlist; simpl. rewrite length_insert.
  split_ands; try done; try lia.
  assert (HL : 0 < queue_length q) by lia.
  assert (Hslot : (Z.to_nat (queue_writeIdx q mod queue_length q)
                   < base.length (queue_sites q))%nat).
  { pose proof (Z.mod_pos_bound (queue_writeIdx q) (queue_length q) HL). lia. }
  replace (queue_writeIdx q + 1 - queue_readIdx q)
    with ((queue_writeIdx q - queue_readIdx q) + 1) by lia.
  rewrite seqZ_app by lia. rewrite map_app. f_equal.
  - apply map_ext_in. intros j Hj.
    apply list_elem_of_In, elem_of_seqZ in Hj.
    apply list_lookup_total_insert_ne.
    pose proof (mod_slot_neq (queue_length q) (queue_readIdx q) (queue_writeIdx q) j
                  HL ltac:(lia) ltac:(lia)) as Hne.
    pose proof (Z.mod_pos_bound (queue_writeIdx q) (queue_length q) HL).
    pose proof (Z.mod_pos_bound j (queue_length q) HL). lia.
  - replace (queue_readIdx q + (queue_writeIdx q - queue_readIdx q))
      with (queue_writeIdx q) by lia.
    simpl. f_equal. by apply list_lookup_total_insert_eq.
Qed.

Lemma dequeue_ok (q : queue) (e : Z) :
  queue_wf q → queue_readIdx q < queue_writeIdx q →
  ∃ x q', dequeue q e = (x, q', e) ∧ queue_wf q' ∧
          queue_length q' = queue_length q ∧
          qlist q = x :: qlist q'.
Proof.
  intros (Hr & Hc & Hl) Hlt. unfold dequeue, empty.
  destruct (Z.eqb_spec (queue_readIdx q) (queue_writeIdx q)); [lia|].
  do 2 eexists. split; [reflexivity|].
  unfold queue_wf, qlist; simpl. split_ands; try done; try lia.
  rewrite seqZ_cons by lia. simpl.
  replace (Z.succ (queue_readIdx q)) with (queue_readIdx q + 1) by lia.
  replace (Z.pred (queue_writeIdx q - queue_readIdx q))
    with (queue_writeIdx q - (queue_readIdx q + 1)) by lia.
  done.
Qed.

(** ** dijkstra: what a run keeps true *)

Lemma NoDup_range_length (NH : Z) (l : list Z) :
  NoDup l → sites_in_range NH l → Z.of_nat (base.length l) <= Z.max NH 0.
Proof.
  intros Hnd Hr.
  assert (Hsub : l ⊆+ seqZ 0 NH).
  { apply NoDup_submseteq; [done|]. intros x Hx.
    unfold sites_in_range in Hr. rewrite Forall_forall in Hr.
    apply elem_of_seqZ. specialize (Hr x Hx). lia. }
  apply submseteq_length in Hsub. rewrite length_seqZ in Hsub. lia.
Qed.

Lemma qlist_length (q : queue) :
  queue_wf q → Z.of_nat (base.length (qlist q)) = queue_writeIdx q - queue_readIdx q.
Proof.
  intros (Hr & _). unfold qlist. rewrite length_map, length_seqZ. lia.
Qed.

Lemma site_index_Z (NH x : Z) {A} (v : list A) :
  base.length v = Z.to_nat NH → 0 <= x < NH → is_Some (v !! Z.to_nat x).
Proof. intros Hl Hx. apply lookup_lt_is_Some. lia. Qed.

Lemma dijkstra_edge_spec rng p N cidx st0 u du i st :
  0 <= N < 64 → 0 <= i < N → 0 <= u < 2 ^ N →
  dij_inv (2 ^ N) cidx st0 st → dij_level st du →
  dj_visited st !! Z.to_nat u = Some true →
  dj_distances st !! Z.to_nat u = Some du → 0 <= du < ULONG_MAX →
  match dijkstra_edge rng p i u st with
  | Done st1 =>
      dij_inv (2 ^ N) cidx st0 st1 ∧ dij_level st1 du ∧
      dj_visited st1 = dj_visited st ∧
      dj_distances st1 !! Z.to_nat u = Some du
  | _ => False
  end.
Proof.
  intros HN Hi Hu Hinv Hlev Hvu Hdu Hdur.
  pose proof Hinv as (Hwf & Hmono & Hnv & Hcnt & Hlab1 & Hlab2 & Hfr & Hnd & Hunv & Hinf & Hfin & Herr).
  pose proof Hwf as (Hq & Hcap & Hlv & Hld & Hll & Hrange).
  unfold dijkstra_edge. destruct (Z.leb_spec 64 i); [lia|].
  set (v := Z.lxor u (Z.shiftl 1 i)).
  assert (Hvr : 0 <= v < 2 ^ N) by (apply lxor_bit_range; lia).
  destruct (site_index_Z _ _ _ Hlv Hvr) as [b Hb]. rewrite Hb.
  destruct b; [done|].
  destruct (Qltb (rng (dj_pos st)) p); [|done].
  simpl. destruct (site_index_Z _ _ _ Hld Hvr) as [old Hold]. rewrite Hold, Hdu.
  pose proof ULONG_MAX_eq as HU.
  rewrite wrap_small by lia.
  destruct (Z.ltb_spec (du + 1) old) as [Hlt|Hge]; [|done].
  assert (Hvq : v ∉ qlist (dj_queue st)).
  { intros Hin. destruct Hlev as (A & B & HAB & HA & HB).
    rewrite HAB in Hin. apply elem_of_app in Hin as [Hin|Hin].
    - rewrite Forall_forall in HA. specialize (HA v Hin). rewrite Hold in HA.
      injection HA as ->. lia.
    - rewrite Forall_forall in HB. specialize (HB v Hin). rewrite Hold in HB.
      injection HB as ->. lia. }
  assert (Hoinf : old = ULONG_MAX).
  { specialize (Hinf v Hvr Hb Hvq). congruence. }
  assert (Huq : u ∉ qlist (dj_queue st)).
  { intros Hin. apply Hunv in Hin. congruence. }
  assert (Hcount : queue_writeIdx (dj_queue st) - queue_readIdx (dj_queue st)
                   < queue_length (dj_queue st)).
  { rewrite <- qlist_length by done. rewrite Hcap.
    assert (Hnd2 : NoDup (u :: qlist (dj_queue st))) by (by apply NoDup_cons).
    assert (Hr2 : sites_in_range (2 ^ N) (u :: qlist (dj_queue st)))
      by (by apply Forall_cons).
    pose proof (NoDup_range_length _ _ Hnd2 Hr2) as Hlen. simpl in Hlen. lia. }
  destruct (enqueue_ok (dj_queue st) v (dj_err st) Hq Hcount)
    as (q' & Hen & Hq' & Hcap' & Hql).
  rewrite Hen, Herr. simpl.
  assert (Hne : ∀ x, x ∈ qlist (dj_queue st) → Z.to_nat x ≠ Z.to_nat v).
  { intros x Hx E. unfold sites_in_range in Hrange. rewrite Forall_forall in Hrange.
    specialize (Hrange x Hx). assert (x = v) by lia. congruence. }
  assert (Hnu : Z.to_nat u ≠ Z.to_nat v) by congruence.
  split_ands.
  - unfold dij_inv, dij_wf. simpl. rewrite length_insert, Hql.
    split_ands; try done; try lia.
    + apply Forall_app. split; [done|]. by apply Forall_singleton.
    + intros j Hj. rewrite list_lookup_insert_ne; [by apply Hfr|].
      intros <-. apply Hmono in Hj. congruence.
    + apply NoDup_app. split_ands; [done| |apply NoDup_singleton].
      intros x Hx Hx'. apply list_elem_of_singleton in Hx' as ->. done.
    + intros x Hx. apply elem_of_app in Hx as [Hx|Hx]; [by apply Hunv|].
      by apply list_elem_of_singleton in Hx as ->.
    + intros x Hx Hxv Hxq.
      assert (x ≠ v).
      { intros ->. apply Hxq. apply elem_of_app. right. by apply list_elem_of_singleton. }
      rewrite list_lookup_insert_ne by lia.
      apply Hinf; try done. intros Hin. apply Hxq. apply elem_of_app. by left.
    + intros x Hx. apply elem_of_app in Hx as [Hx|Hx].
      * rewrite list_lookup_insert_ne by (intros E; by apply (Hne x Hx)).
        by apply Hfin.
      * apply list_elem_of_singleton in Hx as ->. exists (du + 1).
        rewrite list_lookup_insert_eq by lia. split; [done|lia].
  - destruct Hlev as (A & B & HAB & HA & HB).
    exists A, (B ++ [v]). simpl. rewrite Hql, HAB. split_ands.
    + by rewrite app_assoc.
    + rewrite Forall_forall in *. intros x Hx.
      rewrite list_lookup_insert_ne; [by apply HA|].
      intros E. apply (Hne x); [|done]. rewrite HAB. apply elem_of_app. by left.
    + apply Forall_app. split.
      * rewrite Forall_forall in *. intros x Hx.
        rewrite list_lookup_insert_ne; [by apply HB|].
        intros E. apply (Hne x); [|done]. rewrite HAB. apply elem_of_app. by right.
      * apply Forall_singleton. apply list_lookup_insert_eq. lia.
  - done.
  - simpl. by rewrite list_lookup_insert_ne.
Qed.

Lemma dijkstra_neighbours_spec rng p N cidx st0 u du k i st :
  0 <= N < 64 → 0 <= i → i + Z.of_nat k <= N → 0 <= u < 2 ^ N →
  dij_inv (2 ^ N) cidx st0 st → dij_level st du →
  dj_visited st !! Z.to_nat u = Some true →
  dj_distances st !! Z.to_nat u = Some du → 0 <= du < ULONG_MAX →
  match dijkstra_neighbours rng p k i u st with
  | Done st1 =>
      dij_inv (2 ^ N) cidx st0 st1 ∧ dij_level st1 du ∧
      dj_visited st1 = dj_visited st
  | _ => False
  end.
Proof.
  intros HN. revert i st.
  induction k as [|k IH]; intros i st Hi Hk Hu Hinv Hlev Hvu Hdu Hdur; simpl.
  { done. }
  pose proof (dijkstra_edge_spec rng p N cidx st0 u du i st HN ltac:(lia) Hu Hinv Hlev
                Hvu Hdu Hdur) as He.
  destruct (dijkstra_edge rng p i u st) as [st1| | |]; try done.
  destruct He as (Hinv1 & Hlev1 & Hv1 & Hdu1).
  specialize (IH (i + 1) st1 ltac:(lia) ltac:(lia) Hu Hinv1 Hlev1
                ltac:(congruence) Hdu1 Hdur).
  destruct (dijkstra_neighbours rng p k (i + 1) u st1); try done.
  destruct IH as (? & ? & ?). split_ands; try done. congruence.
Qed.

Lemma dijkstra_body_spec rng p N cidx st0 st :
  0 <= N < 64 → dij_inv (2 ^ N) cidx st0 st → (∃ d, dij_level st d) →
  empty (dj_queue st) = false →
  match dijkstra_body rng p N cidx st with
  | Done st1 =>
      dij_inv (2 ^ N) cidx st0 st1 ∧ (∃ d, dij_level st1 d) ∧
      marked (dj_visited st1) = S (marked (dj_visited st)) ∧
      base.length (dj_visited st1) = base.length (dj_visited st)
  | _ => False
  end.
Proof.
  intros HN Hinv [d Hlev] Hne.
  pose proof Hinv as (Hwf & Hmono & Hnv & Hcnt & Hlab1 & Hlab2 & Hfr & Hnd & Hunv & Hinf & Hfin & Herr).
  pose proof Hwf as (Hq & Hcap & Hlv & Hld & Hll & Hrange).
  assert (Hrw : queue_readIdx (dj_queue st) < queue_writeIdx (dj_queue st)).
  { unfold empty in Hne. apply Z.eqb_neq in Hne. destruct Hq as (? & _). lia. }
  unfold dijkstra_body.
  destruct (dequeue_ok (dj_queue st) (dj_err st) Hq Hrw) as (u & q' & Hde & Hq' & Hcap' & Hql).
  rewrite Hde, Herr. simpl.
  rewrite Hql in *.
  apply Forall_cons in Hrange as [Hu Hrange'].
  apply NoDup_cons in Hnd as [Hurest Hnd'].
  assert (Hvu : dj_visited st !! Z.to_nat u = Some false).
  { apply Hunv. by left. }
  destruct (Hfin u ltac:(by left)) as (du & Hdu & Hdur).
  rewrite Hdu.
  assert (Hlt : (Z.to_nat u < base.length (dj_visited st))%nat) by lia.
  destruct (Nat.ltb_spec (Z.to_nat u) (base.length (dj_visited st))); [|lia].
  simpl.
  assert (Hw : ∃ labels', write_label (dj_labels st) u cidx = Some labels').
  { unfold write_label. destruct (dj_labels st) as [l|]; [|by eexists].
    simpl in Hll. destruct (Nat.ltb_spec (Z.to_nat u) (base.length l)); [by eexists|lia]. }
  destruct Hw as [labels' Hw]. rewrite Hw.
  assert (Hlab : ∀ i, i ≠ Z.to_nat u →
            label_at labels' i = label_at (dj_labels st) i).
  { intros i Hne'.
    destruct (write_label_some _ _ _ _ Hw) as [[E ->]|(l & E & Hl & ->)];
      rewrite E; [done|]. simpl. by rewrite list_lookup_insert_ne. }
  assert (Hlabu : labelled labels' (Z.to_nat u) cidx).
  { destruct (write_label_some _ _ _ _ Hw) as [[E ->]|(l & E & Hl & ->)]; [done|].
    simpl. by apply list_lookup_insert_eq. }
  assert (Hlabl : labels_len (2 ^ N) labels').
  { destruct (write_label_some _ _ _ _ Hw) as [[E ->]|(l & E & Hl & ->)]; [done|].
    simpl. rewrite length_insert. by rewrite E in Hll. }
  pose proof (marked_insert _ _ Hvu) as Hmi.
  pose proof (marked_le (<[Z.to_nat u := true]> (dj_visited st))) as Hmle.
  rewrite length_insert, Hmi in Hmle.
  pose proof (pow2_le_modulus N HN) as [Hp0 Hp1]. pose proof ULONG_MAX_eq.
  assert (Hidx : ∀ x, x ∈ qlist q' → Z.to_nat x ≠ Z.to_nat u).
  { intros x Hx E. unfold sites_in_range in Hrange'. rewrite Forall_forall in Hrange'.
    specialize (Hrange' x Hx). assert (x = u) by lia. congruence. }
  match goal with |- context [dijkstra_neighbours rng p ?k 0 u ?st2] =>
    set (s2 := st2) end.
  assert (Hinv2 : dij_inv (2 ^ N) cidx st0 s2).
  { unfold dij_inv, dij_wf, s2. simpl. rewrite length_insert, Hmi.
    rewrite wrap_small by lia.
    split_ands; try done; try lia.
    + intros i Hi. destruct (decide (i = Z.to_nat u)) as [->|Hne'].
      * by apply list_lookup_insert_eq.
      * rewrite list_lookup_insert_ne by done. by apply Hmono.
    + intros i Hi. destruct (decide (i = Z.to_nat u)) as [->|Hne'].
      * rewrite list_lookup_insert_eq in Hi by done. symmetry in Hi.
        apply Hmono in Hi. congruence.
      * rewrite list_lookup_insert_ne in Hi by done.
        rewrite Hlab by done. by apply Hlab1.
    + intros i Hi0 Hi. destruct (decide (i = Z.to_nat u)) as [->|Hne']; [done|].
      rewrite list_lookup_insert_ne in Hi by done.
      specialize (Hlab2 i Hi0 Hi). specialize (Hlab i Hne').
      unfold labelled, label_at in *.
      destruct labels', (dj_labels st); try done; congruence.
    + intros x Hx. rewrite list_lookup_insert_ne by (intros E; by apply (Hidx x Hx)).
      apply Hunv. by right.
    + intros x Hx Hxv Hxq.
      assert (Z.to_nat x ≠ Z.to_nat u).
      { intros E. rewrite E, list_lookup_insert_eq in Hxv by done. done. }
      rewrite list_lookup_insert_ne in Hxv by done.
      apply Hinf; try done. intros Hin. apply elem_of_cons in Hin as [->|Hin]; done.
    + intros x Hx. apply Hfin. by right. }
  assert (Hlev2 : dij_level s2 du).
  { destruct Hlev as (A & B & HAB & HA & HB). unfold dij_level, s2. simpl.
    rewrite Hql in HAB. destruct A as [|a A].
    + simpl in HAB. subst B. apply Forall_cons in HB as [HB1 HB2].
      assert (du = d + 1) by congruence. subst du.
      exists (qlist q'), []. rewrite app_nil_r. split_ands; try done.
    + simpl in HAB. injection HAB as <- HAB. apply Forall_cons in HA as [HA1 HA2].
      assert (du = d) by congruence. subst du.
      exists A, B. done. }
  assert (Hvu2 : dj_visited s2 !! Z.to_nat u = Some true).
  { unfold s2. simpl. by apply list_lookup_insert_eq. }
  pose proof (dijkstra_neighbours_spec rng p N cidx st0 u du (Z.to_nat N) 0 s2 HN
                ltac:(lia) ltac:(lia) Hu Hinv2 Hlev2 Hvu2 Hdu Hdur) as Hn.
  destruct (dijkstra_neighbours rng p (Z.to_nat N) 0 u s2) as [st1| | |]; try done.
  destruct Hn as (Hinv1 & Hlev1 & Hv1).
  split_ands; try done.
  - by exists du.
  - rewrite Hv1. unfold s2. simpl. done.
  - rewrite Hv1. unfold s2. simpl. by rewrite length_insert.
Qed.

Lemma dijkstra_loop_spec rng p N cidx st0 fuel st :
  0 <= N < 64 → dij_inv (2 ^ N) cidx st0 st → (∃ d, dij_level st d) →
  (base.length (dj_visited st) - marked (dj_visited st) < fuel)%nat →
  match dijkstra_loop rng p N cidx fuel st with
  | Done st' => dij_inv (2 ^ N) cidx st0 st' ∧ qlist (dj_queue st') = []
  | _ => False
  end.
Proof.
  intros HN. revert st. induction fuel as [|fuel IH]; intros st Hinv Hlev Hfuel; [lia|].
  simpl. destruct (empty (dj_queue st)) eqn:Hemp; simpl.
  - split; [done|]. apply empty_qlist; [apply Hinv|done].
  - pose proof (dijkstra_body_spec rng p N cidx st0 st HN Hinv Hlev Hemp) as Hb.
    destruct (dijkstra_body rng p N cidx st) as [st1| | |]; try done.
    destruct Hb as (Hinv1 & Hlev1 & Hm & Hl).
    pose proof (marked_le (dj_visited st1)).
    apply IH; try done. lia.
Qed.

(** ** dijkstra: distances only decrease *)

Lemma dist_le_refl d : dist_le d d.
Proof. intros i x H. exists x. split; [done|lia]. Qed.

Lemma dist_le_trans d1 d2 d3 : dist_le d1 d2 → dist_le d2 d3 → dist_le d1 d3.
Proof.
  intros H12 H23 i x Hx. destruct (H12 i x Hx) as (y & Hy & ?).
  destruct (H23 i y Hy) as (z & Hz & ?). exists z. split; [done|lia].
Qed.

Lemma dist_le_insert (d : list Z) (i : nat) (old new : Z) :
  d !! i = Some old → new < old → dist_le d (<[i := new]> d).
Proof.
  intros Hi Hlt j x Hj. destruct (decide (j = i)) as [->|Hne].
  - exists new. rewrite list_lookup_insert_eq by (by eapply lookup_lt_Some).
    split; [done|]. assert (x = old) by congruence. lia.
  - exists x. rewrite list_lookup_insert_ne by done. split; [done|lia].
Qed.

Lemma dijkstra_edge_write rng p i u st :
  match final_state (dijkstra_edge rng p i u st) with
  | Some st1 =>
      dj_distances st1 = dj_distances st ∨
      ∃ old du,
        dj_distances st !! Z.to_nat (Z.lxor u (Z.shiftl 1 i)) = Some old ∧
        dj_distances st !! Z.to_nat u = Some du ∧
        wrap (du + 1) < old ∧
        dj_distances st1
        = <[Z.to_nat (Z.lxor u (Z.shiftl 1 i)) := wrap (du + 1)]> (dj_distances st)
  | None => True
  end.
Proof.
  unfold dijkstra_edge. destruct (64 <=? i); [done|].
  destruct (dj_visited st !! _) as [[]|]; simpl; try done; [by left|].
  destruct (Qltb _ _); simpl; [|by left].
  destruct (dj_distances st !! Z.to_nat (Z.lxor u (Z.shiftl 1 i))) as [old|] eqn:Ho;
    [|done].
  destruct (dj_distances st !! Z.to_nat u) as [du|] eqn:Hd; [|done].
  destruct (Z.ltb_spec (wrap (du + 1)) old); [|by left].
  destruct (enqueue _ _ _) as [q' err'].
  destruct (negb (err' =? 0)); simpl; [by left|].
  right. exists old, du. done.
Qed.

Lemma dijkstra_edge_dist rng p i u st :
  match final_state (dijkstra_edge rng p i u st) with
  | Some st1 => dist_le (dj_distances st) (dj_distances st1)
  | None => True
  end.
Proof.
  pose proof (dijkstra_edge_write rng p i u st) as H.
  destruct (final_state _) as [st1|]; [|done].
  destruct H as [->|(old & du & Ho & _ & Hlt & ->)]; [apply dist_le_refl|].
  by eapply dist_le_insert.
Qed.

Lemma dijkstra_neighbours_dist rng p k i u st :
  match final_state (dijkstra_neighbours rng p k i u st) with
  | Some st1 => dist_le (dj_distances st) (dj_distances st1)
  | None => True
  end.
Proof.
  revert i st. induction k as [|k IH]; intros i st; simpl; [apply dist_le_refl|].
  pose proof (dijkstra_edge_dist rng p i u st) as He.
  destruct (dijkstra_edge rng p i u st) as [st1|st1| |]; simpl in *; try done.
  specialize (IH (i + 1) st1).
  destruct (final_state _); [|done]. by eapply dist_le_trans.
Qed.

Lemma dijkstra_body_dist rng p N cidx st :
  match final_state (dijkstra_body rng p N cidx st) with
  | Some st1 => dist_le (dj_distances st) (dj_distances st1)
  | None => True
  end.
Proof.
  unfold dijkstra_body. destruct (dequeue _ _) as [[u q'] err'].
  destruct (negb (err' =? 0)); simpl; [apply dist_le_refl|].
  destruct (dj_distances st !! Z.to_nat u); [|done].
  destruct (negb _); [done|].
  destruct (write_label _ _ _); [|done].
  match goal with |- context [dijkstra_neighbours rng p ?k 0 u ?st2] =>
    exact (dijkstra_neighbours_dist rng p k 0 u st2) end.
Qed.

Lemma dijkstra_loop_dist rng p N cidx fuel st :
  match final_state (dijkstra_loop rng p N cidx fuel st) with
  | Some st1 => dist_le (dj_distances st) (dj_distances st1)
  | None => True
  end.
Proof.
  revert st. induction fuel as [|fuel IH]; intros st; simpl; [done|].
  destruct (negb (empty (dj_queue st))); simpl; [|apply dist_le_refl].
  pose proof (dijkstra_body_dist rng p N cidx st) as Hb.
  destruct (dijkstra_body rng p N cidx st) as [st1|st1| |]; simpl in *; try done.
  specialize (IH st1).
  destruct (final_state _); [|done]. by eapply dist_le_trans.
Qed.

Lemma dijkstra_dist rng p N st start cidx :
  match final_state (dijkstra rng p N st start cidx) with
  | Some st1 => dist_le (dj_distances st) (dj_distances st1)
  | None => True
  end.
Proof.
  unfold dijkstra. destruct (enqueue _ _ _) as [q1 err1].
  apply (dijkstra_loop_dist rng p N cidx _
           (mk_dij q1 (dj_visited st) (dj_distances st) (dj_number_visited st)
              (dj_labels st) err1 (dj_pos st))).
Qed.

Lemma dijkstra_spec rng p N cidx st start :
  0 <= N < 64 → dij_wf (2 ^ N) st → qlist (dj_queue st) = [] →
  0 <= start < 2 ^ N →
  dj_visited st !! Z.to_nat start = Some false →
  dj_distances st !! Z.to_nat start = Some 0 →
  (∀ x, 0 <= x < 2 ^ N → x ≠ start → dj_visited st !! Z.to_nat x = Some false →
        dj_distances st !! Z.to_nat x = Some ULONG_MAX) →
  dj_number_visited st = 0 →
  match dijkstra rng p N st start cidx with
  | Done st' =>
      dij_inv (2 ^ N) cidx st st' ∧ qlist (dj_queue st') = [] ∧
      dj_visited st' !! Z.to_nat start = Some true
  | _ => False
  end.
Proof.
  intros HN Hwf Hnil Hstart Hvs Hds Hinf Hnv.
  pose proof (dijkstra_dist rng p N st start cidx) as Hdist.
  revert Hdist. unfold dijkstra.
  pose proof Hwf as (Hq & Hcap & Hlv & Hld & Hll & Hrange).
  pose proof (pow2_le_modulus N HN) as [Hp0 Hp1]. pose proof ULONG_MAX_eq.
  assert (Hcount : queue_writeIdx (dj_queue st) - queue_readIdx (dj_queue st)
                   < queue_length (dj_queue st)).
  { rewrite <- qlist_length by done. rewrite Hnil. simpl. lia. }
  destruct (enqueue_ok (dj_queue st) start 0 Hq Hcount) as (q1 & Hen & Hq1 & Hcap1 & Hql).
  rewrite Hen. rewrite Hnil in Hql. simpl in Hql.
  set (st1 := mk_dij q1 (dj_visited st) (dj_distances st) (dj_number_visited st)
                (dj_labels st) 0 (dj_pos st)).
  assert (Hinv1 : dij_inv (2 ^ N) cidx st st1).
  { unfold dij_inv, dij_wf, st1. simpl. rewrite Hql.
    split_ands; try done; try lia; try (intros; congruence).
    - by apply Forall_singleton.
    - apply NoDup_singleton.
    - intros x Hx. by apply list_elem_of_singleton in Hx as ->.
    - intros x Hx Hxv Hxn. apply Hinf; try done. intros ->. apply Hxn.
      by apply list_elem_of_singleton.
    - intros x Hx. apply list_elem_of_singleton in Hx as ->. exists 0. split; [done|lia]. }
  assert (Hlev1 : ∃ d, dij_level st1 d).
  { exists 0, [start], []. unfold st1. simpl. rewrite Hql.
    split_ands; try done. by apply Forall_singleton. }
  pose proof (dijkstra_loop_spec rng p N cidx st (dijkstra_fuel st1) st1 HN Hinv1 Hlev1)
    as Hl.
  destruct (dijkstra_loop rng p N cidx (dijkstra_fuel st1) st1) as [st'| | |].
  - simpl. intros Hdist. destruct Hl as [Hinv' Hnil'].
    { unfold dijkstra_fuel. lia. }
    split_ands; try done.
    pose proof Hinv' as (Hwf' & _ & _ & _ & _ & _ & _ & _ & _ & Hinf' & _).
    destruct Hwf' as (_ & _ & Hlv' & _).
    destruct (site_index_Z _ _ _ Hlv' Hstart) as [[] Hb]; [done|].
    exfalso. specialize (Hinf' start Hstart Hb). rewrite Hnil' in Hinf'.
    specialize (Hinf' ltac:(apply not_elem_of_nil)).
    destruct (Hdist _ _ Hds) as (y & Hy & Hle). rewrite Hinf' in Hy.
    injection Hy as <-. lia.
  - intros _. apply Hl. unfold dijkstra_fuel. lia.
  - intros _. apply Hl. unfold dijkstra_fuel. lia.
  - intros _. apply Hl. unfold dijkstra_fuel. lia.
Qed.

(** ** The copy of the distances *)

Lemma copy_distances_total keep d k i out c :
  0 <= i → 0 <= c →
  (∀ j, i <= j < i + Z.of_nat k → keep j = true → is_Some (d !! Z.to_nat j)) →
  c + Z.of_nat (kept keep k i) <= Z.of_nat (base.length out) →
  Z.of_nat (base.length out) < ul_modulus →
  ∃ out', copy_distances keep d k i out c = Some out' ∧
          base.length out' = base.length out.
Proof.
  revert i out c. induction k as [|k IH]; intros i out c Hi Hc Hd Hlen Hmod; simpl.
  { by exists out. }
  simpl in Hlen. destruct (keep i) eqn:Hk.
  - destruct (Hd i ltac:(lia) Hk) as [x Hx]. rewrite Hx.
    destruct (Nat.ltb_spec (Z.to_nat c) (base.length out)); [|lia].
    rewrite wrap_small by lia.
    destruct (IH (i + 1) (<[Z.to_nat c := x]> out) (c + 1)) as (out' & Ho & Hl);
      try lia.
    + intros j Hj. apply Hd. lia.
    + rewrite length_insert. lia.
    + rewrite length_insert. lia.
    + exists out'. rewrite length_insert in Hl. done.
  - apply IH; try lia. intros j Hj. apply Hd. lia.
Qed.

Lemma copy_distances_ext keep keep' d d' k i out c :
  (∀ j, i <= j < i + Z.of_nat k →
        keep j = keep' j ∧ (keep j = true → d !! Z.to_nat j = d' !! Z.to_nat j)) →
  copy_distances keep d k i out c = copy_distances keep' d' k i out c.
Proof.
  revert i out c. induction k as [|k IH]; intros i out c H; simpl; [done|].
  destruct (H i ltac:(lia)) as [Hk Hd]. rewrite <- Hk.
  destruct (keep i).
  - rewrite <- Hd by done. destruct (d !! Z.to_nat i); [|done].
    destruct (_ <? _)%nat; [|done]. apply IH. intros j Hj. apply H. lia.
  - apply IH. intros j Hj. apply H. lia.
Qed.

Lemma kept_marked (pre v : list bool) :
  kept (λ j, default false ((pre ++ v) !! Z.to_nat j)) (base.length v)
    (Z.of_nat (base.length pre)) = marked v.
Proof.
  revert pre. induction v as [|b v IH]; intros pre; simpl; [done|].
  rewrite Nat2Z.id. rewrite lookup_app_r by lia. rewrite Nat.sub_diag. simpl.
  specialize (IH (pre ++ [b])). rewrite <- app_assoc in IH. simpl in IH.
  rewrite length_app in IH. simpl in IH.
  replace (Z.of_nat (base.length pre) + 1) with (Z.of_nat (base.length pre + 1)) by lia.
  by rewrite IH.
Qed.

(** ** hypercube_dijkstra *)

Lemma dijkstra_start_spec rng p N :
  0 <= N < 64 →
  match hypercube_dijkstra_run rng p N with
  | Done st' =>
      dij_inv (2 ^ N) 0 (dijkstra_start N) st' ∧ qlist (dj_queue st') = [] ∧
      dj_visited st' !! Z.to_nat 0 = Some true
  | _ => False
  end.
Proof.
  intros HN. unfold hypercube_dijkstra_run.
  pose proof (pow2_le_modulus N HN) as [Hp0 Hp1].
  destruct (setup_queue_wf (2 ^ N) ltac:(lia)) as [Hqwf Hqnil].
  assert (H1 : dij_wf (2 ^ N) (dijkstra_start N)).
  { unfold dijkstra_start; rewrite intpower_2 by done.
    unfold dij_wf, dij_init, reset_visited. simpl.
    rewrite length_insert, !length_replicate, Hqnil.
    split_ands; try done. by apply Forall_nil. }
  assert (H2 : qlist (dj_queue (dijkstra_start N)) = []).
  { unfold dijkstra_start; rewrite intpower_2 by done. done. }
  assert (H3 : dj_visited (dijkstra_start N) !! Z.to_nat 0 = Some false).
  { unfold dijkstra_start; rewrite intpower_2 by done.
    unfold dij_init, reset_visited. simpl.
    apply lookup_replicate. split; [done|lia]. }
  assert (H4 : dj_distances (dijkstra_start N) !! Z.to_nat 0 = Some 0).
  { unfold dijkstra_start; rewrite intpower_2 by done.
    unfold dij_init, reset_visited. simpl.
    apply list_lookup_insert_eq. rewrite length_replicate. lia. }
  assert (H5 : ∀ x, 0 <= x < 2 ^ N → x ≠ 0 →
            dj_visited (dijkstra_start N) !! Z.to_nat x = Some false →
            dj_distances (dijkstra_start N) !! Z.to_nat x = Some ULONG_MAX).
  { unfold dijkstra_start; rewrite intpower_2 by done.
    unfold dij_init, reset_visited. simpl.
    intros x Hx Hne _. rewrite list_lookup_insert_ne by lia.
    apply lookup_replicate. split; [done|lia]. }
  exact (dijkstra_spec rng p N 0 (dijkstra_start N) 0 HN H1 H2 ltac:(lia) H3 H4 H5
           eq_refl).
Qed.

(** The array returned by [hypercube_dijkstra] has as many entries as there
    are sites marked when the queue empties, and [number_visited] is that
    number.  The run returns for all arguments that [check_args] accepts. *)
Lemma hypercube_dijkstra_counts rng p N :
  check_args N 1 p = true →
  ∃ st out,
    hypercube_dijkstra_run rng p N = Done st ∧
    qlist (dj_queue st) = [] ∧
    dj_visited st !! Z.to_nat 0 = Some true ∧
    dj_number_visited st = Z.of_nat (marked (dj_visited st)) ∧
    hypercube_dijkstra rng p N = Done (Some out) ∧
    base.length out = marked (dj_visited st).
Proof.
  intros Hargs. pose proof (check_args_range _ _ _ Hargs) as HN.
  pose proof (dijkstra_start_spec rng p N HN) as Hrun.
  unfold hypercube_dijkstra. rewrite Hargs. simpl.
  destruct (hypercube_dijkstra_run rng p N) as [st| | |]; try done.
  destruct Hrun as (Hinv & Hnil & H0).
  pose proof Hinv as (Hwf & _ & Hnv & Hcnt & _).
  destruct Hwf as (_ & _ & Hlv & Hld & _).
  assert (Hm0 : marked (dj_visited (dijkstra_start N)) = 0%nat).
  { unfold dijkstra_start, dij_init, reset_visited. simpl.
    apply marked_replicate_false. }
  rewrite Hm0 in Hcnt. simpl in Hcnt.
  assert (Hnveq : dj_number_visited st = Z.of_nat (marked (dj_visited st))) by lia.
  pose proof (pow2_le_modulus N HN) as [Hp0 Hp1]. pose proof ULONG_MAX_eq.
  pose proof (marked_le (dj_visited st)) as Hmle.
  rewrite intpower_2 by done.
  destruct (copy_distances_total
              (λ i, default false (dj_visited st !! Z.to_nat i)) (dj_distances st)
              (Z.to_nat (2 ^ N)) 0
              (replicate (Z.to_nat (dj_number_visited st)) 0) 0)
    as (out & Hout & Hlen); try lia.
  - intros j Hj _. apply lookup_lt_is_Some. lia.
  - rewrite length_replicate.
    pose proof (kept_marked [] (dj_visited st)) as Hk. simpl in Hk.
    rewrite Hlv in Hk. change (Z.of_nat 0) with 0 in Hk. rewrite Hk. lia.
  - rewrite length_replicate. lia.
  - exists st, out. rewrite Hout. simpl. split_ands; try done.
    rewrite Hlen, length_replicate. lia.
Qed.

(** ** hypercube_dijkstra_LC: one cluster *)

Lemma dijkstra_one_spec rng p N site cidx e e' sz :
  0 <= N < 64 →
  Inv_D N e → 0 <= site < 2 ^ N → 0 <= cidx < 2 ^ N →
  dj_visited e !! Z.to_nat site = Some false →
  dijkstra_one rng p N site cidx e = Done (e', sz) →
  Inv_D N e' ∧
  Z.of_nat (marked (dj_visited e')) = Z.of_nat (marked (dj_visited e)) + sz ∧
  1 <= sz ∧
  (∀ L, 0 <= L < 2 ^ N → L ≠ cidx → stable_D N L e e').
Proof.
  intros HN (Hwf & Hnil & Hun) Hsite Hcidx Hv.
  pose proof Hwf as (Hq & Hcap & Hlv & Hld & Hll & Hrange).
  pose proof (pow2_le_modulus N HN) as [Hp0 Hp1].
  unfold dijkstra_one.
  destruct (Nat.ltb_spec (Z.to_nat site) (base.length (dj_distances e))); [|lia].
  simpl.
  set (st0 := mk_dij (dj_queue e) (dj_visited e)
                (<[Z.to_nat site := 0]> (dj_distances e)) 0 (dj_labels e) 0 (dj_pos e)).
  assert (H1 : dij_wf (2 ^ N) st0).
  { unfold dij_wf, st0. simpl. rewrite length_insert. done. }
  assert (H4 : dj_distances st0 !! Z.to_nat site = Some 0).
  { unfold st0. simpl. by apply list_lookup_insert_eq. }
  assert (H5 : ∀ x, 0 <= x < 2 ^ N → x ≠ site →
            dj_visited st0 !! Z.to_nat x = Some false →
            dj_distances st0 !! Z.to_nat x = Some ULONG_MAX).
  { unfold st0. simpl. intros x Hx Hne Hxv.
    rewrite list_lookup_insert_ne by lia. by apply Hun. }
  pose proof (dijkstra_spec rng p N cidx st0 site HN H1 Hnil Hsite Hv H4 H5 eq_refl)
    as Hd.
  destruct (dijkstra rng p N st0 site cidx) as [st'| | |]; try done.
  intros [= <- <-].
  destruct Hd as (Hinv & Hnil' & Hstart).
  destruct Hinv as (Hwf' & Hmono & Hnv & Hcnt & Hlab1 & Hlab2 & Hfr & _ & _ & Hinf & _ & _).
  pose proof Hwf' as (_ & _ & Hlv' & Hld' & _).
  simpl in *.
  assert (Hvis : ∀ i, dj_visited st' !! i = Some false → dj_visited e !! i = Some false).
  { intros i Hi. assert (Hlt : (i < base.length (dj_visited e))%nat).
    { apply lookup_lt_Some in Hi. lia. }
    apply lookup_lt_is_Some in Hlt as [[] Hb]; [|done].
    apply Hmono in Hb. congruence. }
  split_ands.
  - unfold Inv_D. split_ands; try done.
    intros i Hi. split.
    + assert (Hlt : (i < Z.to_nat (2 ^ N))%nat).
      { apply lookup_lt_Some in Hi. lia. }
      replace i with (Z.to_nat (Z.of_nat i)) by lia.
      apply Hinf; [lia|by rewrite Nat2Z.id|]. rewrite Hnil'. apply not_elem_of_nil.
    + rewrite Hlab1; [|by rewrite Hi, (Hvis i Hi)].
      apply Hun. by apply Hvis.
  - lia.
  - pose proof (marked_mono_strict (dj_visited e) (dj_visited st') (Z.to_nat site)
                  ltac:(lia) Hmono Hv Hstart). lia.
  - intros L HL Hne i Hi.
    assert (Hlt : (Z.to_nat i < base.length (dj_visited e))%nat) by lia.
    apply lookup_lt_is_Some in Hlt as [b Hb].
    unfold label_is. destruct b.
    + rewrite Hlab1; [|by rewrite Hb, (Hmono _ Hb)].
      split; [done|]. intros _. rewrite (Hfr _ Hb).
      rewrite list_lookup_insert_ne; [done|]. congruence.
    + destruct (Hun _ Hb) as [_ Hlu]. rewrite Hlu.
      assert (Hul : (ULONG_MAX =? L) = false) by (apply Z.eqb_neq; lia).
      rewrite Hul. split; [|done].
      assert (Hlt' : (Z.to_nat i < base.length (dj_visited st'))%nat) by lia.
      apply lookup_lt_is_Some in Hlt' as [b' Hb'].
      destruct b'.
      * specialize (Hlab2 _ Hb Hb'). unfold labelled, label_at in *.
        destruct (dj_labels st') as [l|]; [|done]. rewrite Hlab2.
        symmetry. apply Z.eqb_neq. congruence.
      * rewrite Hlab1 by congruence. by rewrite Hlu, Hul.
Qed.

Lemma Inv_D_init N :
  0 <= N < 64 →
  Inv_D N (dij_init (2 ^ N) (Some (replicate (Z.to_nat (2 ^ N)) ULONG_MAX))).
Proof.
  intros HN. pose proof (pow2_le_modulus N HN) as [Hp0 _].
  destruct (setup_queue_wf (2 ^ N) ltac:(lia)) as [Hqwf Hqnil].
  unfold Inv_D, dij_wf, dij_init, reset_visited. simpl.
  rewrite !length_replicate, Hqnil.
  split_ands; try done.
  - by apply Forall_nil.
  - intros i Hi. apply lookup_replicate in Hi as [_ Hi].
    split; by apply lookup_replicate.
Qed.

Lemma stable_D_refl N L e : stable_D N L e e.
Proof. intros i Hi. done. Qed.

Lemma stable_D_trans N L e1 e2 e3 :
  stable_D N L e1 e2 → stable_D N L e2 e3 → stable_D N L e1 e3.
Proof.
  intros H12 H23 i Hi. destruct (H12 i Hi) as [Ha Hb], (H23 i Hi) as [Hc Hd].
  split; [congruence|]. intros Hk. rewrite Hb by done. apply Hd. congruence.
Qed.

Lemma Inv_D_length N e : Inv_D N e → base.length (dj_visited e) = Z.to_nat (2 ^ N).
Proof. intros H. apply H. Qed.

Lemma dijkstra_LC_enumerate_early rng p N e2 c2 :
  0 <= N < 64 →
  dijkstra_LC_enumerate rng p N false = Done (e2, c2) →
  ∃ e1 c1,
    dijkstra_LC_enumerate rng p N true = Done (e1, c1) ∧
    largest_cluster_index c1 = largest_cluster_index c2 ∧
    largest_cluster_size c1 = largest_cluster_size c2 ∧
    0 <= largest_cluster_index c1 < 2 ^ N ∧
    stable_D N (largest_cluster_index c1) e1 e2.
Proof.
  intros HN. unfold dijkstra_LC_enumerate. rewrite intpower_2 by done.
  pose proof (pow2_le_modulus N HN) as Hp.
  apply (enumerate_early_exit dj_visited (dijkstra_one rng p N) (2 ^ N)
           (Inv_D N) (stable_D N) Hp (Inv_D_length N) (stable_D_refl N)
           (stable_D_trans N)).
  - intros site cidx e e' sz. by apply dijkstra_one_spec.
  - by apply Inv_D_init.
  - apply lc_inv_start.
  - done.
  - lia.
Qed.

Lemma dijkstra_LC_enumerate_inv rng p N b e1 c1 :
  0 <= N < 64 →
  dijkstra_LC_enumerate rng p N b = Done (e1, c1) →
  Inv_D N e1 ∧ 0 <= largest_cluster_index c1 < 2 ^ N.
Proof.
  intros HN. unfold dijkstra_LC_enumerate. rewrite intpower_2 by done.
  pose proof (pow2_le_modulus N HN) as Hp. intros He.
  destruct (enumerate_inv dj_visited (dijkstra_one rng p N) (2 ^ N)
           (Inv_D N) (stable_D N) Hp (Inv_D_length N)
           ltac:(intros site cidx e e' sz; by apply dijkstra_one_spec)
           b (Z.to_nat (2 ^ N)) 0 _ _ e1 c1 (Inv_D_init N HN) (lc_inv_start _)
           ltac:(lia) ltac:(lia) He) as (? & ? & _).
  done.
Qed.

Lemma dijkstra_one_total rng p N site cidx e :
  0 <= N < 64 →
  Inv_D N e → 0 <= site < 2 ^ N → 0 <= cidx < 2 ^ N →
  dj_visited e !! Z.to_nat site = Some false →
  ∃ e' sz, dijkstra_one rng p N site cidx e = Done (e', sz).
Proof.
  intros HN (Hwf & Hnil & Hun) Hsite Hcidx Hv.
  pose proof Hwf as (Hq & Hcap & Hlv & Hld & Hll & Hrange).
  unfold dijkstra_one.
  destruct (Nat.ltb_spec (Z.to_nat site) (base.length (dj_distances e))); [|lia].
  simpl.
  set (st0 := mk_dij (dj_queue e) (dj_visited e)
                (<[Z.to_nat site := 0]> (dj_distances e)) 0 (dj_labels e) 0 (dj_pos e)).
  assert (H1 : dij_wf (2 ^ N) st0).
  { unfold dij_wf, st0. simpl. rewrite length_insert. done. }
  assert (H4 : dj_distances st0 !! Z.to_nat site = Some 0).
  { unfold st0. simpl. by apply list_lookup_insert_eq. }
  assert (H5 : ∀ x, 0 <= x < 2 ^ N → x ≠ site →
            dj_visited st0 !! Z.to_nat x = Some false →
            dj_distances st0 !! Z.to_nat x = Some ULONG_MAX).
  { unfold st0. simpl. intros x Hx Hne Hxv.
    rewrite list_lookup_insert_ne by lia. by apply Hun. }
  pose proof (dijkstra_spec rng p N cidx st0 site HN H1 Hnil Hsite Hv H4 H5 eq_refl)
    as Hd.
  destruct (dijkstra rng p N st0 site cidx) as [st'| | |]; try done.
  by eexists _, _.
Qed.

Lemma dijkstra_LC_enumerate_total rng p N b :
  0 <= N < 64 →
  ∃ e c, dijkstra_LC_enumerate rng p N b = Done (e, c).
Proof.
  intros HN. unfold dijkstra_LC_enumerate. rewrite intpower_2 by done.
  pose proof (pow2_le_modulus N HN) as Hp.
  apply (enumerate_total dj_visited (dijkstra_one rng p N) (2 ^ N)
           (Inv_D N) (stable_D N) Hp (Inv_D_length N)).
  - intros site cidx e e' sz. by apply dijkstra_one_spec.
  - intros site cidx e. by apply dijkstra_one_total.
  - by apply Inv_D_init.
  - apply lc_inv_start.
  - done.
  - lia.
Qed.

Lemma dijkstra_LC_equal rng p N :
  hypercube_dijkstra_LC rng p N = dijkstra_LC_exhaustive rng p N.
Proof.
  unfold dijkstra_LC_exhaustive, hypercube_dijkstra_LC, dijkstra_LC_with.
  destruct (check_args N 1 p) eqn:Hargs; simpl; [|done].
  pose proof (check_args_range _ _ _ Hargs) as HN.
  destruct (dijkstra_LC_enumerate_total rng p N false HN) as (e2 & c2 & He2).
  destruct (dijkstra_LC_enumerate_early _ _ _ _ _ HN He2)
    as (e1 & c1 & He1 & Hi & Hs & _ & Hst).
  rewrite He1, He2. f_equal.
  unfold dijkstra_LC_copy. rewrite intpower_2 by done. rewrite <- Hi, <- Hs.
  apply copy_distances_ext. intros j Hj. apply Hst. lia.
Qed.

Lemma dijkstra_LC_refines rng p N r :
  dijkstra_LC_exhaustive rng p N = Done r → hypercube_dijkstra_LC rng p N = Done r.
Proof.
  unfold dijkstra_LC_exhaustive, hypercube_dijkstra_LC, dijkstra_LC_with.
  destruct (check_args N 1 p) eqn:Hargs; simpl; [|done].
  pose proof (check_args_range _ _ _ Hargs) as HN.
  destruct (dijkstra_LC_enumerate rng p N false) as [[e2 c2]| | |] eqn:He2; try done.
  destruct (dijkstra_LC_enumerate_early _ _ _ _ _ HN He2)
    as (e1 & c1 & He1 & Hi & Hs & _ & Hst).
  rewrite He1.
  assert (Hcopy : dijkstra_LC_copy N (e1, c1) = dijkstra_LC_copy N (e2, c2)).
  { unfold dijkstra_LC_copy. rewrite intpower_2 by done. rewrite <- Hi, <- Hs.
    apply copy_distances_ext. intros j Hj. apply Hst. lia. }
  by rewrite Hcopy.
Qed.

(** ** The guard on a non-empty stack *)

Lemma DFS_hypercube_guard rng p N s visited seed error pyerr pos :
  stack_top s ≠ 0 →
  DFS_hypercube rng p N s visited seed error pyerr pos
  = Fail (mk_dfs s visited (-1) (Some stack_not_empty) pos 0).
Proof.
  intros H. unfold DFS_hypercube. by destruct (Z.eqb_spec (stack_top s) 0).
Qed.

Lemma grow_H_cluster_guard rng p N st start cidx :
  stack_top (g_stack st) ≠ 0 →
  grow_H_cluster rng p N st start cidx
  = Fail (mk_grow (g_stack st) (g_visited st) (g_matrix st) (g_labels st)
            (g_error_flag st) (Some stack_not_empty) (g_pos st) (g_size st)).
Proof.
  intros H. unfold grow_H_cluster. by destruct (Z.eqb_spec (stack_top (g_stack st)) 0).
Qed.

(** ** The drivers return *)

Lemma nd_in_range_true (a : ndarray) (NH i j : Z) :
  nd_rows a = NH → nd_cols a = NH → 0 <= i < NH → 0 <= j < NH →
  nd_in_range a i j = true.
Proof.
  intros Hr Hc Hi Hj. unfold nd_in_range. rewrite Hr, Hc.
  destruct (Z.leb_spec 0 i); [|lia]. destruct (Z.ltb_spec i NH); [|lia].
  destruct (Z.leb_spec 0 j); [|lia]. destruct (Z.ltb_spec j NH); [|lia]. done.
Qed.

Lemma H_row_total rng p N k i row a pos :
  0 <= N < 64 → 0 <= i → i + Z.of_nat k <= N → 0 <= row < 2 ^ N →
  nd_rows a = 2 ^ N → nd_cols a = 2 ^ N →
  ∃ a' pos', H_row rng p k i row a pos = Some (a', pos') ∧
             nd_rows a' = 2 ^ N ∧ nd_cols a' = 2 ^ N.
Proof.
  intros HN. revert i a pos. induction k as [|k IH]; intros i a pos Hi Hk Hrow Hr Hc; simpl.
  { by exists a, pos. }
  destruct (Z.leb_spec 64 i); [lia|].
  assert (Hcol : 0 <= Z.lxor row (Z.shiftl 1 i) < 2 ^ N) by (apply lxor_bit_range; lia).
  rewrite (nd_in_range_true a (2 ^ N)), (nd_in_range_true a (2 ^ N)) by done.
  simpl. apply IH; try done; lia.
Qed.

Lemma H_rows_total rng p N n row a pos :
  0 <= N < 64 → 0 <= row → row + Z.of_nat n <= 2 ^ N →
  nd_rows a = 2 ^ N → nd_cols a = 2 ^ N →
  ∃ a' pos', H_rows rng p N n row a pos = Some (a', pos').
Proof.
  intros HN. revert row a pos. induction n as [|n IH]; intros row a pos Hrow Hn Hr Hc; simpl.
  { by exists a, pos. }
  destruct (H_row_total rng p N (Z.to_nat N) 0 row a pos HN ltac:(lia) ltac:(lia)
              ltac:(lia) Hr Hc) as (a1 & pos1 & H1 & Hr1 & Hc1).
  rewrite H1. apply IH; try done; lia.
Qed.

Lemma hypercube_H_total rng p N :
  check_args N 1 p = true →
  ∃ a, hypercube_H rng p N = Done (Some a) ∧ symmetric a.
Proof.
  intros Hargs. pose proof (check_args_range _ _ _ Hargs) as HN.
  pose proof (pow2_le_modulus N HN) as [Hp0 _].
  destruct (H_rows_total rng p N (Z.to_nat (2 ^ N)) 0 (PyArray_ZEROS (2 ^ N) (2 ^ N)) 0%nat
              HN ltac:(lia) ltac:(lia) eq_refl eq_refl) as (a & pos & Ha).
  assert (Hh : hypercube_H rng p N = Done (Some a)).
  { unfold hypercube_H. rewrite Hargs. simpl. rewrite intpower_2 by done. by rewrite Ha. }
  exists a. split; [done|]. by eapply H_symmetric.
Qed.

Lemma grow_edge_total rng p N i u st :
  0 <= N < 64 → 0 <= i < N → 0 <= u < 2 ^ N → grow_wf (2 ^ N) st →
  match grow_edge rng p i u st with
  | Done st1 =>
      grow_wf (2 ^ N) st1 ∧ g_visited st1 = g_visited st ∧
      stack_top (g_stack st1) <= stack_top (g_stack st) + 1 ∧
      g_error_flag st1 = g_error_flag st
  | Fail _ => True
  | Undef | Fuel => False
  end.
Proof.
  intros HN Hi Hu Hwf.
  pose proof Hwf as (Hs & Hlen & Hrange & Hrows & Hcols & Hll).
  assert (Hvr : 0 <= Z.lxor u (Z.shiftl 1 i) < 2 ^ N) by (apply lxor_bit_range; lia).
  destruct (grow_edge rng p i u st) as [st1|st1| |] eqn:He; try done.
  - destruct (grow_edge_done _ _ _ _ _ _ He)
      as [_ [[Hv ->] | (Hv & Hr1 & Hr2 & s' & x & Hcase & ->)]].
    { split_ands; try done; lia. }
    destruct Hcase as [(_ & Hp & Hlt) | (_ & ->)].
    + destruct (push_ok (g_stack st) (Z.lxor u (Z.shiftl 1 i)) Hs Hlt)
        as (s'' & Hp' & Hs'' & Ht'' & _ & Hsl).
      rewrite Hp in Hp'. injection Hp' as <-.
      unfold grow_wf. simpl. split_ands; try done; try lia.
      rewrite Hsl. apply Forall_app. split; [done|]. by apply Forall_singleton.
    + unfold grow_wf. simpl. split_ands; try done; lia.
  - unfold grow_edge in He. destruct (Z.leb_spec 64 i); [lia|].
    destruct (site_index _ _ _ Hlen Hvr) as [b Hb]. rewrite Hb in He.
    destruct b; [done|].
    rewrite (nd_in_range_true _ (2 ^ N)), (nd_in_range_true _ (2 ^ N)) in He by done.
    simpl in He. destruct (Qltb _ _); [|done].
    destruct (push _ _) as [s' r]. by destruct (r =? 1).
  - unfold grow_edge in He. destruct (Z.leb_spec 64 i); [lia|].
    destruct (g_visited st !! _) as [[]|]; try done.
    destruct (negb _); [done|]. destruct (Qltb _ _); [|done].
    destruct (push _ _) as [s' r]. by destruct (r =? 1).
Qed.

Lemma grow_neighbours_total rng p N k i u st :
  0 <= N < 64 → 0 <= i → i + Z.of_nat k <= N → 0 <= u < 2 ^ N →
  grow_wf (2 ^ N) st →
  match grow_neighbours rng p k i u st with
  | Done st1 =>
      grow_wf (2 ^ N) st1 ∧ g_visited st1 = g_visited st ∧
      stack_top (g_stack st1) <= stack_top (g_stack st) + Z.of_nat k ∧
      g_error_flag st1 = g_error_flag st
  | Fail _ => True
  | Undef | Fuel => False
  end.
Proof.
  intros HN. revert i st. induction k as [|k IH]; intros i st Hi Hk Hu Hwf; simpl.
  { split_ands; try done; lia. }
  pose proof (grow_edge_total rng p N i u st HN ltac:(lia) Hu Hwf) as He.
  destruct (grow_edge rng p i u st) as [st1|st1| |]; try done.
  destruct He as (Hwf1 & Hv1 & Ht1 & He1).
  specialize (IH (i + 1) st1 ltac:(lia) ltac:(lia) Hu Hwf1).
  destruct (grow_neighbours rng p k (i + 1) u st1); try done.
  destruct IH as (? & ? & ? & ?). split_ands; try done; try congruence; lia.
Qed.

Lemma grow_body_total rng p N cidx st :
  0 <= N < 64 → grow_wf (2 ^ N) st → 0 < stack_top (g_stack st) →
  g_error_flag st ≠ -1 →
  match grow_body rng p N cidx st with
  | Done st1 =>
      grow_wf (2 ^ N) st1 ∧ g_error_flag st1 = g_error_flag st ∧
      (dfs_potential N (stack_top (g_stack st1)) (g_visited st1)
       < dfs_potential N (stack_top (g_stack st)) (g_visited st))%nat
  | Fail _ => True
  | Undef | Fuel => False
  end.
Proof.
  intros HN Hwf Htop Herr.
  pose proof Hwf as (Hs & Hlen & Hrange & Hrows & Hcols & Hll).
  unfold grow_body.
  destruct (pop_ok (g_stack st) (g_error_flag st) Hs Htop)
    as (u & s' & Hp & Hs' & Ht' & Hl' & Hsl).
  rewrite Hp. simpl.
  destruct (Z.eqb_spec (g_error_flag st) (-1)); [done|].
  rewrite Hsl in Hrange. apply Forall_app in Hrange as [Hrange Hu].
  rewrite Forall_singleton in Hu.
  destruct (site_index _ _ _ Hlen Hu) as [b Hb]. rewrite Hb.
  pose proof (marked_le (g_visited st)) as Hm.
  destruct b.
  - unfold grow_wf, dfs_potential. simpl. split_ands; try done. lia.
  - assert (Hw : ∃ labels', write_label (g_labels st) u cidx = Some labels'
                            ∧ labels_len (2 ^ N) labels').
    { unfold write_label. destruct (g_labels st) as [l|]; [|by eexists].
      simpl in Hll. destruct (Nat.ltb_spec (Z.to_nat u) (base.length l)); [|lia].
      eexists. split; [done|]. simpl. by rewrite length_insert. }
    destruct Hw as (labels' & Hw & Hll'). rewrite Hw.
    pose proof (marked_insert _ _ Hb) as Hmi.
    pose proof (marked_le (<[Z.to_nat u := true]> (g_visited st))) as Hmle.
    rewrite length_insert, Hmi in Hmle.
    match goal with |- context [grow_neighbours rng p ?k 0 u ?st2] =>
      pose proof (grow_neighbours_total rng p N k 0 u st2 HN ltac:(lia) ltac:(lia) Hu)
        as Hn;
      destruct (grow_neighbours rng p k 0 u st2) as [st1|st1| |] end; try done.
    + destruct Hn as (Hwf1 & Hv1 & Ht1 & He1).
      { unfold grow_wf. simpl. rewrite length_insert. done. }
      simpl in *. split_ands; try done.
      unfold dfs_potential. rewrite Hv1, length_insert, Hmi. nia.
    + apply Hn. unfold grow_wf. simpl. rewrite length_insert. done.
    + apply Hn. unfold grow_wf. simpl. rewrite length_insert. done.
Qed.

Lemma grow_loop_total rng p N cidx fuel st :
  0 <= N < 64 → grow_wf (2 ^ N) st → g_error_flag st ≠ -1 →
  (dfs_potential N (stack_top (g_stack st)) (g_visited st) < fuel)%nat →
  match grow_loop rng p N cidx fuel st with
  | Done _ | Fail _ => True
  | Undef | Fuel => False
  end.
Proof.
  intros HN. revert st. induction fuel as [|fuel IH]; intros st Hwf Herr Hfuel; [lia|].
  simpl. destruct (Z.ltb_spec 0 (stack_top (g_stack st))) as [Htop|Htop]; [|done].
  pose proof (grow_body_total rng p N cidx st HN Hwf Htop Herr) as Hb.
  destruct (grow_body rng p N cidx st) as [st1|st1| |]; try done.
  destruct Hb as (Hwf1 & He1 & Hpot). apply IH; try done; [congruence|lia].
Qed.

Lemma grow_H_cluster_total rng p N st start cidx :
  0 <= N < 64 → grow_wf (2 ^ N) st → 0 <= start < 2 ^ N → g_error_flag st ≠ -1 →
  match grow_H_cluster rng p N st start cidx with
  | Done _ | Fail _ => True
  | Undef | Fuel => False
  end.
Proof.
  intros HN Hwf Hstart Herr.
  destruct (Z.eq_dec (stack_top (g_stack st)) 0) as [Htop|Htop].
  2: { by rewrite grow_H_cluster_guard. }
  rewrite grow_H_cluster_unfold by done. cbv zeta.
  pose proof Hwf as (Hs & Hlen & Hrange & Hrows & Hcols & Hll).
  pose proof (marked_le (g_visited st)) as Hmle.
  apply grow_loop_total; try done.
  - unfold grow_wf. simpl.
    destruct (Z.lt_ge_cases (stack_top (g_stack st)) (stack_length (g_stack st)))
      as [Hlt|Hge].
    + destruct (push_ok (g_stack st) start Hs Hlt) as (s1 & Hp & Hs1 & Ht1 & Hl1 & Hsl1).
      rewrite Hp. simpl. split_ands; try done.
      rewrite Hsl1. apply Forall_app. split; [done|]. by apply Forall_singleton.
    + rewrite push_full by done. simpl. done.
  - unfold grow_fuel, dfs_potential. simpl. lia.
Qed.

(** * The properties of the specification *)

(** C1: whenever the exhaustive enumeration of all clusters (the drivers
    without the [break]) returns, [hypercube_H_LC] and
    [hypercube_dijkstra_LC] with the early exit return the same result for
    the same sequence of variates: the same largest-cluster index and size,
    the same sites labelled with it, the same restricted output.  The
    exhaustive enumeration of [hypercube_dijkstra_LC] always returns, so
    there the two functions are equal. *)
Theorem early_exit_matches_exhaustive rng p N :
  (∀ r, H_LC_exhaustive rng p N = Done r → hypercube_H_LC rng p N = Done r) ∧
  hypercube_dijkstra_LC rng p N = dijkstra_LC_exhaustive rng p N ∧
  (0 <= N < 64 → ∀ e2 c2,
     H_LC_enumerate rng p N false = Done (e2, c2) →
     ∃ e1 c1,
       H_LC_enumerate rng p N true = Done (e1, c1) ∧
       largest_cluster_index c1 = largest_cluster_index c2 ∧
       largest_cluster_size c1 = largest_cluster_size c2 ∧
       ∀ i, 0 <= i < 2 ^ N →
            label_is (g_labels e1) (largest_cluster_index c1) i
            = label_is (g_labels e2) (largest_cluster_index c2) i) ∧
  (0 <= N < 64 → ∀ e2 c2,
     dijkstra_LC_enumerate rng p N false = Done (e2, c2) →
     ∃ e1 c1,
       dijkstra_LC_enumerate rng p N true = Done (e1, c1) ∧
       largest_cluster_index c1 = largest_cluster_index c2 ∧
       largest_cluster_size c1 = largest_cluster_size c2 ∧
       ∀ i, 0 <= i < 2 ^ N →
            label_is (dj_labels e1) (largest_cluster_index c1) i
            = label_is (dj_labels e2) (largest_cluster_index c2) i).
Proof.
  split_ands.
  - apply H_LC_refines.
  - apply dijkstra_LC_equal.
  - intros HN e2 c2 He2.
    destruct (H_LC_enumerate_early _ _ _ _ _ HN He2) as (e1 & c1 & He1 & Hi & Hs & _ & Hst).
    exists e1, c1. split_ands; try done. intros i Hi'. rewrite <- Hi. by apply Hst.
  - intros HN e2 c2 He2.
    destruct (dijkstra_LC_enumerate_early _ _ _ _ _ HN He2)
      as (e1 & c1 & He1 & Hi & Hs & _ & Hst).
    exists e1, c1. split_ands; try done. intros i Hi'. rewrite <- Hi. by apply Hst.
Qed.

Lemma early_exit_matches_exhaustive_witness :
  ∃ r1 r2,
    H_LC_exhaustive alternating (1 # 2) 3 = Done r1 ∧
    hypercube_H_LC alternating (1 # 2) 3 = Done r1 ∧
    dijkstra_LC_exhaustive alternating (1 # 2) 3 = Done r2 ∧
    hypercube_dijkstra_LC alternating (1 # 2) 3 = Done r2.
Proof.
  pose proof (early_exit_matches_exhaustive alternating (1 # 2) 3) as (H1 & H2 & _).
  do 2 eexists. split_ands.
  - vm_compute. reflexivity.
  - apply H1. vm_compute. reflexivity.
  - vm_compute. reflexivity.
  - rewrite H2. vm_compute. reflexivity.
Defined.

(** C3: every adjacency matrix returned by [hypercube_H], [hypercube_H_SC]
    and [hypercube_H_LC] (the restricted copy of the largest cluster) is
    symmetric, for every [N], [p] and sequence of variates; and
    [hypercube_H] returns a matrix for all arguments that [check_args]
    accepts. *)
Theorem adjacency_matrices_symmetric rng p N :
  (check_args N 1 p = true → ∃ a, hypercube_H rng p N = Done (Some a) ∧ symmetric a) ∧
  (∀ a, hypercube_H rng p N = Done (Some a) → symmetric a) ∧
  (∀ a n, hypercube_H_SC rng p N = Done (Some (a, n)) → symmetric a) ∧
  (∀ a n, hypercube_H_LC rng p N = Done (Some (a, n)) → symmetric a).
Proof.
  split_ands.
  - apply hypercube_H_total.
  - apply H_symmetric.
  - apply H_SC_symmetric.
  - apply H_LC_symmetric.
Qed.

Lemma adjacency_matrices_symmetric_witness :
  ∃ a1 a2 n2 a3 n3,
    hypercube_H alternating (1 # 2) 2 = Done (Some a1) ∧ symmetric a1 ∧
    hypercube_H_SC alternating (1 # 2) 2 = Done (Some (a2, n2)) ∧ symmetric a2 ∧
    hypercube_H_LC alternating (1 # 2) 2 = Done (Some (a3, n3)) ∧ symmetric a3.
Proof.
  pose proof (adjacency_matrices_symmetric alternating (1 # 2) 2) as (_ & H1 & H2 & H3).
  do 5 eexists. split_ands.
  - vm_compute. reflexivity.
  - eapply H1. vm_compute. reflexivity.
  - vm_compute. reflexivity.
  - eapply H2. vm_compute. reflexivity.
  - vm_compute. reflexivity.
  - eapply H3. vm_compute. reflexivity.
Defined.

(** C5: in the distance engine every entry of the distance array is
    non-increasing over the run.  One pass of the loop over the neighbours
    either leaves the array as it is or overwrites [distances[v]] with the
    candidate [distances[u] + 1], and only when the candidate is strictly
    smaller than the entry; so each pass of the body, and the whole run of
    [dijkstra] to either exit, ends with entries at most the ones it started
    with.  [hypercube_dijkstra] starts at 0 for the seed and at the infinite
    sentinel elsewhere. *)
Theorem distances_never_increase rng p N :
  (0 <= N < 64 →
   dj_distances (dijkstra_start N) !! Z.to_nat 0 = Some 0 ∧
   ∀ i, 0 < i < 2 ^ N →
        dj_distances (dijkstra_start N) !! Z.to_nat i = Some ULONG_MAX) ∧
  (∀ i u st st1,
     final_state (dijkstra_edge rng p i u st) = Some st1 →
     dj_distances st1 = dj_distances st ∨
     ∃ old du,
       dj_distances st !! Z.to_nat (Z.lxor u (Z.shiftl 1 i)) = Some old ∧
       dj_distances st !! Z.to_nat u = Some du ∧
       wrap (du + 1) < old ∧
       dj_distances st1
       = <[Z.to_nat (Z.lxor u (Z.shiftl 1 i)) := wrap (du + 1)]> (dj_distances st)) ∧
  (∀ cidx st st1,
     final_state (dijkstra_body rng p N cidx st) = Some st1 →
     dist_le (dj_distances st) (dj_distances st1)) ∧
  (∀ cidx st start st1,
     final_state (dijkstra rng p N st start cidx) = Some st1 →
     dist_le (dj_distances st) (dj_distances st1)).
Proof.
  split_ands.
  - intros HN. pose proof (pow2_le_modulus N HN) as [Hp0 _].
    unfold dijkstra_start. rewrite intpower_2 by done.
    unfold dij_init. simpl. split.
    + apply list_lookup_insert_eq. rewrite length_replicate. lia.
    + intros i Hi. rewrite list_lookup_insert_ne by lia.
      apply lookup_replicate. split; [done|lia].
  - intros i u st st1 H. pose proof (dijkstra_edge_write rng p i u st) as Hw.
    by rewrite H in Hw.
  - intros cidx st st1 H. pose proof (dijkstra_body_dist rng p N cidx st) as Hw.
    by rewrite H in Hw.
  - intros cidx st start st1 H. pose proof (dijkstra_dist rng p N st start cidx) as Hw.
    by rewrite H in Hw.
Qed.

Lemma distances_never_increase_witness :
  ∃ st1,
    final_state (dijkstra alternating (1 # 2) 3 (dijkstra_start 3) 0 0) = Some st1 ∧
    dist_le (dj_distances (dijkstra_start 3)) (dj_distances st1) ∧
    dj_distances (dijkstra_start 3) !! Z.to_nat 0 = Some 0.
Proof.
  pose proof (distances_never_increase alternating (1 # 2) 3) as (H1 & _ & _ & H4).
  eexists. split_ands.
  - vm_compute. reflexivity.
  - apply (H4 0 (dijkstra_start 3) 0). vm_compute. reflexivity.
  - apply H1. lia.
Defined.

Lemma label_is_sentinel N labels L i :
  0 <= N < 64 → 0 <= L < 2 ^ N →
  label_at labels (Z.to_nat i) = Some ULONG_MAX → label_is labels L i = false.
Proof.
  intros HN HL H. unfold label_is. rewrite H.
  pose proof (pow2_le_modulus N HN). apply Z.eqb_neq. lia.
Qed.

(** C9: in the largest-cluster drivers, with or without the early exit,
    a site not marked visited when the enumeration ends still holds the
    sentinel [ULONG_MAX] in [labels]; the index of the largest cluster is
    below the graph order, so the site passes the test [labels[i] == L] for
    no cluster index [L], 0 and the largest included, and in the matrix
    copied out by [hypercube_H_LC] its row and its column are zero.  A run of
    [grow_H_cluster] leaves the label of a site whose mark it does not change
    as it was. *)
Theorem unreached_sites_keep_sentinel rng p N b :
  0 <= N < 64 →
  (∀ st c, H_LC_enumerate rng p N b = Done (st, c) →
     0 <= largest_cluster_index c < 2 ^ N ∧
     ∀ i, 0 <= i < 2 ^ N → g_visited st !! Z.to_nat i = Some false →
          label_at (g_labels st) (Z.to_nat i) = Some ULONG_MAX ∧
          (∀ L, 0 <= L < 2 ^ N → label_is (g_labels st) L i = false) ∧
          (∀ a n k, H_LC_copy N (st, c) = Some (a, n) →
                    nd_get a k i = 0 ∧ nd_get a i k = 0)) ∧
  (∀ st c, dijkstra_LC_enumerate rng p N b = Done (st, c) →
     0 <= largest_cluster_index c < 2 ^ N ∧
     ∀ i, 0 <= i < 2 ^ N → dj_visited st !! Z.to_nat i = Some false →
          label_at (dj_labels st) (Z.to_nat i) = Some ULONG_MAX ∧
          (∀ L, 0 <= L < 2 ^ N → label_is (dj_labels st) L i = false)) ∧
  (∀ st start cidx st', grow_wf (2 ^ N) st → g_size st = 0 → 0 <= start < 2 ^ N →
     grow_H_cluster rng p N st start cidx = Done st' →
     ∀ i, g_visited st' !! i = g_visited st !! i →
          label_at (g_labels st') i = label_at (g_labels st) i).
Proof.
  intros HN. split_ands.
  - intros st c He. destruct (H_LC_enumerate_inv _ _ _ _ _ _ HN He) as [Hinv Hidx].
    split; [done|]. intros i Hi Hv.
    pose proof Hinv as (Hwf & _ & _ & _ & Hedges & Hun).
    pose proof (Hun _ Hv) as Hl. split_ands; [done| |].
    + intros L HL. by eapply label_is_sentinel.
    + intros a n k. unfold H_LC_copy. rewrite intpower_2 by done.
      destruct (copy_cluster _ _ _ 0 (g_matrix st) _) as [[h lc]|] eqn:Hc; [|done].
      intros [= <- <-].
      pose proof (pow2_le_modulus N HN) as [Hp0 _].
      destruct (copy_cluster_get (2 ^ N) _ _ _ _ _ _ _ ltac:(lia) Hc) as [_ Hget].
      assert (Hz : ∀ x y, nd_get (PyArray_ZEROS (2 ^ N) (2 ^ N)) x y = 0).
      { intros x y. unfold nd_get, PyArray_ZEROS; simpl. by rewrite lookup_empty. }
      rewrite !Hget, !Hz.
      assert (Hki : label_is (g_labels st) (largest_cluster_index c) i = false)
        by (by eapply label_is_sentinel).
      split.
      * destruct (decide _) as [(_ & Hk & _)|]; [congruence|done].
      * destruct (decide _) as [_|]; [|done].
        destruct (Z.eq_dec (nd_get (g_matrix st) k i) 0) as [|Hne]; [done|].
        destruct (Hedges k i Hne) as (_ & Hvi & _). congruence.
  - intros st c He. destruct (dijkstra_LC_enumerate_inv _ _ _ _ _ _ HN He) as [Hinv Hidx].
    split; [done|]. intros i Hi Hv.
    destruct Hinv as (_ & _ & Hun). destruct (Hun _ Hv) as [_ Hl].
    split; [done|]. intros L HL. by eapply label_is_sentinel.
  - intros st start cidx st' Hwf Hsz Hstart Hg.
    destruct (grow_H_cluster_spec _ _ _ _ _ _ _ HN Hwf Hsz Hstart Hg)
      as (_ & Hinv & _).
    apply Hinv.
Qed.

Lemma unreached_sites_keep_sentinel_witness :
  ∃ st c st' c',
    H_LC_enumerate two_then_none (1 # 2) 2 true = Done (st, c) ∧
    g_visited st !! Z.to_nat 3 = Some false ∧
    label_at (g_labels st) (Z.to_nat 3) = Some ULONG_MAX ∧
    label_is (g_labels st) 0 3 = false ∧
    dijkstra_LC_enumerate two_then_none (1 # 2) 2 true = Done (st', c') ∧
    dj_visited st' !! Z.to_nat 3 = Some false ∧
    label_at (dj_labels st') (Z.to_nat 3) = Some ULONG_MAX.
Proof.
  pose proof (unreached_sites_keep_sentinel two_then_none (1 # 2) 2 true ltac:(lia))
    as (H1 & H2 & _).
  do 4 eexists.
  split; [vm_compute; reflexivity|].
  split; [vm_compute; reflexivity|].
  split.
  { eapply H1; [vm_compute; reflexivity|lia|vm_compute; reflexivity]. }
  split.
  { eapply H1; [vm_compute; reflexivity|lia|vm_compute; reflexivity|simpl; lia]. }
  split; [vm_compute; reflexivity|].
  split; [vm_compute; reflexivity|].
  eapply H2; [vm_compute; reflexivity|lia|vm_compute; reflexivity].
Defined.

(** ** Reuse of the stack *)

Lemma DFS_hypercube_unfold rng p N s visited seed error pyerr pos :
  stack_top s = 0 →
  DFS_hypercube rng p N s visited seed error pyerr pos
  = let st := mk_dfs (push s seed).1 visited error pyerr pos 0 in
    DFS_loop rng p N (DFS_fuel N st) st.
Proof.
  intros Htop. unfold DFS_hypercube. rewrite Htop. simpl negb. cbv iota.
  by destruct (push s seed).
Qed.

Lemma DFS_hypercube_total rng p N s visited seed error pyerr pos :
  0 <= N < 64 → stack_wf s → stack_top s = 0 →
  base.length visited = Z.to_nat (2 ^ N) → 0 <= seed < 2 ^ N → error ≠ -1 →
  match DFS_hypercube rng p N s visited seed error pyerr pos with
  | Done st' =>
      stack_top (dfs_stack st') = 0 ∧ stack_wf (dfs_stack st') ∧
      base.length (dfs_visited st') = Z.to_nat (2 ^ N) ∧
      dfs_error st' = error ∧ dfs_pyerr st' = pyerr ∧
      dfs_size st' = Z.of_nat (marked (dfs_visited st')) - Z.of_nat (marked visited)
  | Fail st' => dfs_error st' = -1 ∧ dfs_pyerr st' = pyerr
  | Undef | Fuel => False
  end.
Proof.
  intros HN Hs Htop Hlen Hseed Herr.
  rewrite DFS_hypercube_unfold by done. cbv zeta.
  set (st := mk_dfs (push s seed).1 visited error pyerr pos 0).
  assert (Hst : dfs_wf N st ∧ stack_top (dfs_stack st) <= 1).
  { unfold st, dfs_wf. simpl.
    destruct (Z.lt_ge_cases (stack_top s) (stack_length s)) as [Hlt|Hge].
    - destruct (push_ok s seed Hs Hlt) as (s1 & Hp & Hs1 & Ht1 & Hl1 & Hsl1).
      rewrite Hp. simpl. split_ands; try done; try lia.
      rewrite Hsl1. apply Forall_app. split; [|by apply Forall_singleton].
      unfold slist. rewrite Htop. simpl. by apply Forall_nil.
    - rewrite push_full by done. simpl. split_ands; try done; try lia.
      unfold sites_in_range, slist. rewrite Htop. simpl. by apply Forall_nil. }
  destruct Hst as [Hwf Htop1].
  pose proof (marked_le visited) as Hmle.
  pose proof (DFS_loop_spec rng p N (DFS_fuel N st) st HN Hwf Herr) as Hl.
  destruct (DFS_loop rng p N (DFS_fuel N st) st) as [st'|st'| |].
  - destruct Hl as (? & Hwf' & ? & ? & ? & ?).
    { simpl. lia. }
    { unfold DFS_fuel, dfs_potential. simpl. lia. }
    destruct Hwf' as (? & ? & ?). simpl in *. split_ands; try done. lia.
  - apply Hl; [simpl; lia|unfold DFS_fuel, dfs_potential; simpl; lia].
  - apply Hl; [simpl; lia|unfold DFS_fuel, dfs_potential; simpl; lia].
  - apply Hl; [simpl; lia|unfold DFS_fuel, dfs_potential; simpl; lia].
Qed.

Lemma clusters_loop_spec rng p N n s visited error pyerr pos sizes :
  0 <= N < 64 → stack_wf s → stack_top s = 0 → error ≠ -1 →
  match clusters_loop rng p N (2 ^ N) n s visited error pyerr pos sizes with
  | Done (sizes', st) =>
      base.length sizes' = (base.length sizes + n)%nat ∧
      stack_top (dfs_stack st) = 0 ∧ dfs_pyerr st = pyerr
  | Fail (_, st) => dfs_error st = -1 ∧ dfs_pyerr st = pyerr
  | Undef | Fuel => False
  end.
Proof.
  intros HN. revert s visited error pos sizes.
  induction n as [|n IH]; intros s visited error pos sizes Hs Htop Herr; simpl.
  { split_ands; try done; lia. }
  pose proof (pow2_le_modulus N HN) as [Hp0 _].
  pose proof (DFS_hypercube_total rng p N s (reset_visited visited (2 ^ N)) 0 error
                pyerr pos HN Hs Htop) as Hd.
  destruct (DFS_hypercube _ _ _ _ _ _ _ _ _) as [st|st| |].
  - destruct Hd as (Ht & Hw & Hl & He & Hpy & Hsz).
    { unfold reset_visited. by rewrite length_replicate. }
    { lia. } { done. }
    destruct (Z.eqb_spec (dfs_error st) (-1)); [congruence|].
    specialize (IH (dfs_stack st) (dfs_visited st) (dfs_error st) (dfs_pos st)
                  (sizes ++ [dfs_size st]) Hw Ht ltac:(congruence)).
    rewrite Hpy. destruct (clusters_loop _ _ _ _ _ _ _ _ _ _ _) as [[sizes' st2]|[? st2]| |];
      try done.
    destruct IH as (Hlen & ? & ?). rewrite length_app in Hlen. simpl in Hlen.
    split_ands; try done. lia.
  - destruct Hd as (He & Hpy).
    { unfold reset_visited. by rewrite length_replicate. }
    { lia. } { done. }
    rewrite He. simpl. done.
  - apply Hd; [unfold reset_visited; by rewrite length_replicate|lia|done].
  - apply Hd; [unfold reset_visited; by rewrite length_replicate|lia|done].
Qed.

(** C10: a run of [DFS_hypercube] or [grow_H_cluster] that returns by its
    normal exit leaves the stack empty ([top == 0]).  Both always return, by
    the normal exit or by the error exit.  So in [hypercube_clusters] every
    realisation finds the stack empty: the loop fills all [NR] sizes or stops
    on an overflow, and the message of the non-empty stack is never raised;
    and the enumeration of [hypercube_H_LC] ends with the stack empty. *)
Theorem stack_empty_after_traversal rng p N :
  0 <= N < 64 →
  (∀ s visited seed error pyerr pos,
     stack_wf s → stack_top s = 0 →
     base.length visited = Z.to_nat (2 ^ N) → 0 <= seed < 2 ^ N → error ≠ -1 →
     match DFS_hypercube rng p N s visited seed error pyerr pos with
     | Done st' => stack_top (dfs_stack st') = 0 ∧ dfs_pyerr st' = pyerr
     | Fail st' => dfs_error st' = -1 ∧ dfs_pyerr st' = pyerr
     | Undef | Fuel => False
     end) ∧
  (∀ st start cidx st',
     grow_wf (2 ^ N) st → g_size st = 0 → 0 <= start < 2 ^ N →
     grow_H_cluster rng p N st start cidx = Done st' →
     stack_top (g_stack st') = 0 ∧ g_pyerr st' = g_pyerr st) ∧
  (∀ st start cidx,
     grow_wf (2 ^ N) st → 0 <= start < 2 ^ N → g_error_flag st ≠ -1 →
     match grow_H_cluster rng p N st start cidx with
     | Done _ | Fail _ => True
     | Undef | Fuel => False
     end) ∧
  (∀ n,
     match clusters_loop rng p N (2 ^ N) n (setup_stack (2 ^ N)) [] 0 None 0 [] with
     | Done (sizes, st) =>
         base.length sizes = n ∧ stack_top (dfs_stack st) = 0 ∧ dfs_pyerr st = None
     | Fail (_, st) => dfs_error st = -1 ∧ dfs_pyerr st = None
     | Undef | Fuel => False
     end) ∧
  (∀ b st c, H_LC_enumerate rng p N b = Done (st, c) → stack_top (g_stack st) = 0).
Proof.
  intros HN. split_ands.
  - intros s visited seed error pyerr pos Hs Htop Hlen Hseed Herr.
    pose proof (DFS_hypercube_total rng p N s visited seed error pyerr pos HN Hs Htop
                  Hlen Hseed Herr) as Hd.
    destruct (DFS_hypercube _ _ _ _ _ _ _ _ _); try done.
    destruct Hd as (? & _ & _ & _ & ? & _). done.
  - intros st start cidx st' Hwf Hsz Hstart Hg.
    destruct (grow_H_cluster_spec _ _ _ _ _ _ _ HN Hwf Hsz Hstart Hg)
      as (_ & Hinv & Htop & _).
    split; [done|]. apply Hinv.
  - intros st start cidx Hwf Hstart Herr. by apply grow_H_cluster_total.
  - intros n. pose proof (pow2_le_modulus N HN) as [Hp0 _].
    pose proof (clusters_loop_spec rng p N n (setup_stack (2 ^ N)) [] 0 None 0%nat []
                  HN (setup_stack_wf (2 ^ N) ltac:(lia)) eq_refl ltac:(lia)) as Hc.
    destruct (clusters_loop _ _ _ _ _ _ _ _ _ _ _) as [[sizes st]|[? st]| |]; done.
  - intros b st c He. destruct (H_LC_enumerate_inv _ _ _ _ _ _ HN He) as [Hinv _].
    apply Hinv.
Qed.

Lemma stack_empty_after_traversal_witness :
  ∃ st,
    DFS_hypercube alternating (1 # 2) 3 (setup_stack 8) (reset_visited [] 8) 0 0 None 0
    = Done st ∧ stack_top (dfs_stack st) = 0 ∧ dfs_pyerr st = None.
Proof.
  pose proof (stack_empty_after_traversal alternating (1 # 2) 3 ltac:(lia)) as (H1 & _).
  specialize (H1 (setup_stack 8) (reset_visited [] 8) 0 0 None 0%nat
                (setup_stack_wf 8 ltac:(lia)) eq_refl eq_refl ltac:(simpl; lia)
                ltac:(lia)).
  eexists. split; [vm_compute; reflexivity|].
  revert H1. vm_compute. intros [? ?]. split; assumption.
Defined.

(** ** The capacity of the stack *)

Lemma DFS_neighbours_height rng p k i u st :
  match DFS_neighbours rng p k i u st with
  | Done st' =>
      stack_length (dfs_stack st') = stack_length (dfs_stack st) ∧
      stack_top (dfs_stack st') <= stack_top (dfs_stack st) + Z.of_nat k ∧
      dfs_visited st' = dfs_visited st
  | Fail _ => stack_length (dfs_stack st) < stack_top (dfs_stack st) + Z.of_nat k
  | Undef | Fuel => True
  end.
Proof.
  revert i st. induction k as [|k IH]; intros i st; simpl.
  { split_ands; try done; lia. }
  destruct (64 <=? i); [done|].
  destruct (dfs_visited st !! Z.to_nat (Z.lxor u (Z.shiftl 1 i))) as [[]|]; [| |done].
  - specialize (IH (i + 1) st).
    destruct (DFS_neighbours rng p k (i + 1) u st); try done; [|lia].
    destruct IH as (? & ? & ?). split_ands; try done; lia.
  - destruct (Qltb (rng (dfs_pos st)) p).
    + unfold push. simpl.
      destruct (Z.ltb_spec (stack_top (dfs_stack st)) (stack_length (dfs_stack st)));
        simpl; [|lia].
      match goal with |- context [DFS_neighbours rng p k (i + 1) u ?st1] =>
        specialize (IH (i + 1) st1);
        destruct (DFS_neighbours rng p k (i + 1) u st1) end; try done;
        simpl in *; [|lia].
      destruct IH as (? & ? & ?). split_ands; try done; lia.
    + match goal with |- context [DFS_neighbours rng p k (i + 1) u ?st1] =>
        specialize (IH (i + 1) st1);
        destruct (DFS_neighbours rng p k (i + 1) u st1) end; try done;
        simpl in *; [|lia].
      destruct IH as (? & ? & ?). split_ands; try done; lia.
Qed.




(** ** The traversal at [p = 1] *)

Lemma insert_true_keeps (v : list bool) (i j : nat) :
  v !! j = Some true → <[i := true]> v !! j = Some true.
Proof.
  intros H. destruct (decide (i = j)) as [->|Hne].
  - apply list_lookup_insert_eq. by eapply lookup_lt_Some.
  - by rewrite list_lookup_insert_ne.
Qed.




Lemma testbit_above (N x j : Z) :
  0 <= x < 2 ^ N → N <= j → Z.testbit x j = false.
Proof.
  intros Hx Hj. destruct (Z.eq_dec x 0) as [->|Hne]; [apply Z.testbit_0_l|].
  apply Z.bits_above_log2; [lia|].
  assert (Z.log2 x < N); [|lia].
  apply Z.log2_lt_pow2; lia.
Qed.

Lemma lxor_bit_twice (t k : Z) :
  Z.lxor (Z.lxor t (Z.shiftl 1 k)) (Z.shiftl 1 k) = t.
Proof. by rewrite Z.lxor_assoc, Z.lxor_nilpotent, Z.lxor_0_r. Qed.

(** A set of sites that holds one site and is closed under flipping each of
    the [N] bits holds all [2^N] sites. *)
Lemma hypercube_connected (N seed : Z) (R : Z → Prop) :
  0 <= N → 0 <= seed < 2 ^ N → R seed →
  (∀ u i, 0 <= u < 2 ^ N → 0 <= i < N → R u → R (Z.lxor u (Z.shiftl 1 i))) →
  ∀ t, 0 <= t < 2 ^ N → R t.
Proof.
  intros HN Hseed Hs Hcl.
  assert (Hk : ∀ k : nat, Z.of_nat k <= N → ∀ t, 0 <= t < 2 ^ N →
            (∀ j, Z.of_nat k <= j → Z.testbit t j = Z.testbit seed j) → R t).
  { induction k as [|k IH]; intros Hle t Ht Hag.
    - replace t with seed; [done|]. apply Z.bits_inj'. intros j Hj.
      symmetry. apply Hag. lia.
    - destruct (Bool.bool_dec (Z.testbit t (Z.of_nat k)) (Z.testbit seed (Z.of_nat k)))
        as [E|E].
      + apply IH; [lia|done|]. intros j Hj.
        destruct (Z.eq_dec j (Z.of_nat k)) as [->|Hne]; [done|]. apply Hag. lia.
      + rewrite <- (lxor_bit_twice t (Z.of_nat k)).
        apply Hcl; [apply lxor_bit_range; lia|lia|].
        apply IH; [lia|apply lxor_bit_range; lia|].
        intros j Hj. rewrite Z.shiftl_1_l, Z.lxor_spec, Z.pow2_bits_eqb by lia.
        destruct (Z.eqb_spec (Z.of_nat k) j) as [<-|Hne].
        * destruct (Z.testbit t (Z.of_nat k)), (Z.testbit seed (Z.of_nat k)); done.
        * rewrite Bool.xorb_false_r. apply Hag. lia. }
  intros t Ht. apply (Hk (Z.to_nat N)); [lia|done|].
  intros j Hj. rewrite (testbit_above N t j), (testbit_above N seed j) by lia. done.
Qed.

Lemma marked_all (v : list bool) :
  (∀ i, (i < base.length v)%nat → v !! i = Some true) → marked v = base.length v.
Proof.
  induction v as [|b v IH]; intros H; simpl; [done|].
  rewrite IH.
  - specialize (H 0%nat ltac:(simpl; lia)). simpl in H. by inversion H.
  - intros i Hi. apply (H (S i)). simpl. lia.
Qed.


(** ** hypercube_H at [p = 1] *)






(** * More of what the code does *)

(** ** hypercube_H: the cells *)

Lemma lxor_bit_inj (x i j : Z) :
  0 <= i → 0 <= j → Z.lxor x (Z.shiftl 1 i) = Z.lxor x (Z.shiftl 1 j) → i = j.
Proof.
  intros Hi Hj E.
  assert (E2 : Z.shiftl 1 i = Z.shiftl 1 j).
  { rewrite <- (Z.lxor_0_l (Z.shiftl 1 i)), <- (Z.lxor_nilpotent x), Z.lxor_assoc, E.
    by rewrite <- Z.lxor_assoc, Z.lxor_nilpotent, Z.lxor_0_l. }
  rewrite !Z.shiftl_1_l in E2. apply Z.pow_inj_r in E2; lia.
Qed.

Ltac pair_neq :=
  match goal with
  | E : (_, _) = (_, _) |- _ =>
      let E1 := fresh in let E2 := fresh in
      pose proof (f_equal fst E) as E1; pose proof (f_equal snd E) as E2;
      simpl in E1, E2;
      first [ apply lxor_bit_inj in E1; lia
            | apply lxor_bit_inj in E2; lia
            | apply lxor_bit_neq in E1; [done|lia]
            | apply lxor_bit_neq in E2; [done|lia]
            | symmetry in E1; apply lxor_bit_neq in E1; [done|lia]
            | symmetry in E2; apply lxor_bit_neq in E2; [done|lia] ]
  end.

Lemma H_row_cells rng p k i row a pos a' pos' :
  0 <= i → H_row rng p k i row a pos = Some (a', pos') →
  pos' = (pos + k)%nat ∧
  (∀ j, i <= j < i + Z.of_nat k →
     nd_get a' row (Z.lxor row (Z.shiftl 1 j))
     = (if Qltb (rng (pos + Z.to_nat (j - i))%nat) p then connected else disconnected) ∧
     nd_get a' (Z.lxor row (Z.shiftl 1 j)) row
     = (if Qltb (rng (pos + Z.to_nat (j - i))%nat) p then connected else disconnected)) ∧
  (∀ x y, (∀ j, i <= j < i + Z.of_nat k →
             (x, y) ≠ (row, Z.lxor row (Z.shiftl 1 j)) ∧
             (x, y) ≠ (Z.lxor row (Z.shiftl 1 j), row)) →
          nd_get a' x y = nd_get a x y).
Proof.
  revert i a pos. induction k as [|k IH]; intros i a pos Hi; simpl.
  { intros [= <- <-]. split_ands.
    - lia.
    - intros j Hj. lia.
    - done. }
  destruct (64 <=? i); [done|].
  destruct (nd_in_range _ _ _ && nd_in_range _ _ _); [|done].
  intros Hr. destruct (IH (i + 1) _ _ ltac:(lia) Hr) as (Hpos & Hcells & Hrest).
  set (col := Z.lxor row (Z.shiftl 1 i)) in *.
  set (x := if Qltb (rng pos) p then connected else disconnected) in *.
  split_ands; [lia| |].
  - intros j Hj. destruct (Z.eq_dec j i) as [->|Hne].
    + rewrite Z.sub_diag. change (Z.to_nat 0) with 0%nat. rewrite Nat.add_0_r.
      fold col. fold x.
      rewrite !Hrest, !nd_get_set2.
      * destruct (decide _) as [_|E]; [|exfalso; apply E; by left].
        destruct (decide _) as [_|E]; [|exfalso; apply E; by right]. done.
      * intros j Hj'. split; intros E; pair_neq.
      * intros j Hj'. split; intros E; pair_neq.
    + destruct (Hcells j ltac:(lia)) as [H1 H2].
      replace (pos + Z.to_nat (j - i))%nat with (S pos + Z.to_nat (j - (i + 1)))%nat by lia.
      done.
  - intros x' y' Hxy. rewrite Hrest.
    + rewrite nd_get_set2. destruct (decide _) as [E|_]; [|done].
      destruct (Hxy i ltac:(lia)) as [? ?]. destruct E; done.
    + intros j Hj. apply Hxy. lia.
Qed.

Lemma lxor_range_back (N x i : Z) :
  0 <= N → 0 <= i < N → 0 <= Z.lxor x (Z.shiftl 1 i) < 2 ^ N → 0 <= x < 2 ^ N.
Proof.
  intros HN Hi Hy. rewrite <- (lxor_bit_twice x i). by apply lxor_bit_range.
Qed.

Ltac H_last_cases :=
  unfold H_last;
  repeat match goal with
  | |- context [Z.leb ?a ?b] => destruct (Z.leb_spec a b)
  | |- context [Z.ltb ?a ?b] => destruct (Z.ltb_spec a b)
  end; simpl.

Ltac same_draw :=
  match goal with
  | |- (if Qltb (?r ?b) _ then _ else _) = (if Qltb (?r ?a) _ then _ else _) =>
      replace b with a by nia; reflexivity
  | |- ?x = ?x => reflexivity
  end.

Lemma H_rows_cells rng p N n row a pos a' pos' :
  0 <= N → 0 <= row → H_rows rng p N n row a pos = Some (a', pos') →
  pos' = (pos + Z.to_nat N * n)%nat ∧
  (∀ x i, 0 <= i < N →
     nd_get a' x (Z.lxor x (Z.shiftl 1 i))
     = match H_last row (row + Z.of_nat n) x (Z.lxor x (Z.shiftl 1 i)) with
       | Some R =>
           if Qltb (rng (pos + Z.to_nat (N * (R - row) + i))%nat) p
           then connected else disconnected
       | None => nd_get a x (Z.lxor x (Z.shiftl 1 i))
       end) ∧
  (∀ x y, (∀ i, 0 <= i < N → y ≠ Z.lxor x (Z.shiftl 1 i)) →
          nd_get a' x y = nd_get a x y).
Proof.
  intros HN. revert row a pos. induction n as [|n IH]; intros row a pos Hrow; simpl.
  { intros [= <- <-]. split_ands.
    - lia.
    - intros x i Hi. H_last_cases; try done; lia.
    - done. }
  destruct (H_row rng p (Z.to_nat N) 0 row a pos) as [[a1 pos1]|] eqn:Hr; [|done].
  intros Hrs.
  destruct (H_row_cells _ _ _ _ _ _ _ _ _ (Z.le_refl 0) Hr) as (Hpos1 & Hcells1 & Hrest1).
  destruct (IH (row + 1) _ _ ltac:(lia) Hrs) as (Hpos & Hcells & Hrest).
  split_ands.
  - lia.
  - intros x i Hi. rewrite (Hcells x i Hi).
    set (y := Z.lxor x (Z.shiftl 1 i)).
    assert (Hxy : y ≠ x) by (apply lxor_bit_neq; lia).
    assert (Hyx : x = Z.lxor y (Z.shiftl 1 i)) by (unfold y; by rewrite lxor_bit_twice).
    assert (Hother : x ≠ row → y ≠ row → nd_get a1 x y = nd_get a x y).
    { intros Hx Hy. apply Hrest1. intros j Hj. split; intros [= ? ?]; done. }
    assert (Hx : x = row → nd_get a1 x y
                 = if Qltb (rng (pos + Z.to_nat i)%nat) p then connected else disconnected).
    { intros ->. destruct (Hcells1 i ltac:(lia)) as [H1 _].
      rewrite Z.sub_0_r in H1. done. }
    assert (Hy : y = row → nd_get a1 x y
                 = if Qltb (rng (pos + Z.to_nat i)%nat) p then connected else disconnected).
    { intros E. destruct (Hcells1 i ltac:(lia)) as [_ H2].
      rewrite Z.sub_0_r, <- E, <- Hyx in H2. done. }
    H_last_cases; try lia; try same_draw.
    all: try (rewrite Hx by lia; same_draw).
    all: try (rewrite Hy by lia; same_draw).
    all: try (apply Hother; lia).
    all: destruct (Z.eq_dec x row); [rewrite Hx by done|rewrite Hy by lia]; same_draw.
  - intros x y Hxy. rewrite Hrest by done. apply Hrest1.
    intros j Hj. split; intros [= -> ->].
    + by apply (Hxy j ltac:(lia)).
    + apply (Hxy j ltac:(lia)). by rewrite lxor_bit_twice.
Qed.

Lemma check_args_true (N : Z) (p : Q) :
  0 <= N < 64 → (0 <= p)%Q → (p <= 1)%Q → check_args N 1 p = true.
Proof.
  intros HN Hp0 Hp1. unfold check_args.
  destruct (Z.leb_spec 0 N); [|lia]. destruct (Z.ltb_spec N 64); [|lia]. simpl.
  destruct (Qltb p 0) eqn:E0.
  { apply Qltb_lt in E0. exfalso. eapply Qlt_not_le; eauto. }
  destruct (Qltb 1 p) eqn:E1; [|done].
  apply Qltb_lt in E1. exfalso. eapply Qlt_not_le; eauto.
Qed.

Lemma H_rows_dims rng p N n row a pos a' pos' :
  H_rows rng p N n row a pos = Some (a', pos') →
  nd_rows a' = nd_rows a ∧ nd_cols a' = nd_cols a.
Proof.
  revert row a pos. induction n as [|n IH]; intros row a pos; simpl.
  { by intros [= <- <-]. }
  destruct (H_row rng p (Z.to_nat N) 0 row a pos) as [[a1 pos1]|] eqn:Hr; [|done].
  intros Hrs. destruct (IH _ _ _ Hrs) as [-> ->].
  clear Hrs IH. revert Hr. generalize 0 at 1. generalize (Z.to_nat N).
  intros k. revert a pos. induction k as [|k IH]; intros a pos i; simpl.
  { by intros [= <- <-]. }
  destruct (64 <=? i); [done|].
  destruct (nd_in_range _ _ _ && nd_in_range _ _ _); [|done].
  intros Hr. by destruct (IH _ _ _ Hr) as [-> ->].
Qed.

(** X1: [hypercube_H] returns a [2^N] by [2^N] matrix for all arguments that
    [check_args] accepts.  Each link is drawn twice, once in the row of each
    of its sites, and the later draw stays: the cell [(x, x ^ (1 << i))]
    holds 1 when the variate of index [N * max(x, x ^ (1 << i)) + i] is
    below [p] and 0 otherwise.  A cell between two sites that are not
    neighbours holds 0. *)
Theorem hypercube_H_cells rng p N :
  check_args N 1 p = true →
  ∃ a, hypercube_H rng p N = Done (Some a) ∧
       nd_rows a = 2 ^ N ∧ nd_cols a = 2 ^ N ∧
       (∀ x i, 0 <= x < 2 ^ N → 0 <= i < N →
          nd_get a x (Z.lxor x (Z.shiftl 1 i)) = H_cell rng p N x i) ∧
       (∀ x y, 0 <= x < 2 ^ N → ¬ adjacent N x y → nd_get a x y = 0).
Proof.
  intros Hargs. pose proof (check_args_range _ _ _ Hargs) as HN.
  pose proof (pow2_le_modulus N HN) as [Hp0 _].
  destruct (H_rows_total rng p N (Z.to_nat (2 ^ N)) 0 (PyArray_ZEROS (2 ^ N) (2 ^ N)) 0%nat
              HN ltac:(lia) ltac:(lia) eq_refl eq_refl) as (a & pos & Ha).
  destruct (H_rows_dims _ _ _ _ _ _ _ _ _ Ha) as [Hr Hc]. simpl in Hr, Hc.
  exists a. split.
  { unfold hypercube_H. rewrite Hargs. simpl. rewrite intpower_2 by done. by rewrite Ha. }
  destruct (H_rows_cells _ _ _ _ _ _ _ _ _ (proj1 HN) (Z.le_refl 0) Ha) as (_ & Hcells & Hrest).
  assert (Hz : ∀ x y, nd_get (PyArray_ZEROS (2 ^ N) (2 ^ N)) x y = 0).
  { intros x y. unfold nd_get, PyArray_ZEROS. simpl. by rewrite lookup_empty. }
  split_ands; try done.
  - intros x i Hx Hi. rewrite (Hcells x i Hi). unfold H_cell.
    pose proof (lxor_bit_range N x i ltac:(lia) Hx Hi) as Hy.
    H_last_cases; try lia. rewrite Z.sub_0_r. done.
  - intros x y Hx Hn.
    rewrite Hrest; [apply Hz|]. intros i Hi ->. apply Hn. by exists i.
Qed.

Lemma hypercube_H_cells_witness :
  ∃ a, hypercube_H alternating (1 # 2) 2 = Done (Some a) ∧
       nd_get a 1 3 = H_cell alternating (1 # 2) 2 1 1 ∧ nd_get a 0 3 = 0.
Proof.
  destruct (hypercube_H_cells alternating (1 # 2) 2 eq_refl) as (a & Ha & _ & _ & Hc & Hz).
  exists a. split; [exact Ha|]. split.
  - apply (Hc 1 1); lia.
  - apply Hz; [lia|]. intros (i & Hi & E).
    assert (i = 0 ∨ i = 1) as [-> | ->] by lia; vm_compute in E; discriminate.
Defined.

(** ** DFS_hypercube: the cluster *)

Lemma epath_mono (E E' : Z → Z → Prop) seed x :
  (∀ u v, E u v → E' u v) → epath E seed x → epath E' seed x.
Proof.
  intros H. induction 1 as [|u v _ IH Huv]; [constructor|].
  eapply epath_step; [exact IH|]. by apply H.
Qed.

Lemma DFS_neighbours_cluster rng p N visited0 seed k i u st :
  0 <= i → i + Z.of_nat k <= N → N < 64 → 0 <= u < 2 ^ N → dfs_wf N st →
  new_mark visited0 (dfs_visited st) u →
  dfs_cluster_inv N visited0 seed st →
  match DFS_neighbours rng p k i u st with
  | Done st' => dfs_cluster_inv N visited0 seed st'
  | _ => True
  end.
Proof.
  revert i st. induction k as [|k IH]; intros i st Hi Hk HN Hu Hwf Hnew Hinv; simpl.
  { done. }
  destruct (Z.leb_spec 64 i); [lia|].
  pose proof Hwf as (Hs & Hv & Hr).
  assert (Hvr : 0 <= Z.lxor u (Z.shiftl 1 i) < 2 ^ N) by (apply lxor_bit_range; lia).
  destruct (site_index _ _ _ Hv Hvr) as [b Hb]. rewrite Hb. destruct b.
  { apply IH; try done; lia. }
  assert (Hstep : ∀ pos, dfs_cluster_inv N visited0 seed
            (mk_dfs (dfs_stack st) (dfs_visited st) (dfs_error st) (dfs_pyerr st)
               pos (dfs_size st))).
  { intros pos. destruct Hinv as (Hm & Hc & Hp). split_ands; done. }
  destruct (Qltb (rng (dfs_pos st)) p); [|apply IH; try done; lia].
  destruct (Z.lt_ge_cases (stack_top (dfs_stack st)) (stack_length (dfs_stack st)))
    as [Hlt|Hge]; [|simpl; by rewrite push_full].
  destruct (push_ok (dfs_stack st) (Z.lxor u (Z.shiftl 1 i)) Hs Hlt)
    as (s' & Hp & Hs' & Ht' & Hl' & Hsl).
  simpl. rewrite Hp. simpl.
  apply IH; try done; try lia.
  { by eapply dfs_wf_push. }
  destruct Hinv as (Hm & Hc & Hpath). unfold dfs_cluster_inv, dfs_covered. simpl.
  split_ands; [done| |].
  - destruct Hc as [Hc|Hc]; [by left|right]. rewrite Hsl. apply elem_of_app. by left.
  - intros x [Hx|Hx]; [|apply Hpath; by right].
    rewrite Hsl in Hx. apply elem_of_app in Hx as [Hx|Hx]; [apply Hpath; by left|].
    apply list_elem_of_singleton in Hx as ->.
    eapply epath_step; [apply Hpath; by right|].
    split; [done|]. exists i. split; [lia|done].
Qed.

Lemma DFS_body_cluster rng p N visited0 seed st :
  0 <= N < 64 → dfs_wf N st → 0 < stack_top (dfs_stack st) → dfs_error st ≠ -1 →
  base.length visited0 = Z.to_nat (2 ^ N) →
  dfs_cluster_inv N visited0 seed st →
  match DFS_body rng p N st with
  | Done st' => dfs_cluster_inv N visited0 seed st'
  | _ => True
  end.
Proof.
  intros HN Hwf Htop Herr Hl0 Hinv. pose proof Hwf as (Hs & Hv & Hr).
  unfold DFS_body.
  destruct (pop_ok (dfs_stack st) (dfs_error st) Hs Htop)
    as (u & s' & Hp & Hs' & Ht' & Hl' & Hsl).
  rewrite Hp. simpl.
  destruct (Z.eqb_spec (dfs_error st) (-1)); [done|].
  rewrite Hsl in Hr. apply Forall_app in Hr as [Hr Hu].
  rewrite Forall_singleton in Hu.
  destruct (site_index _ _ _ Hv Hu) as [b Hb]. rewrite Hb.
  destruct Hinv as (Hm & Hc & Hpath).
  destruct b.
  - unfold dfs_cluster_inv, dfs_covered. simpl. split_ands; [done| |].
    + destruct Hc as [Hc|Hc]; [by left|]. rewrite Hsl in Hc.
      apply elem_of_app in Hc as [Hc|Hc]; [by right|].
      apply list_elem_of_singleton in Hc as ->. by left.
    + intros x [Hx|Hx]; apply Hpath; [left|by right].
      rewrite Hsl. apply elem_of_app. by left.
  - set (V' := <[Z.to_nat u:=true]> (dfs_visited st)).
    assert (Hu0 : visited0 !! Z.to_nat u = Some false).
    { destruct (site_index _ _ _ Hl0 Hu) as [[] Hb0]; [|done].
      apply Hm in Hb0. congruence. }
    assert (HuV : V' !! Z.to_nat u = Some true).
    { apply list_lookup_insert_eq. by eapply lookup_lt_Some. }
    assert (Hmono : ∀ a b, dfs_link N visited0 (dfs_visited st) a b →
              dfs_link N visited0 V' a b).
    { intros a b [(Ha & Ha0 & HaV) Hadj]. split; [|done].
      unfold new_mark. split_ands; try done. by apply insert_true_keeps. }
    set (st2 := mk_dfs s' V' (dfs_error st) (dfs_pyerr st) (dfs_pos st)
                  (wrap (dfs_size st + 1))).
    assert (Hwf2 : dfs_wf N st2).
    { unfold dfs_wf, st2, V'. simpl. by rewrite length_insert. }
    assert (Hnew2 : new_mark visited0 (dfs_visited st2) u).
    { unfold new_mark, st2. simpl. split_ands; try done. lia. }
    assert (Hinv2 : dfs_cluster_inv N visited0 seed st2).
    { unfold dfs_cluster_inv, dfs_covered, st2. simpl. split_ands.
      + intros i Hi. by apply insert_true_keeps, Hm.
      + destruct Hc as [Hc|Hc]; [left; by apply insert_true_keeps|]. rewrite Hsl in Hc.
        apply elem_of_app in Hc as [Hc|Hc]; [by right|].
        apply list_elem_of_singleton in Hc as ->. by left.
      + intros x Hx. apply (epath_mono _ _ _ _ Hmono). apply Hpath.
        destruct Hx as [Hx|(Hx & Hx0 & HxV)].
        * left. rewrite Hsl. apply elem_of_app. by left.
        * destruct (decide (x = u)) as [->|Hne].
          -- left. rewrite Hsl. apply elem_of_app. right. by apply list_elem_of_singleton.
          -- right. unfold new_mark. split_ands; try done. unfold V' in HxV.
             rewrite list_lookup_insert_ne in HxV by lia. done. }
    apply DFS_neighbours_cluster; try done; lia.
Qed.

Lemma DFS_loop_cluster rng p N visited0 seed fuel st st' :
  0 <= N < 64 → dfs_wf N st → dfs_error st ≠ -1 →
  0 <= dfs_size st <= Z.of_nat (marked (dfs_visited st)) →
  base.length visited0 = Z.to_nat (2 ^ N) →
  dfs_cluster_inv N visited0 seed st →
  DFS_loop rng p N fuel st = Done st' →
  dfs_cluster_inv N visited0 seed st'.
Proof.
  intros HN. revert st.
  induction fuel as [|fuel IH]; intros st Hwf Herr Hsz Hl0 Hinv; simpl; [done|].
  destruct (Z.ltb_spec 0 (stack_top (dfs_stack st))) as [Htop|Htop].
  - pose proof (DFS_body_spec rng p N st HN Hwf Htop Herr Hsz) as Hb.
    pose proof (DFS_body_cluster rng p N visited0 seed st HN Hwf Htop Herr Hl0 Hinv) as Hb1.
    destruct (DFS_body rng p N st) as [st1|st1| |]; try done.
    destruct Hb as (Hwf1 & He1 & Hpy1 & Hpot & Hsz1 & Hcnt & Hmono).
    apply IH; try done. congruence.
  - by intros [= <-].
Qed.

Lemma DFS_loop_length rng p N fuel st st' :
  DFS_loop rng p N fuel st = Done st' →
  stack_length (dfs_stack st') = stack_length (dfs_stack st).
Proof.
  revert st. induction fuel as [|fuel IH]; intros st; simpl; [done|].
  destruct (0 <? stack_top (dfs_stack st)); [|by intros [= <-]].
  destruct (DFS_body rng p N st) as [st1| | |] eqn:Hb; try done.
  intros Hl. rewrite (IH _ Hl). clear IH Hl.
  unfold DFS_body, pop in Hb.
  destruct (stack_top (dfs_stack st) =? 0); simpl in Hb; [done|].
  destruct (dfs_error st =? -1); [done|].
  destruct (dfs_visited st !! _) as [[]|]; [by injection Hb as <-| |done].
  match type of Hb with DFS_neighbours rng p ?k 0 ?u ?st2 = _ =>
    pose proof (DFS_neighbours_height rng p k 0 u st2) as Hh end.
  rewrite Hb in Hh. by destruct Hh as (-> & _).
Qed.

Lemma DFS_hypercube_cluster rng p N s visited seed error pyerr pos st' :
  0 <= N < 64 → stack_wf s → stack_top s = 0 → 0 < stack_length s →
  base.length visited = Z.to_nat (2 ^ N) → 0 <= seed < 2 ^ N → error ≠ -1 →
  DFS_hypercube rng p N s visited seed error pyerr pos = Done st' →
  dfs_cluster_inv N visited seed st' ∧
  stack_length (dfs_stack st') = stack_length s.
Proof.
  intros HN Hs Htop Hcap Hlen Hseed Herr.
  rewrite DFS_hypercube_unfold by done. cbv zeta.
  destruct (push_ok s seed Hs ltac:(lia)) as (s1 & Hp & Hs1 & Ht1 & Hl1 & Hsl1).
  rewrite Hp. simpl fst. intros Hd.
  assert (Hsl0 : slist s = []) by (unfold slist; by rewrite Htop).
  split; [|by rewrite (DFS_loop_length _ _ _ _ _ _ Hd)].
  pose proof (marked_le visited).
  refine (DFS_loop_cluster rng p N visited seed _ _ st' HN _ _ _ Hlen _ Hd);
    simpl; try done; try lia.
  - unfold dfs_wf. simpl. split_ands; try done.
    rewrite Hsl1, Hsl0. by apply Forall_singleton.
  - unfold dfs_cluster_inv, dfs_covered. simpl. split_ands; [done| |].
    + right. rewrite Hsl1, Hsl0. by apply list_elem_of_singleton.
    + intros x [Hx|(Hx & Hx0 & HxV)]; [|congruence].
      rewrite Hsl1, Hsl0 in Hx. apply list_elem_of_singleton in Hx as ->. constructor.
Qed.

(** X2: a call of [DFS_hypercube] with an empty stack of positive capacity
    returns by its normal exit or sets the error flag to [-1].  By the normal
    exit the seed is marked, no earlier mark is cleared, the value returned
    is the number of sites the call has marked, at least 1 when the seed was
    not marked and at most the number of sites not marked on entry, and the
    capacity of the stack and the error flag are as on entry. *)
Theorem DFS_hypercube_counts rng p N s visited seed error pyerr pos :
  0 <= N < 64 → stack_wf s → stack_top s = 0 → 0 < stack_length s →
  base.length visited = Z.to_nat (2 ^ N) → 0 <= seed < 2 ^ N → error ≠ -1 →
  match DFS_hypercube rng p N s visited seed error pyerr pos with
  | Done st' =>
      dfs_visited st' !! Z.to_nat seed = Some true ∧
      (∀ i, visited !! i = Some true → dfs_visited st' !! i = Some true) ∧
      dfs_size st'
      = Z.of_nat (marked (dfs_visited st')) - Z.of_nat (marked visited) ∧
      (visited !! Z.to_nat seed = Some false → 1 <= dfs_size st') ∧
      dfs_size st' <= 2 ^ N - Z.of_nat (marked visited) ∧
      stack_length (dfs_stack st') = stack_length s ∧
      dfs_error st' = error
  | Fail st' => dfs_error st' = -1
  | Undef | Fuel => False
  end.
Proof.
  intros HN Hs Htop Hcap Hlen Hseed Herr.
  pose proof (DFS_hypercube_total rng p N s visited seed error pyerr pos HN Hs Htop Hlen
                Hseed Herr) as Ht.
  destruct (DFS_hypercube rng p N s visited seed error pyerr pos) as [st'|st'| |] eqn:Hd;
    try done; [|apply Ht].
  destruct Ht as (Htop' & Hs' & Hlen' & He' & Hpy' & Hsz').
  destruct (DFS_hypercube_cluster _ _ _ _ _ _ _ _ _ _ HN Hs Htop Hcap Hlen Hseed Herr Hd)
    as ((Hm & Hc & _) & Hl).
  assert (Hseed' : dfs_visited st' !! Z.to_nat seed = Some true).
  { destruct Hc as [Hc|Hc]; [done|]. unfold slist in Hc. rewrite Htop' in Hc.
    simpl in Hc. by apply elem_of_nil in Hc. }
  pose proof (marked_le (dfs_visited st')) as Hle. rewrite Hlen' in Hle.
  pose proof (pow2_le_modulus N HN) as [Hp0 _].
  split_ands; try done; try lia.
  intros Hun.
  pose proof (marked_mono_strict visited (dfs_visited st') (Z.to_nat seed)
                ltac:(congruence) Hm Hun Hseed'). lia.
Qed.

Lemma DFS_hypercube_counts_witness :
  ∃ st', DFS_hypercube alternating (1 # 2) 3 (setup_stack 8) (reset_visited [] 8) 5 0
           None 0 = Done st' ∧
         dfs_visited st' !! Z.to_nat 5 = Some true ∧ 1 <= dfs_size st'.
Proof.
  pose proof (DFS_hypercube_counts alternating (1 # 2) 3 (setup_stack 8)
                (reset_visited [] 8) 5 0 None 0%nat ltac:(lia)
                (setup_stack_wf 8 ltac:(lia)) eq_refl ltac:(simpl; lia) eq_refl
                ltac:(simpl; lia) ltac:(lia)) as H.
  destruct (DFS_hypercube alternating (1 # 2) 3 (setup_stack 8) (reset_visited [] 8) 5 0
              None 0) as [st'| | |] eqn:Hd; [|vm_compute in Hd; discriminate..].
  exists st'. destruct H as (H1 & _ & _ & H4 & _).
  split; [reflexivity|]. split; [exact H1|]. apply H4. reflexivity.
Defined.

(** X3: the sites marked by a call of [DFS_hypercube] that returns by its
    normal exit form a connected cluster around the seed: each of them is
    reached from the seed by flipping one bit at a time, every step leaving
    a site marked by the call. *)
Theorem DFS_hypercube_connected rng p N s visited seed error pyerr pos st' :
  0 <= N < 64 → stack_wf s → stack_top s = 0 → 0 < stack_length s →
  base.length visited = Z.to_nat (2 ^ N) → 0 <= seed < 2 ^ N → error ≠ -1 →
  DFS_hypercube rng p N s visited seed error pyerr pos = Done st' →
  ∀ x, new_mark visited (dfs_visited st') x →
       epath (dfs_link N visited (dfs_visited st')) seed x.
Proof.
  intros HN Hs Htop Hcap Hlen Hseed Herr Hd x Hx.
  destruct (DFS_hypercube_cluster _ _ _ _ _ _ _ _ _ _ HN Hs Htop Hcap Hlen Hseed Herr Hd)
    as ((_ & _ & Hpath) & _).
  apply Hpath. by right.
Qed.

Lemma DFS_hypercube_connected_witness :
  ∃ st', DFS_hypercube alternating (1 # 2) 3 (setup_stack 8) (reset_visited [] 8) 5 0
           None 0 = Done st' ∧
         epath (dfs_link 3 (reset_visited [] 8) (dfs_visited st')) 5 2.
Proof.
  eexists. split; [vm_compute; reflexivity|].
  apply (DFS_hypercube_connected alternating (1 # 2) 3 (setup_stack 8)
           (reset_visited [] 8) 5 0 None 0%nat).
  - lia.
  - apply setup_stack_wf; lia.
  - reflexivity.
  - simpl; lia.
  - reflexivity.
  - simpl; lia.
  - lia.
  - vm_compute; reflexivity.
  - split; [lia|]. split; reflexivity.
Defined.

(** ** hypercube_clusters *)

Lemma DFS_hypercube_p0 rng N s visited seed error pyerr pos :
  uniform_range rng → 0 <= N < 64 → 0 <= seed < 2 ^ N →
  stack_wf s → stack_top s = 0 → 0 < stack_length s →
  base.length visited = Z.to_nat (2 ^ N) →
  visited !! Z.to_nat seed = Some false → error ≠ -1 →
  ∃ st, DFS_hypercube rng 0 N s visited seed error pyerr pos = Done st ∧
        dfs_size st = 1.
Proof.
  intros Hrng HN Hseed Hs Htop Hcap Hv Hseen Herr.
  unfold DFS_hypercube. rewrite Htop. simpl.
  destruct (push_ok s seed Hs ltac:(lia)) as (s1 & Hp & Hs1 & Ht1 & Hl1 & Hsl1).
  rewrite Hp. unfold DFS_fuel. simpl DFS_loop. rewrite Ht1, Htop. simpl.
  unfold DFS_body. simpl.
  destruct (pop_ok s1 error Hs1 ltac:(lia)) as (u & s2 & Hp2 & Hs2 & Ht2 & Hl2 & Hsl2).
  rewrite Hp2.
  assert (Hu : u = seed).
  { rewrite Hsl1 in Hsl2. unfold slist in Hsl2. rewrite Htop in Hsl2.
    replace (Z.to_nat (stack_top s2)) with 0%nat in Hsl2 by lia.
    simpl in Hsl2. congruence. }
  subst u. destruct (Z.eqb_spec error (-1)); [done|]. simpl. rewrite Hseen.
  match goal with |- context [DFS_neighbours rng 0 ?k 0 seed ?st1] =>
    destruct (DFS_neighbours_p0 rng N k 0 seed st1) as [pos' Hn]; try done; try lia end.
  { simpl. by rewrite length_insert. }
  rewrite Hn. simpl.
  destruct (Z.to_nat N * _)%nat; simpl;
    (destruct (Z.ltb_spec 0 (stack_top s2)); [lia|]);
    eexists; split_ands; reflexivity.
Qed.

Lemma clusters_loop_sizes rng p N n s visited error pyerr pos sizes :
  0 <= N < 64 → stack_wf s → stack_top s = 0 → 0 < stack_length s → error ≠ -1 →
  Forall (λ sz, 1 <= sz <= 2 ^ N) sizes →
  match clusters_loop rng p N (2 ^ N) n s visited error pyerr pos sizes with
  | Done (sizes', st) =>
      base.length sizes' = (base.length sizes + n)%nat ∧
      Forall (λ sz, 1 <= sz <= 2 ^ N) sizes'
  | Fail (_, st) => dfs_error st = -1
  | Undef | Fuel => False
  end.
Proof.
  intros HN. revert s visited error pos sizes.
  induction n as [|n IH]; intros s visited error pos sizes Hs Htop Hcap Herr Hsz; simpl.
  { split; [lia|done]. }
  pose proof (pow2_le_modulus N HN) as [Hp0 _].
  assert (Hlen : base.length (reset_visited visited (2 ^ N)) = Z.to_nat (2 ^ N)).
  { unfold reset_visited. by rewrite length_replicate. }
  assert (Hm0 : marked (reset_visited visited (2 ^ N)) = 0%nat)
    by apply marked_replicate_false.
  assert (Hun : reset_visited visited (2 ^ N) !! Z.to_nat 0 = Some false).
  { unfold reset_visited. apply lookup_replicate. split; [done|lia]. }
  pose proof (DFS_hypercube_total rng p N s _ 0 error pyerr pos HN Hs Htop Hlen
                ltac:(lia) Herr) as Hd.
  destruct (DFS_hypercube _ _ _ _ _ _ _ _ _) as [st|st| |] eqn:Hrun; try done.
  - destruct Hd as (Ht & Hw & Hl & He & Hpy & Hsize).
    assert (Hseed : 0 <= 0 < 2 ^ N) by lia.
    destruct (DFS_hypercube_cluster _ _ _ _ _ _ _ _ _ _ HN Hs Htop Hcap Hlen
                Hseed Herr Hrun) as ((Hm & Hc & _) & Hlen').
    assert (Hseed' : dfs_visited st !! Z.to_nat 0 = Some true).
    { destruct Hc as [Hc|Hc]; [done|]. unfold slist in Hc. rewrite Ht in Hc.
      simpl in Hc. by apply elem_of_nil in Hc. }
    assert (Hll : base.length (reset_visited visited (2 ^ N))
                  = base.length (dfs_visited st)) by congruence.
    pose proof (marked_mono_strict _ (dfs_visited st) (Z.to_nat 0) Hll Hm Hun Hseed')
      as Hlt.
    pose proof (marked_le (dfs_visited st)) as Hle. rewrite Hl in Hle.
    destruct (Z.eqb_spec (dfs_error st) (-1)); [congruence|].
    assert (Hall : Forall (λ sz, 1 <= sz <= 2 ^ N) (sizes ++ [dfs_size st])).
    { apply Forall_app. split; [done|]. apply Forall_singleton. lia. }
    specialize (IH (dfs_stack st) (dfs_visited st) (dfs_error st) (dfs_pos st)
                  (sizes ++ [dfs_size st]) Hw Ht ltac:(lia) ltac:(congruence) Hall).
    rewrite Hpy.
    destruct (clusters_loop _ _ _ _ _ _ _ _ _ _ _) as [[sizes' st2]|[? st2]| |];
      try done.
    destruct IH as [Hlen2 Hall2].
    rewrite length_app in Hlen2. simpl in Hlen2. split; [lia|done].
  - destruct Hd as (He & Hpy). rewrite He. simpl. done.
Qed.

(** X4: for arguments that [check_args] accepts and [NR >= 0],
    [hypercube_clusters] returns NULL or an array of [NR] sizes, each between
    1 and [2^N]; it reads or writes nothing out of bounds. *)
Theorem hypercube_clusters_sizes rng p N NR :
  check_args N (wrap NR) p = true → 0 <= NR →
  match hypercube_clusters rng p N NR with
  | Done (Some sizes) =>
      base.length sizes = Z.to_nat NR ∧ Forall (λ sz, 1 <= sz <= 2 ^ N) sizes
  | Done None => True
  | _ => False
  end.
Proof.
  intros Hargs HNR. pose proof (check_args_range _ _ _ Hargs) as HN.
  pose proof (pow2_le_modulus N HN) as [Hp0 _].
  unfold hypercube_clusters. rewrite Hargs.
  destruct (Z.ltb_spec NR 0); [lia|]. simpl. rewrite intpower_2 by done.
  pose proof (clusters_loop_sizes rng p N (Z.to_nat NR) (setup_stack (2 ^ N)) [] 0 None
                0%nat [] HN (setup_stack_wf (2 ^ N) ltac:(lia)) eq_refl ltac:(simpl; lia)
                ltac:(lia) (Forall_nil_2 _)) as Hc.
  destruct (clusters_loop _ _ _ _ _ _ _ _ _ _ _) as [[sizes st]|[? st]| |]; done.
Qed.

Lemma hypercube_clusters_sizes_witness :
  ∃ sizes, hypercube_clusters alternating (1 # 2) 3 4 = Done (Some sizes) ∧
           base.length sizes = 4%nat ∧ Forall (λ sz, 1 <= sz <= 2 ^ 3) sizes.
Proof.
  pose proof (hypercube_clusters_sizes alternating (1 # 2) 3 4 eq_refl ltac:(lia)) as H.
  destruct (hypercube_clusters alternating (1 # 2) 3 4) as [[sizes|]| | |] eqn:Hd;
    [|vm_compute in Hd; discriminate..].
  exists sizes. split; [reflexivity|]. exact H.
Defined.

Lemma clusters_loop_p0 rng N n s visited error pyerr pos sizes :
  uniform_range rng → 0 <= N < 64 →
  stack_wf s → stack_top s = 0 → 0 < stack_length s → error ≠ -1 →
  ∃ st, clusters_loop rng 0 N (2 ^ N) n s visited error pyerr pos sizes
        = Done (sizes ++ replicate n 1, st).
Proof.
  intros Hrng HN. revert s visited error pos sizes.
  induction n as [|n IH]; intros s visited error pos sizes Hs Htop Hcap Herr; simpl.
  { rewrite app_nil_r. by eexists. }
  pose proof (pow2_le_modulus N HN) as [Hp0 _].
  assert (Hlen : base.length (reset_visited visited (2 ^ N)) = Z.to_nat (2 ^ N)).
  { unfold reset_visited. by rewrite length_replicate. }
  assert (Hun : reset_visited visited (2 ^ N) !! Z.to_nat 0 = Some false).
  { unfold reset_visited. apply lookup_replicate. split; [done|lia]. }
  assert (Hseed : 0 <= 0 < 2 ^ N) by lia.
  destruct (DFS_hypercube_p0 rng N s _ 0 error pyerr pos Hrng HN Hseed Hs Htop Hcap Hlen
              Hun Herr) as (st & Hrun & Hsz).
  pose proof (DFS_hypercube_total rng 0 N s _ 0 error pyerr pos HN Hs Htop Hlen
                Hseed Herr) as Hd.
  destruct (DFS_hypercube_cluster _ _ _ _ _ _ _ _ _ _ HN Hs Htop Hcap Hlen
              Hseed Herr Hrun) as (_ & Hlen').
  rewrite Hrun in *. destruct Hd as (Ht & Hw & Hl & He & Hpy & _).
  destruct (Z.eqb_spec (dfs_error st) (-1)); [congruence|].
  destruct (IH (dfs_stack st) (dfs_visited st) (dfs_error st) (dfs_pos st)
              (sizes ++ [dfs_size st]) Hw Ht ltac:(lia) ltac:(congruence)) as [st2 H2].
  rewrite Hpy, H2, Hsz, <- app_assoc. by eexists.
Qed.

(** X5: with [p = 0], [hypercube_clusters] returns [NR] sizes that are all
    1, for every dimension below 64, every positive [NR] that fits an [int]
    and every sequence of variates in [[0,1)]. *)
Theorem hypercube_clusters_p0 rng N NR :
  uniform_range rng → 0 <= N < 64 → 0 < NR < 2 ^ 31 →
  hypercube_clusters rng 0 N NR = Done (Some (replicate (Z.to_nat NR) 1)).
Proof.
  intros Hrng HN HNR. pose proof (pow2_le_modulus N HN) as [Hp0 _].
  unfold hypercube_clusters.
  assert (Hargs : check_args N (wrap NR) 0 = true).
  { unfold check_args. rewrite wrap_small by (unfold ul_modulus; lia).
    destruct (Z.leb_spec 0 N); [|lia]. destruct (Z.ltb_spec N 64); [|lia].
    destruct (Z.ltb_spec 0 NR); [|lia]. done. }
  rewrite Hargs. destruct (Z.ltb_spec NR 0); [lia|]. simpl.
  rewrite intpower_2 by done.
  destruct (clusters_loop_p0 rng N (Z.to_nat NR) (setup_stack (2 ^ N)) [] 0 None 0%nat []
              Hrng HN (setup_stack_wf (2 ^ N) ltac:(lia)) eq_refl ltac:(simpl; lia)
              ltac:(lia)) as [st ->].
  done.
Qed.

Lemma hypercube_clusters_p0_witness :
  hypercube_clusters (always 0) 0 5 3 = Done (Some [1; 1; 1]).
Proof.
  apply (hypercube_clusters_p0 (always 0) 5 3 uniform_always_zero); lia.
Defined.

(** ** grow_H_cluster: the cluster and its links *)

Lemma cells_ok_refl N m : cells_ok N m m.
Proof. intros x y. by left. Qed.

Lemma adjacent_sym N x y : adjacent N x y → adjacent N y x.
Proof. intros (i & Hi & ->). exists i. split; [done|]. by rewrite lxor_bit_twice. Qed.

Lemma grow_edge_cluster rng p N st0 seed u V i st st1 :
  0 <= i < N → stack_wf (g_stack st) → g_visited st = V →
  new_mark (g_visited st0) V u →
  cells_ok N (g_matrix st0) (g_matrix st) →
  grow_paths st0 seed (g_link_upto N (g_matrix st) (g_visited st0) V u i) st →
  grow_edge rng p i u st = Done st1 →
  stack_wf (g_stack st1) ∧ g_visited st1 = V ∧
  cells_ok N (g_matrix st0) (g_matrix st1) ∧
  grow_paths st0 seed (g_link_upto N (g_matrix st1) (g_visited st0) V u (i + 1)) st1.
Proof.
  intros Hi Hs HV Hnew Hcells Hpaths He.
  destruct (grow_edge_done _ _ _ _ _ _ He)
    as [_ [[Hv ->]|(Hv & Hr1 & Hr2 & s' & x & Hx & ->)]].
  { split_ands; try done. intros y Hy.
    eapply epath_mono; [|by apply Hpaths]. intros a b [Hl Hc]. split; [done|].
    intros E. destruct (Hc E) as (j & Hj & Hb). exists j. split; [lia|done]. }
  set (v := Z.lxor u (Z.shiftl 1 i)) in *.
  set (m1 := nd_set (nd_set (g_matrix st) u v x) v u x).
  assert (Hmono : ∀ a b, g_link_upto N (g_matrix st) (g_visited st0) V u i a b →
            g_link_upto N m1 (g_visited st0) V u (i + 1) a b).
  { intros a b [(Ha & Hadj & H1) Hc]. split.
    - unfold g_link. split_ands; try done. unfold m1. rewrite nd_get_set2.
      destruct (decide _) as [[E|E]|_]; [| |done].
      + injection E as -> ->. destruct (Hc eq_refl) as (j & Hj & Hb).
        unfold v in Hb. apply lxor_bit_inj in Hb; lia.
      + injection E as -> ->. destruct Ha as (_ & _ & Ha). rewrite <- HV in Ha. congruence.
    - intros E. destruct (Hc E) as (j & Hj & Hb). exists j. split; [lia|done]. }
  assert (Hx01 : x = 0 ∨ x = 1).
  { destruct Hx as [[-> _]|[-> _]]; [by right|by left]. }
  assert (Hcells1 : cells_ok N (g_matrix st0) m1).
  { intros a b. unfold m1. rewrite nd_get_set2.
    assert (Huv : 0 <= u ∧ 0 <= Z.lxor u (Z.shiftl 1 i)).
    { unfold nd_in_range in Hr1. repeat (apply andb_prop in Hr1 as [Hr1 ?]).
      split; apply Z.leb_le; done. }
    destruct (decide _) as [[E|E]|_]; [| |apply Hcells]; right; injection E as -> ->.
    - split_ands; try done; try apply Huv. exists i. split; [lia|done].
    - split_ands; try done; try apply Huv. apply adjacent_sym. exists i. split; [lia|done]. }
  destruct Hx as [(-> & Hp & Hlt)|(-> & ->)]; simpl.
  - destruct (push_ok (g_stack st) v Hs Hlt) as (s2 & Hp2 & Hs2 & _ & _ & Hsl).
    assert (s2 = s') as -> by congruence.
    split_ands; try done.
    intros y [Hy|Hy]; simpl in Hy.
    + rewrite Hsl in Hy. apply elem_of_app in Hy as [Hy|Hy].
      * eapply epath_mono; [exact Hmono|]. apply Hpaths. by left.
      * apply list_elem_of_singleton in Hy as ->.
        eapply epath_step.
        -- eapply epath_mono; [exact Hmono|]. apply Hpaths. right. by rewrite HV.
        -- split.
           ++ unfold g_link. split_ands; try done; [exists i; split; [lia|done]|].
              unfold m1. rewrite nd_get_set2.
              destruct (decide _) as [_|E]; [done|]. exfalso. apply E. by left.
           ++ intros _. exists i. split; [lia|done].
    + eapply epath_mono; [exact Hmono|]. apply Hpaths. by right.
  - split_ands; try done.
    intros y Hy. eapply epath_mono; [exact Hmono|]. apply Hpaths. exact Hy.
Qed.

Lemma grow_body_cluster rng p N cidx st0 seed st st1 :
  0 <= N < 64 → grow_inv (2 ^ N) cidx st0 st →
  base.length (g_visited st0) = Z.to_nat (2 ^ N) →
  0 < stack_top (g_stack st) →
  cells_ok N (g_matrix st0) (g_matrix st) →
  grow_paths st0 seed (g_link N (g_matrix st) (g_visited st0) (g_visited st)) st →
  grow_body rng p N cidx st = Done st1 →
  cells_ok N (g_matrix st0) (g_matrix st1) ∧
  grow_paths st0 seed (g_link N (g_matrix st1) (g_visited st0) (g_visited st1)) st1.
Proof.
  intros HN Hinv Hl0 Htop Hcells Hpaths Hb.
  pose proof Hinv as (Hwf & Hm & _). pose proof Hwf as (Hs & Hlen & Hrange & _).
  destruct (grow_body_done _ _ _ _ _ _ Hs Htop Hb)
    as (u & s' & Hsl & Hs' & _ & _ & [[Hv ->]|(Hv & labels' & _ & Hn)]).
  { simpl. split; [done|]. intros x [Hx|Hx]; simpl in Hx; apply Hpaths; [left|by right].
    rewrite Hsl. apply elem_of_app. by left. }
  rewrite Hsl in Hrange. apply Forall_app in Hrange as [_ Hu].
  rewrite Forall_singleton in Hu.
  set (V' := <[Z.to_nat u:=true]> (g_visited st)) in *.
  assert (Hu0 : g_visited st0 !! Z.to_nat u = Some false).
  { destruct (site_index _ _ _ Hl0 Hu) as [[] Hb0]; [|done].
    apply Hm in Hb0. congruence. }
  assert (Hnew : new_mark (g_visited st0) V' u).
  { unfold new_mark. split_ands; [lia|done|].
    apply list_lookup_insert_eq. by eapply lookup_lt_Some. }
  apply (grow_neighbours_rule rng p u
           (λ j s, stack_wf (g_stack s) ∧ g_visited s = V' ∧
                   cells_ok N (g_matrix st0) (g_matrix s) ∧
                   grow_paths st0 seed
                     (g_link_upto N (g_matrix s) (g_visited st0) V' u j) s))
    in Hn as (_ & HV1 & Hc1 & Hp1).
  - split; [done|]. intros x Hx.
    eapply epath_mono; [|apply Hp1, Hx]. intros a b [Hab _]. by rewrite HV1.
  - intros j s s1 Hj (Hsj & HVj & Hcj & Hpj) He.
    eapply grow_edge_cluster; [| | | | | |exact He]; try done. lia.
  - simpl. split_ands; try done.
    intros x Hx.
    assert (Hold : x ∈ slist (g_stack st) ∨ new_mark (g_visited st0) (g_visited st) x).
    { destruct Hx as [Hx|(Hx & Hx0 & HxV)]; simpl in *.
      - left. rewrite Hsl. apply elem_of_app. by left.
      - destruct (decide (x = u)) as [->|Hne].
        + left. rewrite Hsl. apply elem_of_app. right. by apply list_elem_of_singleton.
        + right. unfold new_mark. split_ands; try done. unfold V' in HxV.
          rewrite list_lookup_insert_ne in HxV by lia. done. }
    eapply epath_mono; [|by apply Hpaths].
    intros a b ((Ha & Ha0 & HaV) & Hadj & H1). split.
    + unfold g_link, new_mark. split_ands; try done. by apply insert_true_keeps.
    + intros ->. congruence.
Qed.

Lemma grow_loop_cluster rng p N cidx st0 seed fuel st st' :
  0 <= N < 64 → grow_inv (2 ^ N) cidx st0 st →
  base.length (g_visited st0) = Z.to_nat (2 ^ N) →
  cells_ok N (g_matrix st0) (g_matrix st) →
  grow_paths st0 seed (g_link N (g_matrix st) (g_visited st0) (g_visited st)) st →
  grow_loop rng p N cidx fuel st = Done st' →
  cells_ok N (g_matrix st0) (g_matrix st') ∧
  grow_paths st0 seed (g_link N (g_matrix st') (g_visited st0) (g_visited st')) st'.
Proof.
  intros HN Hinv Hl0 Hcells Hpaths Hl.
  apply (grow_loop_rule rng p N cidx
           (λ s, grow_inv (2 ^ N) cidx st0 s ∧ cells_ok N (g_matrix st0) (g_matrix s) ∧
                 grow_paths st0 seed
                   (g_link N (g_matrix s) (g_visited st0) (g_visited s)) s))
    in Hl as [(_ & ? & ?) _]; [done| |done].
  intros s s1 (Hs & Hc & Hp) Ht Hb. split.
  - by destruct (grow_body_inv _ _ _ _ _ _ _ HN Hs Ht Hb).
  - eapply grow_body_cluster; eauto.
Qed.

Lemma grow_H_cluster_cluster rng p N cidx st start st' :
  0 <= N < 64 → grow_wf (2 ^ N) st → g_size st = 0 → 0 <= start < 2 ^ N →
  grow_H_cluster rng p N st start cidx = Done st' →
  cells_ok N (g_matrix st) (g_matrix st') ∧
  ∀ x, new_mark (g_visited st) (g_visited st') x →
       epath (g_link N (g_matrix st') (g_visited st) (g_visited st')) start x.
Proof.
  intros HN Hwf Hsz Hstart Hg.
  destruct (grow_H_cluster_spec _ _ _ _ _ _ _ HN Hwf Hsz Hstart Hg)
    as (Htop & Hinv & Htop' & _).
  rewrite grow_H_cluster_unfold in Hg by done. cbv zeta in Hg.
  pose proof Hwf as (Hs & Hlen & Hrange & Hrows & Hcols & Hll).
  assert (Hsl0 : slist (g_stack st) = []) by (unfold slist; by rewrite Htop).
  match type of Hg with grow_loop _ _ _ _ _ ?st1 = _ =>
    assert (Hinv1 : grow_inv (2 ^ N) cidx st st1 ∧
                    ∀ x, x ∈ slist (g_stack st1) → x = start) end.
  { unfold grow_inv, grow_wf. simpl.
    destruct (Z.lt_ge_cases (stack_top (g_stack st)) (stack_length (g_stack st)))
      as [Hlt|Hge].
    + destruct (push_ok (g_stack st) start Hs Hlt) as (s1 & Hp & Hs1 & Ht1 & Hl1 & Hsl1).
      rewrite Hp. simpl. rewrite Hsl1, Hsl0.
      split_ands; try done; try lia; try (intros; congruence).
      * by apply Forall_singleton.
      * intros x Hx. by apply list_elem_of_singleton in Hx.
    + rewrite push_full by done. simpl. rewrite Hsl0.
      split_ands; try done; try lia; try (intros; congruence).
      intros x Hx. by apply elem_of_nil in Hx. }
  destruct Hinv1 as [Hinv1 Hstack].
  eapply grow_loop_cluster in Hg as [Hc Hp]; [| |exact Hinv1|done|apply cells_ok_refl|];
    [|done|].
  - split; [done|]. intros x Hx. apply Hp. by right.
  - intros x [Hx|(_ & Hx0 & HxV)]; [|simpl in HxV; congruence].
    apply Hstack in Hx as ->. constructor.
Qed.

(** X6: the matrix and the size that [hypercube_H_SC] returns describe one
    connected cluster around site 0.  Every cell holds 0 or 1; a cell that
    holds 1 joins two neighbouring sites of the hypercube, both reached from
    site 0 along cells that hold 1; the sites reached that way are the sites
    marked by the traversal, site 0 among them, and the size returned is
    their number. *)
Theorem hypercube_H_SC_cluster rng p N a n :
  hypercube_H_SC rng p N = Done (Some (a, n)) →
  (∀ x y, nd_get a x y = 0 ∨ nd_get a x y = 1) ∧
  (∀ x y, nd_get a x y = 1 →
          adjacent N x y ∧ epath (mlink a) 0 x ∧ epath (mlink a) 0 y) ∧
  ∃ cluster : list bool,
    base.length cluster = Z.to_nat (2 ^ N) ∧ n = Z.of_nat (marked cluster) ∧
    cluster !! Z.to_nat 0 = Some true ∧
    ∀ x, epath (mlink a) 0 x ↔ 0 <= x ∧ cluster !! Z.to_nat x = Some true.
Proof.
  unfold hypercube_H_SC.
  destruct (check_args N 1 p) eqn:Hargs; simpl; [|done].
  pose proof (check_args_range _ _ _ Hargs) as HN.
  pose proof (pow2_le_modulus N HN) as [Hp0 _].
  rewrite intpower_2 by done.
  destruct (grow_H_cluster rng p N (grow_init (2 ^ N) None) 0 0) as [st| | |] eqn:Hg;
    try done.
  intros [= <- <-].
  assert (Hwf : grow_wf (2 ^ N) (grow_init (2 ^ N) None)).
  { unfold grow_wf, grow_init, reset_visited. simpl. rewrite length_replicate.
    split_ands; try done.
    - apply setup_stack_wf. lia.
    - by apply Forall_nil. }
  assert (Hseed : 0 <= 0 < 2 ^ N) by lia.
  assert (Hz : ∀ x y, nd_get (g_matrix (grow_init (2 ^ N) None)) x y = 0).
  { intros x y. unfold nd_get. simpl. by rewrite lookup_empty. }
  destruct (grow_H_cluster_spec _ _ _ _ _ _ _ HN Hwf eq_refl Hseed Hg)
    as (_ & Hinv & Htop' & Hvis).
  assert (Hedges : edges_within st).
  { eapply grow_H_cluster_edges; [exact HN|exact Hwf|done|exact Hseed| |exact Hg].
    intros x y Hx. by rewrite Hz in Hx. }
  destruct (grow_H_cluster_cluster _ _ _ _ _ _ _ HN Hwf eq_refl Hseed Hg) as [Hcells Hpaths].
  destruct Hinv as ((_ & Hlen & _) & _ & _ & Hcount & _).
  assert (Hv0 : ∀ x, 0 <= x → g_visited st !! Z.to_nat x = Some true →
            new_mark (g_visited (grow_init (2 ^ N) None)) (g_visited st) x).
  { intros x Hx Hv. unfold new_mark. split_ands; try done. simpl.
    unfold reset_visited. apply lookup_replicate. split; [done|].
    apply lookup_lt_Some in Hv. lia. }
  assert (Hreach : ∀ x, 0 <= x → g_visited st !! Z.to_nat x = Some true →
            epath (mlink (g_matrix st)) 0 x).
  { intros x Hx Hv. eapply epath_mono; [|apply Hpaths; by apply Hv0].
    by intros u v (_ & _ & H1). }
  assert (Hone : ∀ x y, nd_get (g_matrix st) x y = 1 →
            adjacent N x y ∧ 0 <= x ∧ 0 <= y ∧
            g_visited st !! Z.to_nat x = Some true ∧
            g_visited st !! Z.to_nat y = Some true).
  { intros x y H1. destruct (Hcells x y) as [E|(Hadj & Hx & Hy & _)].
    { rewrite Hz in E. lia. }
    destruct (Hedges x y ltac:(lia)) as (Hvx & Hvy & _). done. }
  split_ands.
  - intros x y. destruct (Hcells x y) as [E|(_ & _ & _ & H01)]; [|done].
    left. by rewrite E, Hz.
  - intros x y H1. destruct (Hone x y H1) as (Hadj & Hx & Hy & Hvx & Hvy).
    split_ands; [done| |]; by apply Hreach.
  - exists (g_visited st). split_ands; try done.
    + simpl in Hcount. unfold reset_visited in Hcount.
      rewrite marked_replicate_false in Hcount. lia.
    + apply Hvis. simpl. lia.
    + intros x. split.
      * induction 1 as [|u v _ IH Huv].
        -- split; [lia|]. apply Hvis. simpl. lia.
        -- destruct (Hone u v Huv) as (_ & _ & Hv & _ & Hvv). done.
      * intros [Hx Hv]. by apply Hreach.
Qed.

Lemma hypercube_H_SC_cluster_witness :
  ∃ a n, hypercube_H_SC alternating (1 # 2) 3 = Done (Some (a, n)) ∧
         (∀ x y, nd_get a x y = 0 ∨ nd_get a x y = 1).
Proof.
  assert (Hret : returns_object (hypercube_H_SC alternating (1 # 2) 3) = true)
    by (vm_compute; reflexivity).
  destruct (hypercube_H_SC alternating (1 # 2) 3) as [[[a n]|]| | |] eqn:Hd;
    try discriminate Hret.
  exists a, n. split; [reflexivity|].
  exact (proj1 (hypercube_H_SC_cluster alternating (1 # 2) 3 a n Hd)).
Defined.

(** ** hypercube_H_SC at [p = 0] *)

Lemma grow_neighbours_p0 rng N k i u st :
  uniform_range rng → 0 <= i → i + Z.of_nat k <= N → N < 64 →
  0 <= u < 2 ^ N → base.length (g_visited st) = Z.to_nat (2 ^ N) →
  nd_rows (g_matrix st) = 2 ^ N → nd_cols (g_matrix st) = 2 ^ N →
  (∀ x y, nd_get (g_matrix st) x y = 0) →
  ∃ st', grow_neighbours rng 0 k i u st = Done st' ∧
         g_stack st' = g_stack st ∧ g_visited st' = g_visited st ∧
         g_size st' = g_size st ∧
         (∀ x y, nd_get (g_matrix st') x y = 0).
Proof.
  intros Hrng. revert i st.
  induction k as [|k IH]; intros i st Hi Hk HN Hu Hv Hr Hc Hz; simpl.
  { by exists st. }
  unfold grow_edge. destruct (Z.leb_spec 64 i); [lia|].
  assert (Hvr : 0 <= Z.lxor u (Z.shiftl 1 i) < 2 ^ N) by (apply lxor_bit_range; lia).
  destruct (site_index _ _ _ Hv Hvr) as [b Hb]. rewrite Hb. destruct b.
  { apply IH; try done; lia. }
  rewrite !(nd_in_range_true _ (2 ^ N)) by done. simpl.
  rewrite Qltb_zero by apply Hrng.
  match goal with |- context [grow_neighbours rng 0 k (i + 1) u ?st1] =>
    destruct (IH (i + 1) st1) as (st' & Hn & H1 & H2 & H3 & H4); try done; try lia end.
  { simpl. intros x y. rewrite nd_get_set2. destruct (decide _); [done|apply Hz]. }
  exists st'. split; [done|]. simpl in *. done.
Qed.

(** X7: with [p = 0], [hypercube_H_SC] returns a matrix of zeros and the
    size 1, for every dimension below 64 and every sequence of variates in
    [[0,1)]. *)
Theorem hypercube_H_SC_p0 rng N :
  uniform_range rng → 0 <= N < 64 →
  ∃ a, hypercube_H_SC rng 0 N = Done (Some (a, 1)) ∧ ∀ x y, nd_get a x y = 0.
Proof.
  intros Hrng HN. pose proof (pow2_le_modulus N HN) as [Hp0 Hp1].
  unfold hypercube_H_SC.
  rewrite check_args_true by (try done; apply Qle_refl || done).
  simpl. rewrite intpower_2 by done.
  unfold grow_H_cluster, grow_init. simpl.
  assert (Hs : stack_wf (setup_stack (2 ^ N))) by (apply setup_stack_wf; lia).
  destruct (push_ok (setup_stack (2 ^ N)) 0 Hs ltac:(simpl; lia))
    as (s1 & Hp & Hs1 & Ht1 & Hl1 & Hsl1).
  rewrite Hp. unfold grow_fuel. simpl grow_loop. rewrite Ht1. simpl.
  unfold grow_body. simpl.
  destruct (pop_ok s1 0 Hs1 ltac:(simpl in *; lia)) as (u & s2 & Hp2 & Hs2 & Ht2 & Hl2 & Hsl2).
  rewrite Hp2.
  assert (Hu : u = 0).
  { rewrite Hsl1 in Hsl2. unfold slist in Hsl2. simpl in Hsl2, Ht1.
    replace (Z.to_nat (stack_top s2)) with 0%nat in Hsl2 by lia.
    simpl in Hsl2. congruence. }
  subst u. simpl.
  assert (Hun : reset_visited [] (2 ^ N) !! Z.to_nat 0 = Some false).
  { unfold reset_visited. apply lookup_replicate. split; [done|lia]. }
  rewrite Hun.
  match goal with |- context [grow_neighbours rng 0 ?k 0 0 ?st1] =>
    destruct (grow_neighbours_p0 rng N k 0 0 st1) as (st' & Hn & H1 & H2 & H3 & H4);
      try done; try lia end.
  all: try (simpl; unfold reset_visited; by rewrite length_insert, length_replicate).
  all: try (intros x y; unfold nd_get; simpl; by rewrite lookup_empty).
  rewrite Hn. simpl in H1, H3.
  assert (Htop' : stack_top (g_stack st') = 0) by (rewrite H1; simpl in Ht1; lia).
  rewrite Htop'. simpl.
  exists (g_matrix st'). split; [|done]. rewrite H3. reflexivity.
Qed.

Lemma hypercube_H_SC_p0_witness :
  ∃ a, hypercube_H_SC (always 0) 0 4 = Done (Some (a, 1)) ∧ ∀ x y, nd_get a x y = 0.
Proof. apply (hypercube_H_SC_p0 (always 0) 4 uniform_always_zero). lia. Defined.

(** ** dijkstra: the steps of a run *)

Lemma dijkstra_edge_step rng p N cidx st0 u du i st st1 :
  0 <= N < 64 → 0 <= i < N → 0 <= u < 2 ^ N →
  dij_inv (2 ^ N) cidx st0 st → dij_level st du →
  dj_visited st !! Z.to_nat u = Some true →
  dj_distances st !! Z.to_nat u = Some du → 0 <= du < ULONG_MAX →
  dijkstra_edge rng p i u st = Done st1 →
  dij_edge_step rng p u du i st st1.
Proof.
  intros HN Hi Hu Hinv Hlev Hvu Hdu Hdur.
  pose proof Hinv as (Hwf & Hmono & Hnv & Hcnt & Hlab1 & Hlab2 & Hfr & Hnd & Hunv & Hinf & Hfin & Herr).
  pose proof Hwf as (Hq & Hcap & Hlv & Hld & Hll & Hrange).
  unfold dijkstra_edge, dij_edge_step. destruct (Z.leb_spec 64 i); [lia|].
  set (v := Z.lxor u (Z.shiftl 1 i)).
  assert (Hvr : 0 <= v < 2 ^ N) by (apply lxor_bit_range; lia).
  destruct (site_index_Z _ _ _ Hlv Hvr) as [b Hb]. rewrite Hb.
  destruct b.
  { intros [= <-]. split_ands; try done. left. split_ands; try done. by left. }
  destruct (Qltb (rng (dj_pos st)) p) eqn:Hdraw.
  2: { intros [= <-]. simpl. split_ands; try done. left. split_ands; try done.
       right. by left. }
  simpl. destruct (site_index_Z _ _ _ Hld Hvr) as [old Hold]. rewrite Hold, Hdu.
  pose proof ULONG_MAX_eq as HU.
  rewrite wrap_small by lia.
  destruct (Z.ltb_spec (du + 1) old) as [Hlt|Hge].
  2: { intros [= <-]. simpl. split_ands; try done. left. split_ands; try done.
       right. right. by exists old. }
  assert (Hvq : v ∉ qlist (dj_queue st)).
  { intros Hin. destruct Hlev as (A & B & HAB & HA & HB).
    rewrite HAB in Hin. apply elem_of_app in Hin as [Hin|Hin].
    - rewrite Forall_forall in HA. specialize (HA v Hin). rewrite Hold in HA.
      injection HA as ->. lia.
    - rewrite Forall_forall in HB. specialize (HB v Hin). rewrite Hold in HB.
      injection HB as ->. lia. }
  assert (Hoinf : old = ULONG_MAX).
  { specialize (Hinf v Hvr Hb Hvq). congruence. }
  assert (Huq : u ∉ qlist (dj_queue st)).
  { intros Hin. apply Hunv in Hin. congruence. }
  assert (Hcount : queue_writeIdx (dj_queue st) - queue_readIdx (dj_queue st)
                   < queue_length (dj_queue st)).
  { rewrite <- qlist_length by done. rewrite Hcap.
    assert (Hnd2 : NoDup (u :: qlist (dj_queue st))) by (by apply NoDup_cons).
    assert (Hr2 : sites_in_range (2 ^ N) (u :: qlist (dj_queue st)))
      by (by apply Forall_cons).
    pose proof (NoDup_range_length _ _ Hnd2 Hr2) as Hlen. simpl in Hlen. lia. }
  destruct (enqueue_ok (dj_queue st) v (dj_err st) Hq Hcount)
    as (q' & Hen & Hq' & Hcap' & Hql).
  rewrite Hen, Herr. simpl. intros [= <-]. simpl.
  split_ands; try done. right. subst old. done.
Qed.

Lemma dijkstra_body_links_step rng p N cidx st0 st st1 :
  0 <= N < 64 → dij_inv (2 ^ N) cidx st0 st → (∃ d, dij_level st d) →
  empty (dj_queue st) = false →
  dijkstra_body rng p N cidx st = Done st1 →
  ∃ u du st2,
    0 <= u < 2 ^ N ∧ dij_mark_step u du st st2 ∧
    dij_inv (2 ^ N) cidx st0 st2 ∧ dij_level st2 du ∧
    dijkstra_neighbours rng p (Z.to_nat N) 0 u st2 = Done st1 ∧
    dijkstra_body_links rng p N cidx st
    = dijkstra_neighbours_links rng p (Z.to_nat N) 0 u st2.
Proof.
  intros HN Hinv [d Hlev] Hne.
  pose proof Hinv as (Hwf & Hmono & Hnv & Hcnt & Hlab1 & Hlab2 & Hfr & Hnd & Hunv & Hinf & Hfin & Herr).
  pose proof Hwf as (Hq & Hcap & Hlv & Hld & Hll & Hrange).
  assert (Hrw : queue_readIdx (dj_queue st) < queue_writeIdx (dj_queue st)).
  { unfold empty in Hne. apply Z.eqb_neq in Hne. destruct Hq as (? & _). lia. }
  unfold dijkstra_body.
  destruct (dequeue_ok (dj_queue st) (dj_err st) Hq Hrw) as (u & q' & Hde & Hq' & Hcap' & Hql).
  rewrite Hde, Herr. simpl.
  rewrite Hql in *.
  apply Forall_cons in Hrange as [Hu Hrange'].
  apply NoDup_cons in Hnd as [Hurest Hnd'].
  assert (Hvu : dj_visited st !! Z.to_nat u = Some false).
  { apply Hunv. by left. }
  destruct (Hfin u ltac:(by left)) as (du & Hdu & Hdur).
  rewrite Hdu.
  assert (Hlt : (Z.to_nat u < base.length (dj_visited st))%nat) by lia.
  destruct (Nat.ltb_spec (Z.to_nat u) (base.length (dj_visited st))); [|lia].
  simpl.
  assert (Hw : ∃ labels', write_label (dj_labels st) u cidx = Some labels').
  { unfold write_label. destruct (dj_labels st) as [l|]; [|by eexists].
    simpl in Hll. destruct (Nat.ltb_spec (Z.to_nat u) (base.length l)); [by eexists|lia]. }
  destruct Hw as [labels' Hw]. rewrite Hw.
  assert (Hlab : ∀ i, i ≠ Z.to_nat u →
            label_at labels' i = label_at (dj_labels st) i).
  { intros i Hne'.
    destruct (write_label_some _ _ _ _ Hw) as [[E ->]|(l & E & Hl & ->)];
      rewrite E; [done|]. simpl. by rewrite list_lookup_insert_ne. }
  assert (Hlabu : labelled labels' (Z.to_nat u) cidx).
  { destruct (write_label_some _ _ _ _ Hw) as [[E ->]|(l & E & Hl & ->)]; [done|].
    simpl. by apply list_lookup_insert_eq. }
  assert (Hlabl : labels_len (2 ^ N) labels').
  { destruct (write_label_some _ _ _ _ Hw) as [[E ->]|(l & E & Hl & ->)]; [done|].
    simpl. rewrite length_insert. by rewrite E in Hll. }
  pose proof (marked_insert _ _ Hvu) as Hmi.
  pose proof (marked_le (<[Z.to_nat u := true]> (dj_visited st))) as Hmle.
  rewrite length_insert, Hmi in Hmle.
  pose proof (pow2_le_modulus N HN) as [Hp0 Hp1]. pose proof ULONG_MAX_eq.
  assert (Hidx : ∀ x, x ∈ qlist q' → Z.to_nat x ≠ Z.to_nat u).
  { intros x Hx E. unfold sites_in_range in Hrange'. rewrite Forall_forall in Hrange'.
    specialize (Hrange' x Hx). assert (x = u) by lia. congruence. }
  match goal with |- context [dijkstra_neighbours rng p ?k 0 u ?st2] =>
    set (s2 := st2) end.
  assert (Hinv2 : dij_inv (2 ^ N) cidx st0 s2).
  { unfold dij_inv, dij_wf, s2. simpl. rewrite length_insert, Hmi.
    rewrite wrap_small by lia.
    split_ands; try done; try lia.
    + intros i Hi. destruct (decide (i = Z.to_nat u)) as [->|Hne'].
      * by apply list_lookup_insert_eq.
      * rewrite list_lookup_insert_ne by done. by apply Hmono.
    + intros i Hi. destruct (decide (i = Z.to_nat u)) as [->|Hne'].
      * rewrite list_lookup_insert_eq in Hi by done. symmetry in Hi.
        apply Hmono in Hi. congruence.
      * rewrite list_lookup_insert_ne in Hi by done.
        rewrite Hlab by done. by apply Hlab1.
    + intros i Hi0 Hi. destruct (decide (i = Z.to_nat u)) as [->|Hne']; [done|].
      rewrite list_lookup_insert_ne in Hi by done.
      specialize (Hlab2 i Hi0 Hi). specialize (Hlab i Hne').
      unfold labelled, label_at in *.
      destruct labels', (dj_labels st); try done; congruence.
    + intros x Hx. rewrite list_lookup_insert_ne by (intros E; by apply (Hidx x Hx)).
      apply Hunv. by right.
    + intros x Hx Hxv Hxq.
      assert (Z.to_nat x ≠ Z.to_nat u).
      { intros E. rewrite E, list_lookup_insert_eq in Hxv by done. done. }
      rewrite list_lookup_insert_ne in Hxv by done.
      apply Hinf; try done. intros Hin. apply elem_of_cons in Hin as [->|Hin]; done.
    + intros x Hx. apply Hfin. by right. }
  assert (Hlev2 : dij_level s2 du).
  { destruct Hlev as (A & B & HAB & HA & HB). unfold dij_level, s2. simpl.
    rewrite Hql in HAB. destruct A as [|a A].
    + simpl in HAB. subst B. apply Forall_cons in HB as [HB1 HB2].
      assert (du = d + 1) by congruence. subst du.
      exists (qlist q'), []. rewrite app_nil_r. split_ands; try done.
    + simpl in HAB. injection HAB as <- HAB. apply Forall_cons in HA as [HA1 HA2].
      assert (du = d) by congruence. subst du.
      exists A, B. done. }
  intros Hn. exists u, du, s2. split; [done|]. split; [|split_ands; try done].
  - unfold dij_mark_step, s2. simpl. split_ands; try done; try lia.
    apply wrap_small. lia.
  - unfold dijkstra_body_links. rewrite Hde, Herr. simpl. rewrite Hdu.
    destruct (Nat.ltb_spec (Z.to_nat u) (base.length (dj_visited st))); [|lia].
    simpl. by rewrite Hw.
Qed.

Lemma dijkstra_body_step rng p N cidx st0 st st1 :
  0 <= N < 64 → dij_inv (2 ^ N) cidx st0 st → (∃ d, dij_level st d) →
  empty (dj_queue st) = false →
  dijkstra_body rng p N cidx st = Done st1 →
  ∃ u du st2,
    0 <= u < 2 ^ N ∧ dij_mark_step u du st st2 ∧
    dij_inv (2 ^ N) cidx st0 st2 ∧ dij_level st2 du ∧
    dijkstra_neighbours rng p (Z.to_nat N) 0 u st2 = Done st1.
Proof.
  intros HN Hinv Hlev Hne Hb.
  destruct (dijkstra_body_links_step _ _ _ _ _ _ _ HN Hinv Hlev Hne Hb)
    as (u & du & st2 & Hu & Hms & Hinv2 & Hlev2 & Hn & _).
  by exists u, du, st2.
Qed.

(** A property [P] of the states between two passes of the loop of
    [dijkstra], with a property [R u du i] of the states before the bit [i]
    of the site [u] at distance [du], holds when the loop ends if the steps
    keep it. *)
Lemma dijkstra_loop_rule rng p N cidx st0 (P : dij_state → Prop)
    (R : Z → Z → Z → dij_state → Prop) :
  0 <= N < 64 →
  (∀ st u du st2,
     dij_inv (2 ^ N) cidx st0 st → (∃ d, dij_level st d) → P st →
     0 <= u < 2 ^ N → dij_mark_step u du st st2 →
     dij_inv (2 ^ N) cidx st0 st2 → dij_level st2 du → R u du 0 st2) →
  (∀ u du i st st1,
     0 <= i < N → 0 <= u < 2 ^ N →
     dij_inv (2 ^ N) cidx st0 st → dij_level st du →
     dj_visited st !! Z.to_nat u = Some true →
     dj_distances st !! Z.to_nat u = Some du → 0 <= du < ULONG_MAX →
     R u du i st → dij_edge_step rng p u du i st st1 → R u du (i + 1) st1) →
  (∀ u du st, dij_inv (2 ^ N) cidx st0 st → R u du N st → P st) →
  ∀ fuel st st',
    dij_inv (2 ^ N) cidx st0 st → (∃ d, dij_level st d) → P st →
    dijkstra_loop rng p N cidx fuel st = Done st' → P st'.
Proof.
  intros HN Hmark Hedge Hend.
  assert (Hnb : ∀ u du k i st st1,
            0 <= i → i + Z.of_nat k <= N → 0 <= u < 2 ^ N →
            dij_inv (2 ^ N) cidx st0 st → dij_level st du →
            dj_visited st !! Z.to_nat u = Some true →
            dj_distances st !! Z.to_nat u = Some du → 0 <= du < ULONG_MAX →
            R u du i st →
            dijkstra_neighbours rng p k i u st = Done st1 →
            R u du (i + Z.of_nat k) st1 ∧ dij_inv (2 ^ N) cidx st0 st1 ∧
            ∃ d, dij_level st1 d).
  { intros u du. induction k as [|k IH]; intros i st st1 Hi Hk Hu Hinv Hlev Hvu Hdu Hdur HR;
      simpl.
    { intros [= <-]. rewrite Z.add_0_r. split_ands; try done. by exists du. }
    pose proof (dijkstra_edge_spec rng p N cidx st0 u du i st HN ltac:(lia) Hu Hinv Hlev
                  Hvu Hdu Hdur) as He.
    destruct (dijkstra_edge rng p i u st) as [st2| | |] eqn:Hed; try done.
    destruct He as (Hinv2 & Hlev2 & Hv2 & Hdu2).
    intros Hn.
    replace (i + Z.of_nat (S k)) with (i + 1 + Z.of_nat k) by lia.
    apply (IH (i + 1) st2); try done; try lia.
    - congruence.
    - assert (Hi' : 0 <= i < N) by lia.
      apply (Hedge u du i st st2 Hi' Hu Hinv Hlev Hvu Hdu Hdur HR).
      exact (dijkstra_edge_step rng p N cidx st0 u du i st st2 HN Hi' Hu Hinv Hlev Hvu
               Hdu Hdur Hed). }
  induction fuel as [|fuel IH]; intros st st' Hinv Hlev HP; simpl; [done|].
  destruct (empty (dj_queue st)) eqn:Hemp; simpl; [by intros [= <-]|].
  destruct (dijkstra_body rng p N cidx st) as [st1| | |] eqn:Hb; try done.
  destruct (dijkstra_body_step _ _ _ _ _ _ _ HN Hinv Hlev Hemp Hb)
    as (u & du & st2 & Hu & Hms & Hinv2 & Hlev2 & Hn).
  pose proof Hms as (_ & _ & Hdu & Hdur & Hv2 & Hd2 & _).
  assert (Hvu2 : dj_visited st2 !! Z.to_nat u = Some true).
  { rewrite Hv2. apply list_lookup_insert_eq.
    destruct Hms as (_ & Hvu & _). by eapply lookup_lt_Some. }
  assert (Hdu2 : dj_distances st2 !! Z.to_nat u = Some du) by (by rewrite Hd2).
  assert (HR0 : R u du 0 st2) by exact (Hmark st u du st2 Hinv Hlev HP Hu Hms Hinv2 Hlev2).
  destruct (Hnb u du (Z.to_nat N) 0 st2 st1 ltac:(lia) ltac:(lia) Hu Hinv2 Hlev2 Hvu2
              Hdu2 Hdur HR0 Hn) as (HR & Hinv1 & Hlev1).
  apply IH; try done. eapply Hend; [exact Hinv1|].
  replace N with (0 + Z.of_nat (Z.to_nat N)) at 1 by lia. exact HR.
Qed.

Lemma dijkstra_rule rng p N cidx st start (P : dij_state → Prop)
    (R : Z → Z → Z → dij_state → Prop) :
  0 <= N < 64 → dij_wf (2 ^ N) st → qlist (dj_queue st) = [] →
  0 <= start < 2 ^ N →
  dj_visited st !! Z.to_nat start = Some false →
  dj_distances st !! Z.to_nat start = Some 0 →
  (∀ x, 0 <= x < 2 ^ N → x ≠ start → dj_visited st !! Z.to_nat x = Some false →
        dj_distances st !! Z.to_nat x = Some ULONG_MAX) →
  dj_number_visited st = 0 →
  (∀ s u du s2,
     dij_inv (2 ^ N) cidx st s → (∃ d, dij_level s d) → P s →
     0 <= u < 2 ^ N → dij_mark_step u du s s2 →
     dij_inv (2 ^ N) cidx st s2 → dij_level s2 du → R u du 0 s2) →
  (∀ u du i s s1,
     0 <= i < N → 0 <= u < 2 ^ N →
     dij_inv (2 ^ N) cidx st s → dij_level s du →
     dj_visited s !! Z.to_nat u = Some true →
     dj_distances s !! Z.to_nat u = Some du → 0 <= du < ULONG_MAX →
     R u du i s → dij_edge_step rng p u du i s s1 → R u du (i + 1) s1) →
  (∀ u du s, dij_inv (2 ^ N) cidx st s → R u du N s → P s) →
  (∀ s1, qlist (dj_queue s1) = [start] → dj_visited s1 = dj_visited st →
         dj_distances s1 = dj_distances st →
         dj_number_visited s1 = dj_number_visited st → P s1) →
  ∀ st', dijkstra rng p N st start cidx = Done st' → P st'.
Proof.
  intros HN Hwf Hnil Hstart Hvs Hds Hinf Hnv Hmark Hedge Hend Hinit st'.
  unfold dijkstra.
  pose proof Hwf as (Hq & Hcap & Hlv & Hld & Hll & Hrange).
  pose proof (pow2_le_modulus N HN) as [Hp0 Hp1]. pose proof ULONG_MAX_eq.
  assert (Hcount : queue_writeIdx (dj_queue st) - queue_readIdx (dj_queue st)
                   < queue_length (dj_queue st)).
  { rewrite <- qlist_length by done. rewrite Hnil. simpl. lia. }
  destruct (enqueue_ok (dj_queue st) start 0 Hq Hcount) as (q1 & Hen & Hq1 & Hcap1 & Hql).
  rewrite Hen. rewrite Hnil in Hql. simpl in Hql.
  set (st1 := mk_dij q1 (dj_visited st) (dj_distances st) (dj_number_visited st)
                (dj_labels st) 0 (dj_pos st)).
  assert (Hinv1 : dij_inv (2 ^ N) cidx st st1).
  { unfold dij_inv, dij_wf, st1. simpl. rewrite Hql.
    split_ands; try done; try lia; try (intros; congruence).
    - by apply Forall_singleton.
    - apply NoDup_singleton.
    - intros x Hx. by apply list_elem_of_singleton in Hx as ->.
    - intros x Hx Hxv Hxn. apply Hinf; try done. intros ->. apply Hxn.
      by apply list_elem_of_singleton.
    - intros x Hx. apply list_elem_of_singleton in Hx as ->. exists 0. split; [done|lia]. }
  assert (Hlev1 : ∃ d, dij_level st1 d).
  { exists 0, [start], []. unfold st1. simpl. rewrite Hql.
    split_ands; try done. by apply Forall_singleton. }
  apply (dijkstra_loop_rule rng p N cidx st P R HN Hmark Hedge Hend); try done.
  by apply Hinit.
Qed.

(** ** Hamming weights *)

Lemma bits_set_flip (k : nat) (x j : Z) :
  0 <= j →
  bits_set k (Z.lxor x (Z.shiftl 1 j))
  = bits_set k x
    + (if j <? Z.of_nat k then (if Z.testbit x j then -1 else 1) else 0).
Proof.
  intros Hj. induction k as [|k IH]; simpl bits_set.
  { destruct (Z.ltb_spec j (Z.of_nat 0)); [lia|]. lia. }
  rewrite IH. rewrite Z.shiftl_1_l, Z.lxor_spec, Z.pow2_bits_eqb by lia.
  destruct (Z.eqb_spec j (Z.of_nat k)) as [->|Hne].
  - destruct (Z.ltb_spec (Z.of_nat k) (Z.of_nat k)); [lia|].
    destruct (Z.ltb_spec (Z.of_nat k) (Z.of_nat (S k))); [|lia].
    destruct (Z.testbit x (Z.of_nat k)); simpl; lia.
  - rewrite Bool.xorb_false_r.
    destruct (Z.ltb_spec j (Z.of_nat k)); destruct (Z.ltb_spec j (Z.of_nat (S k)));
      try lia.
Qed.

Lemma bits_set_range (k : nat) (x : Z) : 0 <= bits_set k x <= Z.of_nat k.
Proof. induction k as [|k IH]; simpl bits_set; [lia|]. destruct (Z.testbit _ _); lia. Qed.

Lemma bits_set_zero (k : nat) : bits_set k 0 = 0.
Proof. induction k as [|k IH]; simpl; [done|]. rewrite IH, Z.testbit_0_l. done. Qed.

Lemma lxor_swap (x s i : Z) :
  Z.lxor (Z.lxor x (Z.shiftl 1 i)) s = Z.lxor (Z.lxor x s) (Z.shiftl 1 i).
Proof. rewrite !Z.lxor_assoc. f_equal. apply Z.lxor_comm. Qed.

Lemma hamming_step (N x s i k d : Z) :
  0 <= i < N → 0 <= k → d = hamming N (Z.lxor x s) + 2 * k →
  ∃ k', 0 <= k' ∧ d + 1 = hamming N (Z.lxor (Z.lxor x (Z.shiftl 1 i)) s) + 2 * k'.
Proof.
  intros Hi Hk ->. unfold hamming. rewrite lxor_swap, bits_set_flip by lia.
  destruct (Z.ltb_spec i (Z.of_nat (Z.to_nat N))); [|lia].
  destruct (Z.testbit _ i); [exists (k + 1)|exists k]; lia.
Qed.

(** ** dijkstra: the distances of a cluster *)

Lemma new_mark_insert (v0 V : list bool) (u x : Z) :
  new_mark v0 V x → new_mark v0 (<[Z.to_nat u := true]> V) x.
Proof.
  intros (Hx & H0 & HV). unfold new_mark. split_ands; try done.
  by apply insert_true_keeps.
Qed.

Lemma new_mark_insert_inv (v0 V : list bool) (u x : Z) :
  0 <= u → new_mark v0 (<[Z.to_nat u := true]> V) x → x = u ∨ new_mark v0 V x.
Proof.
  intros Hu (Hx & H0 & HV). destruct (decide (x = u)) as [->|Hne]; [by left|right].
  unfold new_mark. split_ands; try done.
  rewrite list_lookup_insert_ne in HV by lia. done.
Qed.

Lemma dijkstra_dist_inv rng p N cidx st start st' :
  0 <= N < 64 → dij_wf (2 ^ N) st → qlist (dj_queue st) = [] →
  0 <= start < 2 ^ N →
  dj_visited st !! Z.to_nat start = Some false →
  dj_distances st !! Z.to_nat start = Some 0 →
  (∀ x, 0 <= x < 2 ^ N → x ≠ start → dj_visited st !! Z.to_nat x = Some false →
        dj_distances st !! Z.to_nat x = Some ULONG_MAX) →
  dj_number_visited st = 0 →
  dijkstra rng p N st start cidx = Done st' →
  dij_dist_inv N st start st'.
Proof.
  intros HN Hwf Hnil Hstart Hvs Hds Hinf Hnv.
  pose proof Hwf as (_ & _ & Hlv0 & _).
  apply (dijkstra_rule rng p N cidx st start (dij_dist_inv N st start)
           (λ u _ _ s, dij_dist_inv N st start s ∧
                       new_mark (dj_visited st) (dj_visited s) u));
    try done.
  - (* a site is taken off the queue and marked *)
    intros s u du s2 Hinv _ (H0 & Hcov & Hall) Hu
      (Hql & Hvu & Hdu & Hdur & Hv2 & Hd2 & Hn2) _ _.
    destruct Hinv as (_ & Hmono & _).
    assert (Hnew : new_mark (dj_visited st) (dj_visited s2) u).
    { unfold new_mark. split_ands; [lia| |].
      - destruct (site_index_Z _ _ _ Hlv0 Hu) as [[] Hb]; [|done].
        apply Hmono in Hb. congruence.
      - rewrite Hv2. apply list_lookup_insert_eq. by eapply lookup_lt_Some. }
    assert (Hback : ∀ x, x ∈ qlist (dj_queue s2) ∨
                         new_mark (dj_visited st) (dj_visited s2) x →
              x ∈ qlist (dj_queue s) ∨ new_mark (dj_visited st) (dj_visited s) x).
    { intros x [Hx|Hx]; [left; rewrite Hql; by right|].
      rewrite Hv2 in Hx.
      destruct (new_mark_insert_inv _ _ _ _ (proj1 Hu) Hx) as [->|Hx']; [|by right].
      left. rewrite Hql. by left. }
    split; [|done]. unfold dij_dist_inv. rewrite Hd2, Hn2. split_ands; [done| |].
    + destruct Hcov as [Hc|Hc].
      * rewrite Hql in Hc. apply elem_of_cons in Hc as [->|Hc]; [by right|by left].
      * right. rewrite Hv2. by apply new_mark_insert.
    + intros x Hx. destruct (Hall x (Hback x Hx)) as (d & k & Hd & Hk & Hh & Hle & _).
      exists d, k. split_ands; try done; lia.
  - (* a neighbour is looked at *)
    intros u du i s s1 Hi Hu Hinv _ Hvu Hdu Hdur [(H0 & Hcov & Hall) Hnew]
      (Hv1 & Hn1 & Hstep).
    pose proof Hinv as ((_ & _ & _ & _ & _ & Hrange) & _).
    unfold sites_in_range in Hrange. rewrite Forall_forall in Hrange.
    rewrite Hv1. split; [|done].
    destruct Hstep as [(Hd1 & Hq1 & _)|(_ & Hvv & Hvq & Hdv & Hd1 & Hq1)].
    { unfold dij_dist_inv. rewrite Hd1, Hq1, Hn1, Hv1. done. }
    set (v := Z.lxor u (Z.shiftl 1 i)) in *.
    assert (Hvr : 0 <= v < 2 ^ N) by (apply lxor_bit_range; lia).
    assert (Hne : ∀ x, x ∈ qlist (dj_queue s) ∨
                       new_mark (dj_visited st) (dj_visited s) x →
              Z.to_nat x ≠ Z.to_nat v).
    { intros x [Hx|(Hx & _ & HxV)] E.
      - specialize (Hrange x Hx). assert (x = v) by lia. by subst x.
      - assert (x = v) by lia. subst x. congruence. }
    unfold dij_dist_inv. rewrite Hd1, Hq1, Hn1, Hv1. split_ands.
    + rewrite list_lookup_insert_ne; [done|]. intros E. by apply (Hne start Hcov).
    + destruct Hcov as [Hc|Hc]; [left; apply elem_of_app; by left|by right].
    + intros x Hx.
      assert (Hx' : x = v ∨ x ∈ qlist (dj_queue s) ∨
                    new_mark (dj_visited st) (dj_visited s) x).
      { destruct Hx as [Hx|Hx]; [|right; by right].
        apply elem_of_app in Hx as [Hx|Hx]; [right; by left|].
        apply list_elem_of_singleton in Hx. by left. }
      destruct Hx' as [->|Hx'].
      * destruct (Hall u (or_intror Hnew)) as (d & k & Hd & Hk & Hh & _ & Hlt).
        assert (d = du) as -> by congruence.
        destruct (hamming_step N u start i k du Hi Hk Hh) as (k' & Hk' & Hh').
        exists (du + 1), k'. split_ands; try done.
        -- apply list_lookup_insert_eq.
           pose proof Hinv as ((_ & _ & _ & Hld & _) & _). lia.
        -- specialize (Hlt Hnew). lia.
        -- intros (_ & _ & HvV). congruence.
      * destruct (Hall x Hx') as (d & k & Hd & Hk & Hh & Hle & Hlt).
        exists d, k. split_ands; try done.
        rewrite list_lookup_insert_ne; [done|]. intros E. by apply (Hne x Hx').
  - by intros u du s _ [? _].
  - (* the start *)
    intros s1 Hq1 Hv1 Hd1 Hn1. unfold dij_dist_inv. rewrite Hq1, Hv1, Hd1, Hn1.
    split_ands; [done|left; by apply list_elem_of_singleton|].
    intros x [Hx|(_ & Hx0 & HxV)]; [|congruence].
    apply list_elem_of_singleton in Hx as ->.
    exists 0, 0. split_ands; try done; try lia.
    + unfold hamming. rewrite Z.lxor_nilpotent, bits_set_zero. lia.
    + intros (_ & Hx0 & HxV). congruence.
Qed.

(** ** The array of distances *)

Lemma length_kept_distances keep d k i :
  base.length (kept_distances keep d k i) = kept keep k i.
Proof.
  revert i. induction k as [|k IH]; intros i; simpl; [done|].
  destruct (keep i); simpl; by rewrite IH.
Qed.

Lemma kept_distances_Forall (P : Z → Prop) keep d k i :
  (∀ j, i <= j < i + Z.of_nat k → keep j = true → P (d !!! Z.to_nat j)) →
  Forall P (kept_distances keep d k i).
Proof.
  revert i. induction k as [|k IH]; intros i H; simpl; [by apply Forall_nil|].
  assert (Hrest : Forall P (kept_distances keep d k (i + 1))).
  { apply IH. intros j Hj. apply H. lia. }
  destruct (keep i) eqn:Hk; [|done].
  apply Forall_cons. split; [|done]. apply H; [lia|done].
Qed.

Lemma copy_distances_eq keep d k i out c :
  0 <= i → 0 <= c →
  (∀ j, i <= j < i + Z.of_nat k → keep j = true → is_Some (d !! Z.to_nat j)) →
  c + Z.of_nat (kept keep k i) <= Z.of_nat (base.length out) →
  Z.of_nat (base.length out) < ul_modulus →
  copy_distances keep d k i out c
  = Some (take (Z.to_nat c) out ++ kept_distances keep d k i
          ++ drop (Z.to_nat c + kept keep k i) out).
Proof.
  revert i out c. induction k as [|k IH]; intros i out c Hi Hc Hd Hlen Hmod; simpl.
  { by rewrite Nat.add_0_r, take_drop. }
  simpl in Hlen. destruct (keep i) eqn:Hk.
  - destruct (Hd i ltac:(lia) Hk) as [x Hx]. rewrite Hx.
    destruct (Nat.ltb_spec (Z.to_nat c) (base.length out)); [|lia].
    rewrite wrap_small by lia.
    rewrite IH; try lia.
    + f_equal.
      replace (Z.to_nat (c + 1)) with (S (Z.to_nat c)) by lia.
      rewrite (take_S_r _ _ x) by (apply list_lookup_insert_eq; lia).
      rewrite take_insert_ge by lia.
      rewrite drop_insert_lt by lia.
      rewrite (list_lookup_total_correct _ _ _ Hx).
      replace (Z.to_nat c + (1 + kept keep k (i + 1)))%nat
        with (S (Z.to_nat c) + kept keep k (i + 1))%nat by lia.
      by rewrite <- app_assoc.
    + intros j Hj. apply Hd. lia.
    + rewrite length_insert. lia.
    + rewrite length_insert. lia.
  - rewrite IH; try lia; [done|]. intros j Hj. apply Hd. lia.
Qed.

Lemma new_mark_start (n : nat) (V : list bool) (x : Z) :
  0 <= x → (Z.to_nat x < n)%nat → V !! Z.to_nat x = Some true →
  new_mark (replicate n false) V x.
Proof.
  intros Hx Hn HV. unfold new_mark. split_ands; try done.
  apply lookup_replicate. done.
Qed.

Lemma dijkstra_start_dist rng p N st :
  0 <= N < 64 → hypercube_dijkstra_run rng p N = Done st →
  dij_dist_inv N (dijkstra_start N) 0 st.
Proof.
  intros HN. unfold hypercube_dijkstra_run.
  pose proof (pow2_le_modulus N HN) as [Hp0 Hp1].
  destruct (setup_queue_wf (2 ^ N) ltac:(lia)) as [Hqwf Hqnil].
  apply dijkstra_dist_inv; try done; try lia;
    unfold dijkstra_start; rewrite intpower_2 by done;
    unfold dij_wf, dij_init, reset_visited; simpl.
  - rewrite length_insert, !length_replicate, Hqnil.
    split_ands; try done. by apply Forall_nil.
  - apply lookup_replicate. split; [done|lia].
  - apply list_lookup_insert_eq. rewrite length_replicate. lia.
  - intros x Hx Hne _. rewrite list_lookup_insert_ne by lia.
    apply lookup_replicate. split; [done|lia].
Qed.

Lemma hypercube_dijkstra_out rng p N st :
  check_args N 1 p = true → hypercube_dijkstra_run rng p N = Done st →
  hypercube_dijkstra rng p N
  = Done (Some (kept_distances (λ i, default false (dj_visited st !! Z.to_nat i))
                  (dj_distances st) (Z.to_nat (2 ^ N)) 0)) ∧
  kept (λ i, default false (dj_visited st !! Z.to_nat i)) (Z.to_nat (2 ^ N)) 0
  = marked (dj_visited st) ∧
  dj_number_visited st = Z.of_nat (marked (dj_visited st)) ∧
  dj_visited st !! Z.to_nat 0 = Some true.
Proof.
  intros Hargs Hr. pose proof (check_args_range _ _ _ Hargs) as HN.
  pose proof (dijkstra_start_spec rng p N HN) as Hrun.
  unfold hypercube_dijkstra. rewrite Hargs. simpl. rewrite Hr in *.
  destruct Hrun as (Hinv & Hnil & H0).
  pose proof Hinv as (Hwf & _ & Hnv & Hcnt & _).
  destruct Hwf as (_ & _ & Hlv & Hld & _).
  assert (Hm0 : marked (dj_visited (dijkstra_start N)) = 0%nat).
  { unfold dijkstra_start, dij_init, reset_visited. simpl.
    apply marked_replicate_false. }
  rewrite Hm0 in Hcnt. simpl in Hcnt.
  assert (Hnveq : dj_number_visited st = Z.of_nat (marked (dj_visited st))) by lia.
  pose proof (pow2_le_modulus N HN) as [Hp0 Hp1]. pose proof ULONG_MAX_eq.
  pose proof (marked_le (dj_visited st)) as Hmle.
  rewrite intpower_2 by done.
  set (keep := λ i, default false (dj_visited st !! Z.to_nat i)).
  assert (Hk : kept keep (Z.to_nat (2 ^ N)) 0 = marked (dj_visited st)).
  { pose proof (kept_marked [] (dj_visited st)) as Hk. simpl in Hk.
    rewrite Hlv in Hk. done. }
  split_ands; try done.
  rewrite copy_distances_eq; try lia.
  - simpl. rewrite Hk.
    rewrite drop_ge by (rewrite length_replicate; lia). by rewrite app_nil_r.
  - intros j Hj _. apply lookup_lt_is_Some. lia.
  - rewrite length_replicate. lia.
  - rewrite length_replicate. lia.
Qed.

(** X8: for arguments that [check_args] accepts, [hypercube_dijkstra] returns
    an array: the distances of the sites that [dijkstra] has marked, in the
    order of the sites.  Its first entry is 0, the distance of site 0; every
    entry is below the length of the array and not negative; and the
    distance of a marked site is its Hamming weight plus an even number. *)
Theorem hypercube_dijkstra_distances rng p N :
  check_args N 1 p = true →
  ∃ st out,
    hypercube_dijkstra_run rng p N = Done st ∧
    hypercube_dijkstra rng p N = Done (Some out) ∧
    out = kept_distances (λ i, default false (dj_visited st !! Z.to_nat i))
            (dj_distances st) (Z.to_nat (2 ^ N)) 0 ∧
    out !! 0%nat = Some 0 ∧
    Forall (λ d, 0 <= d < Z.of_nat (base.length out)) out ∧
    ∀ x, 0 <= x < 2 ^ N → dj_visited st !! Z.to_nat x = Some true →
      ∃ d k, dj_distances st !! Z.to_nat x = Some d ∧ 0 <= k ∧
             d = hamming N x + 2 * k.
Proof.
  intros Hargs. pose proof (check_args_range _ _ _ Hargs) as HN.
  pose proof (dijkstra_start_spec rng p N HN) as Hrun.
  destruct (hypercube_dijkstra_run rng p N) as [st| | |] eqn:Hr; try done.
  clear Hrun.
  destruct (hypercube_dijkstra_out rng p N st Hargs Hr) as (Hout & Hk & Hnv & H0).
  pose proof (dijkstra_start_dist rng p N st HN Hr) as (Hd0 & _ & Hall).
  pose proof (pow2_le_modulus N HN) as [Hp0 Hp1].
  set (keep := λ i, default false (dj_visited st !! Z.to_nat i)) in *.
  assert (Hfacts : ∀ x, 0 <= x < 2 ^ N → dj_visited st !! Z.to_nat x = Some true →
            ∃ d k, dj_distances st !! Z.to_nat x = Some d ∧ 0 <= k ∧
                   d = hamming N x + 2 * k ∧ d < dj_number_visited st).
  { intros x Hx Hv.
    assert (Hnew : new_mark (dj_visited (dijkstra_start N)) (dj_visited st) x).
    { unfold dijkstra_start, dij_init, reset_visited. simpl.
      rewrite intpower_2 by done. apply new_mark_start; [lia|lia|done]. }
    destruct (Hall x (or_intror Hnew)) as (d & k & Hd & Hk' & Hh & _ & Hlt).
    rewrite Z.lxor_0_r in Hh. exists d, k. split_ands; try done. by apply Hlt. }
  exists st, (kept_distances keep (dj_distances st) (Z.to_nat (2 ^ N)) 0).
  split_ands; try done.
  - destruct (Z.to_nat (2 ^ N)) as [|k] eqn:Hn; [lia|]. simpl.
    assert (Hk0 : keep 0 = true) by (unfold keep; by rewrite H0).
    rewrite Hk0. simpl. f_equal. by apply list_lookup_total_correct.
  - rewrite length_kept_distances, Hk. apply kept_distances_Forall.
    intros j Hj Hkj.
    assert (Hv : dj_visited st !! Z.to_nat j = Some true).
    { unfold keep in Hkj. destruct (dj_visited st !! Z.to_nat j) as [[]|]; done. }
    destruct (Hfacts j ltac:(lia) Hv) as (d & k & Hd & Hk' & Hh & Hlt).
    rewrite (list_lookup_total_correct _ _ _ Hd).
    pose proof (bits_set_range (Z.to_nat N) j). unfold hamming in Hh. lia.
  - intros x Hx Hv. destruct (Hfacts x Hx Hv) as (d & k & ? & ? & ? & _).
    by exists d, k.
Qed.

Lemma hypercube_dijkstra_distances_witness :
  ∃ out, hypercube_dijkstra alternating (1 # 2) 3 = Done (Some out) ∧
         out !! 0%nat = Some 0 ∧
         Forall (λ d, 0 <= d < Z.of_nat (base.length out)) out.
Proof.
  destruct (hypercube_dijkstra_distances alternating (1 # 2) 3 eq_refl)
    as (st & out & _ & Ho & _ & H0 & Hall & _).
  exists out. split; [exact Ho|]. split; [exact H0|exact Hall].
Defined.

(** ** dijkstra at [p = 1] *)

Lemma dijkstra_near rng N cidx st start st' :
  uniform_range rng →
  0 <= N < 64 → dij_wf (2 ^ N) st → qlist (dj_queue st) = [] →
  0 <= start < 2 ^ N →
  (∀ j, dj_visited st !! j ≠ Some true) →
  dj_distances st !! Z.to_nat start = Some 0 →
  (∀ x, 0 <= x < 2 ^ N → x ≠ start → dj_visited st !! Z.to_nat x = Some false →
        dj_distances st !! Z.to_nat x = Some ULONG_MAX) →
  dj_number_visited st = 0 →
  dijkstra rng 1 N st start cidx = Done st' →
  dij_near_inv N st'.
Proof.
  intros Hrng HN Hwf Hnil Hstart Hfresh Hds Hinf Hnv.
  pose proof Hwf as (_ & _ & Hlv0 & _).
  assert (Hvs : dj_visited st !! Z.to_nat start = Some false).
  { destruct (site_index_Z _ _ _ Hlv0 Hstart) as [[] Hb]; [|done]. by apply Hfresh in Hb. }
  apply (dijkstra_rule rng 1 N cidx st start (dij_near_inv N) (dij_near_scan N));
    try done.
  - (* a site is taken off the queue and marked *)
    intros s u du s2 Hinv _ (Hord & Hnear) Hu
      (Hql & Hvu & Hdu & Hdur & Hv2 & Hd2 & Hn2) _ Hlev2.
    assert (Hvis : ∀ x, 0 <= x → dj_visited s2 !! Z.to_nat x = Some true →
              x = u ∨ dj_visited s !! Z.to_nat x = Some true).
    { intros x Hx Hv. rewrite Hv2 in Hv.
      destruct (decide (x = u)) as [->|Hne]; [by left|right].
      rewrite list_lookup_insert_ne in Hv by lia. done. }
    unfold dij_near_scan. rewrite Hd2. split_ands.
    + intros x dx Hx Hv Hdx. destruct (Hvis x Hx Hv) as [->|Hv'].
      * assert (dx = du) by congruence. lia.
      * apply (Hord x u dx du); try done. rewrite Hql. by left.
    + intros y dy Hy Hdy. destruct Hlev2 as (A & B & HAB & HA & HB).
      rewrite HAB in Hy. rewrite Hd2 in HA, HB.
      apply elem_of_app in Hy as [Hy|Hy].
      * rewrite Forall_forall in HA. specialize (HA y Hy). assert (dy = du) by congruence. lia.
      * rewrite Forall_forall in HB. specialize (HB y Hy).
        assert (dy = du + 1) by congruence. lia.
    + intros u' i' du' Hu' Hi' Hv' Hdu' HP. rewrite Hd2 in Hdu' |- *.
      destruct (Hvis u' ltac:(lia) Hv') as [->|Hv'']; [specialize (HP eq_refl); lia|].
      by apply (Hnear u' i' du').
  - (* a neighbour is looked at *)
    intros u du i s s1 Hi Hu Hinv Hlev Hvu Hdu Hdur (Hmax & Hmin & Hnear)
      (Hv1 & Hn1 & Hstep).
    pose proof Hinv as ((_ & _ & Hlv & Hld & _ & Hrange) & _).
    set (v := Z.lxor u (Z.shiftl 1 i)) in *.
    assert (Hvr : 0 <= v < 2 ^ N) by (apply lxor_bit_range; lia).
    unfold dij_near_scan. rewrite Hv1.
    destruct Hstep as [(Hd1 & Hq1 & Hwhy)|(_ & Hvv & Hvq & Hdv & Hd1 & Hq1)].
    + rewrite Hd1, Hq1. split_ands; try done.
      intros u' i' du' Hu' Hi' Hv' Hdu' HP. rewrite Hd1 in *. rewrite Hv1 in Hv'.
      destruct (decide (u' = u ∧ i' = i)) as [[-> ->]|Hne].
      * assert (du' = du) as -> by congruence. fold v.
        destruct Hwhy as [Hvt|[Hdraw|(old & Hold & Hle)]].
        -- destruct (site_index_Z _ _ _ Hld Hvr) as [dv Hdv]. exists dv. split; [done|].
           specialize (Hmax v dv ltac:(lia) Hvt Hdv). lia.
        -- rewrite Qltb_one in Hdraw by apply Hrng. done.
        -- by exists old.
      * apply (Hnear u' i' du'); try done. intros E. specialize (HP E).
        assert (i' ≠ i) by (intros ->; by apply Hne). lia.
    + rewrite Hd1, Hq1.
      assert (Hkeep : ∀ x dx, 0 <= x → dj_visited s !! Z.to_nat x = Some true →
                <[Z.to_nat v:=du + 1]> (dj_distances s) !! Z.to_nat x = Some dx →
                dj_distances s !! Z.to_nat x = Some dx).
      { intros x dx Hx Hv Hdx. rewrite list_lookup_insert_ne in Hdx; [done|].
        intros E. assert (x = v) by lia. subst x. congruence. }
      split_ands.
      * intros x dx Hx Hv Hdx. apply (Hmax x dx); try done. by apply Hkeep.
      * intros y dy Hy Hdy. apply elem_of_app in Hy as [Hy|Hy].
        -- apply (Hmin y dy Hy). rewrite list_lookup_insert_ne in Hdy; [done|].
           intros E. unfold sites_in_range in Hrange. rewrite Forall_forall in Hrange.
           specialize (Hrange y Hy). assert (y = v) by lia. by subst y.
        -- apply list_elem_of_singleton in Hy as ->.
           rewrite list_lookup_insert_eq in Hdy by lia. injection Hdy as <-. lia.
      * intros u' i' du' Hu' Hi' Hv' Hdu' HP. rewrite Hd1 in Hdu' |- *.
        rewrite Hv1 in Hv'. apply Hkeep in Hdu'; [|lia|done].
        destruct (decide (Z.lxor u' (Z.shiftl 1 i') = v)) as [E|Hne].
        -- rewrite E. exists (du + 1). split; [apply list_lookup_insert_eq; lia|].
           destruct (decide (u' = u ∧ i' = i)) as [[-> ->]|Hne'].
           ++ assert (du' = du) by congruence. lia.
           ++ destruct (Hnear u' i' du' Hu' Hi' Hv' Hdu') as (dv & Hdv' & Hle).
              { intros E'. specialize (HP E'). subst u'.
                assert (i' ≠ i) by (intros ->; by apply Hne'). lia. }
              rewrite E, Hdv in Hdv'. injection Hdv' as <-. lia.
        -- assert (Hvr' : 0 <= Z.lxor u' (Z.shiftl 1 i') < 2 ^ N)
             by (apply lxor_bit_range; lia).
           rewrite list_lookup_insert_ne by lia.
           apply (Hnear u' i' du'); try done. intros E'. specialize (HP E'). subst u'.
           assert (i' ≠ i) by (intros ->; by apply Hne). lia.
  - (* the bits of a site are done *)
    intros u du s Hinv (Hmax & Hmin & Hnear). split.
    + intros x y dx dy Hx Hv Hy Hdx Hdy.
      specialize (Hmax x dx Hx Hv Hdx). specialize (Hmin y dy Hy Hdy). lia.
    + intros u' i' du' Hu' Hi' Hv' Hdu' _. apply (Hnear u' i' du'); try done.
      intros _. lia.
  - (* the start *)
    intros s1 Hq1 Hv1 Hd1 Hn1. split.
    + intros x y dx dy Hx Hv. rewrite Hv1 in Hv. by apply Hfresh in Hv.
    + intros u i du Hu Hi Hv. rewrite Hv1 in Hv. by apply Hfresh in Hv.
Qed.

Lemma dijkstra_start_near rng N st :
  uniform_range rng → 0 <= N < 64 → hypercube_dijkstra_run rng 1 N = Done st →
  dij_near_inv N st.
Proof.
  intros Hrng HN. unfold hypercube_dijkstra_run.
  pose proof (pow2_le_modulus N HN) as [Hp0 Hp1].
  destruct (setup_queue_wf (2 ^ N) ltac:(lia)) as [Hqwf Hqnil].
  apply dijkstra_near; try done; try lia;
    unfold dijkstra_start; rewrite intpower_2 by done;
    unfold dij_wf, dij_init, reset_visited; simpl.
  - rewrite length_insert, !length_replicate, Hqnil.
    split_ands; try done. by apply Forall_nil.
  - intros j Hj. apply lookup_replicate in Hj as [? _]. done.
  - apply list_lookup_insert_eq. rewrite length_replicate. lia.
  - intros x Hx Hne _. rewrite list_lookup_insert_ne by lia.
    apply lookup_replicate. split; [done|lia].
Qed.

Lemma bits_set_bit (k : nat) (x : Z) :
  0 < bits_set k x → ∃ i, 0 <= i < Z.of_nat k ∧ Z.testbit x i = true.
Proof.
  induction k as [|k IH]; simpl bits_set; [lia|].
  destruct (Z.testbit x (Z.of_nat k)) eqn:Hb.
  - intros _. exists (Z.of_nat k). split; [lia|done].
  - intros H. destruct IH as (i & Hi & Hbi); [lia|]. exists i. split; [lia|done].
Qed.

Lemma hamming_zero (N x : Z) : 0 <= N → 0 <= x < 2 ^ N → hamming N x = 0 → x = 0.
Proof.
  intros HN Hx Hh. apply Z.bits_inj'. intros i Hi. rewrite Z.testbit_0_l.
  destruct (Z.lt_ge_cases i N) as [Hlt|Hge]; [|by apply (testbit_above N)].
  destruct (Z.testbit x i) eqn:Hb; [|done]. exfalso.
  unfold hamming in Hh.
  assert (Hall : ∀ k : nat, bits_set k x <= bits_set (Z.to_nat N) x →
            (Z.of_nat k <= N) → i < Z.of_nat k → 1 <= bits_set k x).
  { induction k as [|k IH]; intros _ Hk Hik; [lia|]. simpl bits_set.
    pose proof (bits_set_range k x).
    destruct (Z.eq_dec i (Z.of_nat k)) as [->|Hne].
    - rewrite Hb. lia.
    - destruct (Z.testbit x (Z.of_nat k)); lia. }
  specialize (Hall (Z.to_nat N) ltac:(lia) ltac:(lia) ltac:(lia)). lia.
Qed.

Lemma kept_distances_all (f : Z → Z) keep d k i :
  (∀ j, i <= j < i + Z.of_nat k → keep j = true ∧ d !!! Z.to_nat j = f j) →
  kept_distances keep d k i = map f (seqZ i (Z.of_nat k)).
Proof.
  revert i. induction k as [|k IH]; intros i H; [done|].
  rewrite seqZ_cons by lia. simpl kept_distances.
  destruct (H i ltac:(lia)) as [-> ->]. simpl. f_equal.
  replace (Z.pred (Z.of_nat (S k))) with (Z.of_nat k) by lia.
  replace (Z.succ i) with (i + 1) by lia.
  apply IH. intros j Hj. apply H. lia.
Qed.

Lemma lxor_range (N x s : Z) :
  0 <= N → 0 <= x < 2 ^ N → 0 <= s < 2 ^ N → 0 <= Z.lxor x s < 2 ^ N.
Proof.
  intros HN Hx Hs.
  assert (H0 : 0 <= Z.lxor x s) by (apply Z.lxor_nonneg; lia).
  split; [done|].
  destruct (Z.eq_dec (Z.lxor x s) 0) as [->|Hne]; [lia|].
  apply Z.log2_lt_pow2; [lia|].
  pose proof (Z.log2_lxor x s ltac:(lia) ltac:(lia)) as Hl.
  pose proof (Z.log2_nonneg x). pose proof (Z.log2_nonneg s).
  destruct (Z.eq_dec x 0) as [->|Hx0], (Z.eq_dec s 0) as [->|Hs0].
  - by rewrite Z.lxor_0_l in Hne.
  - assert (Z.log2 s < N) by (apply Z.log2_lt_pow2; lia).
    change (Z.log2 0) with 0 in Hl. lia.
  - assert (Z.log2 x < N) by (apply Z.log2_lt_pow2; lia).
    change (Z.log2 0) with 0 in Hl. lia.
  - assert (Z.log2 x < N) by (apply Z.log2_lt_pow2; lia).
    assert (Z.log2 s < N) by (apply Z.log2_lt_pow2; lia). lia.
Qed.

(** With [p = 1] and no mark on entry, [dijkstra] marks every site and puts
    it at its Hamming distance to the start. *)
Lemma dijkstra_full rng N cidx st start st' :
  uniform_range rng →
  0 <= N < 64 → dij_wf (2 ^ N) st → qlist (dj_queue st) = [] →
  0 <= start < 2 ^ N →
  (∀ j, dj_visited st !! j ≠ Some true) →
  dj_distances st !! Z.to_nat start = Some 0 →
  (∀ x, 0 <= x < 2 ^ N → x ≠ start → dj_visited st !! Z.to_nat x = Some false →
        dj_distances st !! Z.to_nat x = Some ULONG_MAX) →
  dj_number_visited st = 0 →
  dijkstra rng 1 N st start cidx = Done st' →
  ∀ x, 0 <= x < 2 ^ N →
    dj_visited st' !! Z.to_nat x = Some true ∧
    dj_distances st' !! Z.to_nat x = Some (hamming N (Z.lxor x start)).
Proof.
  intros Hrng HN Hwf Hnil Hstart Hfresh Hds Hinf Hnv Hrun.
  pose proof Hwf as (_ & _ & Hlv0 & _).
  assert (Hvs : dj_visited st !! Z.to_nat start = Some false).
  { destruct (site_index_Z _ _ _ Hlv0 Hstart) as [[] Hb]; [|done].
    by destruct (Hfresh _ Hb). }
  pose proof (dijkstra_spec rng 1 N cidx st start HN Hwf Hnil Hstart Hvs Hds Hinf Hnv)
    as Hspec.
  rewrite Hrun in Hspec. destruct Hspec as (Hinv & Hnil' & Hstart').
  pose proof (dijkstra_dist_inv rng 1 N cidx st start st' HN Hwf Hnil Hstart Hvs Hds
                Hinf Hnv Hrun) as (Hd0 & _ & Hall).
  pose proof (dijkstra_near rng N cidx st start st' Hrng HN Hwf Hnil Hstart Hfresh Hds
                Hinf Hnv Hrun) as (_ & Hnear).
  pose proof Hinv as ((_ & _ & Hlv & Hld & _) & _ & Hcnt0 & _ & _ & _ & _ & _ & _ &
                      Hun & _).
  pose proof (pow2_le_modulus N HN) as [Hp0 Hp1].
  pose proof (marked_le (dj_visited st')) as Hmle. rewrite Hlv in Hmle.
  assert (Hfacts : ∀ x, 0 <= x < 2 ^ N → dj_visited st' !! Z.to_nat x = Some true →
            ∃ d, dj_distances st' !! Z.to_nat x = Some d ∧
                 hamming N (Z.lxor x start) <= d < 2 ^ N).
  { intros x Hx Hv.
    assert (Hnew : new_mark (dj_visited st) (dj_visited st') x).
    { unfold new_mark. split_ands; [lia| |done].
      destruct (site_index_Z _ _ _ Hlv0 Hx) as [[] Hb]; [|done].
      by destruct (Hfresh _ Hb). }
    destruct (Hall x (or_intror Hnew)) as (d & k & Hd & Hk' & Hh & _ & Hlt).
    exists d. split; [done|]. specialize (Hlt Hnew). lia. }
  assert (Hvis : ∀ x, 0 <= x < 2 ^ N → dj_visited st' !! Z.to_nat x = Some true).
  { apply (hypercube_connected N start); [lia|lia|done|].
    intros u i Hu Hi Hv.
    destruct (Hfacts u Hu Hv) as (du & Hdu & Hdur).
    destruct (Hnear u i du Hu Hi Hv Hdu I) as (dv & Hdv & Hle).
    assert (Hvr : 0 <= Z.lxor u (Z.shiftl 1 i) < 2 ^ N) by (apply lxor_bit_range; lia).
    destruct (site_index_Z _ _ _ Hlv Hvr) as [[] Hb]; [done|]. exfalso.
    specialize (Hun _ Hvr Hb). rewrite Hnil' in Hun.
    specialize (Hun ltac:(apply not_elem_of_nil)). rewrite Hun in Hdv.
    injection Hdv as <-. lia. }
  assert (Hupper : ∀ h : nat, ∀ x, 0 <= x < 2 ^ N →
            hamming N (Z.lxor x start) = Z.of_nat h →
            ∃ d, dj_distances st' !! Z.to_nat x = Some d ∧ d <= Z.of_nat h).
  { induction h as [|h IH]; intros x Hx Hh.
    - assert (Hxr : 0 <= Z.lxor x start < 2 ^ N) by (apply lxor_range; lia).
      apply hamming_zero in Hh; [|lia|done].
      apply Z.lxor_eq in Hh as ->. exists 0. done.
    - destruct (bits_set_bit (Z.to_nat N) (Z.lxor x start)) as (i & Hi & Hb).
      { unfold hamming in Hh. lia. }
      set (y := Z.lxor x (Z.shiftl 1 i)).
      assert (Hy : 0 <= y < 2 ^ N) by (apply lxor_bit_range; lia).
      assert (Hhy : hamming N (Z.lxor y start) = Z.of_nat h).
      { unfold hamming, y. rewrite lxor_swap, bits_set_flip by lia.
        destruct (Z.ltb_spec i (Z.of_nat (Z.to_nat N))); [|lia].
        rewrite Hb. unfold hamming in Hh. lia. }
      destruct (IH y Hy Hhy) as (dy & Hdy & Hle).
      destruct (Hnear y i dy Hy ltac:(lia) (Hvis y Hy) Hdy I) as (dx & Hdx & Hle').
      unfold y in Hdx. rewrite lxor_bit_twice in Hdx.
      exists dx. split; [done|lia]. }
  intros x Hx. split; [by apply Hvis|].
  destruct (Hfacts x Hx (Hvis x Hx)) as (d & Hd & Hlo & _).
  pose proof (bits_set_range (Z.to_nat N) (Z.lxor x start)) as Hr'.
  destruct (Hupper (Z.to_nat (hamming N (Z.lxor x start))) x Hx) as (d' & Hd' & Hhi).
  { unfold hamming. lia. }
  rewrite Hd. f_equal. assert (d' = d) by congruence. unfold hamming in *. lia.
Qed.

Lemma dijkstra_start_entry N :
  0 <= N < 64 →
  dij_wf (2 ^ N) (dijkstra_start N) ∧ qlist (dj_queue (dijkstra_start N)) = [] ∧
  dj_visited (dijkstra_start N) !! Z.to_nat 0 = Some false ∧
  dj_distances (dijkstra_start N) !! Z.to_nat 0 = Some 0 ∧
  (∀ x, 0 <= x < 2 ^ N → x ≠ 0 →
        dj_visited (dijkstra_start N) !! Z.to_nat x = Some false →
        dj_distances (dijkstra_start N) !! Z.to_nat x = Some ULONG_MAX) ∧
  (∀ j, dj_visited (dijkstra_start N) !! j ≠ Some true).
Proof.
  intros HN. pose proof (pow2_le_modulus N HN) as [Hp0 Hp1].
  destruct (setup_queue_wf (2 ^ N) ltac:(lia)) as [Hqwf Hqnil].
  unfold dijkstra_start; rewrite intpower_2 by done.
  unfold dij_wf, dij_init, reset_visited. simpl.
  rewrite length_insert, !length_replicate, Hqnil.
  split_ands; try done.
  - by apply Forall_nil.
  - apply lookup_replicate. split; [done|lia].
  - apply list_lookup_insert_eq. rewrite length_replicate. lia.
  - intros x Hx Hne _. rewrite list_lookup_insert_ne by lia.
    apply lookup_replicate. split; [done|lia].
  - intros j Hj. apply lookup_replicate in Hj as [? _]. done.
Qed.

(** X9: with [p = 1], [hypercube_dijkstra] returns the Hamming weights of
    the sites [0 .. 2^N - 1], in that order, for every dimension below 64 and
    every sequence of variates in [[0,1)]: every site is reached, and its
    distance from site 0 is the number of its bits that are set. *)
Theorem hypercube_dijkstra_p1 rng N :
  uniform_range rng → 0 <= N < 64 →
  hypercube_dijkstra rng 1 N = Done (Some (map (hamming N) (seqZ 0 (2 ^ N)))).
Proof.
  intros Hrng HN.
  assert (Hargs : check_args N 1 1 = true) by (by apply check_args_true).
  pose proof (dijkstra_start_spec rng 1 N HN) as Hrun.
  destruct (hypercube_dijkstra_run rng 1 N) as [st| | |] eqn:Hr; try done.
  destruct (hypercube_dijkstra_out rng 1 N st Hargs Hr) as (Hout & _).
  destruct (dijkstra_start_entry N HN) as (H1 & H2 & H3 & H4 & H5 & H6).
  pose proof (dijkstra_full rng N 0 (dijkstra_start N) 0 st Hrng HN H1 H2 ltac:(lia)
                H6 H4 H5 eq_refl Hr) as Hfull.
  pose proof (pow2_le_modulus N HN) as [Hp0 Hp1].
  rewrite Hout. do 2 f_equal.
  replace (2 ^ N) with (Z.of_nat (Z.to_nat (2 ^ N))) at 2 by lia.
  apply kept_distances_all. intros j Hj.
  destruct (Hfull j ltac:(lia)) as [Hv Hd]. rewrite Hv. split; [done|].
  rewrite (list_lookup_total_correct _ _ _ Hd). by rewrite Z.lxor_0_r.
Qed.

Lemma hypercube_dijkstra_p1_witness :
  hypercube_dijkstra (always 0) 1 3 = Done (Some [0; 1; 1; 2; 1; 2; 2; 3]).
Proof. apply (hypercube_dijkstra_p1 (always 0) 3 uniform_always_zero). lia. Defined.

(** ** dijkstra at [p = 0] *)

Lemma kept_distances_none keep d k i :
  (∀ j, i <= j < i + Z.of_nat k → keep j = false) →
  kept_distances keep d k i = [].
Proof.
  revert i. induction k as [|k IH]; intros i H; [done|].
  simpl. rewrite (H i) by lia. apply IH. intros j Hj. apply H. lia.
Qed.

Lemma dijkstra_alone rng N cidx st start st' :
  uniform_range rng →
  0 <= N < 64 → dij_wf (2 ^ N) st → qlist (dj_queue st) = [] →
  0 <= start < 2 ^ N →
  (∀ j, dj_visited st !! j ≠ Some true) →
  dj_distances st !! Z.to_nat start = Some 0 →
  (∀ x, 0 <= x < 2 ^ N → x ≠ start → dj_visited st !! Z.to_nat x = Some false →
        dj_distances st !! Z.to_nat x = Some ULONG_MAX) →
  dj_number_visited st = 0 →
  dijkstra rng 0 N st start cidx = Done st' →
  ∀ x, 0 <= x → dj_visited st' !! Z.to_nat x = Some true → x = start.
Proof.
  intros Hrng HN Hwf Hnil Hstart Hfresh Hds Hinf Hnv Hrun.
  pose proof Hwf as (_ & _ & Hlv & _).
  assert (Hvs : dj_visited st !! Z.to_nat start = Some false).
  { destruct (site_index_Z _ _ _ Hlv Hstart) as [[] Hb]; [|done].
    by destruct (Hfresh _ Hb). }
  set (P := λ s : dij_state,
         (∀ x, x ∈ qlist (dj_queue s) → x = start) ∧
         (∀ x, 0 <= x → dj_visited s !! Z.to_nat x = Some true → x = start)).
  enough (HP : P st') by apply HP.
  refine (dijkstra_rule rng 0 N cidx st start P (λ _ _ _, P)
            HN Hwf Hnil Hstart Hvs Hds Hinf Hnv _ _ _ _ st' Hrun).
  - intros s u du s2 _ _ [Hq Hv] Hu (Hqs & _ & _ & _ & Hv2 & _) _ _.
    assert (u = start) as -> by (apply Hq; rewrite Hqs; left).
    split.
    + intros x Hx. apply Hq. rewrite Hqs. by right.
    + intros x Hx Hxv. rewrite Hv2 in Hxv.
      destruct (decide (Z.to_nat x = Z.to_nat start)) as [E|E]; [lia|].
      rewrite list_lookup_insert_ne in Hxv by done. by apply Hv.
  - intros u du i s s1 _ _ _ _ _ _ _ [Hq Hv] (Hv1 & _ & Hstep).
    destruct Hstep as [(_ & Hq1 & _)|(Hdraw & _)].
    + split; [by rewrite Hq1|by rewrite Hv1].
    + rewrite Qltb_zero in Hdraw by apply Hrng. done.
  - intros u du s _ HP. exact HP.
  - intros s1 Hq1 Hv1 _ _. split.
    + intros x Hx. rewrite Hq1 in Hx. by apply list_elem_of_singleton in Hx.
    + intros x _ Hx. rewrite Hv1 in Hx. by destruct (Hfresh _ Hx).
Qed.

(** X10: with [p = 0], [hypercube_dijkstra] returns the array of the one
    entry 0, for every dimension below 64 and every sequence of variates in
    [[0,1)]: only site 0 is reached. *)
Theorem hypercube_dijkstra_p0 rng N :
  uniform_range rng → 0 <= N < 64 →
  hypercube_dijkstra rng 0 N = Done (Some [0]).
Proof.
  intros Hrng HN.
  assert (Hargs : check_args N 1 0 = true) by (by apply check_args_true).
  pose proof (dijkstra_start_spec rng 0 N HN) as Hrun.
  destruct (hypercube_dijkstra_run rng 0 N) as [st| | |] eqn:Hr; try done.
  destruct (hypercube_dijkstra_out rng 0 N st Hargs Hr) as (Hout & _ & _ & H0).
  pose proof (dijkstra_start_dist rng 0 N st HN Hr) as (Hd0 & _).
  destruct Hrun as (Hinv & _).
  pose proof Hinv as ((_ & _ & Hlv & _) & _).
  pose proof (pow2_le_modulus N HN) as [Hp0 Hp1].
  assert (Hone : ∀ x, 0 <= x → dj_visited st !! Z.to_nat x = Some true → x = 0).
  { revert Hr. unfold hypercube_dijkstra_run.
    destruct (setup_queue_wf (2 ^ N) ltac:(lia)) as [Hqwf Hqnil].
    apply dijkstra_alone; try done; try lia;
      unfold dijkstra_start; rewrite intpower_2 by done;
      unfold dij_wf, dij_init, reset_visited; simpl.
    - rewrite length_insert, !length_replicate, Hqnil.
      split_ands; try done. by apply Forall_nil.
    - intros j Hj. apply lookup_replicate in Hj as [? _]. done.
    - apply list_lookup_insert_eq. rewrite length_replicate. lia.
    - intros x Hx Hne _. rewrite list_lookup_insert_ne by lia.
      apply lookup_replicate. split; [done|lia]. }
  rewrite Hout. do 2 f_equal.
  destruct (Z.to_nat (2 ^ N)) as [|k] eqn:Hn; [lia|]. simpl.
  rewrite H0. simpl. rewrite (list_lookup_total_correct _ _ _ Hd0). f_equal.
  apply kept_distances_none. intros j Hj.
  destruct (dj_visited st !! Z.to_nat j) as [[]|] eqn:Hb; try done.
  apply Hone in Hb; lia.
Qed.

Lemma hypercube_dijkstra_p0_witness :
  hypercube_dijkstra (always 0) 0 3 = Done (Some [0]).
Proof. apply (hypercube_dijkstra_p0 (always 0) 3 uniform_always_zero). lia. Defined.

(** ** dijkstra: the labels *)

Lemma dijkstra_edge_labels rng p i u st st1 :
  dijkstra_edge rng p i u st = Done st1 → dj_labels st1 = dj_labels st.
Proof.
  unfold dijkstra_edge. intros H.
  repeat case_match; simplify_eq; done.
Qed.

Lemma dijkstra_neighbours_labels rng p k i u st st1 :
  dijkstra_neighbours rng p k i u st = Done st1 → dj_labels st1 = dj_labels st.
Proof.
  revert i st. induction k as [|k IH]; intros i st; simpl.
  { by intros [= <-]. }
  destruct (dijkstra_edge rng p i u st) as [s| | |] eqn:He; try done.
  intros H. rewrite (IH _ _ H). by eapply dijkstra_edge_labels.
Qed.

Lemma dijkstra_body_labels rng p N cidx st st1 :
  dijkstra_body rng p N cidx st = Done st1 →
  is_Some (dj_labels st) → is_Some (dj_labels st1).
Proof.
  unfold dijkstra_body.
  destruct (dequeue _ _) as [[u q'] err']. simpl.
  destruct (negb (err' =? 0)); [done|].
  destruct (dj_distances st !! Z.to_nat u); [|done].
  destruct (negb _); [done|].
  destruct (write_label _ _ _) as [labels'|] eqn:Hw; [|done].
  intros H [l Hl]. apply dijkstra_neighbours_labels in H. simpl in H. rewrite H.
  unfold write_label in Hw. rewrite Hl in Hw.
  destruct (_ <? _)%nat; [|done]. injection Hw as <-. done.
Qed.

Lemma dijkstra_loop_labels rng p N cidx fuel st st1 :
  dijkstra_loop rng p N cidx fuel st = Done st1 →
  is_Some (dj_labels st) → is_Some (dj_labels st1).
Proof.
  revert st. induction fuel as [|fuel IH]; intros st; simpl; [done|].
  destruct (negb (empty (dj_queue st))).
  - destruct (dijkstra_body rng p N cidx st) as [s| | |] eqn:Hb; try done.
    intros H Hl. apply (IH _ H). by eapply dijkstra_body_labels.
  - by intros [= <-].
Qed.

Lemma dijkstra_labels rng p N st start cidx st' :
  dijkstra rng p N st start cidx = Done st' →
  is_Some (dj_labels st) → is_Some (dj_labels st').
Proof.
  unfold dijkstra. destruct (enqueue _ _ _) as [q1 err1].
  intros H Hl. by apply (dijkstra_loop_labels _ _ _ _ _ _ _ H).
Qed.

(** ** Counting the sites that are copied *)

Lemma kept_le keep k i : (kept keep k i ≤ k)%nat.
Proof.
  revert i. induction k as [|k IH]; intros i; simpl; [done|].
  specialize (IH (i + 1)). destruct (keep i); lia.
Qed.

Lemma kept_ext keep keep' k i :
  (∀ j, i <= j < i + Z.of_nat k → keep j = keep' j) →
  kept keep k i = kept keep' k i.
Proof.
  revert i. induction k as [|k IH]; intros i H; simpl; [done|].
  rewrite (H i) by lia. f_equal. apply IH. intros j Hj. apply H. lia.
Qed.

Lemma kept_none keep k i :
  (∀ j, i <= j < i + Z.of_nat k → keep j = false) → kept keep k i = 0%nat.
Proof.
  revert i. induction k as [|k IH]; intros i H; simpl; [done|].
  rewrite (H i) by lia. apply IH. intros j Hj. apply H. lia.
Qed.

Lemma kept_split f g h k i :
  (∀ j, i <= j < i + Z.of_nat k → h j = f j || g j ∧ f j && g j = false) →
  kept h k i = (kept f k i + kept g k i)%nat.
Proof.
  revert i. induction k as [|k IH]; intros i H; simpl; [done|].
  rewrite (IH (i + 1)) by (intros j Hj; apply H; lia).
  destruct (H i ltac:(lia)) as [-> Hd].
  destruct (f i), (g i); simpl in *; try done; lia.
Qed.

Lemma kept_distances_head keep d k i s :
  i <= s < i + Z.of_nat k → keep s = true →
  (∀ j, i <= j < s → keep j = false) →
  kept_distances keep d k i !! 0%nat = Some (d !!! Z.to_nat s).
Proof.
  revert i. induction k as [|k IH]; intros i Hs Hk Hbelow; simpl; [lia|].
  destruct (Z.eq_dec i s) as [->|Hne].
  - by rewrite Hk.
  - rewrite (Hbelow i) by lia. apply IH; [lia|done|]. intros j Hj. apply Hbelow. lia.
Qed.

(** ** hypercube_dijkstra_LC: the cluster of one pass *)

Lemma dijkstra_one_cluster rng p N site cidx e e' sz :
  0 <= N < 64 →
  Inv_D N e → 0 <= site < 2 ^ N → 0 <= cidx < 2 ^ N →
  dj_visited e !! Z.to_nat site = Some false →
  (∀ i, 0 <= i < 2 ^ N → label_is (dj_labels e) cidx i = false) →
  dijkstra_one rng p N site cidx e = Done (e', sz) →
  (∀ i, dj_visited e !! i = Some true → dj_visited e' !! i = Some true) ∧
  dj_visited e' !! Z.to_nat site = Some true ∧
  dj_distances e' !! Z.to_nat site = Some 0 ∧
  (∀ i, 0 <= i < 2 ^ N →
        label_is (dj_labels e') cidx i = true
        ↔ new_mark (dj_visited e) (dj_visited e') i) ∧
  (∀ i, new_mark (dj_visited e) (dj_visited e') i →
        ∃ d, dj_distances e' !! Z.to_nat i = Some d ∧ 0 <= d < sz) ∧
  labelled_count N (dj_labels e') cidx = sz.
Proof.
  intros HN HI Hsite Hcidx Hv Hfresh Hone.
  destruct (dijkstra_one_spec _ _ _ _ _ _ _ _ HN HI Hsite Hcidx Hv Hone)
    as (HI' & Hm & Hsz & _).
  destruct HI as (Hwf & Hnil & Hun).
  pose proof Hwf as (Hq & Hcap & Hlv & Hld & Hll & Hrange).
  pose proof (pow2_le_modulus N HN) as [Hp0 Hp1].
  revert Hone. unfold dijkstra_one.
  destruct (Nat.ltb_spec (Z.to_nat site) (base.length (dj_distances e))); [|lia].
  simpl.
  set (st0 := mk_dij (dj_queue e) (dj_visited e)
                (<[Z.to_nat site := 0]> (dj_distances e)) 0 (dj_labels e) 0 (dj_pos e)).
  assert (H1 : dij_wf (2 ^ N) st0).
  { unfold dij_wf, st0. simpl. rewrite length_insert. done. }
  assert (H4 : dj_distances st0 !! Z.to_nat site = Some 0).
  { unfold st0. simpl. by apply list_lookup_insert_eq. }
  assert (H5 : ∀ x, 0 <= x < 2 ^ N → x ≠ site →
            dj_visited st0 !! Z.to_nat x = Some false →
            dj_distances st0 !! Z.to_nat x = Some ULONG_MAX).
  { unfold st0. simpl. intros x Hx Hne Hxv.
    rewrite list_lookup_insert_ne by lia. by apply Hun. }
  pose proof (dijkstra_spec rng p N cidx st0 site HN H1 Hnil Hsite Hv H4 H5 eq_refl)
    as Hd.
  destruct (dijkstra rng p N st0 site cidx) as [st'| | |] eqn:Hrun; try done.
  intros [= <- <-].
  pose proof (dijkstra_dist_inv rng p N cidx st0 site st' HN H1 Hnil Hsite Hv H4 H5
                eq_refl Hrun) as (Hd0 & _ & Hall).
  assert (Hlab : is_Some (dj_labels st')).
  { apply (dijkstra_labels _ _ _ _ _ _ _ Hrun). unfold st0. simpl.
    destruct (Hun _ Hv) as [_ Hl]. unfold label_at in Hl.
    destruct (dj_labels e); [done|done]. }
  destruct Hd as (Hinv & Hnil' & Hstart).
  destruct Hinv as (Hwf' & Hmono & Hnv & Hcnt & Hlab1 & Hlab2 & Hfr & _).
  pose proof Hwf' as (_ & _ & Hlv' & Hld' & _).
  simpl in *.
  assert (Hiff : ∀ i, 0 <= i < 2 ^ N →
            label_is (dj_labels st') cidx i = true
            ↔ new_mark (dj_visited e) (dj_visited st') i).
  { intros i Hi. split.
    - intros Hl.
      destruct (site_index_Z _ _ _ Hlv Hi) as [b Hb].
      destruct (site_index_Z _ _ _ Hlv' Hi) as [b' Hb'].
      destruct b.
      + exfalso. pose proof (Hmono _ Hb) as Hb2.
        unfold label_is in Hl. rewrite Hlab1 in Hl by congruence.
        specialize (Hfresh i Hi). unfold label_is in Hfresh. congruence.
      + destruct b'; [unfold new_mark; split_ands; [lia|done|done]|].
        exfalso. unfold label_is in Hl. rewrite Hlab1 in Hl by congruence.
        specialize (Hfresh i Hi). unfold label_is in Hfresh. congruence.
    - intros (_ & Hb & Hb'). specialize (Hlab2 _ Hb Hb').
      destruct Hlab as [l Hl]. unfold labelled in Hlab2. rewrite Hl in Hlab2.
      unfold label_is, label_at. rewrite Hl, Hlab2. apply Z.eqb_refl. }
  split_ands; try done.
  - intros i Hi. destruct (Hall i (or_intror Hi)) as (d & k & Hd & Hk & Hh & _ & Hlt).
    exists d. split; [done|].
    pose proof (bits_set_range (Z.to_nat N) (Z.lxor i site)). unfold hamming in Hh.
    specialize (Hlt Hi). lia.
  - unfold labelled_count.
    pose proof (kept_marked [] (dj_visited e)) as Hk0.
    pose proof (kept_marked [] (dj_visited st')) as Hk1.
    simpl in Hk0, Hk1. rewrite Hlv in Hk0. rewrite Hlv' in Hk1.
    rewrite (kept_split (λ j, default false (dj_visited e !! Z.to_nat j))
               (label_is (dj_labels st') cidx)) in Hk1.
    + change (Z.of_nat 0) with 0 in *. lia.
    + intros j Hj. assert (Hj' : 0 <= j < 2 ^ N) by lia.
      destruct (site_index_Z _ _ _ Hlv Hj') as [b Hb].
      destruct (site_index_Z _ _ _ Hlv' Hj') as [b' Hb'].
      rewrite Hb, Hb'. simpl.
      destruct (label_is (dj_labels st') cidx j) eqn:Hl.
      * apply Hiff in Hl as (_ & Hx & Hy); [|done].
        assert (b = false) by congruence. assert (b' = true) by congruence.
        subst. done.
      * destruct b.
        -- rewrite (Hmono _ Hb) in Hb'. injection Hb' as <-. done.
        -- destruct b'; [|done]. exfalso.
           assert (Hnm : new_mark (dj_visited e) (dj_visited st') j)
             by (unfold new_mark; split_ands; [lia|done|done]).
           apply Hiff in Hnm; [|done]. congruence.
Qed.

(** ** The enumeration of clusters: a rule for its passes *)

Section EnumerateRule.
Context {E : Type}.
Variable visited_of : E → list bool.
Variable grow_one : Z → Z → E → run (E * Z).
Variable NH : Z.
Variable b : bool.
Variable J : E → lc_counters → Z → Prop.

Hypothesis J_skip :
  ∀ e c site, J e c site → 0 <= site < NH →
    visited_of e !! Z.to_nat site = Some true → J e c (site + 1).
Hypothesis J_grow :
  ∀ e c site e' sz, J e c site → 0 <= site < NH →
    visited_of e !! Z.to_nat site = Some false →
    grow_one site (cluster_index c) e = Done (e', sz) →
    J e' (lc_update c sz) (site + 1).

Lemma enumerate_rule k site e c e1 c1 :
  J e c site → 0 <= site → site + Z.of_nat k = NH →
  enumerate visited_of grow_one NH b k site e c = Done (e1, c1) →
  ∃ site', site <= site' <= NH ∧ J e1 c1 site' ∧
           (site' = NH ∨ (site < site' ∧ lc_exit NH c1 = true)).
Proof.
  revert site e c. induction k as [|k IH]; intros site e c HJ Hsite Hk; simpl.
  { intros [= <- <-]. exists site. split_ands; [lia|lia|done|left; lia]. }
  destruct (visited_of e !! Z.to_nat site) as [[]|] eqn:Hv; try done.
  { intros H.
    assert (HJ' : J e c (site + 1)) by (apply J_skip; try done; lia).
    destruct (IH (site + 1) e c HJ' ltac:(lia) ltac:(lia) H) as (s' & Hs' & HJ2 & Hend).
    exists s'. split_ands; try done; try lia.
    destruct Hend as [|[? ?]]; [by left|right; split; [lia|done]]. }
  destruct (grow_one site (cluster_index c) e) as [[e' sz]| | |] eqn:Hg; try done.
  assert (HJ' : J e' (lc_update c sz) (site + 1)) by (eapply J_grow; try done; lia).
  destruct (b && lc_exit NH (lc_update c sz)) eqn:Hexit.
  - intros [= <- <-]. apply andb_true_iff in Hexit as [_ Hexit].
    exists (site + 1). split_ands; try done; try lia. right. split; [lia|done].
  - intros H.
    destruct (IH (site + 1) e' (lc_update c sz) HJ' ltac:(lia) ltac:(lia) H)
      as (s' & Hs' & HJ2 & Hend).
    exists s'. split_ands; try done; try lia.
    destruct Hend as [|[? ?]]; [by left|right; split; [lia|done]].
Qed.
End EnumerateRule.

(** ** hypercube_dijkstra_LC: the cluster selected *)

Lemma dijkstra_LC_inv_start N :
  0 <= N < 64 →
  dijkstra_LC_inv N
    (dij_init (2 ^ N) (Some (replicate (Z.to_nat (2 ^ N)) ULONG_MAX))) lc_start 0.
Proof.
  intros HN. pose proof (pow2_le_modulus N HN) as [Hp0 Hp1].
  assert (Hfresh : ∀ i L, 0 <= i < 2 ^ N → 0 <= L < 2 ^ N →
            label_is (Some (replicate (Z.to_nat (2 ^ N)) ULONG_MAX)) L i = false).
  { intros i L Hi HL. apply (label_is_sentinel N); try done.
    simpl. apply lookup_replicate. split; [done|lia]. }
  unfold dijkstra_LC_inv. split_ands.
  - by apply Inv_D_init.
  - apply lc_inv_start.
  - intros i Hi. lia.
  - intros i L Hi HL. simpl in HL. by apply Hfresh.
  - simpl. lia.
  - simpl. lia.
  - intros L HL. unfold labelled_count. simpl.
    rewrite kept_none; [done|]. intros j Hj. apply Hfresh; lia.
Qed.

Lemma dijkstra_LC_inv_skip N e c site :
  dijkstra_LC_inv N e c site → 0 <= site →
  dj_visited e !! Z.to_nat site = Some true →
  dijkstra_LC_inv N e c (site + 1).
Proof.
  intros (HI & Hlc & Hbelow & Hfresh & Hpos & Hsel & Hmax) Hsite Hv.
  unfold dijkstra_LC_inv. split_ands; try done.
  - destruct Hlc as (? & ? & ? & ? & ?). unfold lc_inv. split_ands; try done; lia.
  - intros i Hi. destruct (Z.eq_dec i site) as [->|Hne]; [done|]. apply Hbelow. lia.
Qed.

Lemma dijkstra_LC_inv_grow rng p N e c site e' sz :
  0 <= N < 64 →
  dijkstra_LC_inv N e c site → 0 <= site < 2 ^ N →
  dj_visited e !! Z.to_nat site = Some false →
  dijkstra_one rng p N site (cluster_index c) e = Done (e', sz) →
  dijkstra_LC_inv N e' (lc_update c sz) (site + 1).
Proof.
  intros HN (HI & Hlc & Hbelow & Hfresh & Hpos & Hsel & Hmax) Hsite Hv Hone.
  pose proof (pow2_le_modulus N HN) as Hp.
  pose proof Hlc as (Ht & Hci & Hli & Hls & Hl).
  assert (Hcidx : 0 <= cluster_index c < 2 ^ N) by lia.
  destruct (dijkstra_one_spec _ _ _ _ _ _ _ _ HN HI Hsite Hcidx Hv Hone)
    as (HI' & Hm & Hsz & Hst).
  destruct (dijkstra_one_cluster _ _ _ _ _ _ _ _ HN HI Hsite Hcidx Hv
              ltac:(intros i Hi; apply Hfresh; lia) Hone)
    as (Hmono & Hstart & Hd0 & Hiff & Hdist & Hcount).
  destruct (lc_update_inv dj_visited (2 ^ N) (Inv_D N) Hp (Inv_D_length N)
              e e' c sz site HI HI' Hlc Hsite Hsz Hm)
    as (Hlc' & Hlt' & Ht' & Hci').
  assert (Hsame : ∀ L i, 0 <= L < 2 ^ N → L ≠ cluster_index c → 0 <= i < 2 ^ N →
            label_is (dj_labels e') L i = label_is (dj_labels e) L i).
  { intros L i HL Hne Hi. symmetry. by apply (Hst L HL Hne i Hi). }
  assert (Hcnt : ∀ L, 0 <= L < 2 ^ N → L ≠ cluster_index c →
            labelled_count N (dj_labels e') L = labelled_count N (dj_labels e) L).
  { intros L HL Hne. unfold labelled_count. f_equal. apply kept_ext.
    intros j Hj. apply Hsame; try done; lia. }
  assert (Hcase :
    (largest_cluster_size c < sz ∧
     largest_cluster_index (lc_update c sz) = cluster_index c ∧
     largest_cluster_size (lc_update c sz) = sz) ∨
    (sz <= largest_cluster_size c ∧
     largest_cluster_index (lc_update c sz) = largest_cluster_index c ∧
     largest_cluster_size (lc_update c sz) = largest_cluster_size c)).
  { unfold lc_update. destruct (Z.ltb_spec (largest_cluster_size c) sz); simpl;
      [left|right]; done. }
  unfold dijkstra_LC_inv. split_ands; try done.
  - intros i Hi. destruct (Z.eq_dec i site) as [->|Hne]; [done|].
    apply Hmono, Hbelow. lia.
  - intros i L Hi HL. rewrite Hci' in HL. rewrite Hsame by (try done; lia).
    apply Hfresh; [done|lia].
  - intros _. destruct Hcase as [(? & _ & ->)|(? & _ & ->)]; lia.
  - intros _. unfold lc_selected.
    destruct Hcase as [(Hlt & -> & ->)|(Hge & -> & ->)].
    + split_ands; [done| |].
      * intros i Hi Hk. apply Hdist. by apply (Hiff i Hi).
      * exists site. split_ands; try done; try lia.
        -- apply (Hiff site Hsite). unfold new_mark. split_ands; try done; lia.
        -- intros i Hi.
           destruct (label_is (dj_labels e') (cluster_index c) i) eqn:Hk; [|done].
           apply (Hiff i ltac:(lia)) in Hk as (_ & Hk & _).
           rewrite Hbelow in Hk by lia. done.
    + destruct (Hsel ltac:(lia)) as (Hc0 & Hd & s & Hs & Hks & Hds & Hfirst).
      assert (HL : 0 <= largest_cluster_index c < 2 ^ N) by lia.
      assert (Hne : largest_cluster_index c ≠ cluster_index c) by lia.
      split_ands.
      * by rewrite Hcnt.
      * intros i Hi Hk. rewrite Hsame in Hk by done.
        destruct (Hst _ HL Hne i Hi) as [_ Heq]. rewrite <- Heq by done.
        by apply Hd.
      * exists s. split_ands; try done; try lia.
        -- by rewrite Hsame.
        -- destruct (Hst _ HL Hne s Hs) as [_ Heq]. by rewrite <- Heq.
        -- intros i Hi. rewrite Hsame by (try done; lia). by apply Hfirst.
  - intros L HL. destruct (Z.eq_dec L (cluster_index c)) as [->|Hne].
    + rewrite Hcount. destruct Hcase as [(? & _ & ->)|(? & _ & ->)]; lia.
    + rewrite Hcnt by done. specialize (Hmax L HL).
      destruct Hcase as [(? & _ & ->)|(? & _ & ->)]; lia.
Qed.

Lemma marked_pos (v : list bool) (i : nat) :
  v !! i = Some true → (0 < marked v)%nat.
Proof.
  revert i. induction v as [|b v IH]; intros i; [done|].
  destruct i as [|i]; simpl.
  - intros [= ->]. lia.
  - intros H. specialize (IH _ H). destruct b; lia.
Qed.

(** What the copy loop of lines 177-184 makes of the state in which the
    enumeration ends. *)
Lemma dijkstra_LC_end rng p N st c site' :
  check_args N 1 p = true →
  dijkstra_LC_enumerate rng p N true = Done (st, c) →
  dijkstra_LC_inv N st c site' → 0 < site' →
  site' = 2 ^ N ∨ lc_exit (2 ^ N) c = true →
  ∃ out,
    hypercube_dijkstra_LC rng p N = Done (Some out) ∧
    out = kept_distances (label_is (dj_labels st) (largest_cluster_index c))
            (dj_distances st) (Z.to_nat (2 ^ N)) 0 ∧
    Z.of_nat (base.length out) = largest_cluster_size c ∧
    1 <= Z.of_nat (base.length out) <= 2 ^ N ∧
    out !! 0%nat = Some 0 ∧
    Forall (λ d, 0 <= d < Z.of_nat (base.length out)) out ∧
    (∀ L, 0 <= L < 2 ^ N →
          labelled_count N (dj_labels st) L <= Z.of_nat (base.length out)) ∧
    2 ^ N - Z.of_nat (marked (dj_visited st)) <= Z.of_nat (base.length out).
Proof.
  intros Hargs He (HI & Hlc & Hbelow & Hfresh & Hpos & Hsel & Hmax) Hsite' Hend.
  pose proof (check_args_range _ _ _ Hargs) as HN.
  pose proof (pow2_le_modulus N HN) as [Hp0 Hp1]. pose proof ULONG_MAX_eq as HU.
  pose proof HI as ((_ & _ & Hlv & Hld & _) & _ & _).
  pose proof Hlc as (Ht & _).
  pose proof (marked_le (dj_visited st)) as Hmle. rewrite Hlv in Hmle.
  assert (Hlarge : 0 < largest_cluster_size c).
  { apply Hpos. rewrite Ht.
    pose proof (marked_pos _ _ (Hbelow 0 ltac:(lia))). lia. }
  destruct (Hsel Hlarge) as (Hcount & Hd & s & Hs & Hks & Hds & Hfirst).
  set (keep := label_is (dj_labels st) (largest_cluster_index c)) in *.
  unfold labelled_count in Hcount. fold keep in Hcount.
  pose proof (kept_le keep (Z.to_nat (2 ^ N)) 0) as Hkle.
  exists (kept_distances keep (dj_distances st) (Z.to_nat (2 ^ N)) 0).
  rewrite length_kept_distances.
  split_ands; try done; try lia.
  - unfold hypercube_dijkstra_LC, dijkstra_LC_with. rewrite Hargs, He. simpl.
    rewrite intpower_2 by done. fold keep.
    rewrite copy_distances_eq; try lia.
    + simpl. rewrite drop_ge by (rewrite length_replicate; lia).
      by rewrite app_nil_r.
    + intros j Hj _. apply lookup_lt_is_Some. lia.
    + rewrite length_replicate. lia.
    + rewrite length_replicate. lia.
  - rewrite (kept_distances_head keep _ _ 0 s); try done; try lia.
    f_equal. by apply list_lookup_total_correct.
  - apply kept_distances_Forall. intros j Hj Hkj.
    destruct (Hd j ltac:(lia) Hkj) as (d & Hdj & Hr).
    rewrite (list_lookup_total_correct _ _ _ Hdj). lia.
  - intros L HL. specialize (Hmax L HL). lia.
  - destruct Hend as [->|Hexit].
    + rewrite (marked_all (dj_visited st)); [lia|].
      intros i Hi. specialize (Hbelow (Z.of_nat i) ltac:(lia)).
      by rewrite Nat2Z.id in Hbelow.
    + unfold lc_exit in Hexit. apply Z.leb_le in Hexit.
      rewrite wrap_small in Hexit by lia. lia.
Qed.

(** X11: for arguments that [check_args] accepts, [hypercube_dijkstra_LC]
    returns an array, and nothing is read or written out of bounds: the
    distances of the sites labelled with [largest_cluster_index], in the
    order of the sites.  Its length is [largest_cluster_size], between 1 and
    [2^N]; its first entry is 0, the distance of the first site of the
    cluster, from which the cluster was grown; every entry is below the
    length and not negative.  No label is carried by more sites than the
    array has entries, and the sites left unmarked by the early exit are not
    more either. *)
Theorem hypercube_dijkstra_LC_distances rng p N :
  check_args N 1 p = true →
  ∃ st c out,
    dijkstra_LC_enumerate rng p N true = Done (st, c) ∧
    hypercube_dijkstra_LC rng p N = Done (Some out) ∧
    out = kept_distances (label_is (dj_labels st) (largest_cluster_index c))
            (dj_distances st) (Z.to_nat (2 ^ N)) 0 ∧
    Z.of_nat (base.length out) = largest_cluster_size c ∧
    1 <= Z.of_nat (base.length out) <= 2 ^ N ∧
    out !! 0%nat = Some 0 ∧
    Forall (λ d, 0 <= d < Z.of_nat (base.length out)) out ∧
    (∀ L, 0 <= L < 2 ^ N →
          labelled_count N (dj_labels st) L <= Z.of_nat (base.length out)) ∧
    2 ^ N - Z.of_nat (marked (dj_visited st)) <= Z.of_nat (base.length out).
Proof.
  intros Hargs. pose proof (check_args_range _ _ _ Hargs) as HN.
  pose proof (pow2_le_modulus N HN) as [Hp0 Hp1].
  destruct (dijkstra_LC_enumerate_total rng p N true HN) as (st & c & He).
  pose proof He as He'. unfold dijkstra_LC_enumerate in He'.
  rewrite intpower_2 in He' by done.
  destruct (enumerate_rule dj_visited (dijkstra_one rng p N) (2 ^ N) true
              (dijkstra_LC_inv N)
              ltac:(intros e0 c0 s0 HJ Hs Hv; apply dijkstra_LC_inv_skip; [done|lia|done])
              ltac:(intros e0 c0 s0 e1 sz HJ Hs Hv Hg;
                    by apply (dijkstra_LC_inv_grow rng p N e0 c0 s0 e1 sz))
              (Z.to_nat (2 ^ N)) 0 _ _ st c (dijkstra_LC_inv_start N HN)
              ltac:(lia) ltac:(lia) He')
    as (site' & Hs' & HJ & Hend).
  assert (Hsite' : 0 < site') by (destruct Hend as [->|[? _]]; lia).
  assert (Hend' : site' = 2 ^ N ∨ lc_exit (2 ^ N) c = true).
  { destruct Hend as [?|[_ ?]]; [by left|by right]. }
  destruct (dijkstra_LC_end rng p N st c site' Hargs He HJ Hsite' Hend')
    as (out & Hout).
  by exists st, c, out.
Qed.

Lemma hypercube_dijkstra_LC_distances_witness :
  ∃ out, hypercube_dijkstra_LC alternating (1 # 2) 3 = Done (Some out) ∧
         out !! 0%nat = Some 0 ∧
         1 <= Z.of_nat (base.length out) <= 2 ^ 3.
Proof.
  destruct (hypercube_dijkstra_LC_distances alternating (1 # 2) 3 eq_refl)
    as (st & c & out & _ & Ho & _ & _ & Hl & H0 & _).
  exists out. split; [exact Ho|]. split; [exact H0|exact Hl].
Defined.

(** ** grow_H_cluster: the labels *)

Lemma grow_edge_labels rng p i u st st1 :
  grow_edge rng p i u st = Done st1 → g_labels st1 = g_labels st.
Proof.
  intros H. apply grow_edge_done in H as (_ & [[_ ->]|(_ & _ & _ & s' & x & _ & ->)]);
    done.
Qed.

Lemma grow_neighbours_labels rng p k i u st st1 :
  grow_neighbours rng p k i u st = Done st1 → g_labels st1 = g_labels st.
Proof.
  intros H.
  apply (grow_neighbours_rule rng p u (λ _ s, g_labels s = g_labels st) k i st st1);
    try done.
  intros j s s1 _ Hs He. rewrite <- Hs. by eapply grow_edge_labels.
Qed.

Lemma grow_body_labels rng p N cidx st st1 :
  grow_body rng p N cidx st = Done st1 →
  is_Some (g_labels st) → is_Some (g_labels st1).
Proof.
  unfold grow_body. destruct (pop _ _) as [[u s'] e']. simpl.
  destruct (e' =? -1); [done|].
  destruct (g_visited st !! Z.to_nat u) as [[]|]; try done.
  { by intros [= <-]. }
  destruct (write_label _ _ _) as [labels'|] eqn:Hw; [|done].
  intros H [l Hl]. apply grow_neighbours_labels in H. simpl in H. rewrite H.
  apply write_label_some in Hw as [[Hn _]|(l' & _ & _ & ->)]; [congruence|done].
Qed.

Lemma grow_H_cluster_labels rng p N st start cidx st' :
  grow_H_cluster rng p N st start cidx = Done st' →
  is_Some (g_labels st) → is_Some (g_labels st').
Proof.
  unfold grow_H_cluster. destruct (negb _); [done|].
  destruct (push _ _) as [s1 r]. intros H Hl.
  match type of H with
  | grow_loop _ _ _ _ ?f ?s0 = _ =>
      refine (proj1 (grow_loop_rule rng p N cidx (λ s, is_Some (g_labels s))
                       _ f s0 st' Hl H))
  end.
  intros s s1' Hs _ Hb. by eapply grow_body_labels.
Qed.

(** ** hypercube_H_LC: the cluster of one pass *)

Lemma grow_one_H_cluster rng p N site cidx e e' sz :
  0 <= N < 64 →
  Inv_H N e → 0 <= site < 2 ^ N → 0 <= cidx < 2 ^ N →
  g_visited e !! Z.to_nat site = Some false →
  (∀ i, 0 <= i < 2 ^ N → label_is (g_labels e) cidx i = false) →
  grow_one_H rng p N site cidx e = Done (e', sz) →
  (∀ i, g_visited e !! i = Some true → g_visited e' !! i = Some true) ∧
  g_visited e' !! Z.to_nat site = Some true ∧
  (∀ i, 0 <= i < 2 ^ N →
        label_is (g_labels e') cidx i = true
        ↔ new_mark (g_visited e) (g_visited e') i) ∧
  labelled_count N (g_labels e') cidx = sz ∧
  cells_ok N (g_matrix e) (g_matrix e') ∧
  (∀ x, new_mark (g_visited e) (g_visited e') x →
        epath (mlink (g_matrix e')) site x) ∧
  (∀ u v, g_visited e !! Z.to_nat u = Some true →
          nd_get (g_matrix e') u v = nd_get (g_matrix e) u v).
Proof.
  intros HN HI Hsite Hcidx Hv Hfresh Hone.
  destruct (grow_one_H_spec _ _ _ _ _ _ _ _ HN HI Hsite Hcidx Hv Hone)
    as (HI' & Hm & Hsz & _).
  destruct HI as (Hwf & Htop & Hcap & Hsym & Hedges & Hunl).
  revert Hone. unfold grow_one_H.
  set (st0 := mk_grow (g_stack e) (g_visited e) (g_matrix e) (g_labels e)
                (g_error_flag e) (g_pyerr e) (g_pos e) 0).
  destruct (grow_H_cluster rng p N st0 site cidx) as [st'| | |] eqn:Hg; try done.
  intros [= <- <-].
  assert (Hwf0 : grow_wf (2 ^ N) st0) by exact Hwf.
  destruct (grow_H_cluster_spec _ _ _ _ _ _ _ HN Hwf0 eq_refl Hsite Hg)
    as (_ & Hinv & Htop' & Hstart).
  destruct (grow_H_cluster_cluster _ _ _ _ _ _ _ HN Hwf0 eq_refl Hsite Hg)
    as [Hcells Hpaths].
  assert (Hlab : is_Some (g_labels st')).
  { apply (grow_H_cluster_labels _ _ _ _ _ _ _ Hg). unfold st0. simpl.
    pose proof (Hunl _ Hv) as Hl. unfold label_at in Hl.
    destruct (g_labels e); [done|done]. }
  destruct Hinv as (Hwf' & Hmono & _ & Hcnt & Hlab1 & Hlab2 & Hfr & _).
  simpl in *. specialize (Hstart Hcap).
  pose proof Hwf as (_ & Hlv & _). pose proof Hwf' as (_ & Hlv' & _).
  assert (Hiff : ∀ i, 0 <= i < 2 ^ N →
            label_is (g_labels st') cidx i = true
            ↔ new_mark (g_visited e) (g_visited st') i).
  { intros i Hi. split.
    - intros Hl.
      destruct (site_index_Z _ _ _ Hlv Hi) as [b Hb].
      destruct (site_index_Z _ _ _ Hlv' Hi) as [b' Hb'].
      destruct b.
      + exfalso. pose proof (Hmono _ Hb) as Hb2.
        unfold label_is in Hl. rewrite Hlab1 in Hl by congruence.
        specialize (Hfresh i Hi). unfold label_is in Hfresh. congruence.
      + destruct b'; [unfold new_mark; split_ands; [lia|done|done]|].
        exfalso. unfold label_is in Hl. rewrite Hlab1 in Hl by congruence.
        specialize (Hfresh i Hi). unfold label_is in Hfresh. congruence.
    - intros (_ & Hb & Hb'). specialize (Hlab2 _ Hb Hb').
      destruct Hlab as [l Hl]. unfold labelled in Hlab2. rewrite Hl in Hlab2.
      unfold label_is, label_at. rewrite Hl, Hlab2. apply Z.eqb_refl. }
  split_ands; try done.
  - unfold labelled_count.
    pose proof (kept_marked [] (g_visited e)) as Hk0.
    pose proof (kept_marked [] (g_visited st')) as Hk1.
    simpl in Hk0, Hk1. rewrite Hlv in Hk0. rewrite Hlv' in Hk1.
    rewrite (kept_split (λ j, default false (g_visited e !! Z.to_nat j))
               (label_is (g_labels st') cidx)) in Hk1.
    + change (Z.of_nat 0) with 0 in *. lia.
    + intros j Hj. assert (Hj' : 0 <= j < 2 ^ N) by lia.
      destruct (site_index_Z _ _ _ Hlv Hj') as [b Hb].
      destruct (site_index_Z _ _ _ Hlv' Hj') as [b' Hb'].
      rewrite Hb, Hb'. simpl.
      destruct (label_is (g_labels st') cidx j) eqn:Hl.
      * apply (Hiff j Hj') in Hl as (_ & Hx & Hy).
        assert (b = false) by congruence. assert (b' = true) by congruence.
        subst. done.
      * destruct b.
        -- rewrite (Hmono _ Hb) in Hb'. injection Hb' as <-. done.
        -- destruct b'; [|done]. exfalso.
           assert (Hnm : new_mark (g_visited e) (g_visited st') j)
             by (unfold new_mark; split_ands; [lia|done|done]).
           apply (Hiff j Hj') in Hnm. congruence.
  - intros x Hx. eapply epath_mono; [|by apply Hpaths].
    by intros u v (_ & _ & H1).
  - intros u v Hu. by destruct (Hfr u v Hu) as [-> _].
Qed.

(** ** hypercube_H_LC: the cluster selected *)

Lemma H_LC_inv_start N :
  0 <= N < 64 →
  H_LC_inv N (grow_init (2 ^ N) (Some (replicate (Z.to_nat (2 ^ N)) ULONG_MAX)))
    lc_start 0.
Proof.
  intros HN. pose proof (pow2_le_modulus N HN) as [Hp0 Hp1].
  assert (Hfresh : ∀ i L, 0 <= i < 2 ^ N → 0 <= L < 2 ^ N →
            label_is (Some (replicate (Z.to_nat (2 ^ N)) ULONG_MAX)) L i = false).
  { intros i L Hi HL. apply (label_is_sentinel N); try done.
    simpl. apply lookup_replicate. split; [done|lia]. }
  unfold H_LC_inv. split_ands.
  - by apply Inv_H_init.
  - apply lc_inv_start.
  - intros i Hi. lia.
  - intros i L Hi HL. simpl in HL. by apply Hfresh.
  - simpl. lia.
  - simpl. lia.
  - intros L HL. unfold labelled_count. simpl.
    rewrite kept_none; [done|]. intros j Hj. apply Hfresh; lia.
  - intros x y. left. unfold nd_get. simpl. by rewrite lookup_empty.
Qed.

Lemma H_LC_inv_skip N e c site :
  H_LC_inv N e c site → 0 <= site →
  g_visited e !! Z.to_nat site = Some true →
  H_LC_inv N e c (site + 1).
Proof.
  intros (HI & Hlc & Hbelow & Hfresh & Hpos & Hsel & Hmax & Hlinks) Hsite Hv.
  unfold H_LC_inv. split_ands; try done.
  - destruct Hlc as (? & ? & ? & ? & ?). unfold lc_inv. split_ands; try done; lia.
  - intros i Hi. destruct (Z.eq_dec i site) as [->|Hne]; [done|]. apply Hbelow. lia.
Qed.

Lemma H_LC_inv_grow rng p N e c site e' sz :
  0 <= N < 64 →
  H_LC_inv N e c site → 0 <= site < 2 ^ N →
  g_visited e !! Z.to_nat site = Some false →
  grow_one_H rng p N site (cluster_index c) e = Done (e', sz) →
  H_LC_inv N e' (lc_update c sz) (site + 1).
Proof.
  intros HN (HI & Hlc & Hbelow & Hfresh & Hpos & Hsel & Hmax & Hlinks) Hsite Hv Hone.
  pose proof (pow2_le_modulus N HN) as Hp.
  pose proof Hlc as (Ht & Hci & Hli & Hls & Hl).
  assert (Hcidx : 0 <= cluster_index c < 2 ^ N) by lia.
  destruct (grow_one_H_spec _ _ _ _ _ _ _ _ HN HI Hsite Hcidx Hv Hone)
    as (HI' & Hm & Hsz & Hst).
  destruct (grow_one_H_cluster _ _ _ _ _ _ _ _ HN HI Hsite Hcidx Hv
              ltac:(intros i Hi; apply Hfresh; lia) Hone)
    as (Hmono & Hstart & Hiff & Hcount & Hcells & Hpaths & Hfr).
  destruct (lc_update_inv g_visited (2 ^ N) (Inv_H N) Hp (Inv_H_length N)
              e e' c sz site HI HI' Hlc Hsite Hsz Hm)
    as (Hlc' & Hlt' & Ht' & Hci').
  assert (Hsame : ∀ L i, 0 <= L < 2 ^ N → L ≠ cluster_index c → 0 <= i < 2 ^ N →
            label_is (g_labels e') L i = label_is (g_labels e) L i).
  { intros L i HL Hne Hi. symmetry. by apply (Hst L HL Hne i Hi). }
  assert (Hcnt : ∀ L, 0 <= L < 2 ^ N → L ≠ cluster_index c →
            labelled_count N (g_labels e') L = labelled_count N (g_labels e) L).
  { intros L HL Hne. unfold labelled_count. f_equal. apply kept_ext.
    intros j Hj. apply Hsame; try done; lia. }
  assert (Hcase :
    (largest_cluster_size c < sz ∧
     largest_cluster_index (lc_update c sz) = cluster_index c ∧
     largest_cluster_size (lc_update c sz) = sz) ∨
    (sz <= largest_cluster_size c ∧
     largest_cluster_index (lc_update c sz) = largest_cluster_index c ∧
     largest_cluster_size (lc_update c sz) = largest_cluster_size c)).
  { unfold lc_update. destruct (Z.ltb_spec (largest_cluster_size c) sz); simpl;
      [left|right]; done. }
  destruct HI as (_ & _ & _ & _ & Hedges & _).
  unfold H_LC_inv. split_ands; try done.
  - intros i Hi. destruct (Z.eq_dec i site) as [->|Hne]; [done|].
    apply Hmono, Hbelow. lia.
  - intros i L Hi HL. rewrite Hci' in HL. rewrite Hsame by (try done; lia).
    apply Hfresh; [done|lia].
  - intros _. destruct Hcase as [(? & _ & ->)|(? & _ & ->)]; lia.
  - intros _. unfold H_selected.
    destruct Hcase as [(Hlt & -> & ->)|(Hge & -> & ->)].
    + split; [done|]. exists site. split_ands; try done; try lia.
      * apply (Hiff site Hsite). unfold new_mark. split_ands; try done; lia.
      * intros x Hx Hk. apply Hpaths. by apply (Hiff x Hx).
    + destruct (Hsel ltac:(lia)) as (Hc0 & s & Hs & Hks & Hreach).
      assert (HL : 0 <= largest_cluster_index c < 2 ^ N) by lia.
      assert (Hne : largest_cluster_index c ≠ cluster_index c) by lia.
      split; [by rewrite Hcnt|].
      exists s. split_ands; try done; try lia.
      * by rewrite Hsame.
      * intros x Hx Hk. rewrite Hsame in Hk by done.
        eapply epath_mono; [|by apply Hreach].
        intros u v Huv. unfold mlink in *.
        destruct (Hedges u v ltac:(lia)) as (Hu & _).
        by rewrite Hfr.
  - intros L HL. destruct (Z.eq_dec L (cluster_index c)) as [->|Hne].
    + rewrite Hcount. destruct Hcase as [(? & _ & ->)|(? & _ & ->)]; lia.
    + rewrite Hcnt by done. specialize (Hmax L HL).
      destruct Hcase as [(? & _ & ->)|(? & _ & ->)]; lia.
  - intros x y. destruct (Hcells x y) as [->|(Hadj & Hx & Hy & [H0|H1])].
    + apply Hlinks.
    + by left.
    + right. done.
Qed.

Lemma epath_transfer (E E' : Z → Z → Prop) (K : Z → Prop) s x :
  K s → (∀ u v, K u → E u v → K v ∧ E' u v) →
  epath E s x → epath E' s x ∧ K x.
Proof.
  intros Hs Hstep. induction 1 as [|u v _ [IH IK] Huv].
  - split; [constructor|done].
  - destruct (Hstep u v IK Huv) as [Kv Ev]. split; [|done].
    by eapply epath_step.
Qed.

(** X12: when [hypercube_H_LC] returns a matrix and a size, the size is
    [largest_cluster_size], the number of sites labelled with
    [largest_cluster_index], between 1 and [2^N].  Every cell of the matrix
    holds 0 or 1; a cell that holds 1 joins two neighbouring sites that both
    carry that label; between two sites of the graph, the second of them
    with that label, the matrix holds what the full matrix holds; and all
    the sites with that label are reached from one of them along cells of
    the returned matrix that hold 1.  No label is carried by more sites than
    the size returned, and the sites left unmarked by the early exit are not
    more either. *)
Theorem hypercube_H_LC_cluster rng p N a n :
  hypercube_H_LC rng p N = Done (Some (a, n)) →
  ∃ st c,
    H_LC_enumerate rng p N true = Done (st, c) ∧
    n = largest_cluster_size c ∧
    labelled_count N (g_labels st) (largest_cluster_index c) = n ∧
    1 <= n <= 2 ^ N ∧
    (∀ x y, nd_get a x y = 0 ∨ nd_get a x y = 1) ∧
    (∀ x y, nd_get a x y = 1 →
       adjacent N x y ∧ 0 <= x < 2 ^ N ∧ 0 <= y < 2 ^ N ∧
       label_is (g_labels st) (largest_cluster_index c) x = true ∧
       label_is (g_labels st) (largest_cluster_index c) y = true) ∧
    (∀ x y, 0 <= x < 2 ^ N → 0 <= y < 2 ^ N →
       label_is (g_labels st) (largest_cluster_index c) y = true →
       nd_get a x y = nd_get (g_matrix st) x y) ∧
    (∃ s, 0 <= s < 2 ^ N ∧
          label_is (g_labels st) (largest_cluster_index c) s = true ∧
          ∀ x, 0 <= x < 2 ^ N →
               label_is (g_labels st) (largest_cluster_index c) x = true →
               epath (mlink a) s x) ∧
    (∀ L, 0 <= L < 2 ^ N → labelled_count N (g_labels st) L <= n) ∧
    2 ^ N - Z.of_nat (marked (g_visited st)) <= n.
Proof.
  unfold hypercube_H_LC, H_LC_with.
  destruct (check_args N 1 p) eqn:Hargs; simpl; [|done].
  pose proof (check_args_range _ _ _ Hargs) as HN.
  pose proof (pow2_le_modulus N HN) as [Hp0 Hp1]. pose proof ULONG_MAX_eq as HU.
  destruct (H_LC_enumerate rng p N true) as [[st c]| | |] eqn:He; try done.
  pose proof He as He'. unfold H_LC_enumerate in He'.
  rewrite intpower_2 in He' by done.
  destruct (enumerate_rule g_visited (grow_one_H rng p N) (2 ^ N) true
              (H_LC_inv N)
              ltac:(intros e0 c0 s0 HJ Hs Hv; apply H_LC_inv_skip; [done|lia|done])
              ltac:(intros e0 c0 s0 e1 sz HJ Hs Hv Hg;
                    by apply (H_LC_inv_grow rng p N e0 c0 s0 e1 sz))
              (Z.to_nat (2 ^ N)) 0 _ _ st c (H_LC_inv_start N HN)
              ltac:(lia) ltac:(lia) He')
    as (site' & Hs' & (HI & Hlc & Hbelow & Hfresh & Hpos & Hsel & Hmax & Hlinks) & Hend).
  pose proof HI as ((_ & Hlv & _) & _ & _ & Hsym & Hedges & _).
  pose proof Hlc as (Ht & _).
  pose proof (marked_le (g_visited st)) as Hmle. rewrite Hlv in Hmle.
  assert (Hsite' : 0 < site') by (destruct Hend as [->|[? _]]; lia).
  assert (Hlarge : 0 < largest_cluster_size c).
  { apply Hpos. rewrite Ht.
    pose proof (marked_pos _ _ (Hbelow 0 ltac:(lia))). lia. }
  destruct (Hsel Hlarge) as (Hcount & s & Hs & Hks & Hreach).
  set (keep := label_is (g_labels st) (largest_cluster_index c)) in *.
  assert (Hle : largest_cluster_size c <= 2 ^ N).
  { pose proof (kept_le keep (Z.to_nat (2 ^ N)) 0) as Hkle.
    rewrite <- Hcount. unfold labelled_count. fold keep. lia. }
  unfold H_LC_copy. rewrite intpower_2 by done. fold keep.
  destruct (copy_cluster _ _ _ 0 (g_matrix st) _) as [[h lc]|] eqn:Hc; simpl; [|done].
  intros [= <- <-].
  destruct (copy_cluster_get (2 ^ N) _ _ _ _ _ _ _ ltac:(lia) Hc) as [_ Hget].
  assert (Hz : ∀ i j, nd_get (PyArray_ZEROS (2 ^ N) (2 ^ N)) i j = 0).
  { intros i j. unfold nd_get, PyArray_ZEROS; simpl. by rewrite lookup_empty. }
  assert (Hcell : ∀ x y, nd_get lc x y
            = if decide (0 <= y < 2 ^ N ∧ keep y = true ∧ 0 <= x < 2 ^ N)
              then nd_get (g_matrix st) x y else 0).
  { intros x y. rewrite Hget, Hz.
    destruct (decide (0 <= y < 0 + Z.of_nat (Z.to_nat (2 ^ N)) ∧ keep y = true ∧
                      0 <= x < 2 ^ N)) as [H1|H1];
      destruct (decide (0 <= y < 2 ^ N ∧ keep y = true ∧ 0 <= x < 2 ^ N)) as [H2|H2];
      [apply Hsym| | |done].
    - exfalso. apply H2. destruct H1 as (? & ? & ?). split_ands; try done; lia.
    - exfalso. apply H1. destruct H2 as (? & ? & ?). split_ands; try done; lia. }
  assert (Hone : ∀ u v, nd_get (g_matrix st) u v = 1 →
            adjacent N u v ∧ 0 <= u < 2 ^ N ∧ 0 <= v < 2 ^ N ∧ keep u = keep v).
  { intros u v H1. destruct (Hlinks u v) as [H0|(Hadj & Hu & Hv & _)]; [lia|].
    destruct (Hedges u v ltac:(lia)) as (Hvu & Hvv & Hl).
    apply lookup_lt_Some in Hvu, Hvv.
    split_ands; try done; try lia.
    unfold keep, label_is. by rewrite Hl. }
  exists st, c. fold keep. split_ands; try done; try lia.
  - intros x y. rewrite Hcell. destruct (decide _); [|by left].
    destruct (Hlinks x y) as [H0|(_ & _ & _ & H1)]; [by left|by right].
  - intros x y H. rewrite Hcell in H.
    destruct (decide _) as [(Hy & Hky & Hx)|]; [|done].
    destruct (Hone x y H) as (Hadj & _ & _ & Heq).
    split_ands; try done; try lia. by rewrite Heq.
  - intros x y Hx Hy Hky. rewrite Hcell.
    destruct (decide _) as [|Hn]; [done|]. exfalso. apply Hn. done.
  - exists s. split_ands; try done; try lia.
    intros x Hx Hkx.
    apply (epath_transfer (mlink (g_matrix st)) (mlink lc)
             (λ u, keep u = true) s x Hks); [|by apply Hreach].
    intros u v Hku Huv. unfold mlink in *.
    destruct (Hone u v Huv) as (_ & Hu & Hv & Heq).
    split; [congruence|]. rewrite Hcell.
    destruct (decide _) as [|Hn]; [done|]. exfalso. apply Hn.
    split_ands; try done; try lia. congruence.
  - destruct Hend as [->|[_ Hexit]].
    + rewrite (marked_all (g_visited st)); [lia|].
      intros i Hi. specialize (Hbelow (Z.of_nat i) ltac:(lia)).
      by rewrite Nat2Z.id in Hbelow.
    + unfold lc_exit in Hexit. apply Z.leb_le in Hexit.
      rewrite wrap_small in Hexit by lia. lia.
Qed.

Lemma hypercube_H_LC_cluster_witness :
  ∃ a n, hypercube_H_LC alternating (1 # 2) 3 = Done (Some (a, n)) ∧
         1 <= n <= 2 ^ 3.
Proof.
  assert (Hret : returns_object (hypercube_H_LC alternating (1 # 2) 3) = true)
    by (vm_compute; reflexivity).
  destruct (hypercube_H_LC alternating (1 # 2) 3) as [[[a n]|]| | |] eqn:Hd;
    try discriminate Hret.
  exists a, n. split; [reflexivity|].
  destruct (hypercube_H_LC_cluster alternating (1 # 2) 3 a n Hd)
    as (st & c & _ & _ & _ & Hn & _).
  exact Hn.
Defined.

(** ** dijkstra: every site is reached from a nearer one *)

Lemma dijkstra_chain rng p N cidx st start st' :
  0 <= N < 64 → dij_wf (2 ^ N) st → qlist (dj_queue st) = [] →
  0 <= start < 2 ^ N →
  dj_visited st !! Z.to_nat start = Some false →
  dj_distances st !! Z.to_nat start = Some 0 →
  (∀ x, 0 <= x < 2 ^ N → x ≠ start → dj_visited st !! Z.to_nat x = Some false →
        dj_distances st !! Z.to_nat x = Some ULONG_MAX) →
  dj_number_visited st = 0 →
  dijkstra rng p N st start cidx = Done st' →
  dij_chain N st start st'.
Proof.
  intros HN Hwf Hnil Hstart Hvs Hds Hinf Hnv.
  pose proof Hwf as (_ & _ & Hlv0 & _).
  apply (dijkstra_rule rng p N cidx st start (dij_chain N st start)
           (λ u _ _ s, dij_chain N st start s ∧
                       new_mark (dj_visited st) (dj_visited s) u));
    try done.
  - (* a site is taken off the queue and marked *)
    intros s u du s2 Hinv _ Hall Hu (Hql & Hvu & Hdu & Hdur & Hv2 & Hd2 & Hn2) _ _.
    destruct Hinv as (_ & Hmono & _).
    assert (Hnew : new_mark (dj_visited st) (dj_visited s2) u).
    { unfold new_mark. split_ands; [lia| |].
      - destruct (site_index_Z _ _ _ Hlv0 Hu) as [[] Hb]; [|done].
        apply Hmono in Hb. congruence.
      - rewrite Hv2. apply list_lookup_insert_eq. by eapply lookup_lt_Some. }
    split; [|done]. intros x Hx.
    assert (Hx' : x ∈ qlist (dj_queue s) ∨ new_mark (dj_visited st) (dj_visited s) x).
    { destruct Hx as [Hx|Hx]; [left; rewrite Hql; by right|].
      rewrite Hv2 in Hx.
      destruct (new_mark_insert_inv _ _ _ _ (proj1 Hu) Hx) as [->|Hx']; [|by right].
      left. rewrite Hql. by left. }
    destruct (Hall x Hx') as [->|(i & d & Hi & Hy & Hdy & Hdx)]; [by left|right].
    exists i, d. rewrite Hd2, Hv2. split_ands; try done; try lia.
    by apply new_mark_insert.
  - (* a neighbour is looked at *)
    intros u du i s s1 Hi Hu Hinv _ Hvu Hdu Hdur [Hall Hnew] (Hv1 & Hn1 & Hstep).
    pose proof Hinv as ((_ & _ & _ & Hld & _ & Hrange) & _).
    unfold sites_in_range in Hrange. rewrite Forall_forall in Hrange.
    rewrite Hv1. split; [|done].
    destruct Hstep as [(Hd1 & Hq1 & _)|(_ & Hvv & Hvq & Hdv & Hd1 & Hq1)].
    { unfold dij_chain. rewrite Hd1, Hq1, Hv1. done. }
    set (v := Z.lxor u (Z.shiftl 1 i)) in *.
    assert (Hvr : 0 <= v < 2 ^ N) by (apply lxor_bit_range; lia).
    assert (Hne : ∀ x, x ∈ qlist (dj_queue s) ∨
                       new_mark (dj_visited st) (dj_visited s) x →
              Z.to_nat x ≠ Z.to_nat v).
    { intros x [Hx|(Hx & _ & HxV)] E.
      - specialize (Hrange x Hx). assert (x = v) by lia. by subst x.
      - assert (x = v) by lia. subst x. congruence. }
    unfold dij_chain. rewrite Hd1, Hq1, Hv1. intros x Hx.
    assert (Hx' : x = v ∨ x ∈ qlist (dj_queue s) ∨
                  new_mark (dj_visited st) (dj_visited s) x).
    { destruct Hx as [Hx|Hx]; [|right; by right].
      apply elem_of_app in Hx as [Hx|Hx]; [right; by left|].
      apply list_elem_of_singleton in Hx. by left. }
    destruct Hx' as [->|Hx'].
    + right. exists i, du. unfold v. rewrite lxor_bit_twice. fold v.
      split_ands; try done; try lia.
      * rewrite list_lookup_insert_ne; [done|].
        intros E. by apply (Hne u (or_intror Hnew)).
      * apply list_lookup_insert_eq. lia.
    + destruct (Hall x Hx') as [->|(j & d & Hj & Hy & Hdy & Hdx)]; [by left|right].
      exists j, d. split_ands; try done; try lia.
      * rewrite list_lookup_insert_ne; [done|].
        intros E. by apply (Hne _ (or_intror Hy)).
      * rewrite list_lookup_insert_ne; [done|].
        intros E. by apply (Hne x Hx').
  - by intros u du s _ [? _].
  - (* the start *)
    intros s1 Hq1 Hv1 Hd1 Hn1. unfold dij_chain. rewrite Hq1, Hv1.
    intros x [Hx|(_ & Hx0 & HxV)]; [|congruence].
    apply list_elem_of_singleton in Hx as ->. by left.
Qed.

(** X13: a call of [dijkstra] on buffers of [2^N] entries, with an empty
    queue, a start that is not marked and at distance 0, the other unmarked
    sites at [ULONG_MAX] and [number_visited = 0], returns by its normal
    exit with the queue empty again: the queue of [2^N] sites does not
    overflow whatever marks are there on entry.  The sites marked on entry
    keep their mark, their distance and their label; a site left unmarked
    stays at [ULONG_MAX] and keeps its label.  The start is marked,
    [number_visited] is the number of sites the call has marked, and each of
    them carries the label [cluster_index] and a distance below
    [number_visited] that is its Hamming distance to the start plus an even
    number; unless it is the start, one of its neighbours has been marked by
    the call at a distance one less. *)
Theorem dijkstra_cluster rng p N cidx st start :
  0 <= N < 64 → dij_wf (2 ^ N) st → qlist (dj_queue st) = [] →
  0 <= start < 2 ^ N →
  dj_visited st !! Z.to_nat start = Some false →
  dj_distances st !! Z.to_nat start = Some 0 →
  (∀ x, 0 <= x < 2 ^ N → x ≠ start → dj_visited st !! Z.to_nat x = Some false →
        dj_distances st !! Z.to_nat x = Some ULONG_MAX) →
  dj_number_visited st = 0 →
  ∃ st',
    dijkstra rng p N st start cidx = Done st' ∧
    qlist (dj_queue st') = [] ∧ dj_err st' = 0 ∧
    (∀ i, dj_visited st !! i = Some true →
          dj_visited st' !! i = Some true ∧
          dj_distances st' !! i = dj_distances st !! i ∧
          label_at (dj_labels st') i = label_at (dj_labels st) i) ∧
    (∀ x, 0 <= x < 2 ^ N → dj_visited st' !! Z.to_nat x = Some false →
          dj_distances st' !! Z.to_nat x = Some ULONG_MAX ∧
          label_at (dj_labels st') (Z.to_nat x)
          = label_at (dj_labels st) (Z.to_nat x)) ∧
    new_mark (dj_visited st) (dj_visited st') start ∧
    dj_number_visited st'
    = Z.of_nat (marked (dj_visited st')) - Z.of_nat (marked (dj_visited st)) ∧
    ∀ x, new_mark (dj_visited st) (dj_visited st') x →
      labelled (dj_labels st') (Z.to_nat x) cidx ∧
      ∃ d k, dj_distances st' !! Z.to_nat x = Some d ∧ 0 <= k ∧
             d = hamming N (Z.lxor x start) + 2 * k ∧
             d < dj_number_visited st' ∧
             (x = start ∨
              ∃ i, 0 <= i < N ∧
                   new_mark (dj_visited st) (dj_visited st')
                     (Z.lxor x (Z.shiftl 1 i)) ∧
                   dj_distances st' !! Z.to_nat (Z.lxor x (Z.shiftl 1 i))
                   = Some (d - 1)).
Proof.
  intros HN Hwf Hnil Hstart Hvs Hds Hinf Hnv.
  pose proof (dijkstra_spec rng p N cidx st start HN Hwf Hnil Hstart Hvs Hds Hinf Hnv)
    as Hspec.
  destruct (dijkstra rng p N st start cidx) as [st'| | |] eqn:Hrun; try done.
  destruct Hspec as (Hinv & Hnil' & Hstart').
  pose proof (dijkstra_dist_inv rng p N cidx st start st' HN Hwf Hnil Hstart Hvs Hds
                Hinf Hnv Hrun) as (_ & _ & Hdist).
  pose proof (dijkstra_chain rng p N cidx st start st' HN Hwf Hnil Hstart Hvs Hds
                Hinf Hnv Hrun) as Hchain.
  destruct Hinv as (Hwf' & Hmono & Hcnt0 & Hcnt & Hlab1 & Hlab2 & Hfr & _ & _ & Hun &
                    _ & Herr).
  pose proof Hwf as (_ & _ & Hlv & _). pose proof Hwf' as (_ & _ & Hlv' & _).
  exists st'. split_ands; try done.
  - intros i Hi. pose proof (Hmono _ Hi) as Hi'. split_ands; try done.
    + by apply Hfr.
    + apply Hlab1. congruence.
  - intros x Hx Hv. split.
    + apply Hun; try done. rewrite Hnil'. apply not_elem_of_nil.
    + apply Hlab1. destruct (site_index_Z _ _ _ Hlv Hx) as [[] Hb]; [|congruence].
      apply Hmono in Hb. congruence.
  - unfold new_mark. split_ands; [lia|done|done].
  - lia.
  - intros x Hx. pose proof Hx as (Hx0 & Hxv & Hxv'). split.
    + by apply Hlab2.
    + destruct (Hdist x (or_intror Hx)) as (d & k & Hd & Hk & Hh & _ & Hlt).
      exists d, k. split_ands; try done; [by apply Hlt|].
      destruct (Hchain x (or_intror Hx)) as [->|(i & du & Hi & Hy & Hdy & Hdx)];
        [by left|right].
      exists i. split_ands; try done; try lia.
      rewrite Hdy. f_equal. assert (d = du + 1) by congruence. lia.
Qed.

Lemma dijkstra_cluster_witness :
  ∃ st', dijkstra alternating (1 # 2) 3 (dijkstra_start 3) 0 0 = Done st' ∧
         qlist (dj_queue st') = [] ∧
         new_mark (dj_visited (dijkstra_start 3)) (dj_visited st') 0.
Proof.
  destruct (dijkstra_start_entry 3 ltac:(lia)) as (H1 & H2 & H3 & H4 & H5 & _).
  destruct (dijkstra_cluster alternating (1 # 2) 3 0 (dijkstra_start 3) 0
              ltac:(lia) H1 H2 ltac:(lia) H3 H4 H5 eq_refl)
    as (st' & Hrun & Hq & _ & _ & _ & Hnew & _).
  exists st'. split; [exact Hrun|]. split; [exact Hq|exact Hnew].
Defined.

(** ** grow_H_cluster: the cluster of one call *)

(** X14: a call of [grow_H_cluster] with [size = 0] that returns by its
    normal exit was entered with an empty stack and leaves it empty, with
    its capacity and the error flag as they were.  The start is marked and
    no earlier mark is cleared; a site whose mark has not changed keeps its
    label; [size] is the number of sites the call has marked; each of them
    carries the label [cluster_index] and is reached from the start along
    links of the hypercube recorded as 1 that leave sites marked by the
    call.  A cell that has changed lies on a link and holds 0 or 1; the
    cells in the row and the column of a site marked on entry have not
    changed; a symmetric matrix stays symmetric; and if every cell that is
    not 0 joined two marked sites of one label, that still holds. *)
Theorem grow_H_cluster_contract rng p N cidx st start st' :
  0 <= N < 64 → grow_wf (2 ^ N) st → g_size st = 0 →
  0 < stack_length (g_stack st) → 0 <= start < 2 ^ N →
  edges_within st →
  grow_H_cluster rng p N st start cidx = Done st' →
  stack_top (g_stack st) = 0 ∧ stack_top (g_stack st') = 0 ∧
  stack_length (g_stack st') = stack_length (g_stack st) ∧
  g_error_flag st' = g_error_flag st ∧
  g_visited st' !! Z.to_nat start = Some true ∧
  (∀ i, g_visited st !! i = Some true → g_visited st' !! i = Some true) ∧
  (∀ i, g_visited st' !! i = g_visited st !! i →
        label_at (g_labels st') i = label_at (g_labels st) i) ∧
  g_size st'
  = Z.of_nat (marked (g_visited st')) - Z.of_nat (marked (g_visited st)) ∧
  (∀ x, new_mark (g_visited st) (g_visited st') x →
        labelled (g_labels st') (Z.to_nat x) cidx ∧
        epath (g_link N (g_matrix st') (g_visited st) (g_visited st')) start x) ∧
  cells_ok N (g_matrix st) (g_matrix st') ∧
  (∀ x y, g_visited st !! Z.to_nat x = Some true →
          nd_get (g_matrix st') x y = nd_get (g_matrix st) x y ∧
          nd_get (g_matrix st') y x = nd_get (g_matrix st) y x) ∧
  (symmetric (g_matrix st) → symmetric (g_matrix st')) ∧
  edges_within st'.
Proof.
  intros HN Hwf Hsz Hcap Hstart Hedges Hg.
  destruct (grow_H_cluster_spec _ _ _ _ _ _ _ HN Hwf Hsz Hstart Hg)
    as (Htop & Hinv & Htop' & Hvis).
  destruct (grow_H_cluster_cluster _ _ _ _ _ _ _ HN Hwf Hsz Hstart Hg)
    as [Hcells Hpaths].
  pose proof (grow_H_cluster_edges _ _ _ _ _ _ _ HN Hwf Hsz Hstart Hedges Hg)
    as Hedges'.
  destruct Hinv as (Hwf' & Hmono & _ & Hcnt & Hlab1 & Hlab2 & Hfr & Hsym & Herr & _ &
                    _ & Hlen).
  split_ands; try done.
  - by apply Hvis.
  - lia.
  - intros x Hx. pose proof Hx as (_ & Hx0 & Hx1). split; [by apply Hlab2|].
    by apply Hpaths.
Qed.

Lemma grow_H_cluster_contract_witness :
  ∃ st', grow_H_cluster alternating (1 # 2) 3 (grow_init (2 ^ 3) None) 0 0 = Done st' ∧
         stack_top (g_stack st') = 0 ∧
         g_visited st' !! Z.to_nat 0 = Some true.
Proof.
  assert (Hwf : grow_wf (2 ^ 3) (grow_init (2 ^ 3) None)).
  { unfold grow_wf, grow_init, reset_visited. simpl.
    split_ands; try done; try (by apply Forall_nil);
      try (apply (setup_stack_wf 8); lia). }
  assert (Hedges : edges_within (grow_init (2 ^ 3) None)).
  { intros x y Hne. exfalso. apply Hne. unfold nd_get. simpl. by rewrite lookup_empty. }
  assert (Hret : run_done (grow_H_cluster alternating (1 # 2) 3
                             (grow_init (2 ^ 3) None) 0 0) = true)
    by (vm_compute; reflexivity).
  destruct (grow_H_cluster alternating (1 # 2) 3 (grow_init (2 ^ 3) None) 0 0)
    as [st'| | |] eqn:Hd; try discriminate Hret.
  exists st'. split; [reflexivity|].
  destruct (grow_H_cluster_contract alternating (1 # 2) 3 0 (grow_init (2 ^ 3) None) 0
              st' ltac:(lia) Hwf eq_refl ltac:(simpl; lia) ltac:(lia) Hedges Hd)
    as (_ & Ht & _ & _ & Hv & _).
  split; [exact Ht|exact Hv].
Defined.

(** ** hypercube_dijkstra_LC at [p = 0] *)

Lemma dijkstra_p0_size rng N cidx st start st' :
  uniform_range rng →
  0 <= N < 64 → dij_wf (2 ^ N) st → qlist (dj_queue st) = [] →
  0 <= start < 2 ^ N →
  dj_visited st !! Z.to_nat start = Some false →
  dj_distances st !! Z.to_nat start = Some 0 →
  (∀ x, 0 <= x < 2 ^ N → x ≠ start → dj_visited st !! Z.to_nat x = Some false →
        dj_distances st !! Z.to_nat x = Some ULONG_MAX) →
  dj_number_visited st = 0 →
  dijkstra rng 0 N st start cidx = Done st' →
  dj_number_visited st' = 1.
Proof.
  intros Hrng HN Hwf Hnil Hstart Hvs Hds Hinf Hnv Hrun.
  pose proof (dijkstra_spec rng 0 N cidx st start HN Hwf Hnil Hstart Hvs Hds Hinf Hnv)
    as Hspec.
  rewrite Hrun in Hspec. destruct Hspec as (_ & Hnil' & _).
  set (P := λ s : dij_state,
         (qlist (dj_queue s) = [start] ∧ dj_number_visited s = 0) ∨
         (qlist (dj_queue s) = [] ∧ dj_number_visited s = 1)).
  assert (HP : P st').
  { refine (dijkstra_rule rng 0 N cidx st start P
              (λ _ _ _ s, qlist (dj_queue s) = [] ∧ dj_number_visited s = 1)
              HN Hwf Hnil Hstart Hvs Hds Hinf Hnv _ _ _ _ st' Hrun).
    - intros s u du s2 _ _ [[Hq Hn]|[Hq Hn]] _ (Hqs & _ & _ & _ & _ & _ & Hn2) _ _.
      + rewrite Hq in Hqs. injection Hqs as _ <-. split; [done|lia].
      + rewrite Hq in Hqs. done.
    - intros u du i s s1 _ _ _ _ _ _ _ [Hq Hn] (_ & Hn1 & Hstep).
      destruct Hstep as [(_ & Hq1 & _)|(Hdraw & _)].
      + split; [by rewrite Hq1|by rewrite Hn1].
      + rewrite Qltb_zero in Hdraw by apply Hrng. done.
    - intros u du s _ HR. by right.
    - intros s1 Hq1 _ _ Hn1. left. split; [done|by rewrite Hn1]. }
  destruct HP as [[Hq _]|[_ Hn]]; [|done]. rewrite Hnil' in Hq. done.
Qed.

Lemma dijkstra_one_p0 rng N site cidx e e' sz :
  uniform_range rng → 0 <= N < 64 →
  Inv_D N e → 0 <= site < 2 ^ N →
  dj_visited e !! Z.to_nat site = Some false →
  dijkstra_one rng 0 N site cidx e = Done (e', sz) → sz = 1.
Proof.
  intros Hrng HN (Hwf & Hnil & Hun) Hsite Hv.
  pose proof Hwf as (Hq & Hcap & Hlv & Hld & Hll & Hrange).
  unfold dijkstra_one.
  destruct (Nat.ltb_spec (Z.to_nat site) (base.length (dj_distances e))); [|lia].
  simpl.
  set (st0 := mk_dij (dj_queue e) (dj_visited e)
                (<[Z.to_nat site := 0]> (dj_distances e)) 0 (dj_labels e) 0 (dj_pos e)).
  assert (H1 : dij_wf (2 ^ N) st0).
  { unfold dij_wf, st0. simpl. rewrite length_insert. done. }
  assert (H4 : dj_distances st0 !! Z.to_nat site = Some 0).
  { unfold st0. simpl. by apply list_lookup_insert_eq. }
  assert (H5 : ∀ x, 0 <= x < 2 ^ N → x ≠ site →
            dj_visited st0 !! Z.to_nat x = Some false →
            dj_distances st0 !! Z.to_nat x = Some ULONG_MAX).
  { unfold st0. simpl. intros x Hx Hne Hxv.
    rewrite list_lookup_insert_ne by lia. by apply Hun. }
  destruct (dijkstra rng 0 N st0 site cidx) as [st'| | |] eqn:Hrun; try done.
  intros [= <- <-].
  exact (dijkstra_p0_size rng N cidx st0 site st' Hrng HN H1 Hnil Hsite Hv H4 H5
           eq_refl Hrun).
Qed.

(** X15: with [p = 0], [hypercube_dijkstra_LC] returns the array of the one
    entry 0, for every dimension below 64 and every sequence of variates in
    [[0,1)]: every cluster is a single site, and the first one stays
    selected. *)
Theorem hypercube_dijkstra_LC_p0 rng N :
  uniform_range rng → 0 <= N < 64 →
  hypercube_dijkstra_LC rng 0 N = Done (Some [0]).
Proof.
  intros Hrng HN.
  assert (Hargs : check_args N 1 0 = true) by (by apply check_args_true).
  pose proof (pow2_le_modulus N HN) as [Hp0 Hp1].
  destruct (dijkstra_LC_enumerate_total rng 0 N true HN) as (st & c & He).
  pose proof He as He'. unfold dijkstra_LC_enumerate in He'.
  rewrite intpower_2 in He' by done.
  destruct (enumerate_rule dj_visited (dijkstra_one rng 0 N) (2 ^ N) true
              (λ e c s, dijkstra_LC_inv N e c s ∧ largest_cluster_size c <= 1))
    with (k := Z.to_nat (2 ^ N)) (site := 0) (e1 := st) (c1 := c)
         (e := dij_init (2 ^ N) (Some (replicate (Z.to_nat (2 ^ N)) ULONG_MAX)))
         (c := lc_start)
    as (site' & Hs' & [HJ Hone] & Hend); try done; try lia.
  - intros e0 c0 s0 [HJ Hle] Hs Hv. split; [|done].
    apply dijkstra_LC_inv_skip; [done|lia|done].
  - intros e0 c0 s0 e1 sz [HJ Hle] Hs Hv Hg. split.
    + by apply (dijkstra_LC_inv_grow rng 0 N e0 c0 s0 e1 sz).
    + destruct HJ as (HI & _).
      rewrite (dijkstra_one_p0 rng N s0 (cluster_index c0) e0 e1 sz Hrng HN HI Hs Hv Hg).
      unfold lc_update. destruct (Z.ltb_spec (largest_cluster_size c0) 1); simpl; lia.
  - split; [by apply dijkstra_LC_inv_start|]. simpl. lia.
  - assert (Hsite' : 0 < site') by (destruct Hend as [->|[? _]]; lia).
    assert (Hend' : site' = 2 ^ N ∨ lc_exit (2 ^ N) c = true).
    { destruct Hend as [?|[_ ?]]; [by left|by right]. }
    destruct (dijkstra_LC_end rng 0 N st c site' Hargs He HJ Hsite' Hend')
      as (out & Hout & _ & Hlen & Hl1 & H0 & _).
    rewrite Hout. do 2 f_equal.
    destruct out as [|d [|d' out]]; simpl in *; try lia.
    by injection H0 as ->.
Qed.

Lemma hypercube_dijkstra_LC_p0_witness :
  hypercube_dijkstra_LC (always 0) 0 3 = Done (Some [0]).
Proof. apply (hypercube_dijkstra_LC_p0 (always 0) 3 uniform_always_zero). lia. Defined.

(** ** hypercube_dijkstra_LC at [p = 1] *)

Lemma enumerate_first {E : Type} (visited_of : E → list bool)
    (grow_one : Z → Z → E → run (E * Z)) (NH : Z) k site e c e' sz :
  visited_of e !! Z.to_nat site = Some false →
  grow_one site (cluster_index c) e = Done (e', sz) →
  lc_exit NH (lc_update c sz) = true →
  enumerate visited_of grow_one NH true (S k) site e c = Done (e', lc_update c sz).
Proof. intros Hv Hg Hx. simpl. by rewrite Hv, Hg, Hx. Qed.

(** X16: with [p = 1], [hypercube_dijkstra_LC] returns the Hamming weights
    of the sites [0 .. 2^N - 1], in that order, for every dimension below 64
    and every sequence of variates in [[0,1)]: the cluster of site 0 is the
    whole hypercube and the enumeration stops after it. *)
Theorem hypercube_dijkstra_LC_p1 rng N :
  uniform_range rng → 0 <= N < 64 →
  hypercube_dijkstra_LC rng 1 N = Done (Some (map (hamming N) (seqZ 0 (2 ^ N)))).
Proof.
  intros Hrng HN.
  assert (Hargs : check_args N 1 1 = true) by (by apply check_args_true).
  pose proof (pow2_le_modulus N HN) as [Hp0 Hp1]. pose proof ULONG_MAX_eq as HU.
  set (e0 := dij_init (2 ^ N) (Some (replicate (Z.to_nat (2 ^ N)) ULONG_MAX))).
  pose proof (Inv_D_init N HN) as HI. fold e0 in HI.
  assert (Hv0 : ∀ j, dj_visited e0 !! j ≠ Some true).
  { intros j Hj. unfold e0, dij_init, reset_visited in Hj. simpl in Hj.
    apply lookup_replicate in Hj as [? _]. done. }
  assert (Hs0 : dj_visited e0 !! Z.to_nat 0 = Some false).
  { unfold e0, dij_init, reset_visited. simpl. apply lookup_replicate.
    split; [done|lia]. }
  assert (Hfresh : ∀ i, 0 <= i < 2 ^ N → label_is (dj_labels e0) 0 i = false).
  { intros i Hi. apply (label_is_sentinel N); try done; try lia.
    unfold e0. simpl. apply lookup_replicate. split; [done|lia]. }
  assert (H00 : 0 <= 0 < 2 ^ N) by lia.
  destruct (dijkstra_one_total rng 1 N 0 0 e0 HN HI H00 H00 Hs0)
    as (e1 & sz & Hone).
  destruct (dijkstra_one_spec _ _ _ _ _ _ _ _ HN HI H00 H00 Hs0 Hone)
    as (HI1 & Hm & Hsz & _).
  destruct (dijkstra_one_cluster _ _ _ _ _ _ _ _ HN HI H00 H00 Hs0
              Hfresh Hone)
    as (_ & _ & _ & Hiff & _ & Hcount).
  assert (Hfull : ∀ x, 0 <= x < 2 ^ N →
            dj_visited e1 !! Z.to_nat x = Some true ∧
            dj_distances e1 !! Z.to_nat x = Some (hamming N x)).
  { destruct HI as (Hwf & Hnil & Hun).
    pose proof Hwf as (Hq & Hcap & Hlv & Hld & Hll & Hrange).
    revert Hone. unfold dijkstra_one.
    destruct (Nat.ltb_spec (Z.to_nat 0) (base.length (dj_distances e0))); [|lia].
    simpl negb. cbv iota.
    set (st0 := mk_dij (dj_queue e0) (dj_visited e0)
                  (<[Z.to_nat 0 := 0]> (dj_distances e0)) 0 (dj_labels e0) 0
                  (dj_pos e0)).
    assert (H1 : dij_wf (2 ^ N) st0).
    { unfold dij_wf, st0. simpl. rewrite length_insert. done. }
    assert (H4 : dj_distances st0 !! Z.to_nat 0 = Some 0).
    { apply (list_lookup_insert_eq (dj_distances e0)). exact H. }
    assert (H5 : ∀ x, 0 <= x < 2 ^ N → x ≠ 0 →
              dj_visited st0 !! Z.to_nat x = Some false →
              dj_distances st0 !! Z.to_nat x = Some ULONG_MAX).
    { unfold st0. simpl. intros x Hx Hne Hxv.
      rewrite list_lookup_insert_ne by lia. by apply Hun. }
    destruct (dijkstra rng 1 N st0 0 0) as [st'| | |] eqn:Hrun; try done.
    intros [= <- <-]. intros x Hx.
    destruct (dijkstra_full rng N 0 st0 0 st' Hrng HN H1 Hnil ltac:(lia) Hv0 H4 H5
                eq_refl Hrun x Hx) as [Hv Hd].
    by rewrite Z.lxor_0_r in Hd. }
  pose proof HI1 as ((_ & _ & Hlv1 & Hld1 & _) & _).
  assert (Hsz' : sz = 2 ^ N).
  { assert (Hm0 : marked (dj_visited e0) = 0%nat).
    { unfold e0, dij_init, reset_visited. simpl. apply marked_replicate_false. }
    rewrite Hm0 in Hm. rewrite (marked_all (dj_visited e1)) in Hm; [lia|].
    intros i Hi. destruct (Hfull (Z.of_nat i) ltac:(lia)) as [Hv _].
    by rewrite Nat2Z.id in Hv. }
  rewrite Hsz' in Hone, Hcount.
  assert (Hc1 : lc_update lc_start (2 ^ N) = mk_lc 0 (2 ^ N) 1 (2 ^ N)).
  { unfold lc_update, lc_start.
    cbn [largest_cluster_size cluster_index total_size largest_cluster_index].
    destruct (Z.ltb_spec 0 (2 ^ N)); [|lia].
    rewrite !Z.add_0_l, (wrap_small (2 ^ N)) by lia. done. }
  assert (He : dijkstra_LC_enumerate rng 1 N true
               = Done (e1, mk_lc 0 (2 ^ N) 1 (2 ^ N))).
  { unfold dijkstra_LC_enumerate. rewrite intpower_2 by done. fold e0.
    destruct (Z.to_nat (2 ^ N)) as [|k] eqn:Hk; [lia|].
    rewrite <- Hc1. apply enumerate_first; [exact Hs0|exact Hone|].
    rewrite Hc1. unfold lc_exit.
    cbn [largest_cluster_size total_size].
    rewrite Z.sub_diag. change (wrap 0) with 0. apply Z.leb_le. lia. }
  unfold hypercube_dijkstra_LC, dijkstra_LC_with. rewrite Hargs, He. simpl.
  rewrite intpower_2 by done.
  unfold labelled_count in Hcount.
  rewrite copy_distances_eq; try lia.
  - simpl. rewrite drop_ge by (rewrite length_replicate; lia).
    rewrite app_nil_r. do 2 f_equal.
    replace (2 ^ N) with (Z.of_nat (Z.to_nat (2 ^ N))) at 2 by lia.
    apply kept_distances_all. intros j Hj.
    destruct (Hfull j ltac:(lia)) as [Hv Hd]. split.
    + apply (Hiff j ltac:(lia)). unfold new_mark. split_ands; [lia| |done].
      destruct (dj_visited e0 !! Z.to_nat j) as [[]|] eqn:Hb; try done.
      * by destruct (Hv0 _ Hb).
      * apply lookup_lt_Some in Hv. apply lookup_ge_None in Hb.
        destruct HI as ((_ & _ & Hlv0 & _) & _). lia.
    + by apply list_lookup_total_correct.
  - intros j Hj _. apply lookup_lt_is_Some. lia.
  - rewrite length_replicate. lia.
  - rewrite length_replicate. lia.
Qed.

Lemma hypercube_dijkstra_LC_p1_witness :
  hypercube_dijkstra_LC (always 0) 1 3 = Done (Some [0; 1; 1; 2; 1; 2; 2; 3]).
Proof. apply (hypercube_dijkstra_LC_p1 (always 0) 3 uniform_always_zero). lia. Defined.

(** ** hypercube_H_LC at [p = 0] *)

Lemma grow_H_cluster_p0 rng N cidx st start :
  uniform_range rng → 0 <= N < 64 →
  grow_wf (2 ^ N) st → stack_top (g_stack st) = 0 →
  0 < stack_length (g_stack st) → g_error_flag st ≠ -1 →
  0 <= start < 2 ^ N →
  g_visited st !! Z.to_nat start = Some false →
  (∀ x y, nd_get (g_matrix st) x y = 0) →
  ∃ st', grow_H_cluster rng 0 N st start cidx = Done st' ∧
         g_size st' = wrap (g_size st + 1) ∧
         (∀ x y, nd_get (g_matrix st') x y = 0).
Proof.
  intros Hrng HN Hwf Htop Hcap Herr Hstart Hv Hz.
  pose proof (pow2_le_modulus N HN) as [Hp0 Hp1].
  pose proof Hwf as (Hs & Hlen & Hrange & Hrows & Hcols & Hll).
  rewrite grow_H_cluster_unfold by done. cbv zeta.
  destruct (push_ok (g_stack st) start Hs ltac:(lia))
    as (s1 & Hp & Hs1 & Ht1 & Hl1 & Hsl1).
  rewrite Hp. cbn [fst].
  unfold grow_fuel. cbn [g_stack g_visited]. rewrite Ht1, Htop.
  replace (Z.to_nat (0 + 1)) with 1%nat by lia.
  cbn [Nat.add grow_loop g_stack]. rewrite Ht1, Htop.
  destruct (Z.ltb_spec 0 (0 + 1)); [|lia].
  unfold grow_body. cbn [g_stack g_error_flag].
  destruct (pop_ok s1 (g_error_flag st) Hs1 ltac:(lia))
    as (u & s2 & Hp2 & Hs2 & Ht2 & Hl2 & Hsl2).
  rewrite Hp2.
  assert (Hu : u = start).
  { rewrite Hsl1 in Hsl2.
    assert (Hnil : slist (g_stack st) = []) by (unfold slist; by rewrite Htop).
    assert (Hnil2 : slist s2 = []).
    { unfold slist. replace (Z.to_nat (stack_top s2)) with 0%nat by lia. done. }
    rewrite Hnil, Hnil2 in Hsl2. simpl in Hsl2. congruence. }
  subst u.
  destruct (Z.eqb_spec (g_error_flag st) (-1)); [done|].
  cbn [g_visited g_labels g_matrix g_pyerr g_pos g_size]. rewrite Hv.
  assert (Hw : ∃ labels', write_label (g_labels st) start cidx = Some labels').
  { unfold write_label. destruct (g_labels st) as [l|] eqn:Hl; [|by eexists].
    unfold labels_len in Hll.
    destruct (Nat.ltb_spec (Z.to_nat start) (base.length l)); [by eexists|lia]. }
  destruct Hw as [labels' Hw]. rewrite Hw.
  match goal with |- context [grow_neighbours rng 0 ?k 0 start ?st1] =>
    destruct (grow_neighbours_p0 rng N k 0 start st1 Hrng) as (st' & Hn & H1 & H2 & H3 & H4)
  end; try done; try lia.
  { cbn [g_visited]. by rewrite length_insert. }
  rewrite Hn. cbn [g_stack g_size] in H1, H3.
  rewrite H1. destruct (Z.ltb_spec 0 (stack_top s2)); [lia|].
  exists st'. split_ands; try done.
Qed.

(** The enumeration returns when its engine does. *)
Section EnumerateTotal.
Context {E : Type}.
Variable visited_of : E → list bool.
Variable grow_one : Z → Z → E → run (E * Z).
Variable NH : Z.
Variable b : bool.
Variable J : E → lc_counters → Z → Prop.

Hypothesis J_site :
  ∀ e c site, J e c site → 0 <= site < NH →
    is_Some (visited_of e !! Z.to_nat site).
Hypothesis J_skip :
  ∀ e c site, J e c site → 0 <= site < NH →
    visited_of e !! Z.to_nat site = Some true → J e c (site + 1).
Hypothesis J_grow :
  ∀ e c site, J e c site → 0 <= site < NH →
    visited_of e !! Z.to_nat site = Some false →
    ∃ e' sz, grow_one site (cluster_index c) e = Done (e', sz) ∧
             J e' (lc_update c sz) (site + 1).

Lemma enumerate_total_rule k site e c :
  J e c site → 0 <= site → site + Z.of_nat k = NH →
  ∃ e1 c1 site',
    enumerate visited_of grow_one NH b k site e c = Done (e1, c1) ∧
    site <= site' <= NH ∧ J e1 c1 site' ∧
    (site' = NH ∨ (site < site' ∧ lc_exit NH c1 = true)).
Proof.
  revert site e c. induction k as [|k IH]; intros site e c HJ Hsite Hk; simpl.
  { exists e, c, site. split_ands; [done|lia|lia|done|left; lia]. }
  destruct (J_site e c site HJ ltac:(lia)) as [[] Hv]; rewrite Hv.
  { assert (HJ' : J e c (site + 1)) by (apply J_skip; try done; lia).
    destruct (IH (site + 1) e c HJ' ltac:(lia) ltac:(lia))
      as (e1 & c1 & s' & He & Hs' & HJ2 & Hend).
    exists e1, c1, s'. split_ands; try done; try lia.
    destruct Hend as [|[? ?]]; [by left|right; split; [lia|done]]. }
  destruct (J_grow e c site HJ ltac:(lia) Hv) as (e' & sz & Hg & HJ').
  rewrite Hg.
  destruct (b && lc_exit NH (lc_update c sz)) eqn:Hexit.
  - apply andb_true_iff in Hexit as [_ Hexit].
    exists e', (lc_update c sz), (site + 1).
    split_ands; try done; try lia. right. split; [lia|done].
  - destruct (IH (site + 1) e' (lc_update c sz) HJ' ltac:(lia) ltac:(lia))
      as (e1 & c1 & s' & He & Hs' & HJ2 & Hend).
    exists e1, c1, s'. split_ands; try done; try lia.
    destruct Hend as [|[? ?]]; [by left|right; split; [lia|done]].
Qed.
End EnumerateTotal.

(** The copy loops of lines 484-499 stay within the two matrices when the
    counter [int k] does not pass [INT_MAX]. *)
Lemma copy_row_total n k i h lc :
  0 <= k → k + Z.of_nat n <= 2 ^ 31 - 1 →
  0 <= i < nd_rows h → k + Z.of_nat n <= nd_cols h →
  k + Z.of_nat n <= nd_rows lc → i < nd_cols lc →
  ∃ h' lc', copy_row n k i h lc = Some (h', lc') ∧
            nd_rows h' = nd_rows h ∧ nd_cols h' = nd_cols h ∧
            nd_rows lc' = nd_rows lc ∧ nd_cols lc' = nd_cols lc.
Proof.
  revert k h lc. induction n as [|n IH]; intros k h lc Hk Hmax Hi Hc Hr Hic; simpl.
  { by exists h, lc. }
  destruct (Z.leb_spec (2 ^ 31 - 1) k); [lia|].
  assert (H1 : nd_in_range h i k = true).
  { unfold nd_in_range.
    destruct (Z.leb_spec 0 i); [|lia]. destruct (Z.ltb_spec i (nd_rows h)); [|lia].
    destruct (Z.leb_spec 0 k); [|lia]. destruct (Z.ltb_spec k (nd_cols h)); [|lia].
    done. }
  assert (H2 : nd_in_range lc k i = true).
  { unfold nd_in_range.
    destruct (Z.leb_spec 0 k); [|lia]. destruct (Z.ltb_spec k (nd_rows lc)); [|lia].
    destruct (Z.leb_spec 0 i); [|lia]. destruct (Z.ltb_spec i (nd_cols lc)); [|lia].
    done. }
  rewrite H1, H2. simpl.
  destruct (IH (k + 1) (nd_set h i k (nd_get h i k)) (nd_set lc k i (nd_get h i k)))
    as (h' & lc' & Hcr & ? & ? & ? & ?); simpl; try lia.
  by exists h', lc'.
Qed.

Lemma copy_cluster_total NH keep n i h lc :
  0 <= i → i + Z.of_nat n <= NH → NH <= 2 ^ 31 - 1 →
  nd_rows h = NH → nd_cols h = NH → nd_rows lc = NH → nd_cols lc = NH →
  ∃ h' lc', copy_cluster NH keep n i h lc = Some (h', lc').
Proof.
  revert i h lc. induction n as [|n IH]; intros i h lc Hi Hn Hmax Hr Hc Hr' Hc'; simpl.
  { by exists h, lc. }
  destruct (keep i).
  - destruct (copy_row_total (Z.to_nat NH) 0 i h lc)
      as (h1 & lc1 & Hcr & ? & ? & ? & ?); try lia.
    rewrite Hcr. apply IH; try lia; congruence.
  - apply IH; try done; lia.
Qed.

(** X17: with [p = 0], [hypercube_H_LC] returns a matrix of zeros and the
    size 1, for every dimension up to 30 and every sequence of variates in
    [[0,1)]: every cluster is a single site, the stack never holds more than
    one site, and with [2^N <= INT_MAX] the counter [int k] of the copy loop
    does not overflow. *)
Theorem hypercube_H_LC_p0 rng N :
  uniform_range rng → 0 <= N <= 30 →
  ∃ a, hypercube_H_LC rng 0 N = Done (Some (a, 1)) ∧ ∀ x y, nd_get a x y = 0.
Proof.
  intros Hrng HN30. assert (HN : 0 <= N < 64) by lia.
  assert (Hargs : check_args N 1 0 = true) by (by apply check_args_true).
  pose proof (pow2_le_modulus N HN) as Hp. pose proof Hp as [Hp0 Hp1].
  assert (Hint : 2 ^ N <= 2 ^ 31 - 1).
  { assert (2 ^ N <= 2 ^ 30) by (apply Z.pow_le_mono_r; lia). lia. }
  set (J := λ (e : grow_state) (c : lc_counters) (site : Z),
         Inv_H N e ∧ lc_inv (g_visited e) c site ∧
         (∀ x y, nd_get (g_matrix e) x y = 0) ∧ g_error_flag e = 0 ∧
         (0 < total_size c → largest_cluster_size c = 1) ∧
         (0 < site → 0 < total_size c)).
  destruct (enumerate_total_rule g_visited (grow_one_H rng 0 N) (2 ^ N) true J)
    with (k := Z.to_nat (2 ^ N)) (site := 0)
         (e := grow_init (2 ^ N) (Some (replicate (Z.to_nat (2 ^ N)) ULONG_MAX)))
         (c := lc_start)
    as (st & c & site' & He & Hs' & HJ & Hend); try lia.
  - intros e c site (HI & _) Hsite. apply lookup_lt_is_Some.
    rewrite (Inv_H_length N e HI). lia.
  - intros e c site (HI & Hlc & Hz & Herr & Hone & Hpos) Hsite Hv.
    unfold J. split_ands; try done.
    + destruct Hlc as (? & ? & ? & ? & ?). unfold lc_inv. split_ands; try done; lia.
    + intros _. destruct Hlc as (Ht & _). rewrite Ht.
      pose proof (marked_pos _ _ Hv). lia.
  - intros e c site (HI & Hlc & Hz & Herr & Hone & Hpos) Hsite Hv.
    pose proof HI as (Hwf & Htop & Hcap & _).
    pose proof Hlc as (Ht & Hci & Hli & Hls & Hl).
    set (st0 := mk_grow (g_stack e) (g_visited e) (g_matrix e) (g_labels e)
                  (g_error_flag e) (g_pyerr e) (g_pos e) 0).
    destruct (grow_H_cluster_p0 rng N (cluster_index c) st0 site Hrng HN)
      as (st' & Hg & Hsz & Hz'); try done.
    { unfold st0. simpl. lia. }
    assert (Hone' : grow_one_H rng 0 N site (cluster_index c) e = Done (st', 1)).
    { unfold grow_one_H. fold st0. rewrite Hg, Hsz. done. }
    exists st', 1. split; [done|].
    assert (Hcidx : 0 <= cluster_index c < 2 ^ N) by lia.
    destruct (grow_one_H_spec _ _ _ _ _ _ _ _ HN HI Hsite Hcidx Hv Hone')
      as (HI' & Hm & _ & _).
    destruct (lc_update_inv g_visited (2 ^ N) (Inv_H N) Hp (Inv_H_length N)
                e st' c 1 site HI HI' Hlc Hsite ltac:(lia) Hm)
      as (Hlc' & _ & Ht' & _).
    assert (Hwf0 : grow_wf (2 ^ N) st0) by exact Hwf.
    destruct (grow_H_cluster_spec _ _ _ _ _ _ _ HN Hwf0 eq_refl Hsite Hg)
      as (_ & Hinv & _).
    destruct Hinv as (_ & _ & _ & _ & _ & _ & _ & _ & Herr' & _).
    unfold J. split_ands; try done.
    + by rewrite Herr'.
    + intros _. unfold lc_update.
      destruct (Z.ltb_spec (largest_cluster_size c) 1); simpl; [done|].
      apply Hone. lia.
    + intros _. lia.
  - unfold J. split_ands.
    + by apply Inv_H_init.
    + apply lc_inv_start.
    + intros x y. unfold nd_get. simpl. by rewrite lookup_empty.
    + done.
    + simpl. lia.
    + lia.
  - destruct HJ as (HI & Hlc & Hz & Herr & Hone & Hpos).
    assert (Hsite' : 0 < site') by (destruct Hend as [->|[? _]]; lia).
    pose proof HI as ((_ & _ & _ & Hrows & Hcols & _) & _).
    unfold hypercube_H_LC, H_LC_with. rewrite Hargs. simpl.
    unfold H_LC_enumerate. rewrite intpower_2 by done. rewrite He.
    unfold H_LC_copy. rewrite intpower_2 by done.
    destruct (copy_cluster_total (2 ^ N)
                (label_is (g_labels st) (largest_cluster_index c))
                (Z.to_nat (2 ^ N)) 0 (g_matrix st) (PyArray_ZEROS (2 ^ N) (2 ^ N)))
      as (h & lc & Hc); try done; try lia.
    rewrite Hc. simpl. rewrite (Hone (Hpos Hsite')).
    exists lc. split; [done|]. intros x y.
    destruct (copy_cluster_get (2 ^ N) _ _ _ _ _ _ _ ltac:(lia) Hc) as [_ Hget].
    rewrite Hget. destruct (decide _); [apply Hz|].
    unfold nd_get. simpl. by rewrite lookup_empty.
Qed.

Lemma hypercube_H_LC_p0_witness :
  ∃ a, hypercube_H_LC (always 0) 0 3 = Done (Some (a, 1)) ∧ ∀ x y, nd_get a x y = 0.
Proof. apply (hypercube_H_LC_p0 (always 0) 3 uniform_always_zero). lia. Defined.

(** ** grow_H_cluster and DFS_hypercube make the same traversal *)

Lemma grow_neighbours_traversal rng p k i u g :
  same_traversal (grow_neighbours rng p k i u g)
    (DFS_neighbours rng p k i u (traversal g)).
Proof.
  revert i g. induction k as [|k IH]; intros i g; [done|].
  cbn [grow_neighbours DFS_neighbours traversal dfs_visited dfs_stack dfs_pos
       dfs_error dfs_pyerr dfs_size].
  unfold grow_edge. cbv zeta. destruct (64 <=? i); [done|].
  destruct (g_visited g !! Z.to_nat (Z.lxor u (Z.shiftl 1 i))) as [[]|];
    [apply IH| |done].
  destruct (negb _); [done|].
  destruct (Qltb (rng (g_pos g)) p).
  - destruct (push (g_stack g) (Z.lxor u (Z.shiftl 1 i))) as [s' r].
    destruct (r =? 1).
    + eexists. split; [reflexivity|]. done.
    + apply (IH (i + 1) (mk_grow s' (g_visited g) _ (g_labels g) (g_error_flag g)
                           (g_pyerr g) (S (g_pos g)) (g_size g))).
  - apply (IH (i + 1) (mk_grow (g_stack g) (g_visited g) _ (g_labels g)
                         (g_error_flag g) (g_pyerr g) (S (g_pos g)) (g_size g))).
Qed.

Lemma grow_body_traversal rng p N cidx g :
  same_traversal (grow_body rng p N cidx g) (DFS_body rng p N (traversal g)).
Proof.
  unfold grow_body, DFS_body. simpl.
  destruct (pop (g_stack g) (g_error_flag g)) as [[u s'] e'].
  destruct (e' =? -1).
  { eexists. split; [reflexivity|]. done. }
  simpl. destruct (g_visited g !! Z.to_nat u) as [[]|]; try done.
  destruct (write_label (g_labels g) u cidx) as [labels'|]; [|done].
  apply (grow_neighbours_traversal rng p (Z.to_nat N) 0 u
           (mk_grow s' (<[Z.to_nat u := true]> (g_visited g)) (g_matrix g) labels' e'
              (g_pyerr g) (g_pos g) (wrap (g_size g + 1)))).
Qed.

Lemma grow_loop_traversal rng p N cidx fuel g :
  same_traversal (grow_loop rng p N cidx fuel g) (DFS_loop rng p N fuel (traversal g)).
Proof.
  revert g. induction fuel as [|fuel IH]; intros g; simpl; [done|].
  destruct (0 <? stack_top (g_stack g)); [|done].
  pose proof (grow_body_traversal rng p N cidx g) as Hb.
  destruct (grow_body rng p N cidx g) as [g1|g1| |]; simpl in Hb.
  - rewrite Hb. apply IH.
  - destruct Hb as (d & -> & Hd). by exists d.
  - done.
  - by rewrite Hb.
Qed.

Lemma grow_H_cluster_traversal rng p N g start cidx :
  g_size g = 0 →
  same_traversal (grow_H_cluster rng p N g start cidx)
    (DFS_hypercube rng p N (g_stack g) (g_visited g) start (g_error_flag g)
       (g_pyerr g) (g_pos g)).
Proof.
  intros Hsz. unfold grow_H_cluster, DFS_hypercube.
  destruct (negb (stack_top (g_stack g) =? 0)).
  { eexists. split; [reflexivity|]. simpl. done. }
  destruct (push (g_stack g) start) as [s1 r].
  rewrite <- Hsz.
  apply (grow_loop_traversal rng p N cidx _
           (mk_grow s1 (g_visited g) (g_matrix g) (g_labels g) (g_error_flag g)
              (g_pyerr g) (g_pos g) (g_size g))).
Qed.

(** X18: [grow_H_cluster] makes the traversal of [DFS_hypercube].  Entered
    with [size = 0] on buffers of [2^N] entries, with the same stack, marks,
    error flag and cursor of the random source, the two functions take the
    same exit: when one returns normally so does the other, with the same
    stack, marks, cursor and size, and one takes its error exit exactly when
    the other does.  The two draw a variate for the same neighbours, in the
    same order. *)
Theorem grow_H_cluster_is_DFS_hypercube rng p N g start cidx :
  0 <= N < 64 → grow_wf (2 ^ N) g → 0 <= start < 2 ^ N →
  g_error_flag g ≠ -1 → g_size g = 0 →
  (∀ g', grow_H_cluster rng p N g start cidx = Done g' →
         DFS_hypercube rng p N (g_stack g) (g_visited g) start (g_error_flag g)
           (g_pyerr g) (g_pos g) = Done (traversal g')) ∧
  (∀ d, DFS_hypercube rng p N (g_stack g) (g_visited g) start (g_error_flag g)
          (g_pyerr g) (g_pos g) = Done d →
        ∃ g', grow_H_cluster rng p N g start cidx = Done g' ∧ d = traversal g') ∧
  ((∃ g', grow_H_cluster rng p N g start cidx = Fail g') ↔
   (∃ d, DFS_hypercube rng p N (g_stack g) (g_visited g) start (g_error_flag g)
           (g_pyerr g) (g_pos g) = Fail d)).
Proof.
  intros HN Hwf Hstart Herr Hsz.
  pose proof (grow_H_cluster_traversal rng p N g start cidx Hsz) as Hsim.
  pose proof (grow_H_cluster_total rng p N g start cidx HN Hwf Hstart Herr) as Htot.
  destruct (grow_H_cluster rng p N g start cidx) as [g'|g'| |]; try done;
    simpl in Hsim.
  - split_ands.
    + by intros g2 [= <-].
    + intros d Hd. exists g'. split; [done|]. congruence.
    + split; [by intros [g2 ?]|]. intros [d Hd]. congruence.
  - destruct Hsim as (d & Hd & _). split_ands.
    + done.
    + intros d' Hd'. congruence.
    + split; [by exists d|by exists g'].
Qed.

Lemma grow_H_cluster_is_DFS_hypercube_witness :
  ∃ g', grow_H_cluster alternating (1 # 2) 3 (grow_init (2 ^ 3) None) 0 0 = Done g' ∧
        DFS_hypercube alternating (1 # 2) 3 (setup_stack (2 ^ 3))
          (reset_visited [] (2 ^ 3)) 0 0 None 0 = Done (traversal g').
Proof.
  assert (Hwf : grow_wf (2 ^ 3) (grow_init (2 ^ 3) None)).
  { unfold grow_wf, grow_init, reset_visited. simpl.
    split_ands; try done; try (by apply Forall_nil);
      try (apply (setup_stack_wf 8); lia). }
  assert (Hret : run_done (grow_H_cluster alternating (1 # 2) 3
                             (grow_init (2 ^ 3) None) 0 0) = true)
    by (vm_compute; reflexivity).
  destruct (grow_H_cluster alternating (1 # 2) 3 (grow_init (2 ^ 3) None) 0 0)
    as [g'| | |] eqn:Hd; try discriminate Hret.
  exists g'. split; [reflexivity|].
  destruct (grow_H_cluster_is_DFS_hypercube alternating (1 # 2) 3
              (grow_init (2 ^ 3) None) 0 0 ltac:(lia) Hwf ltac:(lia)
              ltac:(simpl; lia) eq_refl) as (H1 & _).
  apply H1. exact Hd.
Defined.

(** ** hypercube_H_SC and hypercube_clusters *)

Lemma hypercube_clusters_one rng p N :
  check_args N 1 p = true →
  match DFS_hypercube rng p N (setup_stack (2 ^ N)) (reset_visited [] (2 ^ N)) 0 0
          None 0 with
  | Done st => hypercube_clusters rng p N 1 = Done (Some [dfs_size st])
  | Fail _ => hypercube_clusters rng p N 1 = Done None
  | Undef | Fuel => False
  end.
Proof.
  intros Hargs. pose proof (check_args_range _ _ _ Hargs) as HN.
  pose proof (pow2_le_modulus N HN) as [Hp0 Hp1].
  pose proof (DFS_hypercube_total rng p N (setup_stack (2 ^ N))
                (reset_visited [] (2 ^ N)) 0 0 None 0 HN
                (setup_stack_wf (2 ^ N) ltac:(lia)) eq_refl) as Ht.
  unfold hypercube_clusters. change (wrap 1) with 1. rewrite Hargs.
  simpl negb. cbv iota. rewrite intpower_2 by done.
  change (Z.to_nat 1) with 1%nat. cbn [clusters_loop orb].
  change (1 <? 0) with false. cbv iota.
  destruct (DFS_hypercube rng p N (setup_stack (2 ^ N)) (reset_visited [] (2 ^ N)) 0 0
              None 0) as [st|st| |].
  - destruct Ht as (_ & _ & _ & He & _); try done; try lia.
    { unfold reset_visited. by rewrite length_replicate. }
    rewrite He. done.
  - destruct Ht as (He & _); try done; try lia.
    { unfold reset_visited. by rewrite length_replicate. }
    rewrite He. done.
  - apply Ht; try done; try lia. unfold reset_visited. by rewrite length_replicate.
  - apply Ht; try done; try lia. unfold reset_visited. by rewrite length_replicate.
Qed.

(** X19: for arguments that [check_args] accepts and the same sequence of
    variates, the size that [hypercube_H_SC] returns with its matrix is the
    one entry of the array that [hypercube_clusters] returns for one
    realisation, and conversely; [hypercube_clusters] returns NULL exactly
    when [hypercube_H_SC] goes on with the matrix that [grow_H_cluster] has
    released at its error exit. *)
Theorem hypercube_H_SC_size_is_cluster_size rng p N :
  check_args N 1 p = true →
  (∀ a n, hypercube_H_SC rng p N = Done (Some (a, n)) →
          hypercube_clusters rng p N 1 = Done (Some [n])) ∧
  (∀ n, hypercube_clusters rng p N 1 = Done (Some [n]) →
        ∃ a, hypercube_H_SC rng p N = Done (Some (a, n))) ∧
  (hypercube_clusters rng p N 1 = Done None ↔ hypercube_H_SC rng p N = Undef).
Proof.
  intros Hargs. pose proof (check_args_range _ _ _ Hargs) as HN.
  pose proof (pow2_le_modulus N HN) as [Hp0 Hp1].
  set (g := grow_init (2 ^ N) None).
  assert (Hwf : grow_wf (2 ^ N) g).
  { unfold g, grow_wf, grow_init, reset_visited. simpl. rewrite length_replicate.
    split_ands; try done.
    - apply setup_stack_wf. lia.
    - by apply Forall_nil. }
  pose proof (grow_H_cluster_traversal rng p N g 0 0 eq_refl) as Hsim.
  pose proof (grow_H_cluster_total rng p N g 0 0 HN Hwf ltac:(lia) ltac:(done)) as Htot.
  pose proof (hypercube_clusters_one rng p N Hargs) as Hone.
  cbn [g_error_flag g_pyerr g_pos g_stack g_visited g grow_init] in Hsim.
  unfold hypercube_H_SC. rewrite Hargs. simpl negb. cbv iota.
  rewrite intpower_2 by done. fold g.
  destruct (grow_H_cluster rng p N g 0 0) as [g'|g'| |] eqn:Hg; try done;
    simpl in Hsim.
  - rewrite Hsim in Hone. rewrite Hone. split_ands.
    + by intros a n [= <- <-].
    + intros n [= <-]. by exists (g_matrix g').
    + done.
  - destruct Hsim as (d & Hd & _). rewrite Hd in Hone. rewrite Hone. split_ands.
    + done.
    + done.
    + done.
Qed.

Lemma hypercube_H_SC_size_is_cluster_size_witness :
  ∃ a n, hypercube_H_SC alternating (1 # 2) 3 = Done (Some (a, n)) ∧
         hypercube_clusters alternating (1 # 2) 3 1 = Done (Some [n]).
Proof.
  assert (Hret : returns_object (hypercube_H_SC alternating (1 # 2) 3) = true)
    by (vm_compute; reflexivity).
  destruct (hypercube_H_SC alternating (1 # 2) 3) as [[[a n]|]| | |] eqn:Hd;
    try discriminate Hret.
  exists a, n. split; [reflexivity|].
  exact (proj1 (hypercube_H_SC_size_is_cluster_size alternating (1 # 2) 3 eq_refl)
           a n Hd).
Defined.

(** * The guard, the capacity of the stack and the clusters *)

(** ** The exception of the guard

    The message of the exception is written by the guard only: the loops
    leave it as it is, by every exit. *)

Lemma DFS_neighbours_pyerr rng p k i u st :
  match DFS_neighbours rng p k i u st with
  | Done st' | Fail st' => dfs_pyerr st' = dfs_pyerr st
  | Undef | Fuel => True
  end.
Proof.
  revert i st. induction k as [|k IH]; intros i st; simpl; [done|].
  destruct (64 <=? i); [done|].
  destruct (dfs_visited st !! Z.to_nat (Z.lxor u (Z.shiftl 1 i))) as [[]|]; [| |done].
  - apply IH.
  - destruct (Qltb (rng (dfs_pos st)) p).
    + destruct (push _ _) as [s' r]. destruct (r =? 1); [done|].
      match goal with |- context [DFS_neighbours rng p k (i + 1) u ?st1] =>
        specialize (IH (i + 1) st1);
        destruct (DFS_neighbours rng p k (i + 1) u st1) end; done.
    + match goal with |- context [DFS_neighbours rng p k (i + 1) u ?st1] =>
        specialize (IH (i + 1) st1);
        destruct (DFS_neighbours rng p k (i + 1) u st1) end; done.
Qed.

Lemma DFS_loop_pyerr rng p N fuel st :
  match DFS_loop rng p N fuel st with
  | Done st' | Fail st' => dfs_pyerr st' = dfs_pyerr st
  | Undef | Fuel => True
  end.
Proof.
  revert st. induction fuel as [|fuel IH]; intros st; simpl; [done|].
  destruct (0 <? stack_top (dfs_stack st)); [|done].
  assert (Hb : match DFS_body rng p N st with
               | Done st' | Fail st' => dfs_pyerr st' = dfs_pyerr st
               | Undef | Fuel => True
               end).
  { unfold DFS_body. destruct (pop _ _) as [[u s'] e']. simpl.
    destruct (e' =? -1); [done|].
    destruct (dfs_visited st !! Z.to_nat u) as [[]|]; [done| |done].
    match goal with |- context [DFS_neighbours rng p ?k 0 u ?st1] =>
      pose proof (DFS_neighbours_pyerr rng p k 0 u st1) as Hn;
      destruct (DFS_neighbours rng p k 0 u st1) end; done. }
  destruct (DFS_body rng p N st) as [st1| | |]; try done.
  specialize (IH st1). destruct (DFS_loop rng p N fuel st1); congruence.
Qed.

Lemma grow_loop_pyerr rng p N cidx fuel st :
  match grow_loop rng p N cidx fuel st with
  | Done st' | Fail st' => g_pyerr st' = g_pyerr st
  | Undef | Fuel => True
  end.
Proof.
  assert (He : ∀ i u st, match grow_edge rng p i u st with
                         | Done st' | Fail st' => g_pyerr st' = g_pyerr st
                         | Undef | Fuel => True
                         end).
  { intros i u s. unfold grow_edge. destruct (64 <=? i); [done|].
    destruct (g_visited s !! _) as [[]|]; [done| |done].
    destruct (negb _); [done|].
    destruct (Qltb _ _); [|done].
    destruct (push _ _) as [s' r]. by destruct (r =? 1). }
  assert (Hn : ∀ k i u st, match grow_neighbours rng p k i u st with
                           | Done st' | Fail st' => g_pyerr st' = g_pyerr st
                           | Undef | Fuel => True
                           end).
  { induction k as [|k IH]; intros i u s; simpl; [done|].
    specialize (He i u s). destruct (grow_edge rng p i u s) as [s1| | |]; try done.
    specialize (IH (i + 1) u s1).
    destruct (grow_neighbours rng p k (i + 1) u s1); congruence. }
  revert st. induction fuel as [|fuel IH]; intros st; simpl; [done|].
  destruct (0 <? stack_top (g_stack st)); [|done].
  assert (Hb : match grow_body rng p N cidx st with
               | Done st' | Fail st' => g_pyerr st' = g_pyerr st
               | Undef | Fuel => True
               end).
  { unfold grow_body. destruct (pop _ _) as [[u s'] e']. simpl.
    destruct (e' =? -1); [done|].
    destruct (g_visited st !! Z.to_nat u) as [[]|]; [done| |done].
    destruct (write_label _ _ _) as [labels'|]; [|done].
    match goal with |- context [grow_neighbours rng p ?k 0 u ?st1] =>
      specialize (Hn k 0 u st1);
      destruct (grow_neighbours rng p k 0 u st1) end; done. }
  destruct (grow_body rng p N cidx st) as [st1| | |]; try done.
  specialize (IH st1). destruct (grow_loop rng p N cidx fuel st1); congruence.
Qed.

(** C8, as the code has it: entered with a stack that is not empty,
    [DFS_hypercube] raises the exception of the guard, sets the error flag to
    [-1] and returns 0, with the stack, the marks and the cursor of the
    random source as they were: no site is popped or marked.
    [grow_H_cluster] raises the same exception and takes its error exit with
    the stack, the marks, the labels, the matrix and the size as they were,
    and leaves [*error_flag] as it was: no statement of [grow_H_cluster]
    assigns it.  Entered with an empty stack, neither function takes this
    branch: the exception of the call, by either exit, is the one it was
    entered with. *)
Theorem guard_on_entry rng p N :
  (∀ s visited seed error pyerr pos,
     stack_top s ≠ 0 →
     DFS_hypercube rng p N s visited seed error pyerr pos
     = Fail (mk_dfs s visited (-1) (Some stack_not_empty) pos 0) ∧
     DFS_result (DFS_hypercube rng p N s visited seed error pyerr pos) = Some 0) ∧
  (∀ st start cidx,
     stack_top (g_stack st) ≠ 0 →
     grow_H_cluster rng p N st start cidx
     = Fail (mk_grow (g_stack st) (g_visited st) (g_matrix st) (g_labels st)
               (g_error_flag st) (Some stack_not_empty) (g_pos st) (g_size st))) ∧
  (∀ s visited seed error pyerr pos,
     stack_top s = 0 →
     match DFS_hypercube rng p N s visited seed error pyerr pos with
     | Done st' | Fail st' => dfs_pyerr st' = pyerr
     | Undef | Fuel => True
     end) ∧
  (∀ st start cidx,
     stack_top (g_stack st) = 0 →
     match grow_H_cluster rng p N st start cidx with
     | Done st' | Fail st' => g_pyerr st' = g_pyerr st
     | Undef | Fuel => True
     end).
Proof.
  split_ands.
  - intros s visited seed error pyerr pos Htop.
    rewrite DFS_hypercube_guard by done. done.
  - intros st start cidx Htop. by apply grow_H_cluster_guard.
  - intros s visited seed error pyerr pos Htop.
    rewrite DFS_hypercube_unfold by done. cbv zeta.
    match goal with |- context [DFS_loop rng p N ?f ?st1] =>
      pose proof (DFS_loop_pyerr rng p N f st1) as Hl;
      destruct (DFS_loop rng p N f st1) end; done.
  - intros st start cidx Htop.
    rewrite grow_H_cluster_unfold by done. cbv zeta.
    match goal with |- context [grow_loop rng p N cidx ?f ?st1] =>
      pose proof (grow_loop_pyerr rng p N cidx f st1) as Hl;
      destruct (grow_loop rng p N cidx f st1) end; done.
Qed.

(** One site on the stack on entry, and an empty stack. *)
Lemma guard_on_entry_witness :
  DFS_hypercube (always 0) 1 2 one_on_stack (reset_visited [] 4) 0 0 None 0
  = Fail (mk_dfs one_on_stack (reset_visited [] 4) (-1) (Some stack_not_empty) 0 0) ∧
  match DFS_hypercube (always 0) 1 2 (setup_stack 4) (reset_visited [] 4) 0 0 None 0 with
  | Done st' | Fail st' => dfs_pyerr st' = None
  | Undef | Fuel => True
  end.
Proof.
  destruct (guard_on_entry (always 0) 1 2) as (H1 & _ & H3 & _).
  split.
  - apply (H1 one_on_stack (reset_visited [] 4) 0 0 None 0%nat). simpl. lia.
  - apply (H3 (setup_stack 4) (reset_visited [] 4) 0 0 None 0%nat). reflexivity.
Defined.

(** [grow_H_cluster] entered with one site on the stack and the error flag
    at 0: the call takes the error exit of the guard, with the exception
    set, and the error flag is still 0. *)
Lemma grow_H_cluster_guard_keeps_flag :
  stack_top one_on_stack = 1 ∧
  ∃ st',
    grow_H_cluster (always 0) 1 2
      (mk_grow one_on_stack (reset_visited [] 4) (PyArray_ZEROS 4 4)
         (Some (replicate 4 ULONG_MAX)) 0 None 0 0) 0 0
    = Fail st' ∧
    g_pyerr st' = Some stack_not_empty ∧
    g_error_flag st' = 0 ∧ g_error_flag st' ≠ -1.
Proof.
  split; [reflexivity|]. eexists. split; [reflexivity|]. simpl. split_ands; done.
Qed.

(** ** The capacity the traversals need *)





(** ** The whole graph at [p = 1] *)




(** ** The cluster of [hypercube_dijkstra] *)

(** The rule of [dijkstra_loop_rule] with the links retained so far: [P]
    and [R] also speak of the list of these links, which each pass over a
    bit extends by [dijkstra_edge_links]. *)
Lemma dijkstra_links_loop_rule rng p N cidx st0
    (P : dij_state → list (Z * Z) → Prop)
    (R : Z → Z → Z → dij_state → list (Z * Z) → Prop) :
  0 <= N < 64 →
  (∀ st L u du st2,
     dij_inv (2 ^ N) cidx st0 st → (∃ d, dij_level st d) → P st L →
     0 <= u < 2 ^ N → dij_mark_step u du st st2 →
     dij_inv (2 ^ N) cidx st0 st2 → dij_level st2 du → R u du 0 st2 L) →
  (∀ u du i st st1 L,
     0 <= i < N → 0 <= u < 2 ^ N →
     dij_inv (2 ^ N) cidx st0 st → dij_level st du →
     dj_visited st !! Z.to_nat u = Some true →
     dj_distances st !! Z.to_nat u = Some du → 0 <= du < ULONG_MAX →
     R u du i st L → dij_edge_step rng p u du i st st1 →
     R u du (i + 1) st1 (L ++ dijkstra_edge_links rng p i u st)) →
  (∀ u du st L, dij_inv (2 ^ N) cidx st0 st → R u du N st L → P st L) →
  ∀ fuel st st' L,
    dij_inv (2 ^ N) cidx st0 st → (∃ d, dij_level st d) → P st L →
    dijkstra_loop rng p N cidx fuel st = Done st' →
    P st' (L ++ dijkstra_loop_links rng p N cidx fuel st).
Proof.
  intros HN Hmark Hedge Hend.
  assert (Hnb : ∀ u du k i st st1 L,
            0 <= i → i + Z.of_nat k <= N → 0 <= u < 2 ^ N →
            dij_inv (2 ^ N) cidx st0 st → dij_level st du →
            dj_visited st !! Z.to_nat u = Some true →
            dj_distances st !! Z.to_nat u = Some du → 0 <= du < ULONG_MAX →
            R u du i st L →
            dijkstra_neighbours rng p k i u st = Done st1 →
            R u du (i + Z.of_nat k) st1
              (L ++ dijkstra_neighbours_links rng p k i u st) ∧
            dij_inv (2 ^ N) cidx st0 st1 ∧ ∃ d, dij_level st1 d).
  { intros u du. induction k as [|k IH];
      intros i st st1 L Hi Hk Hu Hinv Hlev Hvu Hdu Hdur HR; simpl.
    { intros [= <-]. rewrite Z.add_0_r, app_nil_r. split_ands; try done. by exists du. }
    pose proof (dijkstra_edge_spec rng p N cidx st0 u du i st HN ltac:(lia) Hu Hinv Hlev
                  Hvu Hdu Hdur) as He.
    destruct (dijkstra_edge rng p i u st) as [st2| | |] eqn:Hed; try done.
    destruct He as (Hinv2 & Hlev2 & Hv2 & Hdu2).
    intros Hn.
    replace (i + Z.of_nat (S k)) with (i + 1 + Z.of_nat k) by lia.
    rewrite app_assoc.
    apply (IH (i + 1) st2); try done; try lia.
    - congruence.
    - assert (Hi' : 0 <= i < N) by lia.
      apply (Hedge u du i st st2 L Hi' Hu Hinv Hlev Hvu Hdu Hdur HR).
      exact (dijkstra_edge_step rng p N cidx st0 u du i st st2 HN Hi' Hu Hinv Hlev Hvu
               Hdu Hdur Hed). }
  induction fuel as [|fuel IH]; intros st st' L Hinv Hlev HP; simpl; [done|].
  destruct (empty (dj_queue st)) eqn:Hemp; simpl.
  { intros [= <-]. by rewrite app_nil_r. }
  destruct (dijkstra_body rng p N cidx st) as [st1| | |] eqn:Hb; try done.
  destruct (dijkstra_body_links_step _ _ _ _ _ _ _ HN Hinv Hlev Hemp Hb)
    as (u & du & st2 & Hu & Hms & Hinv2 & Hlev2 & Hn & Hlinks).
  pose proof Hms as (_ & _ & Hdu & Hdur & Hv2 & Hd2 & _).
  assert (Hvu2 : dj_visited st2 !! Z.to_nat u = Some true).
  { rewrite Hv2. apply list_lookup_insert_eq.
    destruct Hms as (_ & Hvu & _). by eapply lookup_lt_Some. }
  assert (Hdu2 : dj_distances st2 !! Z.to_nat u = Some du) by (by rewrite Hd2).
  assert (HR0 : R u du 0 st2 L)
    by exact (Hmark st L u du st2 Hinv Hlev HP Hu Hms Hinv2 Hlev2).
  destruct (Hnb u du (Z.to_nat N) 0 st2 st1 L ltac:(lia) ltac:(lia) Hu Hinv2 Hlev2 Hvu2
              Hdu2 Hdur HR0 Hn) as (HR & Hinv1 & Hlev1).
  intros Hl. rewrite Hlinks, app_assoc.
  apply IH; try done. eapply Hend; [exact Hinv1|].
  replace N with (0 + Z.of_nat (Z.to_nat N)) at 1 by lia. exact HR.
Qed.

Lemma dij_links_mark N cidx st0 start st L u du st2 :
  dij_inv (2 ^ N) cidx st0 st → dij_links_inv N st0 start st L →
  0 <= u < 2 ^ N → dij_mark_step u du st st2 →
  dij_links_scan N st0 start u du st2 L.
Proof.
  intros Hinv (H1 & H2 & H3) Hu (Hq & Hvu & Hdu & Hdur & Hv2 & Hd2 & Hn2).
  assert (Huq : u ∈ qlist (dj_queue st)) by (rewrite Hq; by left).
  assert (Hu2 : dj_visited st2 !! Z.to_nat u = Some true).
  { rewrite Hv2. apply list_lookup_insert_eq. by eapply lookup_lt_Some. }
  unfold dij_links_scan, dij_links_inv. split_ands.
  - intros a b Hab. destruct (H1 a b Hab) as (Ha & Hadj & Hva & Hb).
    refine (conj Ha (conj Hadj (conj _ _))).
    + rewrite Hv2. by apply insert_true_keeps.
    + destruct Hb as [Hb|Hb].
      * left. rewrite Hv2. by apply insert_true_keeps.
      * rewrite Hq in Hb. apply elem_of_cons in Hb as [->|Hb]; [by left|by right].
  - intros x [Hx|(Hx0 & Hx1 & Hx2)].
    + apply H2. left. rewrite Hq. by right.
    + destruct (decide (Z.to_nat x = Z.to_nat u)) as [E|Hne].
      * assert (x = u) by lia. subst x. apply H2. by left.
      * rewrite Hv2, list_lookup_insert_ne in Hx2 by done.
        apply H2. right. done.
  - intros x d Hx Hd. rewrite Hd2 in Hd.
    assert (d <= dj_number_visited st); [|lia].
    apply (H3 x d); [|done]. rewrite Hq. by right.
  - specialize (H3 u du Huq Hdu). lia.
  - apply H2. by left.
Qed.

Lemma dij_links_edge rng p N cidx st0 start u du i st st1 L :
  0 <= N < 64 → 0 <= i < N → 0 <= u < 2 ^ N →
  dij_inv (2 ^ N) cidx st0 st →
  dj_visited st !! Z.to_nat u = Some true →
  dij_links_scan N st0 start u du st L → dij_edge_step rng p u du i st st1 →
  dij_links_scan N st0 start u du st1 (L ++ dijkstra_edge_links rng p i u st).
Proof.
  intros HN Hi Hu Hinv Hvu ((H1 & H2 & H3) & Hdn & Hpu) Hstep.
  pose proof Hinv as (Hwf & Hmono & Hnv & Hcnt & Hlab1 & Hlab2 & Hfr & Hnd & Hunv & Hinf & Hfin & Herr).
  pose proof Hwf as (Hq & Hcap & Hlv & Hld & Hll & Hrange).
  pose proof (pow2_le_modulus N HN) as [Hp0 Hp1]. pose proof ULONG_MAX_eq as HU.
  pose proof (marked_le (dj_visited st)) as Hmle.
  unfold dij_edge_step in Hstep. cbv zeta in Hstep.
  unfold dijkstra_edge_links. destruct (Z.leb_spec 64 i); [lia|]. cbv zeta.
  set (v := Z.lxor u (Z.shiftl 1 i)) in *.
  assert (Hvr : 0 <= v < 2 ^ N) by (apply lxor_bit_range; lia).
  assert (Hadj : adjacent N u v) by (by exists i).
  destruct Hstep as (Hv1 & Hn1 & [(Hd1 & Hq1 & Hwhy)|(Hdraw & Hvv & Hvq & Hold & Hd1 & Hq1)]).
  - (* the state of the queue and of the distances stays *)
    assert (Hmono' : ∀ a b, (a, b) ∈ L →
              (a, b) ∈ L ++ match dj_visited st !! Z.to_nat v with
                            | Some false =>
                                if Qltb (rng (dj_pos st)) p then [(u, v)] else []
                            | _ => []
                            end).
    { intros a b Hab. apply elem_of_app. by left. }
    unfold dij_links_scan, dij_links_inv. split_ands.
    + intros a b Hab. rewrite Hv1, Hq1. apply elem_of_app in Hab as [Hab|Hab].
      { by apply H1. }
      destruct (dj_visited st !! Z.to_nat v) as [[]|] eqn:Hvv;
        try (by apply elem_of_nil in Hab).
      destruct (Qltb (rng (dj_pos st)) p) eqn:Hdraw;
        try (by apply elem_of_nil in Hab).
      apply list_elem_of_singleton in Hab. injection Hab as -> ->.
      refine (conj Hu (conj Hadj (conj Hvu _))). right.
      destruct Hwhy as [Hw|[Hw|(old & Hold & Hle)]]; try congruence.
      destruct (decide (v ∈ qlist (dj_queue st))) as [Hin|Hnin]; [done|].
      specialize (Hinf v Hvr Hvv Hnin). rewrite Hold in Hinf.
      injection Hinf as ->. lia.
    + intros x Hx. rewrite Hv1, Hq1 in Hx.
      eapply epath_mono; [|by apply H2]. intros a b. apply Hmono'.
    + intros x d Hx Hd. rewrite Hq1 in Hx. rewrite Hd1 in Hd. rewrite Hn1.
      by apply (H3 x d).
    + by rewrite Hn1.
    + eapply epath_mono; [|exact Hpu]. intros a b. apply Hmono'.
  - (* the neighbour joins the queue *)
    rewrite Hvv, Hdraw.
    assert (Hmono' : ∀ a b, (a, b) ∈ L → (a, b) ∈ L ++ [(u, v)]).
    { intros a b Hab. apply elem_of_app. by left. }
    assert (Huv : (u, v) ∈ L ++ [(u, v)]).
    { apply elem_of_app. right. by apply list_elem_of_singleton. }
    unfold dij_links_scan, dij_links_inv. split_ands.
    + intros a b Hab. rewrite Hv1, Hq1. apply elem_of_app in Hab as [Hab|Hab].
      * destruct (H1 a b Hab) as (Ha & Hab' & Hva & Hb).
        refine (conj Ha (conj Hab' (conj Hva _))).
        destruct Hb as [Hb|Hb]; [by left|]. right. apply elem_of_app. by left.
      * apply list_elem_of_singleton in Hab. injection Hab as -> ->.
        refine (conj Hu (conj Hadj (conj Hvu _))). right. apply elem_of_app. right.
        by apply list_elem_of_singleton.
    + intros x Hx. rewrite Hv1, Hq1 in Hx.
      destruct Hx as [Hx|Hx].
      * apply elem_of_app in Hx as [Hx|Hx].
        -- eapply epath_mono; [|apply H2; by left]. intros a b. apply Hmono'.
        -- apply list_elem_of_singleton in Hx as ->.
           eapply epath_step; [|exact Huv].
           eapply epath_mono; [|exact Hpu]. intros a b. apply Hmono'.
      * eapply epath_mono; [|apply H2; by right]. intros a b. apply Hmono'.
    + intros x d Hx Hd. rewrite Hq1 in Hx. rewrite Hd1 in Hd. rewrite Hn1.
      apply elem_of_app in Hx as [Hx|Hx].
      * assert (Hxr : 0 <= x < 2 ^ N).
        { unfold sites_in_range in Hrange. rewrite Forall_forall in Hrange.
          by apply Hrange. }
        assert (Hne : Z.to_nat v ≠ Z.to_nat x).
        { intros E. assert (v = x) by lia. subst x. done. }
        rewrite list_lookup_insert_ne in Hd by done. by apply (H3 x d).
      * apply list_elem_of_singleton in Hx as ->.
        rewrite list_lookup_insert_eq in Hd by (by eapply lookup_lt_Some).
        injection Hd as <-. lia.
    + by rewrite Hn1.
    + eapply epath_mono; [|exact Hpu]. intros a b. apply Hmono'.
Qed.

(** The links that [dijkstra] retains and the sites it marks: when the run
    ends, both sites of every retained link are marked, and every site
    marked by the run is reached from the start along retained links. *)
Lemma dijkstra_links_spec rng p N cidx st start st' :
  0 <= N < 64 → dij_wf (2 ^ N) st → qlist (dj_queue st) = [] →
  0 <= start < 2 ^ N →
  dj_visited st !! Z.to_nat start = Some false →
  dj_distances st !! Z.to_nat start = Some 0 →
  (∀ x, 0 <= x < 2 ^ N → x ≠ start → dj_visited st !! Z.to_nat x = Some false →
        dj_distances st !! Z.to_nat x = Some ULONG_MAX) →
  dj_number_visited st = 0 →
  dijkstra rng p N st start cidx = Done st' →
  dij_links_inv N st start st' (dijkstra_links rng p N st start cidx).
Proof.
  intros HN Hwf Hnil Hstart Hvs Hds Hinf Hnv.
  unfold dijkstra, dijkstra_links.
  pose proof Hwf as (Hq & Hcap & Hlv & Hld & Hll & Hrange).
  pose proof (pow2_le_modulus N HN) as [Hp0 Hp1]. pose proof ULONG_MAX_eq.
  assert (Hcount : queue_writeIdx (dj_queue st) - queue_readIdx (dj_queue st)
                   < queue_length (dj_queue st)).
  { rewrite <- qlist_length by done. rewrite Hnil. simpl. lia. }
  destruct (enqueue_ok (dj_queue st) start 0 Hq Hcount) as (q1 & Hen & Hq1 & Hcap1 & Hql).
  rewrite Hen. rewrite Hnil in Hql. simpl in Hql.
  set (st1 := mk_dij q1 (dj_visited st) (dj_distances st) (dj_number_visited st)
                (dj_labels st) 0 (dj_pos st)).
  assert (Hinv1 : dij_inv (2 ^ N) cidx st st1).
  { unfold dij_inv, dij_wf, st1. simpl. rewrite Hql.
    split_ands; try done; try lia; try (intros; congruence).
    - by apply Forall_singleton.
    - apply NoDup_singleton.
    - intros x Hx. by apply list_elem_of_singleton in Hx as ->.
    - intros x Hx Hxv Hxn. apply Hinf; try done. intros ->. apply Hxn.
      by apply list_elem_of_singleton.
    - intros x Hx. apply list_elem_of_singleton in Hx as ->. exists 0. split; [done|lia]. }
  assert (Hlev1 : ∃ d, dij_level st1 d).
  { exists 0, [start], []. unfold st1. simpl. rewrite Hql.
    split_ands; try done. by apply Forall_singleton. }
  intros Hl.
  change (dijkstra_loop_links rng p N cidx (dijkstra_fuel st1) st1)
    with ([] ++ dijkstra_loop_links rng p N cidx (dijkstra_fuel st1) st1).
  refine (dijkstra_links_loop_rule rng p N cidx st (dij_links_inv N st start)
            (λ u du _, dij_links_scan N st start u du) HN _ _ _
            (dijkstra_fuel st1) st1 st' [] Hinv1 Hlev1 _ Hl).
  - intros s L u du s2 Hinv _ HP Hu Hms _ _.
    by apply (dij_links_mark N cidx st start s L u du s2).
  - intros u du i s s1 L Hi Hu Hinv _ Hvu _ _ HR Hstep.
    by apply (dij_links_edge rng p N cidx st start u du i s s1 L).
  - intros u du s L _ HR. apply HR.
  - unfold dij_links_inv, st1. simpl. rewrite Hql. split_ands.
    + intros a b Hab. by apply elem_of_nil in Hab.
    + intros x [Hx|(_ & Hx1 & Hx2)].
      * apply list_elem_of_singleton in Hx as ->. constructor.
      * congruence.
    + intros x d Hx Hd. apply list_elem_of_singleton in Hx as ->.
      assert (d = 0) by congruence. lia.
Qed.

Lemma marked_sites_length (i : Z) (v : list bool) :
  base.length (marked_sites i v) = marked v.
Proof.
  revert i. induction v as [|b v IH]; intros i; simpl; [done|].
  rewrite length_app, IH. by destruct b.
Qed.

Lemma marked_sites_elem (i x : Z) (v : list bool) :
  x ∈ marked_sites i v ↔ i <= x ∧ v !! Z.to_nat (x - i) = Some true.
Proof.
  revert i. induction v as [|b v IH]; intros i; simpl.
  { split; [intros H; by apply elem_of_nil in H|by intros [_ ?]]. }
  rewrite elem_of_app, IH. split.
  - intros [Hx|[Hle Hx]].
    + destruct b; [|by apply elem_of_nil in Hx].
      apply list_elem_of_singleton in Hx as ->. split; [lia|].
      by replace (Z.to_nat (i - i)) with 0%nat by lia.
    + split; [lia|].
      replace (Z.to_nat (x - i)) with (S (Z.to_nat (x - (i + 1)))) by lia. done.
  - intros [Hle Hx]. destruct (decide (x = i)) as [->|Hne].
    + left. replace (Z.to_nat (i - i)) with 0%nat in Hx by lia. simpl in Hx.
      injection Hx as ->. by apply list_elem_of_singleton.
    + right. split; [lia|].
      replace (Z.to_nat (x - i)) with (S (Z.to_nat (x - (i + 1)))) in Hx by lia. done.
Qed.

Lemma marked_sites_NoDup (i : Z) (v : list bool) : NoDup (marked_sites i v).
Proof.
  revert i. induction v as [|b v IH]; intros i; simpl; [apply NoDup_nil_2|].
  destruct b; simpl; [|apply IH].
  apply NoDup_cons. split; [|apply IH].
  rewrite marked_sites_elem. lia.
Qed.

Lemma accepted_add rng p n m a :
  accepted rng p (n + m) a = (accepted rng p n a + accepted rng p m (a + n))%nat.
Proof.
  revert a. induction n as [|n IH]; intros a; simpl.
  { by rewrite Nat.add_0_r. }
  rewrite IH. replace (S a + n)%nat with (a + S n)%nat by lia. lia.
Qed.

Lemma one_link_a_draw_seq rng p st r1 L1 (f : dij_state → run dij_state)
    (g : dij_state → list (Z * Z)) :
  one_link_a_draw rng p st r1 L1 →
  (∀ st1, r1 = Done st1 → one_link_a_draw rng p st1 (f st1) (g st1)) →
  one_link_a_draw rng p st
    (match r1 with
     | Done st1 => f st1
     | Fail s => Fail s
     | Undef => Undef
     | Fuel => Fuel
     end)
    (L1 ++ match r1 with Done st1 => g st1 | _ => [] end).
Proof.
  intros H1 H2 st2 Hr. destruct r1 as [st1| | |]; try done.
  destruct (H1 st1 eq_refl) as (n & Hn & Hl1).
  destruct (H2 st1 eq_refl st2 Hr) as (m & Hm & Hl2).
  exists (n + m)%nat. split; [lia|].
  rewrite length_app, accepted_add, Hl1, Hl2, Hn. done.
Qed.

Lemma dijkstra_edge_draws rng p i u st :
  one_link_a_draw rng p st (dijkstra_edge rng p i u st)
    (dijkstra_edge_links rng p i u st).
Proof.
  intros st1. unfold dijkstra_edge, dijkstra_edge_links.
  destruct (64 <=? i); [done|]. cbv zeta.
  destruct (dj_visited st !! Z.to_nat (Z.lxor u (Z.shiftl 1 i))) as [[]|]; [| |done].
  { intros [= <-]. exists 0%nat. split; [lia|done]. }
  cbn [dj_pos dj_distances dj_queue dj_err dj_visited dj_number_visited dj_labels].
  destruct (Qltb (rng (dj_pos st)) p) eqn:Hdraw.
  - destruct (dj_distances st !! Z.to_nat (Z.lxor u (Z.shiftl 1 i))); [|done].
    destruct (dj_distances st !! Z.to_nat u); [|done].
    assert (Hone : ∀ s : dij_state, dj_pos s = S (dj_pos st) →
              ∃ n, dj_pos s = (dj_pos st + n)%nat ∧
                   base.length [(u, Z.lxor u (Z.shiftl 1 i))]
                   = accepted rng p n (dj_pos st)).
    { intros s Hs. exists 1%nat. split; [lia|]. simpl. by rewrite Hdraw. }
    destruct (_ <? _).
    + destruct (enqueue _ _ _) as [q' err']. destruct (negb _); [done|].
      intros [= <-]. by apply Hone.
    + intros [= <-]. by apply Hone.
  - intros [= <-]. exists 1%nat. split; [simpl; lia|]. simpl. by rewrite Hdraw.
Qed.

Lemma dijkstra_neighbours_draws rng p k i u st :
  one_link_a_draw rng p st (dijkstra_neighbours rng p k i u st)
    (dijkstra_neighbours_links rng p k i u st).
Proof.
  revert i st. induction k as [|k IH]; intros i st; simpl.
  { intros st1 [= <-]. exists 0%nat. split; [lia|done]. }
  apply (one_link_a_draw_seq rng p st (dijkstra_edge rng p i u st) _
           (λ s, dijkstra_neighbours rng p k (i + 1) u s)
           (λ s, dijkstra_neighbours_links rng p k (i + 1) u s)).
  - apply dijkstra_edge_draws.
  - intros st1 _. apply IH.
Qed.

Lemma dijkstra_body_draws rng p N cidx st :
  one_link_a_draw rng p st (dijkstra_body rng p N cidx st)
    (dijkstra_body_links rng p N cidx st).
Proof.
  unfold dijkstra_body, dijkstra_body_links.
  destruct (dequeue _ _) as [[u q'] err'].
  cbn [dj_pos dj_distances dj_queue dj_err dj_visited dj_number_visited dj_labels].
  destruct (negb (err' =? 0)); [done|].
  destruct (dj_distances st !! Z.to_nat u); [|done].
  destruct (negb _); [done|].
  destruct (write_label _ _ _) as [labels'|]; [|done].
  match goal with |- context [dijkstra_neighbours rng p ?k 0 u ?st2] =>
    exact (dijkstra_neighbours_draws rng p k 0 u st2) end.
Qed.

Lemma dijkstra_loop_draws rng p N cidx fuel st :
  one_link_a_draw rng p st (dijkstra_loop rng p N cidx fuel st)
    (dijkstra_loop_links rng p N cidx fuel st).
Proof.
  revert st. induction fuel as [|fuel IH]; intros st; simpl; [done|].
  destruct (negb (empty (dj_queue st))).
  - apply (one_link_a_draw_seq rng p st (dijkstra_body rng p N cidx st) _
             (λ s, dijkstra_loop rng p N cidx fuel s)
             (λ s, dijkstra_loop_links rng p N cidx fuel s)).
    + apply dijkstra_body_draws.
    + intros st1 _. apply IH.
  - intros st1 [= <-]. exists 0%nat. split; [lia|done].
Qed.

(** [dijkstra] retains one link for every variate below [p] that it
    draws. *)
Lemma dijkstra_draws rng p N st start cidx :
  one_link_a_draw rng p st (dijkstra rng p N st start cidx)
    (dijkstra_links rng p N st start cidx).
Proof.
  unfold dijkstra, dijkstra_links. destruct (enqueue _ _ _) as [q1 err1].
  match goal with |- context [dijkstra_loop rng p N cidx ?f ?st1] =>
    exact (dijkstra_loop_draws rng p N cidx f st1) end.
Qed.

(** When [hypercube_dijkstra_run] returns, the marked sites are the
    percolation cluster of site 0 for the links the run has retained. *)
Lemma hypercube_dijkstra_run_cluster rng p N st :
  0 <= N < 64 → hypercube_dijkstra_run rng p N = Done st →
  (∀ u v, (u, v) ∈ dijkstra_links rng p N (dijkstra_start N) 0 0 →
          0 <= u < 2 ^ N ∧ adjacent N u v) ∧
  (∀ x, 0 <= x →
        (dj_visited st !! Z.to_nat x = Some true ↔
         percolation_cluster (dijkstra_links rng p N (dijkstra_start N) 0 0) 0 x)).
Proof.
  intros HN Hrun.
  pose proof (pow2_le_modulus N HN) as [Hp0 Hp1].
  pose proof (dijkstra_start_spec rng p N HN) as Hspec. rewrite Hrun in Hspec.
  destruct Hspec as (Hinv & Hnil & Hv0).
  destruct (dijkstra_start_entry N HN) as (Hwf & Hqnil & Hs0 & Hd0 & Hinf & Hnone).
  pose proof (dijkstra_links_spec rng p N 0 (dijkstra_start N) 0 st HN Hwf Hqnil
                ltac:(lia) Hs0 Hd0 Hinf eq_refl Hrun) as (H1 & H2 & _).
  set (L := dijkstra_links rng p N (dijkstra_start N) 0 0) in *.
  rewrite Hnil in H1, H2.
  pose proof Hinv as ((_ & _ & Hlv & _) & _).
  destruct Hwf as (_ & _ & Hlv0 & _).
  split.
  { intros u v Huv. destruct (H1 u v Huv) as (Hu & Hadj & _). done. }
  assert (Hends : ∀ a b, (a, b) ∈ L →
            (0 <= a ∧ dj_visited st !! Z.to_nat a = Some true) ∧
            (0 <= b ∧ dj_visited st !! Z.to_nat b = Some true)).
  { intros a b Hab. destruct (H1 a b Hab) as (Ha & (i & Hi & ->) & Hva & Hb).
    split; [split; [lia|done]|].
    split; [apply (lxor_bit_range N a i); lia|].
    destruct Hb as [Hb|Hb]; [done|]. by apply elem_of_nil in Hb. }
  intros x Hx. split.
  - intros Hvx.
    assert (Hlt : (Z.to_nat x < Z.to_nat (2 ^ N))%nat).
    { rewrite <- Hlv. by eapply lookup_lt_Some. }
    assert (Hx0 : dj_visited (dijkstra_start N) !! Z.to_nat x = Some false).
    { destruct (dj_visited (dijkstra_start N) !! Z.to_nat x) as [[]|] eqn:E.
      - by apply Hnone in E.
      - done.
      - apply lookup_ge_None in E. lia. }
    eapply epath_mono; [|apply H2; right; by split_ands].
    intros a b Hab. by left.
  - intros Hpath.
    assert (Hboth : 0 <= x ∧ dj_visited st !! Z.to_nat x = Some true); [|apply Hboth].
    clear Hx. induction Hpath as [|a b _ IH [Hab|Hab]].
    + split; [lia|done].
    + apply (Hends a b Hab).
    + apply (Hends b a Hab).
Qed.

(** C2: the array returned by [hypercube_dijkstra] has as many entries as
    there are sites in the percolation cluster of site 0, for all arguments
    that [check_args] accepts.  The links of the cluster are those for which
    the run has drawn a variate below [p], each a link of the hypercube and
    one for every such variate; a site is marked when the queue empties
    exactly when a walk along such links joins it to site 0.  The counter [number_visited], the number of
    marked sites, the number of sites of the cluster and the length of the
    array are one number. *)
Theorem hypercube_dijkstra_length_is_cluster_size rng p N :
  check_args N 1 p = true →
  ∃ st out sites,
    hypercube_dijkstra_run rng p N = Done st ∧
    qlist (dj_queue st) = [] ∧
    hypercube_dijkstra rng p N = Done (Some out) ∧
    (∀ u v, (u, v) ∈ dijkstra_links rng p N (dijkstra_start N) 0 0 →
            0 <= u < 2 ^ N ∧ adjacent N u v) ∧
    base.length (dijkstra_links rng p N (dijkstra_start N) 0 0)
    = accepted rng p (dj_pos st) 0 ∧
    (∀ x, 0 <= x →
          (dj_visited st !! Z.to_nat x = Some true ↔
           percolation_cluster (dijkstra_links rng p N (dijkstra_start N) 0 0) 0 x)) ∧
    NoDup sites ∧
    (∀ x, x ∈ sites ↔
          percolation_cluster (dijkstra_links rng p N (dijkstra_start N) 0 0) 0 x) ∧
    dj_number_visited st = Z.of_nat (base.length sites) ∧
    marked (dj_visited st) = base.length sites ∧
    base.length out = base.length sites.
Proof.
  intros Hargs. pose proof (check_args_range _ _ _ Hargs) as HN.
  destruct (hypercube_dijkstra_counts rng p N Hargs)
    as (st & out & Hrun & Hnil & Hv0 & Hnv & Hout & Hlen).
  destruct (hypercube_dijkstra_run_cluster rng p N st HN Hrun) as [Hlinks Hiff].
  exists st, out, (marked_sites 0 (dj_visited st)).
  rewrite marked_sites_length.
  split_ands; try done.
  - destruct (dijkstra_draws rng p N (dijkstra_start N) 0 0 st Hrun) as (n & Hn & Hl).
    rewrite Hl, Hn. done.
  - apply marked_sites_NoDup.
  - intros x. rewrite marked_sites_elem, Z.sub_0_r. split.
    + intros [Hx Hvx]. by apply Hiff.
    + intros Hpath.
      assert (Hx : 0 <= x).
      { destruct Hpath as [|a b _ [Hab|Hab]]; [lia| |].
        - destruct (Hlinks a b Hab) as (Ha & i & Hi & ->).
          apply (lxor_bit_range N a i); lia.
        - destruct (Hlinks b a Hab) as (Hb & _). lia. }
      split; [done|]. by apply Hiff.
Qed.

Lemma hypercube_dijkstra_length_is_cluster_size_witness :
  ∃ st out sites,
    hypercube_dijkstra_run alternating (1 # 2) 3 = Done st ∧
    qlist (dj_queue st) = [] ∧
    hypercube_dijkstra alternating (1 # 2) 3 = Done (Some out) ∧
    (∀ u v, (u, v) ∈ dijkstra_links alternating (1 # 2) 3 (dijkstra_start 3) 0 0 →
            0 <= u < 2 ^ 3 ∧ adjacent 3 u v) ∧
    base.length (dijkstra_links alternating (1 # 2) 3 (dijkstra_start 3) 0 0)
    = accepted alternating (1 # 2) (dj_pos st) 0 ∧
    (∀ x, 0 <= x →
          (dj_visited st !! Z.to_nat x = Some true ↔
           percolation_cluster
             (dijkstra_links alternating (1 # 2) 3 (dijkstra_start 3) 0 0) 0 x)) ∧
    NoDup sites ∧
    (∀ x, x ∈ sites ↔
          percolation_cluster
            (dijkstra_links alternating (1 # 2) 3 (dijkstra_start 3) 0 0) 0 x) ∧
    dj_number_visited st = Z.of_nat (base.length sites) ∧
    marked (dj_visited st) = base.length sites ∧
    base.length out = base.length sites.
Proof.
  apply (hypercube_dijkstra_length_is_cluster_size alternating (1 # 2) 3). reflexivity.
Defined.
